(* ===== verification/_CoqProject ===== *)
-Q . S2P
Prelude.v
CppLib.v
Parser.v
ParserLemmas.v
ParserSpec.v
ParserFacts.v
Response.v
FileSystem.v
StaticFileHandler.v
StaticFacts.v
FsTree.v
Router.v
Fd.v
Connection.v
KeepAliveFacts.v
ConnectionSpec.v
ConnectionStep.v
ConnectionFacts.v
ConnectionDeadlines.v
ConnectionExample.v
ReplyFacts.v
ConnectionLifetime.v
ConnectionTypes.v
BoundedQueue.v
WorkerPool.v
WorkerPoolFacts.v
WorkerPoolExample.v
PoolStart.v
Listener.v
Server.v
ServerFacts.v
ServerLiveness.v
Main.v
Program.v
ProgramFacts.v
Launch.v
EndToEnd.v
CMem.v
CgiUtil.v
CgiUtilFacts.v
Shell.v
CgiForms.v
CgiFormsFacts.v
CgiPhf.v
CgiPasswd.v
CgiPasswdFacts.v
CgiOrder.v
CgiOrderFacts.v
Daytime.v
Hello.v
Double.v
DoubleArith.v
Imagemap.v
ImagemapFacts.v
ImagemapExact.v
ImagemapLines.v
Myhttpd.v
MyhttpdFacts.v
MyhttpdPage.v
MyhttpdServe.v
MyhttpdStats.v
MyhttpdRace.v
MyhttpdExample.v
MyhttpdMain.v
MyhttpdMainFacts.v
