(* ===== verification/Prelude.v ===== *)
(** * A verification of the HTTP/1.1 static file server

    The program is a concurrent HTTP/1.1 server for static files in C++20. One thread
    accepts connections and puts their descriptors into a bounded queue; a fixed number of
    workers take them out and serve each to its end with a connection state machine, which
    reads bytes, feeds an incremental parser, routes each request to the static file
    handler, serializes the response and writes it, under absolute deadlines, keeping the
    connection for further requests. The repository also keeps, under [legacy], the server
    it started from and the CGI programs that came with it. This library translates that
    code into definitions and proves what makes each part correct.

    ** The parts, their sources and their files

    - The C++ library functions the code computes with ([tolower], [isalnum],
      [from_chars], decimal output, 64-bit unsigned arithmetic): [CppLib].
    - The parser, [src/parser.cpp]: [Parser] has every function, with [next] returning the
      result and the parser left. [ParserLemmas] and [ParserSpec] relate its index loops
      to reference definitions and say which requests are well formed; [ParserFacts] has
      the properties.
    - The response and its serializer, [src/response.cpp]: [Response]. The iteration order
      of the header table, an [unordered_map], is a parameter ([MapOrder]).
    - The file system, which is not part of the program: the class [FileSystem] of the file
      of that name has the queries of [std::filesystem] and [std::ifstream] that the
      handler makes, and the syntax of paths. [FsTree] implements it by a tree with
      directories, links and permissions.
    - The static file handler, [src/static_file_handler.cpp]: [StaticFileHandler];
      properties for every file system in [StaticFacts], and for trees with symbolic
      links in [FsTree].
    - The router, [src/router.cpp]: [Router].
    - Descriptor ownership, [src/fd.cpp]: [Fd], a store of objects.
    - The connection, [src/connection.cpp]: [Connection] has the object as a record and its
      member functions in a state monad; the kernel is the class [Kernel], whose answers
      depend on the history of system calls. [ConnectionStep] turns one iteration of
      [serve] into a step relation by a weakest-precondition calculus, [ConnectionSpec]
      is the abstract specification (a conversation and its script), [ConnectionFacts]
      proves the refinement, [ConnectionDeadlines] the deadlines, termination and memory,
      [KeepAliveFacts] the [Connection] field of requests, [ReplyFacts] that of responses and
      what the connection then does,
      [ConnectionTypes] the invariant of the class, [ConnectionLifetime] the time a
      connection can last; [ConnectionExample] runs a session.
    - The bounded queue, [include/http/bounded_queue.hpp]: [BoundedQueue], first the
      critical sections as functions, then the monitor with its condition variables as a
      step relation over any number of threads.
    - The worker pool, [src/worker_pool.cpp]: [WorkerPool], a transition system over the
      queue, the workers and the atomic counters; [WorkerPoolFacts], [WorkerPoolExample];
      [PoolStart] is the constructor, in which starting a thread may fail.
    - The listener, [src/tcp_listener.cpp]: [Listener], with the address structure, the error
      messages and the descriptors.
    - The server and the signal handler, [src/server.cpp] and [src/main.cpp]: [Server] and
      [ServerFacts]; [ServerLiveness] shows that a notified server stops.
    - The command line and the report, [src/main.cpp] and [src/metrics.cpp]: [Main].
    - The run of [main] from the constructed server to the exit status, with the
      installation of the handlers, signals at any moment, exceptions and destructors:
      [Program] and [ProgramFacts]. [Launch] starts it from the command line, with the
      messages and the banner. [EndToEnd] joins the server and the connection.
    - The first server, [legacy/myhttpd.cc]: [Myhttpd] has the handler of a client in a
      state monad over the calls made and the global variables, against the class [Os];
      [MyhttpdFacts] and [MyhttpdServe] say what it answers, [MyhttpdPage] how a reader finds
      the links and the order of a listing, [MyhttpdStats] what it counts, [MyhttpdRace] what
      several threads make of those counts, [MyhttpdExample] runs it; [MyhttpdMain] has [main]
      with its four modes as one step relation, and [MyhttpdMainFacts] its invariants.
    - The CGI programs, [legacy/http-root-dir/cgi-src]: [CMem] is the part of the C language
      and library they need (arrays with bounds, strings, streams); [CgiUtil] has every
      function of [util.c], [CgiUtilFacts] their specifications; [CgiForms] and
      [CgiFormsFacts] are [query.c] and [post-query.c], [CgiPhf] is [phf.c], with [Shell] for
      how the shell reads the command line it makes, [CgiPasswd] and
      [CgiPasswdFacts] are [change-passwd.c], [CgiOrder] and [CgiOrderFacts] are [jj.c],
      [Imagemap] and [ImagemapFacts] are [imagemap.c], with [ImagemapExact] for its geometry
      and [ImagemapLines] for the meaning of a map file. [Double] has the machine's
      floating-point numbers and their output, [DoubleArith] what rounding does to sums,
      products and quotients.
    - The time of day server, [legacy/daytime-server.cc]: [Daytime]; the shared object and
      the program that loads it, [legacy/hello.cc] and [legacy/use-dlopen.cc]: [Hello].

    ** What is shown

    - Parsing: a returned request is well formed and exactly framed; any stream of
      well-formed requests is parsed back however it is cut into reads; the outcome does
      not depend on the cut unless the header limit is near; ambiguous framing is refused.
    - Responses: every serialized response is one message with one Content-Length;
      HEAD is GET without the body; every request gets an answer; what the [Connection]
      field of a response says is what the connection does after it.
    - Files: what is served is a regular file under the root, in its real location, for
      targets without dot-dot elements or trees without links; where that fails is shown
      too.
    - Connections: for every behaviour of the kernel the bytes sent are the responses to
      the requests received, in order, nothing lost or repeated; each end reason means
      what it says; deadlines are absolute and every connection ends, within a time that
      the configuration determines when the kernel honours socket timeouts; the fields of the
      object always agree with its state; the buffer is bounded.
    - Concurrency: the queue is FIFO, bounded and loses no wake-up; the pool and the
      server conserve connections and counters, hold a bounded number of descriptors and
      shut down only after every dispatched connection is served; once notified, the server
      has a bounded number of steps left and is never stuck before its end.
    - Descriptors: none is closed twice or leaked, construction failures included.
    - The whole program: a command line is refused with its message and status, or starts a
      server bound to the address and port it names; after a shutdown it ends with status 0 and
      the report of the final counters, after an exception with status 1, within a bounded
      number of steps, with its threads joined and its descriptors closed; every connection
      that was dispatched is a conversation as the connection's specification has it, or ended
      with an exception that was counted.
    - The first server: requests without the token get nothing else than the refusal; files
      are sent whole, listings have a link for each entry in the order that was asked for,
      scripts get what the request holds;
      the handler returns; the statistics are right; in all modes each descriptor has one
      owner. Where it fails is shown as well: paths that leave the root, statistics that are
      never kept or lost to a race, addresses that are mixed up.
    - The CGI programs: a form is decoded to what was encoded; what the shell gets from the
      phone book form is one command and its words, unless there is a number sign in it, which
      can let a second command in; a password change touches one entry and loses a last line
      without its end; an order has the items ticked, once each; a click on an image map leads
      to the document that the entries of the map file determine, the tests of its shapes being those of exact integer geometry. Each
      specification says for which inputs the program stays within its arrays.

    ** Modelling choices

    Bytes are [ascii]; strings are lists. [std::size_t] counters and sums wrap around at
    2^64 ([sz_add], [sz_sub]); positions in strings are [nat], since they never leave the
    string. Times are nanoseconds in [Z]; the additions of a timeout to the clock are taken
    to be in range. Exceptions and error codes are values of [result]. Loops that are not
    structural take fuel: the header loop and the option list one more than the bytes they
    scan, the file loop one more than the file's bytes (each iteration consumes at least
    one byte or stops), all shown to be enough; [serve] takes any fuel, and
    [serve_terminates] shows that some is enough when the clock advances. The files are
    the same throughout the run of a connection: a [FileSystem] is one state of them.

    In the C programs a read or write out of bounds, a read of an object that was not
    written and a use of a null pointer are undefined behaviour, the result [None] of a
    definition; in the first server undefined behaviour and uncaught exceptions are values
    of [crash]. Loops over C strings take the size of their array as fuel, loops over a
    stream the bytes left in it and two more (each iteration reads at least one byte or
    meets the end). [copy_file] takes any fuel, and [handler_returns] and [file_served] show
    that more than the length of the file is enough. Doubles are those of [SpecFloat] with
    53 bits; nothing is rounded away in the comparisons of integers up to that size. For
    coordinates below 2^14 the quotients and differences of the polygon test are rounded, but
    never across the coordinate they are compared with.

    Steps of different threads interleave at the accesses to the queue and to the atomic
    counters; a critical section is one step because the mutex is held throughout. The
    counters are only ever added to, with relaxed order, so that the additions commute: those
    that record one result are one step. A worker's service may end with an exception at any
    time, since any allocation in it may throw; statements about workers hold for every such
    choice, and statements of progress say that some step exists.

    ** What is not modelled

    Memory exhaustion, other than as an exception that ends a service; the line that a worker writes to the error stream about a connection
    that threw; in the first server, what signals such as [SIGPIPE] do to it. A race between
    handlers of the first server is modelled access by access, though the language gives it no
    meaning. The text of an error number and of an error of the file system are parameters
    ([ErrorTexts]). Tests, benchmarks and scripts are not part of the program.

    ** Plan

    Done, in this order: parser, responses, files, router, descriptors, connection, queue,
    pool, server, command line; then the program as a whole, the first server, the CGI
    library and programs, the time of day server, the shared object; the time bounds of
    connections, the liveness of the server, the start from the command line and the meaning
    of image maps. Left: liveness of the whole server under weak fairness of its threads; the
    time a request waits in the queue in terms of the lifetimes of the connections before it. *)

From Stdlib Require Import Ascii String.
From stdpp Require Import base numbers list gmap strings.

(** ** Bytes

    [std::string] and [std::string_view] values are lists of 8-bit characters. *)

Abbreviation bytes := (list ascii).

(** A string literal of the source as bytes. *)
Definition lit (s : string) : bytes := String.list_ascii_of_string s.
Arguments lit s%_string : simpl never.

Definition CR : ascii := "013"%char.
Definition LF : ascii := "010"%char.
Definition SP : ascii := " "%char.
Definition HT : ascii := "009"%char.
Definition NUL : ascii := "000"%char.
Definition CRLF : bytes := [CR; LF].
Definition CRLF2 : bytes := [CR; LF; CR; LF].

(** The size of a string as a [std::size_t] value. *)
Definition len {A} (s : list A) : N := N.of_nat (length s).

(** ** Results of fallible functions

    The source reports a failure with a [false] return value and an error
    message in an output parameter; the model returns one of two constructors. *)

Inductive result (E A : Type) : Type :=
| Ok (a : A)
| Err (e : E).
Arguments Ok {E A} a.
Arguments Err {E A} e.

#[export] Instance result_eq_dec {E A} `{EqDecision E, EqDecision A} :
  EqDecision (result E A).
Proof. solve_decision. Defined.

Definition rbind {E A B} (c : result E A) (k : A -> result E B) : result E B :=
  match c with Ok a => k a | Err e => Err e end.

Declare Scope result_scope.
Delimit Scope result_scope with result.
Notation "'let!' x ':=' c1 'in' c2" := (rbind c1 (fun x => c2))
  (at level 10, x pattern, c1 at level 100, c2 at level 200) : result_scope.
Open Scope result_scope.

Definition is_ok {E A} (r : result E A) : bool :=
  match r with Ok _ => true | Err _ => false end.

(** ** Searching, as [std::string_view::find]

    [search pat s] is the position of the first occurrence of [pat] in [s];
    [None] stands for [npos]. [find_at] starts at a position, as the two-argument
    overload of [find]. *)

Fixpoint starts_with (pat s : bytes) : bool :=
  match pat, s with
  | [], _ => true
  | p :: pat', c :: s' => bool_decide (p = c) && starts_with pat' s'
  | _ :: _, [] => false
  end.

Fixpoint search (pat s : bytes) : option nat :=
  if starts_with pat s then Some 0
  else match s with
       | [] => None
       | _ :: s' => S <$> search pat s'
       end.

Definition find_at (pat s : bytes) (pos : nat) : option nat :=
  (fun i => pos + i)%nat <$> search pat (drop pos s).

(** [substr(pos, n)] and [substr(pos)]. *)
Definition substr (s : bytes) (pos n : nat) : bytes := take n (drop pos s).

(** ** Tactics and hint databases *)

Create HintDb http discriminated.

(** Case analysis on the first [bool_decide], [decide] or [match] of the goal or a
    hypothesis, with the routine equations cleaned up. *)
Ltac case_all :=
  repeat (case_match; simplify_eq/=; try done).

(** Turn a boolean hypothesis built from [&&], [||] and [bool_decide] into
    propositions. *)
Ltac bool_prop :=
  repeat match goal with
  | H : _ && _ = true |- _ => apply andb_true_iff in H as [? ?]
  | H : _ && _ = false |- _ => apply andb_false_iff in H as [?|?]
  | H : _ || _ = true |- _ => apply orb_true_iff in H as [?|?]
  | H : _ || _ = false |- _ => apply orb_false_iff in H as [? ?]
  | H : negb _ = true |- _ => apply negb_true_iff in H
  | H : negb _ = false |- _ => apply negb_false_iff in H
  | H : bool_decide _ = true |- _ => apply bool_decide_eq_true in H
  | H : bool_decide _ = false |- _ => apply bool_decide_eq_false in H
  | H : (_ =? _)%N = true |- _ => apply N.eqb_eq in H
  | H : (_ =? _)%N = false |- _ => apply N.eqb_neq in H
  | H : (_ <? _)%N = true |- _ => apply N.ltb_lt in H
  | H : (_ <? _)%N = false |- _ => apply N.ltb_ge in H
  | H : (_ <=? _)%N = true |- _ => apply N.leb_le in H
  | H : (_ <=? _)%N = false |- _ => apply N.leb_gt in H
  end.

(** ** Lemmas on results *)

Lemma rbind_Ok {E A B} (c : result E A) (k : A -> result E B) b :
  rbind c k = Ok b <-> exists a, c = Ok a /\ k a = Ok b.
Proof. destruct c; simpl; naive_solver. Qed.

Lemma rbind_Err {E A B} (c : result E A) (k : A -> result E B) e :
  rbind c k = Err e <-> c = Err e \/ exists a, c = Ok a /\ k a = Err e.
Proof. destruct c; simpl; naive_solver. Qed.

(** ** Lemmas on searching *)

Lemma starts_with_spec pat s :
  starts_with pat s = true <-> exists t, s = pat ++ t.
Proof.
  revert s; induction pat as [|p pat IH]; intros s; simpl; [naive_solver|].
  destruct s as [|c s]; [naive_solver|].
  rewrite andb_true_iff, bool_decide_eq_true, IH. naive_solver.
Qed.

Lemma starts_with_app pat s t :
  starts_with pat s = true -> starts_with pat (s ++ t) = true.
Proof.
  rewrite !starts_with_spec. intros [u ->]. exists (u ++ t).
  by rewrite (assoc_L (++)).
Qed.

Lemma starts_with_app_inv pat s t :
  (length pat <= length s)%nat ->
  starts_with pat (s ++ t) = starts_with pat s.
Proof.
  revert s; induction pat as [|p pat IH]; intros [|c s]; simpl; try done; [lia|].
  intros ?. by rewrite IH by lia.
Qed.

Lemma search_bound pat s i :
  search pat s = Some i -> (i + length pat <= length s)%nat.
Proof.
  revert i; induction s as [|c s IH]; intros i; simpl.
  - destruct (starts_with pat []) eqn:E; [|done]. intros [= <-].
    apply starts_with_spec in E as [t Ht].
    symmetry in Ht. apply app_eq_nil in Ht as [-> _]. simpl; lia.
  - destruct (starts_with pat (c :: s)) eqn:E.
    + intros [= <-]. apply starts_with_spec in E as [t Ht].
      apply (f_equal length) in Ht. rewrite length_app in Ht. simpl in *. lia.
    + intros (j & Hj & ->)%fmap_Some. apply IH in Hj. lia.
Qed.

Lemma search_Some_split pat s i :
  search pat s = Some i -> s = take i s ++ pat ++ drop (i + length pat) s.
Proof.
  revert i; induction s as [|c s IH]; intros i; simpl;
    destruct (starts_with pat _) eqn:E.
  - intros [= <-]. apply starts_with_spec in E as [t Ht].
    symmetry in Ht. apply app_eq_nil in Ht as [-> ->]. done.
  - done.
  - intros [= <-]. apply starts_with_spec in E as [t Ht]. rewrite Ht. simpl.
    by rewrite drop_app_length.
  - intros (j & Hj & ->)%fmap_Some. simpl. f_equal. by apply IH.
Qed.

Lemma search_app pat s t i :
  search pat s = Some i -> search pat (s ++ t) = Some i.
Proof.
  revert i; induction s as [|c s IH]; intros i; simpl.
  - destruct (starts_with pat []) eqn:E; [|done]. intros [= <-].
    apply (starts_with_app _ _ t) in E. simpl in E.
    by destruct t; simpl in *; rewrite E.
  - destruct (starts_with pat (c :: s)) eqn:E.
    + intros [= <-]. apply (starts_with_app _ _ t) in E. simpl in E. by rewrite E.
    + intros (j & Hj & ->)%fmap_Some.
      destruct (starts_with pat (c :: s ++ t)) eqn:E'.
      * apply search_bound in Hj.
        change (c :: s ++ t) with ((c :: s) ++ t) in E'.
        rewrite starts_with_app_inv in E' by (simpl; lia). congruence.
      * by rewrite (IH _ Hj).
Qed.

Lemma search_app_inv pat s t i :
  search pat (s ++ t) = Some i -> (i + length pat <= length s)%nat ->
  search pat s = Some i.
Proof.
  revert i; induction s as [|c s IH]; intros i; simpl.
  - intros H Hle. destruct pat; simpl in Hle; [|lia].
    destruct i; [done|lia].
  - intros H Hle. rewrite <- (starts_with_app_inv pat (c :: s) t) by (simpl; lia).
    simpl. destruct (starts_with pat (c :: s ++ t)) eqn:E; [done|].
    apply fmap_Some in H as (j & Hj & ->). rewrite (IH j Hj) by lia. done.
Qed.

Lemma search_None_app pat s t :
  search pat (s ++ t) = None -> search pat s = None.
Proof.
  intros H. destruct (search pat s) eqn:E; [|done].
  by rewrite (search_app _ _ t _ E) in H.
Qed.

(** [search] finds [pat] right after [s] when no occurrence begins inside [s]. *)
Lemma search_here pat s t :
  (forall j, (j < length s)%nat -> starts_with pat (drop j s ++ pat ++ t) = false) ->
  search pat (s ++ pat ++ t) = Some (length s).
Proof.
  induction s as [|c s IH]; intros H; simpl.
  - assert (starts_with pat (pat ++ t) = true) as E by (apply starts_with_spec; eauto).
    by destruct (pat ++ t); simpl in *; rewrite E.
  - specialize (H 0 ltac:(simpl; lia)) as H0. simpl in H0. rewrite H0.
    rewrite IH; [done|]. intros j Hj. apply (H (S j)). simpl; lia.
Qed.

Lemma search_None_drop pat s j :
  search pat s = None -> search pat (drop j s) = None.
Proof.
  revert j; induction s as [|c s IH]; intros [|j]; simpl; try done.
  destruct (starts_with pat (c :: s)); [done|].
  intros H%fmap_None. by apply IH.
Qed.

Lemma search_None_starts pat s : search pat s = None -> starts_with pat s = false.
Proof. destruct s; simpl; by destruct (starts_with pat _). Qed.

Lemma search_None_infix pat s t u : search pat (s ++ t ++ u) = None -> search pat t = None.
Proof.
  intros H. apply (search_None_drop _ _ (length s)) in H. rewrite drop_app_length in H.
  by apply search_None_app in H.
Qed.

Lemma search_self pat s : search pat (pat ++ s) <> None.
Proof.
  intros H%search_None_starts. assert (starts_with pat (pat ++ s) = true); [|congruence].
  apply starts_with_spec. by exists s.
Qed.

(** ** Searching for one character *)

Lemma search_char_None c s : search [c] s = None <-> c ∉ s.
Proof.
  induction s as [|d s IH]; simpl.
  - split; [intros _; apply not_elem_of_nil|done].
  - rewrite andb_true_r, not_elem_of_cons. case_bool_decide; [naive_solver|].
    rewrite fmap_None, IH. naive_solver.
Qed.

Lemma search_char_app c s t : c ∉ s -> search [c] (s ++ c :: t) = Some (length s).
Proof.
  intros H. apply (search_here [c] s t). intros j Hj.
  destruct (drop j s) as [|d r] eqn:E.
  - apply (f_equal length) in E. rewrite length_drop in E. simpl in E. lia.
  - simpl. rewrite andb_true_r. apply bool_decide_eq_false. intros ->.
    apply H. rewrite <- (take_drop j s), E. set_solver.
Qed.

Lemma search_take pat s i :
  pat <> [] -> search pat s = Some i -> search pat (take i s) = None.
Proof.
  intros Hp H. destruct (search pat (take i s)) as [j|] eqn:E; [|done].
  pose proof (search_bound _ _ _ E) as Hb.
  apply (search_app _ _ (drop i s)) in E. rewrite take_drop, H in E.
  injection E as ->. rewrite length_take in Hb. destruct pat; [done|]. simpl in Hb. lia.
Qed.

Lemma search_char_Some c s i :
  search [c] s = Some i ->
  exists s1 s2, s = s1 ++ c :: s2 /\ c ∉ s1 /\ i = length s1.
Proof.
  intros H. pose proof (search_Some_split _ _ _ H) as Hs.
  pose proof (search_bound _ _ _ H) as Hb. simpl in Hb.
  exists (take i s), (drop (i + 1) s). split; [done|]. split.
  - apply search_char_None. by apply (search_take [c]).
  - rewrite length_take. lia.
Qed.

(** ** Lemmas on splitting lists *)

Lemma app_split_le {A} (s t a b : list A) :
  s ++ t = a ++ b -> (length s <= length a)%nat -> a = s ++ drop (length s) a.
Proof.
  intros H Hl. rewrite <- (take_drop (length s) a) at 1. f_equal.
  rewrite <- (take_app_le a b) by done. rewrite <- H. apply take_app_length.
Qed.
