(* ===== verification/CppLib.v ===== *)
(** * The parts of the C++ standard library the server computes with

    Character classification in the "C" locale ([std::tolower], [std::isalnum]; the
    program never calls [setlocale]), [std::from_chars] on unsigned integers, and
    decimal output of integers by [operator<<]. The round trip between the last two
    is what makes a generated [Content-Length] readable again. *)

From Stdlib Require Import Ascii String.
From stdpp Require Import base numbers list gmap strings.
From S2P Require Import Prelude.

(** ** Characters *)

Definition code (c : ascii) : N := N_of_ascii c.

Definition in_range (lo hi c : ascii) : bool :=
  (code lo <=? code c)%N && (code c <=? code hi)%N.

Definition isdigit (c : ascii) : bool := in_range "0" "9" c.
Definition isupper (c : ascii) : bool := in_range "A" "Z" c.
Definition islower (c : ascii) : bool := in_range "a" "z" c.
Definition isalnum (c : ascii) : bool := isdigit c || isupper c || islower c.

Definition tolower (c : ascii) : ascii :=
  if isupper c then ascii_of_N (code c + 32) else c.

(** ** Machine sizes: [std::size_t] is 64 bits, [unsigned int] is 32 bits *)

Definition SIZE_MAX : N := 2 ^ 64 - 1.
Definition UINT_MAX : N := 2 ^ 32 - 1.

(** Unsigned 64-bit arithmetic with its wrap-around. *)
Definition sz_add (a b : N) : N := (a + b) mod 2 ^ 64.
Definition sz_sub (a b : N) : N := (a + (2 ^ 64 - b mod 2 ^ 64)) mod 2 ^ 64.

(** ** [std::from_chars] *)

Inductive errc := no_error | invalid_argument | result_out_of_range.

Record from_chars_result := { fc_ec : errc; fc_ptr : nat; fc_value : N }.

(** The length of the longest prefix of decimal digits. *)
Fixpoint digit_run (s : bytes) : nat :=
  match s with
  | c :: s' => if isdigit c then S (digit_run s') else 0
  | [] => 0
  end.

Definition digit_value (c : ascii) : N := (code c - 48)%N.

Definition decimal_value (s : bytes) : N :=
  fold_left (fun acc c => (acc * 10 + digit_value c)%N) s 0%N.

(** [from_chars(first, last, value)] for an unsigned type with greatest value [max]:
    the longest digit prefix is matched; no digit is [invalid_argument] and a value
    above [max] is [result_out_of_range], and in both cases [value] (here [old]) is
    left as it was. *)
Definition from_chars (max : N) (s : bytes) (old : N) : from_chars_result :=
  let k := digit_run s in
  let v := decimal_value (take k s) in
  match k with
  | 0 => {| fc_ec := invalid_argument; fc_ptr := 0; fc_value := old |}
  | S _ =>
      if (v <=? max)%N
      then {| fc_ec := no_error; fc_ptr := k; fc_value := v |}
      else {| fc_ec := result_out_of_range; fc_ptr := k; fc_value := old |}
  end.

(** ** Decimal output *)

Definition digit_char (d : N) : ascii := ascii_of_N (d + 48).

Fixpoint dec_digits (fuel : nat) (n : N) (acc : bytes) : bytes :=
  match fuel with
  | 0 => acc
  | S fuel' =>
      let acc' := digit_char (n mod 10) :: acc in
      if (n <? 10)%N then acc' else dec_digits fuel' (n / 10) acc'
  end.

(** [out << n] for an unsigned integer. A number of [k] binary digits has at most [k]
    decimal ones, so the fuel is never exhausted ([decimal_value_print_N]). *)
Definition print_N (n : N) : bytes := dec_digits (S (N.to_nat (N.size n))) n [].

(** [out << z] for a signed integer. *)
Definition print_Z (z : Z) : bytes :=
  if (z <? 0)%Z then "-"%char :: print_N (Z.to_N (- z)) else print_N (Z.to_N z).

(** ** Lemmas on characters *)

(** Decide a statement about one character by its 256 cases. *)
Ltac ascii_cases c :=
  destruct c as [[] [] [] [] [] [] [] []]; vm_compute; try done.

Lemma tolower_idemp c : tolower (tolower c) = tolower c.
Proof. ascii_cases c. Qed.

Lemma isdigit_digit_char d : (d < 10)%N -> isdigit (digit_char d) = true.
Proof.
  intros H. assert (d ∈ [0;1;2;3;4;5;6;7;8;9]%N) as Hd.
  { rewrite !elem_of_cons. lia. }
  repeat (apply elem_of_cons in Hd as [->|Hd]; [done|]). by apply elem_of_nil in Hd.
Qed.

Lemma digit_value_char d : (d < 10)%N -> digit_value (digit_char d) = d.
Proof.
  intros H. assert (d ∈ [0;1;2;3;4;5;6;7;8;9]%N) as Hd.
  { rewrite !elem_of_cons. lia. }
  repeat (apply elem_of_cons in Hd as [->|Hd]; [done|]). by apply elem_of_nil in Hd.
Qed.

(** ** Lemmas on numbers *)

Lemma sz_sub_exact a b : (b <= a)%N -> (a < 2 ^ 64)%N -> sz_sub a b = (a - b)%N.
Proof.
  intros H1 H2. unfold sz_sub. rewrite (N.mod_small b) by lia.
  replace (a + (2 ^ 64 - b))%N with ((a - b) + 1 * 2 ^ 64)%N by lia.
  rewrite N.Div0.mod_add. apply N.mod_small. lia.
Qed.

Lemma sz_add_exact a b : (a + b < 2 ^ 64)%N -> sz_add a b = (a + b)%N.
Proof. apply N.mod_small. Qed.

Lemma digit_run_all s : Forall (fun c => isdigit c = true) s -> digit_run s = length s.
Proof. induction 1 as [|c s Hc _ IH]; simpl; [done|]. by rewrite Hc, IH. Qed.

Lemma digit_run_length s :
  digit_run s = length s -> Forall (fun c => isdigit c = true) s.
Proof.
  induction s as [|c s IH]; simpl; [constructor|].
  destruct (isdigit c) eqn:E; [|done]. intros [= H]. auto.
Qed.

Lemma decimal_value_app s t :
  decimal_value (s ++ t)
  = fold_left (fun acc c => (acc * 10 + digit_value c)%N) t (decimal_value s).
Proof. unfold decimal_value. by rewrite fold_left_app. Qed.

Lemma fold_digits_shift s a :
  fold_left (fun acc c => (acc * 10 + digit_value c)%N) s a
  = (a * 10 ^ len s + decimal_value s)%N.
Proof.
  unfold decimal_value, len. revert a. induction s as [|c s IH]; intros a; cbn [fold_left length].
  - simpl. lia.
  - rewrite (IH (a * 10 + digit_value c)%N), (IH (0 * 10 + digit_value c)%N).
    rewrite Nat2N.inj_succ, N.pow_succ_r'. lia.
Qed.

Lemma decimal_value_cons c s :
  decimal_value (c :: s) = (digit_value c * 10 ^ len s + decimal_value s)%N.
Proof. unfold decimal_value at 1. cbn [fold_left]. by rewrite fold_digits_shift. Qed.

(** The invariant of [dec_digits]: the digits already produced keep their value. *)
Lemma dec_digits_value fuel n acc :
  (n < 10 ^ N.of_nat fuel)%N -> (0 < fuel)%nat ->
  decimal_value (dec_digits fuel n acc) = (n * 10 ^ len acc + decimal_value acc)%N.
Proof.
  revert n acc; induction fuel as [|fuel IH]; intros n acc Hn Hf; [lia|]. simpl.
  assert (Hd : (n mod 10 < 10)%N) by (apply N.mod_lt; lia).
  destruct (n <? 10)%N eqn:E; bool_prop.
  - rewrite decimal_value_cons, digit_value_char by done. by rewrite N.mod_small.
  - assert (0 < fuel)%nat by (destruct fuel; [simpl in Hn; lia|lia]).
    rewrite IH; [|apply N.Div0.div_lt_upper_bound;
      rewrite Nat2N.inj_succ, N.pow_succ_r' in Hn; lia|done].
    rewrite decimal_value_cons, digit_value_char by done.
    replace (len (digit_char (n mod 10) :: acc)) with (N.succ (len acc))
      by (unfold len; simpl; lia).
    rewrite N.pow_succ_r'. pose proof (N.div_mod n 10 ltac:(lia)). nia.
Qed.

Lemma dec_digits_isdigit fuel n acc :
  Forall (fun c => isdigit c = true) acc ->
  Forall (fun c => isdigit c = true) (dec_digits fuel n acc).
Proof.
  revert n acc; induction fuel as [|fuel IH]; intros n acc H; simpl; [done|].
  assert (Hd : isdigit (digit_char (n mod 10)) = true)
    by (apply isdigit_digit_char, N.mod_lt; lia).
  destruct (n <? 10)%N; [by constructor|]. apply IH. by constructor.
Qed.

Lemma dec_digits_nonempty fuel n acc :
  (0 < fuel)%nat \/ acc <> [] -> dec_digits fuel n acc <> [].
Proof.
  revert n acc; induction fuel as [|fuel IH]; intros n acc H; simpl.
  - destruct H as [H|H]; [lia|done].
  - destruct (n <? 10)%N; [done|]. apply IH. by right.
Qed.

Lemma print_fuel n : (n < 10 ^ N.of_nat (S (N.to_nat (N.size n))))%N.
Proof.
  rewrite Nat2N.inj_succ, N2Nat.id, N.pow_succ_r'.
  assert (n < 2 ^ N.size n)%N by apply N.size_gt.
  assert (2 ^ N.size n <= 10 ^ N.size n)%N by (apply N.pow_le_mono_l; lia). lia.
Qed.

Lemma decimal_value_print_N n : decimal_value (print_N n) = n.
Proof.
  unfold print_N. rewrite dec_digits_value; [|apply print_fuel|lia].
  unfold len; simpl; unfold decimal_value; simpl; lia.
Qed.

Lemma print_N_digits n : Forall (fun c => isdigit c = true) (print_N n).
Proof. apply dec_digits_isdigit. constructor. Qed.

Lemma print_N_nonempty n : print_N n <> [].
Proof. apply dec_digits_nonempty. left; lia. Qed.

(** Reading back what was printed. *)
Lemma from_chars_print_N max n old :
  (n <= max)%N ->
  from_chars max (print_N n) old
  = {| fc_ec := no_error; fc_ptr := length (print_N n); fc_value := n |}.
Proof.
  intros H. unfold from_chars. rewrite digit_run_all by apply print_N_digits.
  rewrite firstn_all, decimal_value_print_N.
  pose proof (print_N_nonempty n). destruct (length (print_N n)) eqn:E.
  - by apply nil_length_inv in E.
  - by apply N.leb_le in H as ->.
Qed.

(** When [from_chars] consumes the whole input, the input is a numeral of the type. *)
Lemma from_chars_all max s old :
  fc_ec (from_chars max s old) = no_error /\ fc_ptr (from_chars max s old) = length s <->
  s <> [] /\ Forall (fun c => isdigit c = true) s /\ (decimal_value s <= max)%N.
Proof.
  unfold from_chars. split.
  - destruct (digit_run s) as [|k] eqn:E; [naive_solver|].
    destruct (_ <=? _)%N eqn:E2; simpl; [|naive_solver]. intros [_ H]. bool_prop.
    rewrite H in E. pose proof (digit_run_length _ E).
    split; [by intros ->|]. split; [done|]. by rewrite H, firstn_all in E2.
  - intros (Hne & Hd & Hle). rewrite digit_run_all by done. rewrite firstn_all.
    destruct (length s) eqn:E; [by apply nil_length_inv in E|].
    by apply N.leb_le in Hle as ->.
Qed.

Lemma from_chars_value max s old :
  fc_ec (from_chars max s old) = no_error -> fc_ptr (from_chars max s old) = length s ->
  fc_value (from_chars max s old) = decimal_value s.
Proof.
  unfold from_chars. destruct (digit_run s) as [|k]; [done|].
  destruct (_ <=? _)%N; simpl; [|done]. intros _ ->. by rewrite firstn_all.
Qed.
