(* ===== verification/Parser.v ===== *)
(** * The incremental HTTP request parser

    Models [include/http/request.hpp], [include/http/parser.hpp] and
    [src/parser.cpp]. The parser owns a byte buffer; [feed] appends to it and [next]
    either extracts one complete request from its front, asks for more data, or
    reports an error. This file holds the definitions; [ParserFacts] holds the
    theorems. *)

From Stdlib Require Import Ascii String.
From stdpp Require Import base numbers list gmap strings.
From S2P Require Import Prelude CppLib.

(** ** Data *)

Record HeaderField := { hf_name : bytes; hf_value : bytes }.

Record HttpRequest := {
  req_method : bytes;
  req_target : bytes;
  req_version : bytes;
  req_headers : gmap bytes bytes;
  req_header_fields : list HeaderField;
  req_body : bytes
}.

Inductive ParseStatus := NeedMoreData | RequestReady | Error.

Inductive ParseErrorKind := BadRequest | UnsupportedTransferEncoding.

Record ParseResult := {
  status : ParseStatus;
  request : option HttpRequest;
  error : bytes;
  error_kind : ParseErrorKind
}.

Record HttpParser := {
  buffer_ : bytes;
  max_header_bytes_ : N;
  max_body_bytes_ : N
}.

Record RequestLine := { rl_method : bytes; rl_target : bytes; rl_version : bytes }.

#[export] Instance ParseStatus_eq_dec : EqDecision ParseStatus.
Proof. solve_decision. Defined.
#[export] Instance ParseErrorKind_eq_dec : EqDecision ParseErrorKind.
Proof. solve_decision. Defined.
#[export] Instance HeaderField_eq_dec : EqDecision HeaderField.
Proof. solve_decision. Defined.
#[export] Instance HttpRequest_eq_dec : EqDecision HttpRequest.
Proof. solve_decision. Defined.

(** ** Character and token helpers *)

Definition to_lower_ascii (input : bytes) : bytes := tolower <$> input.

Definition is_ows (c : ascii) : bool :=
  bool_decide (c = SP) || bool_decide (c = HT).

(** The first loop of [trim_ows]: [suffix] is [input] from position [begin] on. *)
Fixpoint ows_begin (suffix : bytes) (begin : nat) : nat :=
  match suffix with
  | c :: suffix' => if is_ows c then ows_begin suffix' (S begin) else begin
  | [] => begin
  end.

(** The second loop of [trim_ows], counting [end] down. *)
Fixpoint ows_end (input : bytes) (begin end_ : nat) : nat :=
  match end_ with
  | S e =>
      if (begin <? end_)%nat && (match input !! e with Some c => is_ows c | None => false end)
      then ows_end input begin e
      else end_
  | 0 => 0
  end.

Definition trim_ows (input : bytes) : bytes :=
  let begin := ows_begin input 0 in
  let end_ := ows_end input begin (length input) in
  substr input begin (end_ - begin).

Definition is_tchar (ch : ascii) : bool :=
  if isalnum ch then true
  else bool_decide (ch ∈ lit "!#$%&'*+-.^_`|~").

Definition is_token (input : bytes) : bool :=
  match input with
  | [] => false
  | _ => forallb is_tchar input
  end.

(** ** The request line *)

Definition HTTP11 : bytes := lit "HTTP/1.1".
Definition HTTP10 : bytes := lit "HTTP/1.0".

Definition parse_request_line (line : bytes) : result bytes RequestLine :=
  match find_at [SP] line 0 with
  | None | Some 0 => Err (lit "request line is missing method separator")
  | Some first_space =>
      match find_at [SP] line (first_space + 1) with
      | None => Err (lit "request line is missing target or version")
      | Some second_space =>
          if (second_space =? first_space + 1)%nat
          then Err (lit "request line is missing target or version")
          else match find_at [SP] line (second_space + 1) with
          | Some _ => Err (lit "request line has too many fields")
          | None =>
              let method := substr line 0 first_space in
              let target := substr line (first_space + 1) (second_space - first_space - 1) in
              let version := drop (second_space + 1) line in
              if negb (is_token method) then Err (lit "invalid method token")
              else if negb (starts_with (lit "/") target)
              then Err (lit "request target must use origin-form beginning with slash")
              else if negb (bool_decide (version = HTTP11)) && negb (bool_decide (version = HTTP10))
              then Err (lit "unsupported HTTP version")
              else Ok {| rl_method := method; rl_target := target; rl_version := version |}
          end
      end
  end.

(** ** Header lines *)

Definition parse_header_line (line : bytes) : result bytes (bytes * bytes) :=
  match find_at (lit ":") line 0 with
  | None | Some 0 => Err (lit "malformed header line")
  | Some (S before as colon) =>
      if (match line !! before with Some c => is_ows c | None => false end)
      then Err (lit "whitespace before header colon")
      else
        let raw_name := substr line 0 colon in
        if negb (is_token raw_name) then Err (lit "invalid header name")
        else Ok (to_lower_ascii raw_name, trim_ows (drop (colon + 1) line))
  end.

Definition parse_content_length (value : bytes) : result bytes N :=
  let value := trim_ows value in
  match value with
  | [] => Err (lit "empty Content-Length")
  | _ =>
      let result := from_chars SIZE_MAX value 0 in
      match fc_ec result with
      | no_error =>
          if (fc_ptr result =? length value)%nat then Ok (fc_value result)
          else Err (lit "invalid Content-Length")
      | _ => Err (lit "invalid Content-Length")
      end
  end.

Definition parse_error (error : bytes) (kind : ParseErrorKind) : ParseResult :=
  {| status := Error; request := None; error := error; error_kind := kind |}.

Definition need_more_data : ParseResult :=
  {| status := NeedMoreData; request := None; error := []; error_kind := BadRequest |}.

Definition request_ready (r : HttpRequest) : ParseResult :=
  {| status := RequestReady; request := Some r; error := []; error_kind := BadRequest |}.

(** What the loop of [next] does with one parsed field: a repeated [connection] field
    is appended to the stored value, any other repetition is an error, and a new
    field is stored. *)
Definition add_field (name value : bytes) (request : HttpRequest) : result bytes HttpRequest :=
  match req_headers request !! name with
  | Some existing =>
      if bool_decide (name = lit "connection") then
        Ok {| req_method := req_method request;
              req_target := req_target request;
              req_version := req_version request;
              req_headers := <[name := existing ++ lit ", " ++ value]> (req_headers request);
              req_header_fields :=
                req_header_fields request ++ [{| hf_name := name; hf_value := value |}];
              req_body := req_body request |}
      else Err (lit "duplicate header field: " ++ name)
  | None =>
      Ok {| req_method := req_method request;
            req_target := req_target request;
            req_version := req_version request;
            req_headers := <[name := value]> (req_headers request);
            req_header_fields :=
              req_header_fields request ++ [{| hf_name := name; hf_value := value |}];
            req_body := req_body request |}
  end.

(** The [while] loop of [next] over the header lines. [None] is exhausted fuel, which
    [ParserFacts.header_loop_total] excludes for the fuel [next] gives it. *)
Fixpoint header_loop (fuel : nat) (header_block : bytes) (line_start : nat)
    (request : HttpRequest) : option (result bytes HttpRequest) :=
  match fuel with
  | 0 => None
  | S fuel' =>
      if (line_start <? length header_block)%nat then
        let line_end := find_at CRLF header_block line_start in
        let line :=
          match line_end with
          | None => drop line_start header_block
          | Some e => substr header_block line_start (e - line_start)
          end in
        match parse_header_line line with
        | Err e => Some (Err e)
        | Ok (name, value) =>
            match add_field name value request with
            | Err e => Some (Err e)
            | Ok request' =>
                match line_end with
                | None => Some (Ok request')
                | Some e => header_loop fuel' header_block (e + 2) request'
                end
            end
        end
      else Some (Ok request)
  end.

Definition start_request (rl : RequestLine) : HttpRequest :=
  {| req_method := rl_method rl; req_target := rl_target rl; req_version := rl_version rl;
     req_headers := ∅; req_header_fields := []; req_body := [] |}.

(** An error of the header stage: its message and its kind. *)
Definition bad {A} (e : bytes) : result (bytes * ParseErrorKind) A := Err (e, BadRequest).

(** The framing checks of [next] once the fields are known: the [Host] requirement,
    the refusal of [Transfer-Encoding], and the declared body length. *)
Definition check_framing (max_body : N) (request : HttpRequest) :
    result (bytes * ParseErrorKind) N :=
  let host_ok :=
    match req_headers request !! lit "host" with
    | None => false
    | Some h => negb (bool_decide (trim_ows h = []))
    end in
  if bool_decide (req_version request = HTTP11) && negb host_ok
  then bad (lit "HTTP/1.1 request requires Host header")
  else match req_headers request !! lit "transfer-encoding",
             req_headers request !! lit "content-length" with
  | Some _, Some _ =>
      bad (lit "request contains both Transfer-Encoding and Content-Length")
  | Some _, None =>
      Err (lit "Transfer-Encoding is not supported", UnsupportedTransferEncoding)
  | None, None => Ok 0%N
  | None, Some value =>
      match parse_content_length value with
      | Err e => bad e
      | Ok content_length =>
          if (max_body <? content_length)%N
          then bad (lit "body exceeds configured parser limit")
          else Ok content_length
      end
  end.

(** The part of [next] that depends only on the bytes before the empty line. *)
Definition parse_head (max_body : N) (header_block : bytes) :
    result (bytes * ParseErrorKind) (HttpRequest * N) :=
  let request_line_end := find_at CRLF header_block 0 in
  let request_line :=
    match request_line_end with
    | None => header_block
    | Some e => substr header_block 0 e
    end in
  match parse_request_line request_line with
  | Err e => bad e
  | Ok parsed_line =>
      let fields :=
        match request_line_end with
        | None => Some (Ok (start_request parsed_line))
        | Some e =>
            header_loop (S (length header_block)) header_block (e + 2)
              (start_request parsed_line)
        end in
      match fields with
      | None => bad []
      | Some (Err e) => bad e
      | Some (Ok request) =>
          let! n := check_framing max_body request in Ok (request, n)
      end
  end.

Definition with_body (request : HttpRequest) (body : bytes) : HttpRequest :=
  {| req_method := req_method request; req_target := req_target request;
     req_version := req_version request; req_headers := req_headers request;
     req_header_fields := req_header_fields request; req_body := body |}.

Definition with_buffer (p : HttpParser) (b : bytes) : HttpParser :=
  {| buffer_ := b; max_header_bytes_ := max_header_bytes_ p;
     max_body_bytes_ := max_body_bytes_ p |}.

(** ** The parser's operations *)

Definition make_parser (max_header_bytes max_body_bytes : N) : HttpParser :=
  {| buffer_ := []; max_header_bytes_ := max_header_bytes; max_body_bytes_ := max_body_bytes |}.

(** The default arguments of the constructor. *)
Definition default_parser : HttpParser := make_parser (16 * 1024) (1024 * 1024).

Definition feed (p : HttpParser) (b : bytes) : HttpParser := with_buffer p (buffer_ p ++ b).

Definition buffered_bytes (p : HttpParser) : N := len (buffer_ p).

Definition next (p : HttpParser) : ParseResult * HttpParser :=
  let limit_error := parse_error (lit "headers exceed configured parser limit") BadRequest in
  match search CRLF2 (buffer_ p) with
  | None =>
      if (max_header_bytes_ p <? len (buffer_ p))%N then (limit_error, p)
      else (need_more_data, p)
  | Some header_end =>
      if (max_header_bytes_ p <? N.of_nat header_end)%N then (limit_error, p)
      else match parse_head (max_body_bytes_ p) (take header_end (buffer_ p)) with
      | Err (e, kind) => (parse_error e kind, p)
      | Ok (request, content_length) =>
          let body_start := (header_end + 4)%nat in
          if (len (buffer_ p) - N.of_nat body_start <? content_length)%N
          then (need_more_data, p)
          else
            let n := N.to_nat content_length in
            (request_ready (with_body request (substr (buffer_ p) body_start n)),
             with_buffer p (drop (body_start + n) (buffer_ p)))
      end
  end.
