(* ===== verification/ParserLemmas.v ===== *)
(** * Lemmas on the parser's helpers

    Reference definitions for the index-based loops of [src/parser.cpp] (trimming,
    splitting a request line, splitting a header block into lines) and the lemmas
    that relate the loops to them. [ParserFacts] builds on these. *)

From Stdlib Require Import Ascii String.
From stdpp Require Import base numbers list gmap strings.
From S2P Require Import Prelude CppLib Parser.

(** ** Reference definitions *)

(** Whitespace removal by structural recursion. *)
Fixpoint ltrim (s : bytes) : bytes :=
  match s with
  | c :: s' => if is_ows c then ltrim s' else s
  | [] => []
  end.

Definition rtrim (s : bytes) : bytes := reverse (ltrim (reverse s)).

(** The lines of a block separated by CRLF. *)
Definition cons_head (c : ascii) (ls : list bytes) : list bytes :=
  match ls with
  | h :: t => (c :: h) :: t
  | [] => [[c]]
  end.

Fixpoint split_crlf (s : bytes) : list bytes :=
  match s with
  | [] => [[]]
  | c :: s' =>
      match s' with
      | d :: s'' =>
          if bool_decide (c = CR) && bool_decide (d = LF) then [] :: split_crlf s''
          else cons_head c (split_crlf s')
      | [] => [[c]]
      end
  end.

(** The loop of [next] stops at the end of the block, so it does not see an empty
    piece after a final CRLF. *)
Fixpoint drop_trailing_empty (ls : list bytes) : list bytes :=
  match ls with
  | [] => []
  | l :: ls' =>
      match l, ls' with
      | [], [] => []
      | _, _ => l :: drop_trailing_empty ls'
      end
  end.

Definition header_lines (s : bytes) : list bytes := drop_trailing_empty (split_crlf s).

(** The fields of a list of lines, folded into a request. *)
Fixpoint parse_fields (lines : list bytes) (r : HttpRequest) : result bytes HttpRequest :=
  match lines with
  | [] => Ok r
  | line :: lines' =>
      let! nv := parse_header_line line in
      let! r' := add_field nv.1 nv.2 r in
      parse_fields lines' r'
  end.

(** ** Trimming *)

Lemma ltrim_drop s b : drop (ows_begin s b - b) s = ltrim s /\ (b <= ows_begin s b)%nat
  /\ (ows_begin s b - b <= length s)%nat.
Proof.
  revert b; induction s as [|c s IH]; intros b; simpl.
  - rewrite Nat.sub_diag. split; [done|lia].
  - destruct (is_ows c).
    + destruct (IH (S b)) as (H1 & H2 & H3).
      replace (ows_begin s (S b) - b) with (S (ows_begin s (S b) - S b)) by lia.
      simpl. split; [done|lia].
    + rewrite Nat.sub_diag. split; [done|lia].
Qed.

Lemma rtrim_snoc s c : rtrim (s ++ [c]) = if is_ows c then rtrim s else s ++ [c].
Proof.
  unfold rtrim. rewrite reverse_snoc. simpl. destruct (is_ows c); [done|].
  by rewrite reverse_cons, reverse_involutive.
Qed.

Lemma substr_snoc s b e c :
  (b <= e)%nat -> s !! e = Some c -> substr s b (S e - b) = substr s b (e - b) ++ [c].
Proof.
  intros Hb Hc. unfold substr. replace (S e - b) with (S (e - b)) by lia.
  apply take_S_r. rewrite lookup_drop. by replace (b + (e - b)) with e by lia.
Qed.

Lemma ows_end_rtrim s b e :
  (b <= e)%nat -> (e <= length s)%nat ->
  substr s b (ows_end s b e - b) = rtrim (substr s b (e - b)).
Proof.
  induction e as [|e IH]; intros Hb He; simpl.
  - unfold substr. by rewrite Nat.sub_0_l.
  - destruct (decide (b = S e)) as [->|Hne].
    { rewrite Nat.ltb_irrefl. simpl. rewrite Nat.sub_diag. done. }
    destruct (lookup_lt_is_Some_2 s e ltac:(lia)) as [c Hc].
    rewrite (proj2 (Nat.ltb_lt b (S e)) ltac:(lia)), Hc. simpl.
    rewrite (substr_snoc s b e c) at 1 by (done || lia).
    rewrite rtrim_snoc. destruct (is_ows c); [apply IH; lia|].
    change (match b with 0 => S e | S l => (e - l)%nat end) with (S e - b)%nat.
    by rewrite (substr_snoc s b e c) by (done || lia).
Qed.

Lemma trim_ows_spec s : trim_ows s = rtrim (ltrim s).
Proof.
  unfold trim_ows. destruct (ltrim_drop s 0) as (H1 & H2 & H3).
  rewrite Nat.sub_0_r in *. rewrite ows_end_rtrim by (lia || done).
  f_equal. unfold substr. rewrite <- H1. apply take_ge. rewrite length_drop. lia.
Qed.

Lemma ltrim_suffix s : exists t, s = t ++ ltrim s.
Proof.
  induction s as [|c s [t IH]]; simpl; [by exists []|].
  destruct (is_ows c); [exists (c :: t); simpl; by f_equal|by exists []].
Qed.

Lemma rtrim_prefix s : exists t, s = rtrim s ++ t.
Proof.
  destruct (ltrim_suffix (reverse s)) as [t Ht]. exists (reverse t).
  unfold rtrim. rewrite <- reverse_app, <- Ht. by rewrite reverse_involutive.
Qed.

Lemma trim_infix s : exists t u, s = t ++ trim_ows s ++ u.
Proof.
  rewrite trim_ows_spec. destruct (ltrim_suffix s) as [t Ht].
  destruct (rtrim_prefix (ltrim s)) as [u Hu]. exists t, u.
  by rewrite Ht at 1; rewrite Hu at 1.
Qed.

Lemma ltrim_idemp s : ltrim (ltrim s) = ltrim s.
Proof.
  induction s as [|c s IH]; simpl; [done|].
  destruct (is_ows c) eqn:E; [done|]. simpl. by rewrite E.
Qed.

Lemma rtrim_idemp s : rtrim (rtrim s) = rtrim s.
Proof. unfold rtrim. by rewrite reverse_involutive, ltrim_idemp. Qed.

Lemma ltrim_head_fix c s : ltrim (c :: s) = c :: s <-> is_ows c = false.
Proof.
  simpl. destruct (is_ows c) eqn:E; [|done]. split; [|done]. intros H.
  destruct (ltrim_suffix s) as [t Ht]. rewrite H in Ht.
  apply (f_equal length) in Ht. rewrite length_app in Ht. simpl in Ht. lia.
Qed.

(** Trimming the right end does not expose whitespace at the left end. *)
Lemma ltrim_rtrim s : ltrim s = s -> ltrim (rtrim s) = rtrim s.
Proof.
  destruct s as [|c s]; [done|]. rewrite ltrim_head_fix. intros Hc.
  destruct (rtrim_prefix (c :: s)) as [t Ht].
  destruct (rtrim (c :: s)) as [|d r]; [done|].
  simpl in Ht. injection Ht as <- _. by apply ltrim_head_fix.
Qed.

Lemma trim_idemp s : trim_ows (trim_ows s) = trim_ows s.
Proof.
  rewrite !trim_ows_spec. rewrite ltrim_rtrim by apply ltrim_idemp.
  apply rtrim_idemp.
Qed.

Lemma trim_cons_SP s : trim_ows (SP :: s) = trim_ows s.
Proof. by rewrite !trim_ows_spec. Qed.

Lemma find_at_app pat s t : find_at pat (s ++ t) (length s)
  = (fun i => length s + i)%nat <$> search pat t.
Proof. unfold find_at. by rewrite drop_app_length. Qed.

Lemma find_at_0 pat s : find_at pat s 0 = search pat s.
Proof. unfold find_at. rewrite drop_0. by destruct (search pat s). Qed.

(** ** Tokens *)

Lemma is_tchar_sep c : is_tchar c = true ->
  c <> SP /\ c <> HT /\ c <> ":"%char /\ c <> CR /\ c <> LF.
Proof. ascii_cases c. Qed.

Lemma is_tchar_lower c : is_tchar c = true -> is_tchar (tolower c) = true.
Proof. ascii_cases c. Qed.

Lemma is_token_forall s : is_token s = true <-> s <> [] /\ Forall (fun c => is_tchar c = true) s.
Proof.
  unfold is_token. destruct s as [|c s]; [naive_solver|].
  rewrite forallb_forall, Forall_forall. setoid_rewrite list_elem_of_In. naive_solver.
Qed.

Lemma token_notin s c :
  is_token s = true -> c = SP \/ c = HT \/ c = ":"%char \/ c = CR \/ c = LF -> c ∉ s.
Proof.
  intros [_ H]%is_token_forall Hc Hin. rewrite Forall_forall in H.
  specialize (H _ Hin). apply is_tchar_sep in H. naive_solver.
Qed.

Lemma is_token_lower s : is_token s = true -> is_token (to_lower_ascii s) = true.
Proof.
  rewrite !is_token_forall. intros [H1 H2]. unfold to_lower_ascii. split.
  - by destruct s.
  - rewrite Forall_fmap. eapply Forall_impl; [done|]. apply is_tchar_lower.
Qed.

Lemma to_lower_idemp s : to_lower_ascii (to_lower_ascii s) = to_lower_ascii s.
Proof.
  unfold to_lower_ascii. rewrite <- list_fmap_compose. apply list_fmap_ext.
  intros i c _. apply tolower_idemp.
Qed.

(** ** The request line *)

Lemma substr_prefix s t : substr (s ++ t) 0 (length s) = s.
Proof. unfold substr. rewrite drop_0. apply take_app_length. Qed.

Lemma substr_mid s t u : substr (s ++ t ++ u) (length s) (length t) = t.
Proof. unfold substr. rewrite drop_app_length. apply take_app_length. Qed.

Definition render_request_line (rl : RequestLine) : bytes :=
  rl_method rl ++ SP :: rl_target rl ++ SP :: rl_version rl.

Definition wf_request_line (rl : RequestLine) : Prop :=
  is_token (rl_method rl) = true /\ starts_with (lit "/") (rl_target rl) = true /\
  SP ∉ rl_target rl /\ (rl_version rl = HTTP11 \/ rl_version rl = HTTP10).

Lemma parse_request_line_render rl :
  wf_request_line rl -> parse_request_line (render_request_line rl) = Ok rl.
Proof.
  intros (Hm & Ht & Hs & Hv). destruct rl as [m t v]; simpl in *.
  unfold parse_request_line, render_request_line; simpl.
  assert (Hspm : SP ∉ m) by (apply token_notin; auto).
  assert (Hspv : SP ∉ v) by (destruct Hv as [-> | ->]; vm_compute; set_solver).
  rewrite find_at_0, search_char_app by done.
  destruct m as [|c m]; [done|]. cbn [length].
  set (M := c :: m) in *.
  change (S (length m)) with (length M).
  assert (Ht' : t <> []) by (by destruct t).
  assert (E1 : M ++ SP :: t ++ SP :: v = (M ++ [SP]) ++ t ++ SP :: v)
    by (by rewrite <- app_assoc).
  assert (L1 : (length M + 1)%nat = length (M ++ [SP])) by (by rewrite length_app).
  assert (F2 : find_at [SP] (M ++ SP :: t ++ SP :: v) (length M + 1)
               = Some (length M + 1 + length t)%nat).
  { rewrite L1, E1, find_at_app, search_char_app by done. done. }
  rewrite F2. rewrite (proj2 (Nat.eqb_neq _ _)) by (destruct t; simpl; [done|lia]).
  assert (E2 : M ++ SP :: t ++ SP :: v = (M ++ SP :: t ++ [SP]) ++ v)
    by (by rewrite <- app_assoc; simpl; rewrite <- app_assoc).
  assert (L2 : (length M + 1 + length t + 1)%nat = length (M ++ SP :: t ++ [SP]))
    by (rewrite length_app; simpl; rewrite length_app; simpl; lia).
  assert (F3 : find_at [SP] (M ++ SP :: t ++ SP :: v) (length M + 1 + length t + 1) = None).
  { rewrite L2, E2, find_at_app. by rewrite (proj2 (search_char_None SP v)). }
  rewrite F3, substr_prefix.
  replace (length M + 1 + length t - length M - 1)%nat with (length t) by lia.
  rewrite L2, E2, drop_app_length, <- E2, L1, E1, substr_mid.
  rewrite Hm, Ht. by destruct Hv as [-> | ->].
Qed.

Lemma parse_request_line_sound line rl :
  parse_request_line line = Ok rl ->
  line = render_request_line rl /\ wf_request_line rl.
Proof.
  unfold parse_request_line. rewrite find_at_0.
  destruct (search [SP] line) as [[|k]|] eqn:E1; [done| |done].
  apply search_char_Some in E1 as (m & rest & -> & Hm & Hk). rewrite Hk.
  replace (m ++ SP :: rest) with ((m ++ [SP]) ++ rest) by (by rewrite <- app_assoc).
  replace (length m + 1)%nat with (length (m ++ [SP])) by (by rewrite length_app).
  rewrite find_at_app. destruct (search [SP] rest) as [j|] eqn:E2; simpl; [|done].
  apply search_char_Some in E2 as (t & v & -> & Ht & ->).
  destruct (_ =? _)%nat eqn:E3; [done|]. apply Nat.eqb_neq in E3.
  set (pre := (m ++ [SP]) ++ t ++ [SP]).
  assert (Hpre : (m ++ [SP]) ++ t ++ SP :: v = pre ++ v)
    by (unfold pre; by rewrite <- !app_assoc).
  assert (Lpre : (length (m ++ [SP]) + length t + 1)%nat = length pre)
    by (unfold pre; rewrite !length_app; simpl; lia).
  rewrite Lpre, Hpre, find_at_app, drop_app_length, <- Hpre.
  destruct (search [SP] v) eqn:E4; simpl; [done|].
  replace (substr ((m ++ [SP]) ++ t ++ SP :: v) 0 (length m)) with m
    by (rewrite <- app_assoc; by rewrite substr_prefix).
  replace (length (m ++ [SP]) + length t - length m - 1)%nat with (length t)
    by (rewrite length_app; simpl; lia).
  rewrite substr_mid. intros H. case_all; bool_prop; subst.
  all: split; [by unfold render_request_line; simpl; rewrite <- app_assoc|].
  all: repeat split; simpl; auto.
Qed.

(** ** Header lines *)

Lemma parse_header_line_spec line n v :
  parse_header_line line = Ok (n, v) <->
  exists raw rest, line = raw ++ ":"%char :: rest /\ is_token raw = true /\
    n = to_lower_ascii raw /\ v = trim_ows rest.
Proof.
  unfold parse_header_line. rewrite find_at_0. split.
  - destruct (search (lit ":") line) as [[|k]|] eqn:E; [done| |done].
    apply search_char_Some in E as (raw & rest & -> & Hc & Hk). rewrite Hk.
    rewrite substr_prefix. case_match; [done|].
    replace (drop (length raw + 1) (raw ++ ":"%char :: rest)) with rest.
    2:{ rewrite <- drop_drop, drop_app_length. done. }
    destruct (is_token raw) eqn:Et; simpl; [|done]. intros [= <- <-]. eauto 10.
  - intros (raw & rest & -> & Ht & -> & ->).
    change (lit ":") with [":"%char].
    rewrite search_char_app by (apply token_notin; auto).
    destruct (length raw) as [|k] eqn:Ek; [by apply nil_length_inv in Ek; subst|].
    assert (Hs : substr (raw ++ ":"%char :: rest) 0 (S k) = raw)
      by (by rewrite <- Ek, substr_prefix).
    assert (Hd : drop (S k + 1) (raw ++ ":"%char :: rest) = rest)
      by (by rewrite <- Ek, <- drop_drop, drop_app_length).
    rewrite Hs, Hd, Ht. cbn [negb].
    destruct ((raw ++ _) !! k) as [c|] eqn:Ec.
    + rewrite lookup_app_l in Ec by lia. apply list_elem_of_lookup_2 in Ec.
      apply is_token_forall in Ht as [_ Ht]. rewrite Forall_forall in Ht.
      specialize (Ht _ Ec). apply is_tchar_sep in Ht as (H1 & H2 & _).
      unfold is_ows. by rewrite !bool_decide_eq_false_2.
    + apply lookup_ge_None in Ec. rewrite length_app in Ec. simpl in Ec. lia.
Qed.

(** ** Splitting a block into lines *)

Lemma split_crlf_None s : search CRLF s = None -> split_crlf s = [s].
Proof.
  induction s as [|c s IH]; [done|]. intros H. simpl.
  destruct s as [|d s]; [done|].
  simpl in H. rewrite andb_true_r in H. case_bool_decide; simpl in *.
  - destruct (bool_decide (LF = d)) eqn:Ed; [done|].
    rewrite (bool_decide_eq_false_2 (d = LF)) by (apply bool_decide_eq_false in Ed; congruence).
    rewrite andb_false_r. apply fmap_None in H. by rewrite IH.
  - rewrite (bool_decide_eq_false_2 (c = CR)) by congruence. simpl.
    apply fmap_None in H. by rewrite IH.
Qed.

Lemma split_crlf_app l r :
  search CRLF l = None -> split_crlf (l ++ CRLF ++ r) = l :: split_crlf r.
Proof.
  induction l as [|c l IH]; intros H; [done|].
  assert (Hl : search CRLF l = None) by (by apply (search_None_drop CRLF (c :: l) 1)).
  specialize (IH Hl).
  assert (Hns : bool_decide (c = CR) && bool_decide (hd CR l = LF) = false).
  { apply search_None_starts in H. destruct l as [|d l]; simpl in *.
    - by rewrite andb_false_r.
    - rewrite andb_true_r in H. repeat case_bool_decide; simpl in *; congruence. }
  destruct l as [|d l]; simpl in *; rewrite Hns; [done|]. by rewrite IH.
Qed.

Lemma split_crlf_nonempty s : split_crlf s <> [].
Proof.
  destruct s as [|c [|d s]]; simpl; try done.
  destruct (bool_decide (c = CR) && bool_decide (d = LF)); [done|].
  unfold cons_head. by destruct (match s with [] => _ | _ => _ end).
Qed.

Lemma drop_trailing_empty_cons l ls :
  ls <> [] -> drop_trailing_empty (l :: ls) = l :: drop_trailing_empty ls.
Proof. destruct l, ls; done. Qed.

Lemma header_lines_app l r :
  search CRLF l = None -> header_lines (l ++ CRLF ++ r) = l :: header_lines r.
Proof.
  intros H. unfold header_lines. rewrite split_crlf_app by done.
  apply drop_trailing_empty_cons, split_crlf_nonempty.
Qed.

Lemma header_lines_None s : s <> [] -> search CRLF s = None -> header_lines s = [s].
Proof.
  intros Hs H. unfold header_lines. rewrite split_crlf_None by done. by destruct s.
Qed.

(** The index loop of [next] is the fold over the lines of the block, and the fuel
    [next] gives it is never exhausted. *)
Lemma header_loop_fields fuel hb ls r :
  (length hb < fuel + ls)%nat -> (0 < fuel)%nat ->
  header_loop fuel hb ls r = Some (parse_fields (header_lines (drop ls hb)) r).
Proof.
  revert ls r; induction fuel as [|fuel IH]; intros ls r Hf Hp; [lia|]. simpl.
  destruct (ls <? length hb)%nat eqn:E.
  2:{ apply Nat.ltb_ge in E. rewrite drop_ge by done. done. }
  apply Nat.ltb_lt in E. unfold find_at.
  assert (Hne : drop ls hb <> []).
  { intros H. apply (f_equal length) in H. rewrite length_drop in H. simpl in H. lia. }
  destruct (search CRLF (drop ls hb)) as [i|] eqn:Es; simpl.
  - pose proof (search_Some_split _ _ _ Es) as Hsp.
    pose proof (search_take CRLF _ _ ltac:(done) Es) as Htk.
    rewrite Hsp at 1. rewrite header_lines_app by done.
    rewrite drop_drop. simpl parse_fields.
    unfold substr. replace (ls + i - ls)%nat with i by lia.
    destruct (parse_header_line (take i (drop ls hb))) as [[n v]|]; simpl; [|done].
    destruct (add_field n v r) as [r'|]; simpl; [|done].
    replace (ls + i + 2)%nat with (ls + (i + 2))%nat by lia.
    pose proof (search_bound _ _ _ Es) as Hb. rewrite length_drop in Hb. simpl in Hb.
    apply IH; lia.
  - rewrite header_lines_None by done. simpl.
    destruct (parse_header_line (drop ls hb)) as [[n v]|]; simpl; [|done].
    by destruct (add_field n v r).
Qed.
