(* ===== verification/ParserSpec.v ===== *)
(** * What a well-formed request is, and how it is written

    The abstract specification of the parser: a predicate on requests, the bytes a
    client sends for one ([render_request]), and lemmas that relate the stages of
    [next] to them. *)

From Stdlib Require Import Ascii String.
From stdpp Require Import base numbers list gmap strings.
From S2P Require Import Prelude CppLib Parser ParserLemmas.

(** ** Header fields *)

(** The lookup table of a list of fields in arrival order: a repeated field is
    combined with a comma. *)
Definition combine_field (m : gmap bytes bytes) (f : HeaderField) : gmap bytes bytes :=
  match m !! hf_name f with
  | Some old => <[hf_name f := old ++ lit ", " ++ hf_value f]> m
  | None => <[hf_name f := hf_value f]> m
  end.

Definition headers_of (fs : list HeaderField) : gmap bytes bytes :=
  foldl combine_field ∅ fs.

(** No field but [connection] is repeated. *)
Definition unique_fields (fs : list HeaderField) : Prop :=
  NoDup (filter (fun n => n <> lit "connection") (hf_name <$> fs)).

Definition wf_field (f : HeaderField) : Prop :=
  is_token (hf_name f) = true /\ to_lower_ascii (hf_name f) = hf_name f /\
  trim_ows (hf_value f) = hf_value f /\ search CRLF (hf_value f) = None.

(** ** Framing *)

(** [n] is the body length a request declares. *)
Definition declared_length (r : HttpRequest) (n : N) : Prop :=
  match req_headers r !! lit "content-length" with
  | None => n = 0%N
  | Some v =>
      trim_ows v <> [] /\ Forall (fun c => isdigit c = true) (trim_ows v) /\
      decimal_value (trim_ows v) = n /\ (n <= SIZE_MAX)%N
  end.

Definition framing_ok (max_body : N) (r : HttpRequest) (n : N) : Prop :=
  (req_version r = HTTP11 ->
     exists h, req_headers r !! lit "host" = Some h /\ trim_ows h <> []) /\
  req_headers r !! lit "transfer-encoding" = None /\
  declared_length r n /\ (n <= max_body)%N.

(** ** Requests *)

Definition wf_head (r : HttpRequest) : Prop :=
  is_token (req_method r) = true /\
  starts_with (lit "/") (req_target r) = true /\
  SP ∉ req_target r /\ search CRLF (req_target r) = None /\
  (req_version r = HTTP11 \/ req_version r = HTTP10) /\
  Forall wf_field (req_header_fields r) /\
  unique_fields (req_header_fields r) /\
  req_headers r = headers_of (req_header_fields r).

Definition wf_request (max_body : N) (r : HttpRequest) : Prop :=
  wf_head r /\ framing_ok max_body r (len (req_body r)).

(** The bytes of a request on the wire. *)
Definition render_field (f : HeaderField) : bytes := hf_name f ++ lit ": " ++ hf_value f.

Definition render_head (r : HttpRequest) : bytes :=
  (req_method r ++ SP :: req_target r ++ SP :: req_version r) ++
  concat ((fun f => CRLF ++ render_field f) <$> req_header_fields r).

Definition render_request (r : HttpRequest) : bytes :=
  render_head r ++ CRLF2 ++ req_body r.

(** A request determined by its request line and its fields. *)
Definition mk_request (m t v : bytes) (fs : list HeaderField) : HttpRequest :=
  {| req_method := m; req_target := t; req_version := v;
     req_headers := headers_of fs; req_header_fields := fs; req_body := [] |}.

(** ** Lemmas on fields *)

Lemma headers_of_snoc fs f : headers_of (fs ++ [f]) = combine_field (headers_of fs) f.
Proof. unfold headers_of. by rewrite foldl_app. Qed.

Lemma combine_field_dom m f n :
  is_Some (combine_field m f !! n) <-> is_Some (m !! n) \/ n = hf_name f.
Proof.
  unfold combine_field. destruct (m !! hf_name f) eqn:E.
  all: destruct (decide (n = hf_name f)) as [->|Hne];
    [rewrite lookup_insert_eq; naive_solver|rewrite lookup_insert_ne by done; naive_solver].
Qed.

Lemma headers_of_dom fs n : is_Some (headers_of fs !! n) <-> n ∈ (hf_name <$> fs).
Proof.
  induction fs as [|f fs IH] using rev_ind.
  - change (headers_of []) with (∅ : gmap bytes bytes). rewrite lookup_empty.
    split; [by intros [? H]|intros H; by apply not_elem_of_nil in H].
  - rewrite headers_of_snoc, combine_field_dom, IH, fmap_app, elem_of_app.
    simpl. by rewrite list_elem_of_singleton.
Qed.

Lemma unique_snoc fs f :
  unique_fields (fs ++ [f]) <->
  unique_fields fs /\ (hf_name f = lit "connection" \/ hf_name f ∉ (hf_name <$> fs)).
Proof.
  unfold unique_fields. rewrite fmap_app, filter_app. simpl.
  destruct (decide (hf_name f = lit "connection")) as [E|E].
  - rewrite filter_cons_False by tauto. rewrite app_nil_r. naive_solver.
  - rewrite filter_cons_True by done. change (filter _ []) with (@nil bytes).
    rewrite NoDup_app.
    split.
    + intros (H1 & H2 & _). split; [done|]. right. intros Hin.
      apply (H2 (hf_name f)); [|set_solver]. by apply list_elem_of_filter.
    + intros [H1 [H2|H2]]; [done|]. split; [done|]. split; [|apply NoDup_singleton].
      intros x Hx%list_elem_of_filter Hy%list_elem_of_singleton. subst. by destruct Hx.
Qed.

Lemma add_field_mk m t v fs n w :
  add_field n w (mk_request m t v fs)
  = if bool_decide (n ∈ (hf_name <$> fs)) && negb (bool_decide (n = lit "connection"))
    then Err (lit "duplicate header field: " ++ n)
    else Ok (mk_request m t v (fs ++ [{| hf_name := n; hf_value := w |}])).
Proof.
  unfold add_field, mk_request. simpl. rewrite headers_of_snoc.
  unfold combine_field at 1. simpl.
  pose proof (headers_of_dom fs n) as Hd.
  destruct (headers_of fs !! n) as [old|] eqn:E.
  - rewrite (bool_decide_eq_true_2 (n ∈ _)) by (apply Hd; eauto). simpl.
    case_bool_decide; simpl; [|done]. subst. done.
  - rewrite (bool_decide_eq_false_2 (n ∈ _)).
    2:{ intros Hin%Hd. by destruct Hin. }
    done.
Qed.

Lemma parse_fields_mk m t v lines fs r :
  unique_fields fs ->
  parse_fields lines (mk_request m t v fs) = Ok r <->
  exists gs, Forall2 (fun l g => parse_header_line l = Ok (hf_name g, hf_value g)) lines gs /\
    unique_fields (fs ++ gs) /\ r = mk_request m t v (fs ++ gs).
Proof.
  revert fs r; induction lines as [|l lines IH]; intros fs r Hu; simpl.
  - split.
    + intros [= <-]. exists []. rewrite app_nil_r. by repeat split.
    + intros (gs & H & _ & ->). inversion H; subst. by rewrite app_nil_r.
  - split.
    + intros ([n w] & Hl & H)%rbind_Ok. apply rbind_Ok in H as (r' & Ha & H). simpl in Ha.
      rewrite add_field_mk in Ha. destruct (_ && _) eqn:E; [done|]. injection Ha as <-.
      apply IH in H as (gs & H1 & H2 & ->).
      * exists ({| hf_name := n; hf_value := w |} :: gs).
        rewrite <- app_assoc in H2. rewrite <- app_assoc. by repeat split; [constructor|].
      * apply unique_snoc. split; [done|]. simpl. bool_prop; tauto.
    + intros (gs & H & Hun & ->). inversion H as [|? g ? gs' Hg Hgs]; subst.
      rewrite Hg. simpl. rewrite add_field_mk.
      rewrite (cons_middle g fs gs') in Hun |- *. rewrite (assoc_L (++)) in Hun |- *.
      assert (unique_fields (fs ++ [g])) as Hfg.
      { clear -Hun. induction gs' as [|h gs' IH] using rev_ind; [by rewrite app_nil_r in Hun|].
        rewrite (assoc_L (++)) in Hun. apply unique_snoc in Hun as [? _]. auto. }
      assert (Hc : bool_decide (hf_name g ∈ (hf_name <$> fs))
                   && negb (bool_decide (hf_name g = lit "connection")) = false).
      { apply unique_snoc in Hfg as [_ Hfg]. repeat case_bool_decide; naive_solver. }
      rewrite Hc. simpl. apply IH; [by destruct g|]. exists gs'. by destruct g.
Qed.

(** ** Lemmas on framing *)

Lemma parse_content_length_spec v n :
  parse_content_length v = Ok n <->
  trim_ows v <> [] /\ Forall (fun c => isdigit c = true) (trim_ows v) /\
  decimal_value (trim_ows v) = n /\ (n <= SIZE_MAX)%N.
Proof.
  unfold parse_content_length. set (w := trim_ows v).
  pose proof (from_chars_all SIZE_MAX w 0) as Hall.
  pose proof (from_chars_value SIZE_MAX w 0) as Hval.
  destruct w as [|c w'] eqn:Ew; [naive_solver|]. rewrite <- Ew in *.
  destruct (fc_ec (from_chars SIZE_MAX w 0)) eqn:Eec.
  - destruct (_ =? _)%nat eqn:El.
    + apply Nat.eqb_eq in El. rewrite Hval by done.
      destruct (proj1 Hall (conj eq_refl El)) as (H1 & H2 & H3). naive_solver.
    + apply Nat.eqb_neq in El. split; [done|]. intros (H1 & H2 & <- & H3).
      destruct (proj2 Hall); done.
  - split; [done|]. intros (H1 & H2 & <- & H3). by destruct (proj2 Hall).
  - split; [done|]. intros (H1 & H2 & <- & H3). by destruct (proj2 Hall).
Qed.

Lemma check_framing_Ok mb r n : check_framing mb r = Ok n <-> framing_ok mb r n.
Proof.
  unfold check_framing, framing_ok, declared_length, bad.
  destruct (req_headers r !! lit "transfer-encoding") as [te|] eqn:Ete.
  { split; [|naive_solver]. intros H. case_all. }
  assert (Hhost : bool_decide (req_version r = HTTP11) && negb
      match req_headers r !! lit "host" with
      | Some h => negb (bool_decide (trim_ows h = [])) | None => false end = false <->
    (req_version r = HTTP11 -> exists h, req_headers r !! lit "host" = Some h /\ trim_ows h <> [])).
  { destruct (req_headers r !! lit "host"); repeat case_bool_decide; simpl; naive_solver. }
  destruct (_ && _) eqn:Eh.
  { split; [done|]. intros [H _]. by apply Hhost in H. }
  destruct (req_headers r !! lit "content-length") as [v|] eqn:Ecl.
  - pose proof (parse_content_length_spec v) as Hspec.
    destruct (parse_content_length v) as [k|e].
    + assert (Hk : k = n <-> trim_ows v <> [] /\ Forall (fun c => isdigit c = true) (trim_ows v) /\
        decimal_value (trim_ows v) = n /\ (n <= SIZE_MAX)%N).
      { rewrite <- Hspec. naive_solver. }
      destruct (mb <? k)%N eqn:Eb; [apply N.ltb_lt in Eb|apply N.ltb_ge in Eb].
      * split; [done|]. intros (_ & _ & Hd & Hle). apply Hk in Hd. lia.
      * split; [intros [= <-]|intros (_ & _ & Hd & _); apply Hk in Hd; by subst].
        split; [by apply Hhost|]. split; [done|]. split; [by apply Hk|done].
    + split; [done|]. intros (_ & _ & Hd & _). by apply Hspec in Hd.
  - split; [intros [= <-]|naive_solver]. split; [by apply Hhost|]. repeat split; lia.
Qed.

(** ** Lemmas on line structure *)

Lemma search_skip pat s t :
  (forall j, (j < length s)%nat -> starts_with pat (drop j s ++ t) = false) ->
  search pat (s ++ t) = (fun i => length s + i)%nat <$> search pat t.
Proof.
  induction s as [|c s IH]; intros H; simpl.
  - by destruct (search pat t).
  - specialize (H 0 ltac:(simpl; lia)) as H0. simpl in H0. rewrite H0.
    rewrite IH; [by destruct (search pat t)|]. intros j Hj. apply (H (S j)). simpl; lia.
Qed.

Lemma no_crlf_inside l r j :
  search CRLF l = None -> (j < length l)%nat -> starts_with CRLF (drop j l ++ CRLF ++ r) = false.
Proof.
  intros H Hj. apply (search_None_drop _ _ j) in H.
  destruct (drop j l) as [|c l'] eqn:E.
  { apply (f_equal length) in E. rewrite length_drop in E. simpl in E. lia. }
  apply search_None_starts in H. destruct l' as [|d l']; [|done].
  simpl. by rewrite andb_false_r.
Qed.

Lemma starts_crlf2 s : starts_with CRLF s = false -> starts_with CRLF2 s = false.
Proof.
  destruct s as [|c [|d s]]; simpl; [done|done|].
  rewrite andb_true_r. intros H. by rewrite andb_assoc, H.
Qed.

Lemma search_crlf2_line l r :
  search CRLF l = None -> starts_with CRLF r = false ->
  search CRLF2 (l ++ CRLF ++ r) = (fun i => length l + 2 + i)%nat <$> search CRLF2 r.
Proof.
  intros Hl Hr. rewrite (assoc_L (++)), search_skip.
  { rewrite length_app. done. }
  intros j Hj. rewrite length_app in Hj. simpl in Hj.
  destruct (decide (j < length l)%nat) as [Hlt|Hge].
  - apply starts_crlf2. rewrite drop_app_le by lia. rewrite <- app_assoc.
    by apply no_crlf_inside.
  - rewrite drop_app_ge by lia. destruct (decide (j = length l)) as [->|].
    + rewrite Nat.sub_diag. simpl. simpl in Hr. done.
    + replace (j - length l)%nat with 1%nat by lia. done.
Qed.

Lemma search_crlf2_last l r :
  search CRLF l = None -> search CRLF2 (l ++ CRLF2 ++ r) = Some (length l).
Proof.
  intros Hl. apply search_here. intros j Hj. apply starts_crlf2.
  change (CRLF2 ++ r) with (CRLF ++ CRLF ++ r). by apply no_crlf_inside.
Qed.

Definition join_lines (l : bytes) (ls : list bytes) : bytes :=
  l ++ concat ((fun x => CRLF ++ x) <$> ls).

Definition plain_line (l : bytes) : Prop :=
  search CRLF l = None /\ starts_with CRLF l = false /\ l <> [].

Lemma join_lines_cons l x ls : join_lines l (x :: ls) = l ++ CRLF ++ join_lines x ls.
Proof. done. Qed.

Lemma join_lines_starts x ls r :
  plain_line x -> starts_with CRLF (join_lines x ls ++ CRLF2 ++ r) = false.
Proof.
  intros (H1 & H2 & H3). destruct x as [|c [|d x]]; [done| |done].
  destruct ls; simpl; by rewrite ?andb_false_r.
Qed.

(** The first empty line after a block of plain lines is the one that ends it. *)
Lemma search_crlf2_block l ls r :
  search CRLF l = None -> Forall plain_line ls ->
  search CRLF2 (join_lines l ls ++ CRLF2 ++ r) = Some (length (join_lines l ls)).
Proof.
  revert l; induction ls as [|x ls IH]; intros l Hl Hls.
  - unfold join_lines. simpl. rewrite app_nil_r. by apply search_crlf2_last.
  - inversion Hls as [|? ? Hx Hls']; subst. rewrite join_lines_cons, <- !app_assoc.
    rewrite search_crlf2_line by (done || by apply join_lines_starts).
    rewrite IH by (apply Hx || done). simpl. rewrite !length_app. simpl. f_equal. lia.
Qed.

Lemma header_lines_join l ls :
  search CRLF l = None -> l <> [] -> Forall plain_line ls ->
  header_lines (join_lines l ls) = l :: ls.
Proof.
  revert l; induction ls as [|x ls IH]; intros l Hl Hne Hls.
  - unfold join_lines. simpl. rewrite app_nil_r. by apply header_lines_None.
  - inversion Hls as [|? ? Hx Hls']; subst. rewrite join_lines_cons, header_lines_app by done.
    f_equal. apply IH; [apply Hx|apply Hx|done].
Qed.

Lemma search_crlf_join l x ls :
  search CRLF l = None -> search CRLF (join_lines l (x :: ls)) = Some (length l).
Proof.
  intros Hl. rewrite join_lines_cons. apply search_here. intros j Hj.
  by apply no_crlf_inside.
Qed.

(** ** The header stage *)

Definition head_line (hb : bytes) : bytes :=
  match search CRLF hb with None => hb | Some e => take e hb end.

Definition head_rest (hb : bytes) : bytes :=
  match search CRLF hb with None => [] | Some e => drop (e + 2) hb end.

Lemma parse_head_unfold mb hb :
  parse_head mb hb =
  match parse_request_line (head_line hb) with
  | Err e => bad e
  | Ok rl =>
      match parse_fields (header_lines (head_rest hb)) (start_request rl) with
      | Err e => bad e
      | Ok r => let! n := check_framing mb r in Ok (r, n)
      end
  end.
Proof.
  unfold parse_head, head_line, head_rest. rewrite find_at_0.
  destruct (search CRLF hb) as [e|]; [|done].
  unfold substr. rewrite drop_0. destruct (parse_request_line _); [|done].
  rewrite header_loop_fields by lia. by destruct (parse_fields _ _).
Qed.

Lemma split_crlf_lines s : Forall (fun l => search CRLF l = None) (split_crlf s).
Proof.
  remember (length s) as n eqn:Hn. revert s Hn.
  induction n as [n IH] using lt_wf_ind; intros s ->.
  destruct (search CRLF s) as [i|] eqn:E.
  - pose proof (search_take CRLF s i ltac:(done) E) as Ht.
    pose proof (search_bound _ _ _ E) as Hb. simpl in Hb.
    rewrite (search_Some_split _ _ _ E), split_crlf_app by done.
    constructor; [done|]. eapply IH; [|done]. rewrite length_drop. simpl. lia.
  - rewrite split_crlf_None by done. by repeat constructor.
Qed.

Lemma drop_trailing_empty_sub ls l : l ∈ drop_trailing_empty ls -> l ∈ ls.
Proof.
  induction ls as [|x ls IH]; simpl; [done|].
  destruct x; [destruct ls|]; set_solver.
Qed.

Lemma header_lines_plain s l : l ∈ header_lines s -> search CRLF l = None.
Proof.
  intros H%drop_trailing_empty_sub. pose proof (split_crlf_lines s) as Hf.
  rewrite Forall_forall in Hf. auto.
Qed.

Lemma head_line_plain hb : search CRLF (head_line hb) = None.
Proof.
  unfold head_line. destruct (search CRLF hb) eqn:E; [|done].
  by apply (search_take CRLF).
Qed.

Lemma parsed_field_wf l g :
  search CRLF l = None -> parse_header_line l = Ok (hf_name g, hf_value g) -> wf_field g.
Proof.
  intros Hl (raw & rest & -> & Ht & Hn & Hv)%parse_header_line_spec.
  unfold wf_field. rewrite Hn, Hv. repeat split.
  - by apply is_token_lower.
  - apply to_lower_idemp.
  - apply trim_idemp.
  - destruct (trim_infix rest) as (t & u & E).
    rewrite cons_middle, (assoc_L (++)) in Hl. rewrite E in Hl.
    rewrite (assoc_L (++)) in Hl. eapply search_None_infix. exact Hl.
Qed.

Lemma parse_head_sound mb hb r n :
  parse_head mb hb = Ok (r, n) -> wf_head r /\ framing_ok mb r n /\ req_body r = [].
Proof.
  rewrite parse_head_unfold.
  destruct (parse_request_line (head_line hb)) as [rl|] eqn:El; [|done].
  destruct (parse_fields _ _) as [r'|] eqn:Ef; [|done].
  intros (k & Hc & [= -> ->])%rbind_Ok. apply check_framing_Ok in Hc.
  apply parse_request_line_sound in El as [El (Hm & Ht & Hs & Hv)].
  apply (parse_fields_mk _ _ _ _ []) in Ef as (gs & Hf & Hu & ->); [|constructor].
  simpl in *. split; [|done].
  assert (Hgs : Forall wf_field gs).
  { apply Forall_forall. intros g [i Hi]%list_elem_of_lookup.
    destruct (Forall2_lookup_r _ _ _ _ _ Hf Hi) as (l & Hli & Hp).
    apply (parsed_field_wf l); [|done]. eapply header_lines_plain, list_elem_of_lookup_2, Hli. }
  repeat split; auto. simpl.
  pose proof (head_line_plain hb) as Hp. rewrite El in Hp. unfold render_request_line in Hp.
  rewrite cons_middle, (assoc_L (++)) in Hp. eapply search_None_infix. exact Hp.
Qed.

(** ** Rendering *)

Lemma no_cr_search s : CR ∉ s -> search CRLF s = None.
Proof.
  induction s as [|c s IH]; [done|]. rewrite not_elem_of_cons. intros [H1 H2]. simpl.
  rewrite bool_decide_eq_false_2 by done. simpl. by rewrite IH.
Qed.

Lemma search_crlf_sep a c b :
  c <> CR -> c <> LF -> search CRLF a = None -> search CRLF b = None ->
  search CRLF (a ++ c :: b) = None.
Proof.
  intros Hc Hl Ha Hb. induction a as [|d a IH]; simpl in *.
  - rewrite (bool_decide_eq_false_2 (CR = c)) by congruence. simpl. by rewrite Hb.
  - destruct a as [|e a]; simpl in *.
    + rewrite (bool_decide_eq_false_2 (CR = c)), (bool_decide_eq_false_2 (LF = c)) by congruence.
      rewrite andb_false_r. simpl. by rewrite Hb.
    + rewrite andb_true_r in *. destruct (_ && _); [done|].
      apply fmap_None in Ha. by rewrite IH.
Qed.

Lemma token_no_cr s : is_token s = true -> search CRLF s = None.
Proof. intros H. apply no_cr_search. apply token_notin; auto. Qed.

Lemma render_field_plain f : wf_field f -> plain_line (render_field f).
Proof.
  intros (Ht & _ & _ & Hv). unfold plain_line, render_field.
  change (lit ": " ++ hf_value f) with (":"%char :: SP :: hf_value f). repeat split.
  - apply search_crlf_sep; [done|done|by apply token_no_cr|].
    apply (search_crlf_sep []); done.
  - apply is_token_forall in Ht as [Hne Ht]. destruct (hf_name f) as [|c n]; [done|].
    inversion Ht as [|? ? Hc]; subst. apply is_tchar_sep in Hc as (_ & _ & _ & Hc & _).
    simpl. by rewrite bool_decide_eq_false_2 by done.
  - by destruct (hf_name f).
Qed.

Lemma render_field_parse f :
  wf_field f -> parse_header_line (render_field f) = Ok (hf_name f, hf_value f).
Proof.
  intros (Ht & Hl & Hv & _). apply parse_header_line_spec.
  exists (hf_name f), (SP :: hf_value f). by rewrite trim_cons_SP, Hl, Hv.
Qed.

Lemma request_line_plain rl : wf_request_line rl -> search CRLF (rl_target rl) = None ->
  search CRLF (render_request_line rl) = None.
Proof.
  intros (Hm & _ & _ & Hv) Ht. unfold render_request_line.
  apply search_crlf_sep; [done|done|by apply token_no_cr|].
  apply search_crlf_sep; [done|done|done|]. by destruct Hv as [-> | ->].
Qed.

Lemma parse_head_complete mb r n :
  wf_head r -> framing_ok mb r n ->
  parse_head mb (render_head r) = Ok (with_body r [], n).
Proof.
  intros (Hm & Ht & Hs & Hc & Hv & Hf & Hu & Hh) Hfr.
  set (rl := {| rl_method := req_method r; rl_target := req_target r;
                rl_version := req_version r |}).
  assert (Hrl : wf_request_line rl) by (by repeat split).
  pose proof (request_line_plain rl Hrl Hc) as Hpl.
  assert (Hj : render_head r = join_lines (render_request_line rl)
                                 (render_field <$> req_header_fields r)).
  { unfold render_head, join_lines. by rewrite <- list_fmap_compose. }
  assert (Hplain : Forall plain_line (render_field <$> req_header_fields r)).
  { rewrite Forall_fmap. eapply Forall_impl; [exact Hf|apply render_field_plain]. }
  assert (Hhl : head_line (render_head r) = render_request_line rl /\
                header_lines (head_rest (render_head r)) = render_field <$> req_header_fields r).
  { rewrite Hj. unfold head_line, head_rest.
    destruct (render_field <$> req_header_fields r) as [|x ls].
    - unfold join_lines. simpl. rewrite app_nil_r, Hpl. done.
    - inversion Hplain as [|? ? Hx Hls]; subst. rewrite search_crlf_join by done.
      rewrite join_lines_cons, take_app_length, <- drop_drop, drop_app_length.
      split; [done|]. apply header_lines_join; [apply Hx|apply Hx|done]. }
  rewrite parse_head_unfold. destruct Hhl as [-> ->].
  rewrite parse_request_line_render by done.
  assert (Hp : parse_fields (render_field <$> req_header_fields r) (start_request rl)
               = Ok (with_body r [])).
  { apply (parse_fields_mk _ _ _ _ []); [constructor|].
    exists (req_header_fields r). split; [|split; [done|]].
    - apply Forall2_fmap_l, Forall_Forall2_diag. eapply Forall_impl; [exact Hf|].
      apply render_field_parse.
    - unfold mk_request, with_body. simpl. by rewrite Hh. }
  rewrite Hp. by rewrite (proj2 (check_framing_Ok mb (with_body r []) n)).
Qed.
