(* ===== verification/ParserFacts.v ===== *)
(** * Properties of the request parser

    Soundness and completeness of [next] for the request grammar of [ParserSpec],
    independence of how the bytes are fragmented, bounded buffering, and the error
    classification. *)

From Stdlib Require Import Ascii String.
From stdpp Require Import base numbers list gmap strings.
From S2P Require Import Prelude CppLib Parser ParserLemmas ParserSpec.

(** ** Parsing a stream *)

(** Call [next] until it returns no request. [fuel] bounds the number of calls. *)
Fixpoint drain (fuel : nat) (p : HttpParser) : list HttpRequest * ParseResult * HttpParser :=
  match fuel with
  | 0 => ([], need_more_data, p)
  | S fuel' =>
      let '(res, p') := next p in
      match request res with
      | Some r => let '(rs, e, q) := drain fuel' p' in (r :: rs, e, q)
      | None => ([], res, p')
      end
  end.

(** A request takes at least four bytes from the buffer ([next_ready_shorter]), so one
    more call than there are bytes is enough. *)
Definition drain_all (p : HttpParser) : list HttpRequest * ParseResult * HttpParser :=
  drain (S (length (buffer_ p))) p.

(** Feed the chunks one after the other, draining the parser after each, and stop at
    the first error, as a connection does. *)
Fixpoint run_chunks (p : HttpParser) (cs : list bytes) :
    list HttpRequest * ParseResult * HttpParser :=
  match cs with
  | [] => ([], need_more_data, p)
  | c :: cs' =>
      let '(rs, e, q) := drain_all (feed p c) in
      if bool_decide (status e = Error) then (rs, e, q)
      else let '(rs', e', q') := run_chunks q cs' in (rs ++ rs', e', q')
  end.

(** ** The outcomes of [next] *)

Definition parser_at (p : HttpParser) (b : bytes) : HttpParser := with_buffer p b.

Lemma with_buffer_id p : with_buffer p (buffer_ p) = p.
Proof. by destruct p. Qed.

Lemma feed_nil p : feed p [] = p.
Proof. unfold feed. rewrite app_nil_r. apply with_buffer_id. Qed.

Lemma feed_app p a b : feed (feed p a) b = feed p (a ++ b).
Proof. unfold feed, with_buffer. simpl. by rewrite (assoc_L (++)). Qed.

(** [next] returns a request exactly when a complete message is at the front. *)
Lemma next_ready_inv p res p' r :
  next p = (res, p') -> request res = Some r ->
  res = request_ready r /\
  exists head r0 n rest,
    search CRLF2 (buffer_ p) = Some (length head) /\
    (len head <= max_header_bytes_ p)%N /\
    parse_head (max_body_bytes_ p) head = Ok (r0, n) /\
    buffer_ p = head ++ CRLF2 ++ req_body r ++ rest /\
    len (req_body r) = n /\ r = with_body r0 (req_body r) /\ p' = with_buffer p rest.
Proof.
  unfold next. destruct (search CRLF2 (buffer_ p)) as [e|] eqn:Es.
  2:{ destruct (_ <? _)%N; naive_solver. }
  destruct (_ <? N.of_nat e)%N eqn:El; [naive_solver|]. apply N.ltb_ge in El.
  destruct (parse_head _ _) as [[r0 n]|[msg k]] eqn:Eh; [|naive_solver].
  destruct (_ <? n)%N eqn:En; [naive_solver|]. apply N.ltb_ge in En.
  intros [= <- <-] [= <-]. simpl. split; [done|].
  pose proof (search_bound _ _ _ Es) as Hb. simpl in Hb.
  assert (Hlh : length (take e (buffer_ p)) = e) by (rewrite length_take; lia).
  exists (take e (buffer_ p)), r0, n, (drop (e + 4 + N.to_nat n) (buffer_ p)).
  unfold len in *. rewrite Hlh. repeat split; auto.
  - rewrite (search_Some_split _ _ _ Es) at 1. f_equal. f_equal. unfold substr.
    rewrite <- (drop_drop _ _ (e + 4)). change (length CRLF2) with 4. by rewrite take_drop.
  - unfold substr. rewrite length_take, length_drop. lia.
Qed.

(** A complete message at the front is returned. *)
Lemma next_ready p head r0 n body rest :
  search CRLF2 (head ++ CRLF2 ++ body ++ rest) = Some (length head) ->
  (len head <= max_header_bytes_ p)%N ->
  parse_head (max_body_bytes_ p) head = Ok (r0, n) -> len body = n ->
  next (with_buffer p (head ++ CRLF2 ++ body ++ rest))
  = (request_ready (with_body r0 body), with_buffer p rest).
Proof.
  intros Hs Hl Hh Hn. unfold next. cbn [buffer_ max_header_bytes_ max_body_bytes_ with_buffer].
  rewrite Hs, take_app_length, Hh. unfold len in *.
  rewrite (proj2 (N.ltb_ge _ _)) by done.
  assert (Hd : drop (length head + 4) (head ++ CRLF2 ++ body ++ rest) = body ++ rest).
  { rewrite <- drop_drop, drop_app_length. done. }
  rewrite (proj2 (N.ltb_ge _ _)).
  2:{ rewrite !length_app. simpl. lia. }
  rewrite <- (drop_drop _ _ (length head + 4)). unfold substr. rewrite Hd.
  replace (N.to_nat n) with (length body) by lia.
  by rewrite take_app_length, drop_app_length.
Qed.

Lemma next_ready_shorter p res p' r :
  next p = (res, p') -> request res = Some r ->
  (length (buffer_ p') + 4 <= length (buffer_ p))%nat.
Proof.
  intros H Hr. destruct (next_ready_inv _ _ _ _ H Hr)
    as (_ & head & r0 & n & rest & _ & _ & _ & -> & _ & _ & ->).
  rewrite !length_app. simpl. lia.
Qed.

Lemma next_keeps p res p' : next p = (res, p') -> request res = None -> p' = p.
Proof.
  unfold next. intros H Hn. repeat case_match; simplify_eq/=; done.
Qed.

Lemma next_limits p res p' :
  next p = (res, p') ->
  max_header_bytes_ p' = max_header_bytes_ p /\ max_body_bytes_ p' = max_body_bytes_ p.
Proof. unfold next. intros H. repeat case_match; simplify_eq/=; done. Qed.

(** Bytes that arrive later do not change a request already complete. *)
Lemma next_ready_extend p res p' r b :
  next p = (res, p') -> request res = Some r -> next (feed p b) = (res, feed p' b).
Proof.
  intros H Hr. destruct (next_ready_inv _ _ _ _ H Hr)
    as (-> & head & r0 & n & rest & Hs & Hl & Hh & Hb & Hn & Hw & ->).
  unfold feed at 1. rewrite Hb, <- !app_assoc.
  rewrite (next_ready p head r0 n (req_body r) (rest ++ b)) by
    (auto; rewrite Hb in Hs; apply (search_app _ _ b) in Hs; by rewrite <- !app_assoc in Hs).
  by rewrite <- Hw.
Qed.

(** ** Draining *)

Lemma drain_fuel fuel1 fuel2 p :
  (length (buffer_ p) < fuel1)%nat -> (length (buffer_ p) < fuel2)%nat ->
  drain fuel1 p = drain fuel2 p.
Proof.
  revert fuel2 p; induction fuel1 as [|f1 IH]; intros f2 p H1 H2; [lia|].
  destruct f2 as [|f2]; [lia|]. simpl. destruct (next p) as [res p'] eqn:E.
  destruct (request res) as [r|] eqn:Er; [|done].
  pose proof (next_ready_shorter _ _ _ _ E Er). by rewrite (IH f2 p') by lia.
Qed.

Lemma drain_all_step p :
  drain_all p =
  let '(res, p') := next p in
  match request res with
  | Some r => let '(rs, e, q) := drain_all p' in (r :: rs, e, q)
  | None => ([], res, p')
  end.
Proof.
  unfold drain_all at 1. simpl. destruct (next p) as [res p'] eqn:E.
  destruct (request res) as [r|] eqn:Er; [|done].
  pose proof (next_ready_shorter _ _ _ _ E Er).
  unfold drain_all. by rewrite (drain_fuel _ (S (length (buffer_ p'))) p') by lia.
Qed.

Lemma status_ready res p p' r : next p = (res, p') -> request res = Some r ->
  status res = RequestReady.
Proof. intros H Hr. by destruct (next_ready_inv _ _ _ _ H Hr) as [-> _]. Qed.

(** Induction on the calls of [next] made by [drain_all]. *)
Lemma drain_ind (P : HttpParser -> Prop) :
  (forall p, (forall res p' r, next p = (res, p') -> request res = Some r -> P p') -> P p) ->
  forall p, P p.
Proof.
  intros H p. remember (length (buffer_ p)) as n eqn:Hn. revert p Hn.
  induction n as [n IH] using lt_wf_ind; intros p ->. apply H.
  intros res p' r E Er. pose proof (next_ready_shorter _ _ _ _ E Er).
  eapply IH; [|done]. lia.
Qed.

Lemma drain_extend p rs e q b :
  drain_all p = (rs, e, q) -> status e <> Error ->
  drain_all (feed p b) = let '(rs', e', q') := drain_all (feed q b) in (rs ++ rs', e', q').
Proof.
  revert rs e q. induction p as [p IH] using drain_ind; intros rs e q Hd He.
  rewrite drain_all_step in Hd. destruct (next p) as [res p'] eqn:E.
  destruct (request res) as [r|] eqn:Er.
  - destruct (drain_all p') as [[rs0 e0] q0] eqn:Ed. injection Hd as <- <- <-.
    rewrite drain_all_step, (next_ready_extend _ _ _ _ b E Er), Er.
    rewrite (IH _ _ _ eq_refl Er _ _ _ Ed He).
    by destruct (drain_all (feed q0 b)) as [[??]?].
  - injection Hd as <- <- <-. apply next_keeps in E; [|done]. subst.
    by destruct (drain_all (feed p b)) as [[??]?].
Qed.

Lemma drain_final p rs e q : drain_all p = (rs, e, q) -> next q = (e, q).
Proof.
  revert rs. induction p as [p IH] using drain_ind; intros rs.
  rewrite drain_all_step. destruct (next p) as [res p'] eqn:E.
  destruct (request res) as [r|] eqn:Er.
  - destruct (drain_all p') as [[rs1 e1] q2] eqn:Ed. intros [= _ <- <-]. eauto.
  - intros [= _ <- <-]. by rewrite <- (next_keeps _ _ _ E Er) in E at 1.
Qed.

Lemma next_stuck q e : next q = (e, q) -> status e <> Error -> e = need_more_data.
Proof.
  intros H He. destruct (request e) as [r|] eqn:Er.
  - pose proof (next_ready_shorter _ _ _ _ H Er). lia.
  - unfold next in H. repeat case_match; simplify_eq/=; done.
Qed.

(** ** Soundness *)

(** C4. What [next] returns is a well-formed request, and it was framed exactly: the
    buffer was a header block that holds no empty line, the empty line, a body of the
    declared length, and the bytes of the following messages, which are all that stays
    buffered. The limits of the parser are respected and kept. *)
Theorem next_sound p r p' :
  next p = (request_ready r, p') ->
  wf_request (max_body_bytes_ p) r /\
  exists head,
    buffer_ p = head ++ CRLF2 ++ req_body r ++ buffer_ p' /\
    search CRLF2 (buffer_ p) = Some (length head) /\
    (len head <= max_header_bytes_ p)%N /\
    (len (req_body r) <= max_body_bytes_ p)%N /\
    max_header_bytes_ p' = max_header_bytes_ p /\ max_body_bytes_ p' = max_body_bytes_ p.
Proof.
  intros H. destruct (next_ready_inv _ _ _ r H eq_refl)
    as (_ & head & r0 & n & rest & Hs & Hl & Hh & Hb & Hn & Hw & ->).
  apply parse_head_sound in Hh as (H1 & H2 & H3). subst n.
  assert (wf_request (max_body_bytes_ p) r) as Hwf by (by rewrite Hw).
  split; [done|]. exists head. repeat split; try done. by destruct Hwf as [_ (_ & _ & _ & ?)].
Qed.

(** ** Completeness *)

(** Searching for the empty line in a rendered request finds the end of its head. *)
Lemma search_render r t :
  wf_head r -> search CRLF2 (render_head r ++ CRLF2 ++ t) = Some (length (render_head r)).
Proof.
  intros (Hm & Ht & Hs & Hc & Hv & Hf & _).
  assert (Hj : render_head r = join_lines
    (render_request_line {| rl_method := req_method r; rl_target := req_target r;
                            rl_version := req_version r |})
    (render_field <$> req_header_fields r)).
  { unfold render_head, join_lines. by rewrite <- list_fmap_compose. }
  rewrite Hj. apply search_crlf2_block.
  - by apply request_line_plain.
  - rewrite Forall_fmap. eapply Forall_impl; [exact Hf|apply render_field_plain].
Qed.

Lemma next_render p r rest :
  wf_request (max_body_bytes_ p) r -> (len (render_head r) <= max_header_bytes_ p)%N ->
  next (with_buffer p (render_request r ++ rest)) = (request_ready r, with_buffer p rest).
Proof.
  intros [Hw Hf] Hl. unfold render_request. rewrite <- !app_assoc.
  rewrite (next_ready p _ (with_body r []) (len (req_body r))); [by destruct r|..]; try done.
  - by apply search_render.
  - by apply parse_head_complete.
Qed.

(** A strict prefix of a rendered request makes [next] ask for more data, provided the
    head is at least three bytes below the header limit. *)
Lemma next_prefix p r s t :
  wf_request (max_body_bytes_ p) r -> (len (render_head r) + 3 <= max_header_bytes_ p)%N ->
  s ++ t = render_request r -> t <> [] ->
  next (with_buffer p s) = (need_more_data, with_buffer p s).
Proof.
  intros [Hw Hf] Hl Hst Ht. unfold next. cbn [buffer_ max_header_bytes_ max_body_bytes_ with_buffer].
  assert (Hsr : search CRLF2 (s ++ t) = Some (length (render_head r)))
    by (rewrite Hst; unfold render_request; by apply search_render).
  assert (Hlen : (length s < length (render_request r))%nat).
  { rewrite <- Hst, length_app. destruct t; [done|]. simpl. lia. }
  unfold render_request in Hlen. rewrite !length_app in Hlen. simpl in Hlen.
  destruct (search CRLF2 s) as [i|] eqn:Es.
  - pose proof (search_app _ _ t _ Es) as Es'. rewrite Hsr in Es'. injection Es' as <-.
    pose proof (search_bound _ _ _ Es) as Hb. simpl in Hb. unfold len in *.
    rewrite (proj2 (N.ltb_ge _ _)) by lia.
    assert (Htk : take (length (render_head r)) s = render_head r).
    { rewrite <- (take_app_le s t) by lia. rewrite Hst. unfold render_request.
      apply take_app_length. }
    rewrite Htk, (parse_head_complete _ _ _ Hw Hf).
    unfold len. by rewrite (proj2 (N.ltb_lt _ _)) by lia.
  - rewrite (proj2 (N.ltb_ge _ _)); [done|]. unfold len in *.
    destruct (decide (length (render_head r) + 4 <= length s)%nat); [|lia].
    by rewrite (search_app_inv _ _ _ _ Hsr) in Es by (simpl; lia).
Qed.

(** ** Streams and fragmentation *)

Definition fits (p : HttpParser) (r : HttpRequest) : Prop :=
  wf_request (max_body_bytes_ p) r /\ (len (render_head r) + 3 <= max_header_bytes_ p)%N.

(** A prefix of a stream of requests: the complete ones come out, the rest stays. *)
Lemma drain_prefix p rs s t :
  Forall (fits p) rs -> s ++ t = concat (render_request <$> rs) ->
  exists rs1 rs2 s', rs = rs1 ++ rs2 /\
    drain_all (with_buffer p s) = (rs1, need_more_data, with_buffer p s') /\
    s' ++ t = concat (render_request <$> rs2) /\ Forall (fits p) rs2.
Proof.
  revert s; induction rs as [|r rs IH]; intros s Hf Hst.
  - apply app_eq_nil in Hst as [-> ->]. exists [], [], []. repeat split; [|constructor].
    rewrite drain_all_step. unfold next. simpl.
    by rewrite (proj2 (N.ltb_ge _ _)) by (unfold len; simpl; lia).
  - inversion Hf as [|? ? [Hr Hl] Hrs]; subst. simpl in Hst.
    destruct (decide (length s < length (render_request r))%nat) as [Hlt|Hge].
    + exists [], (r :: rs), s. repeat split; auto.
      pose proof (app_split_le _ _ _ _ Hst ltac:(lia)) as Hs. symmetry in Hs.
      rewrite drain_all_step, (next_prefix _ _ _ _ Hr Hl Hs); [done|].
      intros Hd. rewrite Hd, app_nil_r in Hs. subst. lia.
    + pose proof (app_split_le _ _ _ _ (eq_sym Hst) ltac:(lia)) as Hs.
      destruct (IH (drop (length (render_request r)) s)) as (rs1 & rs2 & s' & -> & Hd & Hs' & Hf').
      * done.
      * rewrite Hs, <- app_assoc in Hst. by apply app_inv_head in Hst.
      * exists (r :: rs1), rs2, s'. repeat split; auto.
        rewrite drain_all_step, Hs, next_render by (done || lia). simpl.
        by rewrite Hd.
Qed.

Lemma drained_stream p rs s :
  Forall (fits p) rs -> s = concat (render_request <$> rs) ->
  drain_all (with_buffer p s) = (rs, need_more_data, with_buffer p []).
Proof.
  intros Hf Hs. destruct (drain_prefix p rs s [] Hf) as (rs1 & rs2 & s' & -> & Hd & Hs' & Hf2).
  { by rewrite app_nil_r. }
  destruct rs2 as [|r rs2].
  - rewrite app_nil_r in Hs'. simpl in Hs'. subst s'. by rewrite app_nil_r.
  - exfalso. rewrite app_nil_r in Hs'. simpl in Hs'.
    apply Forall_cons in Hf2 as [[Hr Hl] _].
    (* the remainder starts with a complete request, which draining would have taken *)
    apply drain_final in Hd. rewrite Hs', next_render in Hd by (done || lia).
    discriminate Hd.
Qed.

Lemma run_chunks_prefix p cs rs s :
  Forall (fits p) rs -> s ++ concat cs = concat (render_request <$> rs) ->
  drain_all (with_buffer p s) = ([], need_more_data, with_buffer p s) ->
  run_chunks (with_buffer p s) cs = (rs, need_more_data, with_buffer p []).
Proof.
  revert rs s; induction cs as [|c cs IH]; intros rs s Hf Hst Hd; simpl in Hst |- *.
  - rewrite app_nil_r in Hst. pose proof (drained_stream p rs s Hf Hst) as Hd'.
    rewrite Hd in Hd'. by injection Hd' as <- ->.
  - rewrite (assoc_L (++)) in Hst.
    destruct (drain_prefix p rs (s ++ c) (concat cs) Hf Hst)
      as (rs1 & rs2 & s' & -> & Hd1 & Hs' & Hf2).
    change (feed (with_buffer p s) c) with (with_buffer p (s ++ c)). rewrite Hd1.
    rewrite bool_decide_eq_false_2 by done.
    assert (Hd2 : drain_all (with_buffer p s') = ([], need_more_data, with_buffer p s')).
    { apply drain_final in Hd1. by rewrite drain_all_step, Hd1. }
    by rewrite (IH rs2 s' Hf2 Hs' Hd2).
Qed.

(** ** Examples *)

Definition field (n v : string) : HeaderField := {| hf_name := lit n; hf_value := lit v |}.

Definition get_example : HttpRequest :=
  mk_request (lit "GET") (lit "/index.html") HTTP11
    [field "host" "example.com"; field "connection" "x"; field "connection" "close"].

Definition post_example : HttpRequest :=
  with_body (mk_request (lit "POST") (lit "/form") HTTP11
               [field "host" "example.com"; field "content-length" "5"]) (lit "hello").

(** The parser on concrete input. *)
Example next_post_bytes :
  next (feed default_parser
    (lit "POST /form HTTP/1.1" ++ CRLF ++ lit "Host:  example.com " ++ CRLF ++
     lit "Content-Length: 5" ++ CRLF2 ++ lit "helloGET /"))
  = (request_ready post_example, feed default_parser (lit "GET /")).
Proof. vm_compute. reflexivity. Qed.

Example next_duplicate_host :
  error (next (feed default_parser
    (lit "GET / HTTP/1.1" ++ CRLF ++ lit "Host: a" ++ CRLF ++ lit "HOST: b" ++ CRLF2))).1
  = lit "duplicate header field: host".
Proof. vm_compute. reflexivity. Qed.

(** [wf_request] is decided by running the header stage on the rendered head. *)
Lemma wf_request_parse mb r :
  wf_request mb r <->
  parse_head mb (render_head r) = Ok (with_body r [], len (req_body r)).
Proof.
  split.
  - intros [H1 H2]. by apply parse_head_complete.
  - intros (H1 & H2 & _)%parse_head_sound. done.
Qed.

#[export] Instance wf_request_dec mb r : Decision (wf_request mb r).
Proof.
  refine (cast_if (decide (parse_head mb (render_head r)
                           = Ok (with_body r [], len (req_body r)))));
    by rewrite wf_request_parse.
Defined.

Lemma examples_fit : Forall (fits default_parser) [get_example; post_example].
Proof.
  constructor; [|constructor; [|constructor]]; (split; [apply wf_request_parse|done]);
    vm_compute; reflexivity.
Qed.

(** Witness of [next_sound]: a request with a body, followed by other bytes. *)
Lemma next_sound_witness :
  wf_request (1024 * 1024) post_example /\
  exists head,
    render_request post_example ++ lit "GET" = head ++ CRLF2 ++ lit "hello" ++ lit "GET".
Proof.
  destruct (next_sound (feed default_parser (render_request post_example ++ lit "GET"))
              post_example (feed default_parser (lit "GET"))) as (H1 & head & H2 & _).
  { vm_compute. reflexivity. }
  split; [exact H1|]. exists head. exact H2.
Defined.

(** C5. Round trip through the wire, for every way the network may cut the stream: the
    bytes of any list of well-formed requests, fed in any chunks and drained after each
    chunk, give back exactly those requests in order and leave the buffer empty. Each
    head has to stay three bytes below the header limit (see [header_limit_window]). *)
Theorem stream_roundtrip p rs cs :
  Forall (fits p) rs -> concat cs = concat (render_request <$> rs) ->
  run_chunks (with_buffer p []) cs = (rs, need_more_data, with_buffer p []).
Proof.
  intros Hf Hc. apply run_chunks_prefix; [done|done|].
  rewrite drain_all_step. unfold next. simpl.
  by rewrite (proj2 (N.ltb_ge _ _)) by (unfold len; simpl; lia).
Qed.

Lemma stream_roundtrip_witness :
  let s := render_request get_example ++ render_request post_example in
  run_chunks default_parser [take 7 s; substr s 7 60; []; drop 67 s]
  = ([get_example; post_example], need_more_data, default_parser).
Proof.
  refine (stream_roundtrip default_parser [get_example; post_example] _ examples_fit _).
  vm_compute. reflexivity.
Defined.

(** C14. Fragmentation does not matter for accepted input: if feeding the chunks one by
    one ends without an error, feeding their concatenation at once gives the same
    requests, the same outcome and the same buffered bytes. *)
Theorem fragmentation_independent p cs rs e q :
  drain_all p = ([], need_more_data, p) ->
  run_chunks p cs = (rs, e, q) -> status e <> Error ->
  drain_all (feed p (concat cs)) = (rs, e, q).
Proof.
  revert p rs; induction cs as [|c cs IH]; intros p rs Hp Hr He; simpl in *.
  - injection Hr as <- <- <-. by rewrite feed_nil.
  - destruct (drain_all (feed p c)) as [[rs1 e1] q1] eqn:Ed.
    case_bool_decide; [naive_solver|].
    destruct (run_chunks q1 cs) as [[rs2 e2] q2] eqn:Er. injection Hr as <- <- <-.
    rewrite <- feed_app, (drain_extend _ _ _ _ _ Ed) by done.
    rewrite (IH q1 rs2); [done| |done|done].
    pose proof (drain_final _ _ _ _ Ed) as Hn. rewrite drain_all_step, Hn.
    by rewrite (next_stuck _ _ Hn).
Qed.

Lemma fragmentation_independent_witness :
  drain_all (feed default_parser (concat [take 9 (render_request get_example);
                                          drop 9 (render_request get_example) ++ lit "GE"]))
  = ([get_example], need_more_data, feed default_parser (lit "GE")).
Proof. apply fragmentation_independent; [vm_compute; reflexivity..|done]. Defined.

(** Once the end of a header block is buffered, the outcome of [next] is settled
    unless the body is incomplete: more bytes change neither a request nor an error. *)
Theorem next_settled p res p' b i :
  search CRLF2 (buffer_ p) = Some i ->
  next p = (res, p') -> status res <> NeedMoreData ->
  next (feed p b) = (res, feed p' b).
Proof.
  intros Hs H Hn. destruct (request res) as [r|] eqn:Er; [by eapply next_ready_extend|].
  pose proof (next_keeps _ _ _ H Er) as ->. revert H. unfold next.
  change (buffer_ (feed p b)) with (buffer_ p ++ b).
  change (max_header_bytes_ (feed p b)) with (max_header_bytes_ p).
  change (max_body_bytes_ (feed p b)) with (max_body_bytes_ p).
  rewrite (search_app _ _ b _ Hs), Hs. pose proof (search_bound _ _ _ Hs) as Hb. simpl in Hb.
  rewrite take_app_le by lia.
  destruct (_ <? N.of_nat i)%N; [intros [= <-]; done|].
  destruct (parse_head _ _) as [[r n]|[msg k]]; [|intros [= <-]; done].
  destruct (_ <? n)%N; intros H; by simplify_eq.
Qed.

Lemma next_settled_witness :
  status (next (feed (feed default_parser (lit "GET x" ++ CRLF2)) (lit "GET / HTTP/1.1"))).1
  = Error.
Proof.
  rewrite (next_settled (feed default_parser (lit "GET x" ++ CRLF2))
    (parse_error (lit "request line is missing target or version") BadRequest)
    (feed default_parser (lit "GET x" ++ CRLF2)) (lit "GET / HTTP/1.1") 5);
    [reflexivity|vm_compute; reflexivity|vm_compute; reflexivity|discriminate].
Defined.

(** The header limit depends on fragmentation within three bytes of the limit: a
    request whose head is at most the limit is accepted when it arrives at once, and
    refused when the read ends in the middle of the empty line, because an incomplete
    block is measured with the bytes of the empty line and a complete one without. *)
Theorem header_limit_window p r :
  wf_request (max_body_bytes_ p) r ->
  (len (render_head r) <= max_header_bytes_ p < len (render_head r) + 3)%N ->
  next (with_buffer p (render_request r)) = (request_ready r, with_buffer p []) /\
  exists s t, render_request r = s ++ t /\
    next (with_buffer p s)
    = (parse_error (lit "headers exceed configured parser limit") BadRequest, with_buffer p s).
Proof.
  intros Hw [Hl Hu]. split.
  { rewrite <- (app_nil_r (render_request r)). by apply next_render. }
  exists (render_head r ++ [CR; LF; CR]), (LF :: req_body r).
  split; [unfold render_request; by rewrite <- app_assoc|].
  unfold next. cbn [buffer_ max_header_bytes_ with_buffer].
  destruct (search CRLF2 _) as [i|] eqn:E.
  - exfalso. pose proof (search_bound _ _ _ E) as Hb.
    apply (search_app _ _ [LF]) in E. rewrite <- app_assoc in E. simpl in E.
    pose proof (search_render r [] (proj1 Hw)) as E'. simpl in E'. rewrite E' in E.
    injection E as <-. rewrite length_app in Hb. simpl in Hb. lia.
  - rewrite (proj2 (N.ltb_lt _ _)); [done|].
    unfold len in *. rewrite length_app. simpl. lia.
Qed.

Lemma header_limit_window_witness :
  let p := make_parser (len (render_head get_example)) 0 in
  next (with_buffer p (render_request get_example)) = (request_ready get_example, p) /\
  exists s t, render_request get_example = s ++ t /\
    next (with_buffer p s)
    = (parse_error (lit "headers exceed configured parser limit") BadRequest, with_buffer p s).
Proof.
  apply (header_limit_window (make_parser (len (render_head get_example)) 0) get_example).
  - apply wf_request_parse. vm_compute. reflexivity.
  - simpl. lia.
Defined.

Lemma need_more_limit p p' :
  next p = (need_more_data, p') ->
  p' = p /\ (buffered_bytes p <= max_header_bytes_ p + 3 + max_body_bytes_ p)%N.
Proof.
  intros H. split; [by apply next_keeps in H|]. unfold next in H. unfold buffered_bytes.
  destruct (search CRLF2 (buffer_ p)) as [i|] eqn:Es.
  - destruct (_ <? N.of_nat i)%N eqn:El; [done|]. apply N.ltb_ge in El.
    destruct (parse_head _ _) as [[r n]|[msg k]] eqn:Eh; [|done].
    destruct (_ <? n)%N eqn:En; [|done]. apply N.ltb_lt in En.
    apply parse_head_sound in Eh as (_ & (_ & _ & _ & Hn) & _). lia.
  - destruct (_ <? len _)%N eqn:El; [done|]. apply N.ltb_ge in El. lia.
Qed.

(** Buffering is bounded: when [next] asks for more data, no more than a head at its
    limit, the empty line and a body at its limit (less one byte) are buffered. *)
Theorem need_more_bounded p p' :
  next p = (need_more_data, p') ->
  p' = p /\ (buffered_bytes p <= max_header_bytes_ p + 3 + max_body_bytes_ p)%N.
Proof. apply need_more_limit. Qed.

Lemma need_more_bounded_witness :
  next (feed default_parser (lit "GET /")) = (need_more_data, feed default_parser (lit "GET /")) /\
  (5 <= 16 * 1024 + 3 + 1024 * 1024)%N.
Proof.
  split; [vm_compute; reflexivity|].
  apply (need_more_bounded (feed default_parser (lit "GET /")) (feed default_parser (lit "GET /"))).
  vm_compute. reflexivity.
Defined.

(** ** Errors *)

(** The request line and fields of a header block, before the framing checks. *)
Definition head_fields (hb : bytes) : result bytes HttpRequest :=
  let! rl := parse_request_line (head_line hb) in
  parse_fields (header_lines (head_rest hb)) (start_request rl).

Definition host_present (r : HttpRequest) : Prop :=
  req_version r = HTTP11 ->
  exists h, req_headers r !! lit "host" = Some h /\ trim_ows h <> [].

Lemma parse_head_fields mb hb :
  parse_head mb hb =
  match head_fields hb with
  | Err e => bad e
  | Ok r => let! n := check_framing mb r in Ok (r, n)
  end.
Proof.
  rewrite parse_head_unfold. unfold head_fields. by destruct (parse_request_line _).
Qed.

Lemma check_framing_te mb r te :
  host_present r -> req_headers r !! lit "transfer-encoding" = Some te ->
  check_framing mb r =
  match req_headers r !! lit "content-length" with
  | Some _ => bad (lit "request contains both Transfer-Encoding and Content-Length")
  | None => Err (lit "Transfer-Encoding is not supported", UnsupportedTransferEncoding)
  end.
Proof.
  intros Hh Hte. unfold check_framing. rewrite Hte.
  replace (_ && _) with false; [done|].
  case_bool_decide as Hv; [|done]. destruct (Hh Hv) as (h & -> & Ht).
  by rewrite bool_decide_eq_false_2.
Qed.

(** Transfer-Encoding is never interpreted. With a complete head within the limit
    whose fields are valid, a request that has the field is refused whatever follows it:
    as a bad request if it also has Content-Length (ambiguous framing), as unsupported
    if not; the buffer is left alone. The unsupported kind arises in no other way. *)
Theorem transfer_encoding_refused p i r te :
  search CRLF2 (buffer_ p) = Some i -> (N.of_nat i <= max_header_bytes_ p)%N ->
  head_fields (take i (buffer_ p)) = Ok r -> host_present r ->
  req_headers r !! lit "transfer-encoding" = Some te ->
  next p =
  (match req_headers r !! lit "content-length" with
   | Some _ => parse_error (lit "request contains both Transfer-Encoding and Content-Length")
                 BadRequest
   | None => parse_error (lit "Transfer-Encoding is not supported") UnsupportedTransferEncoding
   end, p).
Proof.
  intros Hs Hl Hf Hh Hte. unfold next. rewrite Hs, (proj2 (N.ltb_ge _ _)) by done.
  rewrite parse_head_fields, Hf, (check_framing_te _ _ _ Hh Hte).
  by destruct (req_headers r !! lit "content-length").
Qed.

Definition chunked_example : bytes :=
  lit "POST / HTTP/1.1" ++ CRLF ++ lit "Host: a" ++ CRLF ++ lit "Transfer-Encoding: chunked".

Lemma transfer_encoding_refused_witness :
  error_kind (next (feed default_parser (chunked_example ++ CRLF2 ++ lit "0"))).1
  = UnsupportedTransferEncoding.
Proof.
  rewrite (transfer_encoding_refused (feed default_parser (chunked_example ++ CRLF2 ++ lit "0"))
    (length chunked_example)
    (mk_request (lit "POST") (lit "/") HTTP11
       [field "host" "a"; field "transfer-encoding" "chunked"]) (lit "chunked"));
    [reflexivity|vm_compute; reflexivity|vm_compute; discriminate|vm_compute; reflexivity| |
     vm_compute; reflexivity].
  intros _. exists (lit "a"). split; [vm_compute; reflexivity|vm_compute; discriminate].
Defined.

(** The unsupported kind is reported only for a request that has Transfer-Encoding
    and no Content-Length, and then nothing is consumed. *)
Theorem unsupported_only_te p res p' :
  next p = (res, p') -> error_kind res = UnsupportedTransferEncoding ->
  status res = Error /\ p' = p /\
  exists i r te, search CRLF2 (buffer_ p) = Some i /\
    head_fields (take i (buffer_ p)) = Ok r /\
    req_headers r !! lit "transfer-encoding" = Some te /\
    req_headers r !! lit "content-length" = None.
Proof.
  unfold next. intros H Hk.
  destruct (search CRLF2 (buffer_ p)) as [i|] eqn:Es; [|by case_all].
  destruct (_ <? N.of_nat i)%N; [by simplify_eq|].
  rewrite parse_head_fields in H.
  destruct (head_fields _) as [r|e] eqn:Ef; [|by simplify_eq/=].
  unfold check_framing in H.
  destruct (_ && negb _); [by simplify_eq/=|].
  destruct (req_headers r !! lit "transfer-encoding") as [te|] eqn:Et,
           (req_headers r !! lit "content-length") as [cl|] eqn:Ec;
    cbn [rbind bad] in H.
  - by simplify_eq/=.
  - simplify_eq/=. repeat split. by exists i, r, te.
  - destruct (parse_content_length cl); [destruct (_ <? a)%N|]; cbn [rbind bad] in H;
      try destruct (_ <? a)%N; by simplify_eq/=.
  - destruct (_ <? 0)%N; by simplify_eq/=.
Qed.

Lemma unsupported_only_te_witness :
  exists i r te, search CRLF2 (chunked_example ++ CRLF2) = Some i /\
    head_fields (take i (chunked_example ++ CRLF2)) = Ok r /\
    req_headers r !! lit "transfer-encoding" = Some te /\
    req_headers r !! lit "content-length" = None.
Proof.
  apply (unsupported_only_te (feed default_parser (chunked_example ++ CRLF2))
    (parse_error (lit "Transfer-Encoding is not supported") UnsupportedTransferEncoding)
    (feed default_parser (chunked_example ++ CRLF2))); vm_compute; reflexivity.
Defined.

(** A Content-Length value is accepted exactly when, without surrounding whitespace,
    it is a non-empty string of decimal digits whose value fits in 64 bits, and then
    that value is the result: signs, inner spaces, other bytes and overflow are errors. *)
Theorem content_length_exact v n :
  parse_content_length v = Ok n <->
  trim_ows v <> [] /\ Forall (fun c => isdigit c = true) (trim_ows v) /\
  decimal_value (trim_ows v) = n /\ (n < 2 ^ 64)%N.
Proof.
  rewrite parse_content_length_spec.
  assert (n <= SIZE_MAX <-> n < 2 ^ 64)%N as -> by (unfold SIZE_MAX; lia). done.
Qed.

(** The index loop over the header lines terminates with the fuel [next] gives it
    and computes the fold of the fields over the CRLF-separated lines. *)
Theorem header_loop_total hb start r :
  header_loop (S (length hb)) hb start r
  = Some (parse_fields (header_lines (drop start hb)) r).
Proof. apply header_loop_fields; lia. Qed.
