(* ===== verification/Response.v ===== *)
(** * Responses and their serialization

    Models [include/http/response.hpp] and [src/response.cpp]. The header table of a
    response is a [std::unordered_map], whose iteration order is unspecified: the
    serializer takes the order as a parameter ([MapOrder]), and the theorems hold for
    every order. *)

From Stdlib Require Import Ascii String.
From stdpp Require Import base numbers list gmap strings.
From S2P Require Import Prelude CppLib Parser ParserLemmas ParserSpec.

(** ** Data *)

Record HttpResponse := {
  resp_version : bytes;
  status_code : Z;
  reason_phrase : bytes;
  resp_headers : gmap bytes bytes;
  resp_body : bytes;
  content_length : option N;
  suppress_body : bool
}.

(** The default member initializers. *)
Definition default_response : HttpResponse :=
  {| resp_version := HTTP11; status_code := 200; reason_phrase := lit "OK";
     resp_headers := ∅; resp_body := []; content_length := None; suppress_body := false |}.

(** What a range-based [for] over an [unordered_map] may visit: every entry once, in
    some order. *)
Class MapOrder := {
  map_order : gmap bytes bytes -> list (bytes * bytes);
  map_order_perm m : map_order m ≡ₚ map_to_list m
}.

(** One possible order. *)
Definition map_to_list_order : MapOrder :=
  {| map_order := map_to_list; map_order_perm m := reflexivity _ |}.

(** ** The serializer *)

Definition is_content_length (name : bytes) : bool :=
  bool_decide (to_lower_ascii name = lit "content-length").

Definition serialize_response `{MapOrder} (response : HttpResponse) : bytes :=
  let out := resp_version response ++ [SP] ++ print_Z (status_code response) ++ [SP] ++
             reason_phrase response ++ CRLF in
  let out := foldl (fun out nv =>
                      if is_content_length nv.1 then out
                      else out ++ nv.1 ++ lit ": " ++ nv.2 ++ CRLF)
                   out (map_order (resp_headers response)) in
  let n := default (len (resp_body response)) (content_length response) in
  let out := out ++ lit "Content-Length: " ++ print_N n ++ CRLF in
  let out := out ++ CRLF in
  if suppress_body response then out else out ++ resp_body response.

(** ** What a client sees *)

Definition status_line (r : HttpResponse) : bytes :=
  resp_version r ++ SP :: print_Z (status_code r) ++ SP :: reason_phrase r.

(** The length a response declares, and the bytes it sends after the empty line. *)
Definition declared (r : HttpResponse) : N :=
  default (len (resp_body r)) (content_length r).

Definition payload (r : HttpResponse) : bytes :=
  if suppress_body r then [] else resp_body r.

(** The fields a response shows besides the generated one. *)
Definition shown `{MapOrder} (r : HttpResponse) : list (bytes * bytes) :=
  filter (fun nv => is_content_length nv.1 = false) (map_order (resp_headers r)).

Definition header_line (nv : bytes * bytes) : bytes := nv.1 ++ lit ": " ++ nv.2.

Definition length_line (r : HttpResponse) : bytes :=
  lit "Content-Length: " ++ print_N (declared r).

(** The values a client that reads the field lines finds for a lower-case name. *)
Definition field_values (name : bytes) (lines : list bytes) : list bytes :=
  omap (fun l => match parse_header_line l with
                 | Ok (n, v) => if bool_decide (n = name) then Some v else None
                 | Err _ => None
                 end) lines.

(** No part of a response can break out of its line. *)
Definition safe_response (r : HttpResponse) : Prop :=
  search CRLF (resp_version r) = None /\ search CRLF (reason_phrase r) = None /\
  map_Forall (fun n v => is_token n = true /\ search CRLF v = None) (resp_headers r).

(** ** Lemmas *)

Section Serialize.
Context `{MapOrder}.

Lemma foldl_lines (l : list (bytes * bytes)) out :
  foldl (fun out nv =>
           if is_content_length nv.1 then out
           else out ++ nv.1 ++ lit ": " ++ nv.2 ++ CRLF) (out ++ CRLF) l
  = (out ++ concat ((fun x => CRLF ++ header_line x)
                      <$> filter (fun nv => is_content_length nv.1 = false) l)) ++ CRLF.
Proof.
  revert out; induction l as [|nv l IH]; intros out; cbn [foldl].
  - simpl. by rewrite app_nil_r.
  - destruct (is_content_length nv.1) eqn:E.
    + rewrite IH, filter_cons_False by (by rewrite E). done.
    + rewrite filter_cons_True by done.
      replace ((out ++ CRLF) ++ nv.1 ++ lit ": " ++ nv.2 ++ CRLF)
        with ((out ++ CRLF ++ header_line nv) ++ CRLF)
        by (unfold header_line; by rewrite <- !app_assoc).
      rewrite IH, fmap_cons. cbn [concat]. by rewrite <- !app_assoc.
Qed.

(** The serialized form is a block of lines, the empty line and the payload. *)
Lemma serialize_lines r :
  serialize_response r =
  join_lines (status_line r) ((header_line <$> shown r) ++ [length_line r])
  ++ CRLF2 ++ payload r.
Proof.
  unfold serialize_response.
  replace (resp_version r ++ [SP] ++ print_Z (status_code r) ++ [SP] ++ reason_phrase r ++ CRLF)
    with (status_line r ++ CRLF) by (unfold status_line; by rewrite <- !app_assoc; simpl; rewrite <- app_assoc).
  rewrite foldl_lines. fold (shown r). unfold join_lines, payload, length_line.
  rewrite fmap_app, concat_app, <- list_fmap_compose. simpl.
  fold (declared r). destruct (suppress_body r); by rewrite <- !app_assoc; simpl; rewrite ?app_nil_r, <- ?app_assoc.
Qed.

Lemma header_line_plain nv :
  is_token nv.1 = true -> search CRLF nv.2 = None -> plain_line (header_line nv).
Proof.
  destruct nv as [n v]. simpl. intros Ht Hv. unfold plain_line, header_line. simpl.
  repeat split.
  - apply search_crlf_sep; [done|done|by apply token_no_cr|].
    apply (search_crlf_sep []); done.
  - apply is_token_forall in Ht as [Hne Ht]. destruct n as [|c n]; [done|].
    inversion Ht as [|? ? Hc]; subst. apply is_tchar_sep in Hc as (_ & _ & _ & Hc & _).
    simpl. by rewrite bool_decide_eq_false_2 by done.
  - by destruct n.
Qed.

Lemma print_no_crlf n : search CRLF (print_N n) = None.
Proof.
  apply no_cr_search. intros Hin. pose proof (print_N_digits n) as Hd.
  rewrite Forall_forall in Hd. specialize (Hd _ Hin). vm_compute in Hd. done.
Qed.

Lemma print_Z_no_crlf z : search CRLF (print_Z z) = None.
Proof.
  unfold print_Z. destruct (z <? 0)%Z; [|apply print_no_crlf].
  apply (search_crlf_sep []); [done|done|done|apply print_no_crlf].
Qed.

Lemma status_line_plain r : safe_response r -> search CRLF (status_line r) = None.
Proof.
  intros (Hv & Hr & _). unfold status_line.
  apply search_crlf_sep; [done|done|done|].
  apply search_crlf_sep; [done|done|apply print_Z_no_crlf|done].
Qed.

Lemma shown_spec r n v :
  (n, v) ∈ shown r <-> resp_headers r !! n = Some v /\ is_content_length n = false.
Proof.
  unfold shown. rewrite list_elem_of_filter, (map_order_perm (resp_headers r)), elem_of_map_to_list.
  naive_solver.
Qed.

Lemma lines_plain r :
  safe_response r -> Forall plain_line ((header_line <$> shown r) ++ [length_line r]).
Proof.
  intros (_ & _ & Hh). apply Forall_app. split.
  - rewrite Forall_fmap. apply Forall_forall. intros [n v] [Hl _]%shown_spec.
    destruct (Hh _ _ Hl). by apply header_line_plain.
  - apply Forall_singleton.
    change (length_line r) with (header_line (lit "Content-Length", print_N (declared r))).
    apply header_line_plain; [done|apply print_no_crlf].
Qed.

Lemma header_line_parse nv :
  is_token nv.1 = true ->
  parse_header_line (header_line nv) = Ok (to_lower_ascii nv.1, trim_ows nv.2).
Proof.
  intros Ht. apply parse_header_line_spec. exists nv.1, (SP :: nv.2).
  by rewrite trim_cons_SP.
Qed.

Lemma trim_print n : trim_ows (print_N n) = print_N n.
Proof.
  assert (Hltrim : forall s, Forall (fun c => isdigit c = true) s -> ltrim s = s).
  { intros [|c s] Hf; [done|]. apply ltrim_head_fix. inversion Hf as [|? ? Hc]; subst.
    unfold is_ows. by rewrite !bool_decide_eq_false_2 by (intros ->; vm_compute in Hc; done). }
  rewrite trim_ows_spec. unfold rtrim. pose proof (print_N_digits n) as Hd.
  rewrite (Hltrim (print_N n)) by done. rewrite Hltrim by (by apply Forall_reverse).
  apply reverse_involutive.
Qed.

Lemma field_values_app n ls ls' :
  field_values n (ls ++ ls') = field_values n ls ++ field_values n ls'.
Proof. unfold field_values. by rewrite omap_app. Qed.

Lemma field_values_line n nv :
  is_token nv.1 = true -> to_lower_ascii nv.1 = n ->
  field_values n [header_line nv] = [trim_ows nv.2].
Proof.
  intros Ht <-. unfold field_values. cbn [omap list_omap].
  rewrite header_line_parse by done. by rewrite bool_decide_eq_true_2.
Qed.

Lemma shown_no_length r :
  safe_response r -> field_values (lit "content-length") (header_line <$> shown r) = [].
Proof.
  intros (_ & _ & Hh). unfold field_values.
  assert (Hall : Forall (fun nv => is_token nv.1 = true /\ is_content_length nv.1 = false) (shown r)).
  { apply Forall_forall. intros [n v] [Hl Hc]%shown_spec. by destruct (Hh _ _ Hl). }
  induction (shown r) as [|nv l IH]; [done|]. apply Forall_cons in Hall as [[Ht Hc] Hall].
  simpl. rewrite header_line_parse by done. unfold is_content_length in Hc.
  rewrite Hc. by apply IH.
Qed.

(** The message [s] is one response: the first empty line ends its head, exactly one of
    its field lines is a Content-Length, that of [r], and the payload of [r] follows. *)
Definition framed (r : HttpResponse) (s : bytes) : Prop :=
  exists head lines,
    s = head ++ CRLF2 ++ payload r /\
    search CRLF2 s = Some (length head) /\
    header_lines head = status_line r :: lines /\
    exists v, field_values (lit "content-length") lines = [v] /\
      parse_content_length v = Ok (declared r).

Lemma serialize_framed r :
  safe_response r -> (declared r < 2 ^ 64)%N -> framed r (serialize_response r).
Proof.
  intros Hs Hn. pose proof (lines_plain r Hs) as Hp. pose proof (status_line_plain r Hs) as Hl.
  exists (join_lines (status_line r) ((header_line <$> shown r) ++ [length_line r])),
         ((header_line <$> shown r) ++ [length_line r]).
  rewrite serialize_lines. split; [done|]. split; [by apply search_crlf2_block|].
  split; [apply header_lines_join; [done|unfold status_line; by destruct (resp_version r)|done]|].
  exists (print_N (declared r)). split.
  - rewrite field_values_app, shown_no_length by done.
    change (length_line r) with (header_line (lit "Content-Length", print_N (declared r))).
    rewrite field_values_line by done. simpl. by rewrite trim_print.
  - apply parse_content_length_spec. rewrite trim_print.
    split; [apply print_N_nonempty|]. split; [apply print_N_digits|].
    rewrite decimal_value_print_N. split; [done|]. unfold SIZE_MAX. lia.
Qed.

(** ** Properties *)

(** C15. Every response is framed unambiguously, whatever order the header table is
    visited in: the first empty line is the one the serializer wrote, the lines before
    it are the status line and one line per field, exactly one of them (in any letter
    case) is a Content-Length, its value reads back as the declared length, and after
    the empty line comes exactly the payload. *)
Theorem serialize_framing r :
  safe_response r -> (declared r < 2 ^ 64)%N ->
  exists head lines,
    serialize_response r = head ++ CRLF2 ++ payload r /\
    search CRLF2 (serialize_response r) = Some (length head) /\
    header_lines head = status_line r :: lines /\
    exists v, field_values (lit "content-length") lines = [v] /\
      parse_content_length v = Ok (declared r).
Proof. apply serialize_framed. Qed.

(** A client sees the header table back: besides the generated Content-Length, the
    field lines are the entries of the table, each once, with their values. *)
Theorem serialize_fields r :
  safe_response r ->
  exists head lines,
    serialize_response r = head ++ CRLF2 ++ payload r /\
    header_lines head = status_line r :: lines ++ [length_line r] /\
    Permutation lines (header_line <$>
      filter (fun nv => is_content_length nv.1 = false) (map_to_list (resp_headers r))) /\
    Forall (fun l => is_ok (parse_header_line l) = true) lines.
Proof.
  intros Hs. pose proof (lines_plain r Hs) as Hp. pose proof (status_line_plain r Hs) as Hl.
  exists (join_lines (status_line r) ((header_line <$> shown r) ++ [length_line r])),
         (header_line <$> shown r).
  rewrite serialize_lines. split; [done|].
  split; [apply header_lines_join; [done|unfold status_line; by destruct (resp_version r)|done]|].
  split.
  - unfold shown. by rewrite (map_order_perm (resp_headers r)).
  - rewrite Forall_fmap. apply Forall_forall. intros [n v] [Hv _]%shown_spec.
    destruct Hs as (_ & _ & Hh). destruct (Hh _ _ Hv) as [Ht _]. simpl.
    by rewrite header_line_parse.
Qed.

End Serialize.

(** ** Examples *)

Definition response_example : HttpResponse :=
  {| resp_version := HTTP11; status_code := 404; reason_phrase := lit "Not Found";
     resp_headers := <[lit "content-LENGTH" := lit "9"]>
       (<[lit "Content-Type" := lit "text/plain"]> ∅);
     resp_body := lit "not found"; content_length := None; suppress_body := false |}.

Example serialize_example :
  @serialize_response map_to_list_order response_example
  = lit "HTTP/1.1 404 Not Found" ++ CRLF ++ lit "Content-Type: text/plain" ++ CRLF ++
    lit "Content-Length: 9" ++ CRLF2 ++ lit "not found".
Proof. vm_compute. reflexivity. Qed.

Lemma response_example_safe : safe_response response_example.
Proof.
  split; [vm_compute; reflexivity|]. split; [vm_compute; reflexivity|].
  apply map_Forall_insert_2; [by vm_compute|].
  apply map_Forall_insert_2; [by vm_compute|]. apply map_Forall_empty.
Qed.

Lemma serialize_framing_witness :
  exists head lines,
    @serialize_response map_to_list_order response_example
    = head ++ CRLF2 ++ payload response_example /\
    search CRLF2 (@serialize_response map_to_list_order response_example)
    = Some (length head) /\
    header_lines head = status_line response_example :: lines /\
    exists v, field_values (lit "content-length") lines = [v] /\
      parse_content_length v = Ok (declared response_example).
Proof.
  apply (@serialize_framing map_to_list_order response_example response_example_safe).
  vm_compute. reflexivity.
Defined.

Lemma serialize_fields_witness :
  exists head lines,
    @serialize_response map_to_list_order response_example
    = head ++ CRLF2 ++ payload response_example /\
    header_lines head = status_line response_example :: lines ++ [length_line response_example] /\
    Permutation lines (header_line <$>
      filter (fun nv => is_content_length nv.1 = false)
        (map_to_list (resp_headers response_example))) /\
    Forall (fun l => is_ok (parse_header_line l) = true) lines.
Proof. exact (@serialize_fields map_to_list_order response_example response_example_safe). Defined.
