(* ===== verification/FileSystem.v ===== *)
(** * Paths and the file system interface

    [std::filesystem::path] values are modelled by the sequence of elements their
    iterators visit: the root directory ["/"] for an absolute path, then the file
    names, then an empty element for a trailing separator. The queries the server makes
    ([canonical], [weakly_canonical], [exists], [is_regular_file], [file_size], opening a file) are
    the class [FileSystem]: the file handler is written against it, and [FsTree] gives
    an instance with directories, symbolic links and permissions. *)

From Stdlib Require Import Ascii String.
From stdpp Require Import base numbers list gmap strings.
From S2P Require Import Prelude CppLib.

Abbreviation path := (list bytes).

Definition ROOT_DIR : bytes := lit "/".
Definition DOT : bytes := lit ".".
Definition DOTDOT : bytes := lit "..".

(** ** Path syntax *)

(** The pieces of a string between separators. *)
Fixpoint split_slash (s : bytes) : list bytes :=
  match s with
  | [] => [[]]
  | c :: s' =>
      if bool_decide (c = "/"%char) then [] :: split_slash s'
      else match split_slash s' with
           | h :: t => (c :: h) :: t
           | [] => [[c]]
           end
  end.

Definition is_absolute (p : path) : bool :=
  match p with e :: _ => bool_decide (e = ROOT_DIR) | [] => false end.

Definition names_of (s : bytes) : list bytes := filter (fun e => e <> []) (split_slash s).

(** The path of a string. *)
Definition path_of (s : bytes) : path :=
  (if starts_with (lit "/") s then [ROOT_DIR] else []) ++ names_of s ++
  (if bool_decide (last s = Some "/"%char) && negb (bool_decide (names_of s = [])) then [[]] else []).

(** A path that is one element. *)
Definition elem_path (e : bytes) : path := if bool_decide (e = []) then [] else [e].

Definition has_filename (p : path) : bool :=
  match last p with
  | None => false
  | Some e => negb (bool_decide (e = [])) && negb (bool_decide (e = ROOT_DIR))
  end.

(** [operator/]. *)
Definition path_append (p q : path) : path :=
  if is_absolute q then q
  else match q with
  | [] => if has_filename p then p ++ [[]] else p
  | _ => (if bool_decide (last p = Some []) then removelast p else p) ++ q
  end.

(** [lexically_normal]: [stack] holds the names kept so far, innermost first, and
    [dir] says that the path read so far denotes a directory (it ends in a dot, a
    removed pair or a separator). *)
Fixpoint normal_loop (absolute : bool) (p stack : list bytes) (dir : bool) : list bytes :=
  match p with
  | [] =>
      rev stack ++
      (if dir && match stack with e :: _ => negb (bool_decide (e = DOTDOT)) | [] => false end
       then [[]] else [])
  | e :: p' =>
      if bool_decide (e = []) || bool_decide (e = DOT) then normal_loop absolute p' stack true
      else if bool_decide (e = DOTDOT) then
        match stack with
        | top :: stack' =>
            if bool_decide (top = DOTDOT) then normal_loop absolute p' (e :: stack) false
            else normal_loop absolute p' stack' true
        | [] =>
            if absolute then normal_loop absolute p' [] true
            else normal_loop absolute p' [e] false
        end
      else normal_loop absolute p' (e :: stack) false
  end.

Definition lexically_normal (p : path) : path :=
  match p with
  | [] => []
  | e :: p' =>
      if bool_decide (e = ROOT_DIR) then ROOT_DIR :: normal_loop true p' [] false
      else match normal_loop false p [] false with
           | [] => [DOT]
           | q => q
           end
  end.

(** The position after the last dot of a file name, counted from its end. *)
Definition extension_of (name : bytes) : bytes :=
  if bool_decide (name = DOT) || bool_decide (name = DOTDOT) then []
  else match search (lit ".") (rev name) with
  | None => []
  | Some k =>
      if (k + 1 =? length name)%nat then [] else drop (length name - k - 1) name
  end.

Definition path_extension (p : path) : bytes :=
  match last p with
  | None => []
  | Some e => if bool_decide (e = ROOT_DIR) then [] else extension_of e
  end.

(** ** The interface *)

(** An open input stream: the bytes it can deliver, and whether it ends at the end of
    the file ([true]) or with a read error ([false]). *)
Record ifstream := { if_data : bytes; if_eof : bool }.

(** A query with a [std::error_code]: [Err tt] when the code is set. *)
Class FileSystem := {
  canonical : path -> result unit path;
  weakly_canonical : path -> result unit path;
  exists_file : path -> result unit bool;
  is_regular_file : path -> bool;
  file_size : path -> result unit N;
  open_file : path -> option ifstream
}.
