(* ===== verification/StaticFileHandler.v ===== *)
(** * The static file handler

    Models [include/http/static_file_handler.hpp] and [src/static_file_handler.cpp]
    against the interface [FileSystem]. *)

From Stdlib Require Import Ascii String.
From stdpp Require Import base numbers list gmap strings.
From S2P Require Import Prelude CppLib Parser Response FileSystem.

(** ** Targets *)

Definition extract_path (target : bytes) : bytes :=
  match find_at (lit "?") target 0 with
  | None => target
  | Some query => substr target 0 query
  end.

Definition hex_value (ch : ascii) : Z :=
  if in_range "0" "9" ch then Z.of_N (code ch) - Z.of_N (code "0")
  else if in_range "a" "f" ch then Z.of_N (code ch) - Z.of_N (code "a") + 10
  else if in_range "A" "F" ch then Z.of_N (code ch) - Z.of_N (code "A") + 10
  else -1.

(** [static_cast<char>((high << 4) | low)]. *)
Definition hex_byte (high low : Z) : ascii :=
  ascii_of_N (Z.to_N (Z.lor (Z.shiftl high 4) low mod 256)).

(** The loop of [percent_decode]: the argument is the input from position [i] on. *)
Fixpoint percent_decode_loop (input output : bytes) : option bytes :=
  match input with
  | [] => Some output
  | c :: rest =>
      if negb (bool_decide (c = "%"%char)) then percent_decode_loop rest (output ++ [c])
      else match rest with
      | h :: l :: rest' =>
          let high := hex_value h in
          let low := hex_value l in
          if (high <? 0)%Z || (low <? 0)%Z then None
          else
            let decoded := hex_byte high low in
            if bool_decide (decoded = NUL) then None
            else percent_decode_loop rest' (output ++ [decoded])
      | _ => None
      end
  end.

Definition percent_decode (input : bytes) : option bytes := percent_decode_loop input [].

Fixpoint remove_slashes (s : bytes) : bytes :=
  match s with
  | c :: s' => if bool_decide (c = "/"%char) then remove_slashes s' else s
  | [] => []
  end.

Definition make_relative_path (decoded_path : bytes) : path :=
  path_of (remove_slashes decoded_path).

(** The two iterators of [is_inside_root] advance together. *)
Fixpoint is_inside_root (root candidate : path) : bool :=
  match root with
  | [] => true
  | r :: root' =>
      match candidate with
      | [] => false
      | c :: candidate' => if negb (bool_decide (r = c)) then false
                           else is_inside_root root' candidate'
      end
  end.

(** ** Responses *)

Definition make_response (code : Z) (reason body : bytes) : HttpResponse :=
  {| resp_version := HTTP11; status_code := code; reason_phrase := reason;
     resp_headers := <[lit "Content-Type" := lit "text/plain"]> ∅;
     resp_body := body; content_length := None; suppress_body := false |}.

Definition NL : bytes := [LF].
Definition bad_request : HttpResponse :=
  make_response 400 (lit "Bad Request") (lit "bad request" ++ NL).
Definition forbidden : HttpResponse :=
  make_response 403 (lit "Forbidden") (lit "forbidden" ++ NL).
Definition not_found : HttpResponse :=
  make_response 404 (lit "Not Found") (lit "not found" ++ NL).

Definition content_type_for (p : path) : bytes :=
  let extension := path_extension p in
  if bool_decide (extension = lit ".html") || bool_decide (extension = lit ".htm")
  then lit "text/html"
  else if bool_decide (extension = lit ".txt") then lit "text/plain"
  else if bool_decide (extension = lit ".css") then lit "text/css"
  else if bool_decide (extension = lit ".js") then lit "application/javascript"
  else lit "application/octet-stream".

(** ** Reading a file *)

Definition BUFFER_SIZE : nat := N.to_nat 8192.

(** One iteration reads at most [BUFFER_SIZE] bytes. A full read leaves the stream
    good; a short one sets the end-of-file flag or reports the read error. [None] for
    the whole loop is exhausted fuel. *)
Fixpoint read_loop (fuel : nat) (data : bytes) (eof : bool) (body : bytes) (max : N) :
    option (option bytes) :=
  match fuel with
  | 0 => None
  | S fuel' =>
      let chunk := take BUFFER_SIZE data in
      let count := len chunk in
      if (sz_sub max (len body) <? count)%N then Some None
      else
        let body' := body ++ chunk in
        if (length chunk <? BUFFER_SIZE)%nat
        then Some (if eof then Some body' else None)
        else read_loop fuel' (drop BUFFER_SIZE data) eof body' max
  end.

Section Handler.
Context `{FileSystem}.

Definition read_file (p : path) (max_file_bytes : N) : option bytes :=
  match open_file p with
  | None => None
  | Some f =>
      default None (read_loop (S (length (if_data f))) (if_data f) (if_eof f) [] max_file_bytes)
  end.

Definition serve_file (p : path) (is_head : bool) (max_file_bytes : N) : HttpResponse :=
  let response :=
    {| resp_version := HTTP11; status_code := 200; reason_phrase := lit "OK";
       resp_headers := <[lit "Content-Type" := content_type_for p]> ∅;
       resp_body := []; content_length := None; suppress_body := false |} in
  match file_size p with
  | Err _ => forbidden
  | Ok size =>
      if (max_file_bytes <? size)%N then forbidden
      else if is_head then
        {| resp_version := resp_version response; status_code := status_code response;
           reason_phrase := reason_phrase response; resp_headers := resp_headers response;
           resp_body := resp_body response;
           content_length := Some size; suppress_body := true |}
      else match read_file p max_file_bytes with
      | None => forbidden
      | Some body =>
          {| resp_version := resp_version response; status_code := status_code response;
             reason_phrase := reason_phrase response; resp_headers := resp_headers response;
             resp_body := body;
             content_length := content_length response;
             suppress_body := suppress_body response |}
      end
  end.

(** ** The handler *)

Record StaticFileHandler := { root_ : path; max_file_bytes_ : N }.

(** The constructor; [Err] is the exception of [std::filesystem::canonical]. *)
Definition make_static_file_handler (root : path) (max_file_bytes : N) :
    result unit StaticFileHandler :=
  let! r := canonical root in Ok {| root_ := r; max_file_bytes_ := max_file_bytes |}.

Definition default_max_file_bytes : N := 16 * 1024 * 1024.

Definition handle (h : StaticFileHandler) (request : HttpRequest) : HttpResponse :=
  let path := extract_path (req_target request) in
  let path := if bool_decide (path = lit "/") then lit "/index.html" else path in
  match percent_decode path with
  | None => bad_request
  | Some decoded =>
      if negb (starts_with (lit "/") decoded) then bad_request
      else match weakly_canonical (path_append (root_ h) (make_relative_path decoded)) with
      | Err _ => forbidden
      | Ok candidate =>
          if negb (is_inside_root (root_ h) candidate) then forbidden
          else match exists_file candidate with
          | Err _ => forbidden
          | Ok false => not_found
          | Ok true =>
              if negb (is_regular_file candidate) then forbidden
              else serve_file candidate (bool_decide (req_method request = lit "HEAD"))
                     (max_file_bytes_ h)
          end
      end
  end.

End Handler.
