(* ===== verification/StaticFacts.v ===== *)
(** * Properties of the static file handler

    Percent decoding, bounded file reading, and what the handler may depend on. All
    theorems here hold for every [FileSystem]; [FsTree] adds those about symbolic
    links. *)

From Stdlib Require Import Ascii String.
From stdpp Require Import base numbers list gmap strings.
From S2P Require Import Prelude CppLib Parser ParserLemmas Response FileSystem.
From S2P Require Import StaticFileHandler.

(** ** Percent decoding *)

Definition is_hex (c : ascii) : bool := (0 <=? hex_value c)%Z.

(** The byte an escape denotes. *)
Definition escape_value (h l : ascii) : N := Z.to_N (hex_value h * 16 + hex_value l).

(** The specification: an escaped string and what it denotes. *)
Inductive denotes : bytes -> bytes -> Prop :=
| denotes_nil : denotes [] []
| denotes_plain c s t : c <> "%"%char -> denotes s t -> denotes (c :: s) (c :: t)
| denotes_escape h l s t :
    is_hex h = true -> is_hex l = true -> escape_value h l <> 0%N -> denotes s t ->
    denotes ("%"%char :: h :: l :: s) (ascii_of_N (escape_value h l) :: t).

(** A client's encoder: [esc] chooses the bytes to escape. *)
Definition hex_digit (n : N) : ascii :=
  if (n <? 10)%N then ascii_of_N (48 + n) else ascii_of_N (55 + n).

Definition percent_encode (esc : ascii -> bool) (s : bytes) : bytes :=
  concat ((fun c => if esc c then ["%"%char; hex_digit (code c / 16); hex_digit (code c mod 16)]
                    else [c]) <$> s).

Lemma is_hex_neg c : is_hex c = negb (hex_value c <? 0)%Z.
Proof. unfold is_hex. by rewrite Z.leb_antisym. Qed.

Lemma hex_value_bound c : is_hex c = true -> (0 <= hex_value c < 16)%Z.
Proof. ascii_cases c. Qed.

Lemma lor_nibbles a b :
  (0 <= a < 16)%Z -> (0 <= b < 16)%Z -> Z.lor (Z.shiftl a 4) b = (a * 16 + b)%Z.
Proof.
  intros Ha Hb.
  assert (Hall : forallb (fun a => forallb (fun b =>
    Z.lor (Z.shiftl a 4) b =? a * 16 + b)%Z (seqZ 0 16)) (seqZ 0 16) = true)
    by (vm_compute; reflexivity).
  rewrite forallb_forall in Hall. specialize (Hall a).
  rewrite <- list_elem_of_In, elem_of_seqZ, forallb_forall in Hall.
  specialize (Hall ltac:(lia) b). rewrite <- list_elem_of_In, elem_of_seqZ in Hall.
  apply Z.eqb_eq, Hall. lia.
Qed.

Lemma hex_byte_escape h l :
  is_hex h = true -> is_hex l = true ->
  hex_byte (hex_value h) (hex_value l) = ascii_of_N (escape_value h l) /\
  (escape_value h l < 256)%N.
Proof.
  intros Hh%hex_value_bound Hl%hex_value_bound. unfold hex_byte, escape_value.
  rewrite lor_nibbles by done. rewrite Z.mod_small by lia. split; [done|]. lia.
Qed.

Lemma ascii_of_N_NUL n : (n < 256)%N -> ascii_of_N n = NUL <-> n = 0%N.
Proof.
  intros H. split; [|by intros ->]. intros E. apply (f_equal N_of_ascii) in E.
  by rewrite N_ascii_embedding in E.
Qed.

(** The loop of [percent_decode] against the specification. The recursion may skip three
    bytes, so the induction is on the length. *)
Lemma percent_decode_loop_spec s out t :
  percent_decode_loop s out = Some t <-> exists u, t = out ++ u /\ denotes s u.
Proof.
  remember (length s) as n eqn:Hn. revert s out t Hn.
  induction n as [n IH] using lt_wf_ind; intros s out t ->.
  destruct s as [|c s]; simpl.
  { split; [intros [= <-]; exists []; rewrite app_nil_r; by split; [|constructor]|].
    intros (u & -> & Hd). inversion Hd; subst. by rewrite app_nil_r. }
  case_bool_decide as Hc; simpl.
  - subst c. destruct s as [|h [|l s]].
    1,2: split; [done|]; intros (u & _ & Hd); inversion Hd; subst; done.
    pose proof (is_hex_neg h) as Eh. pose proof (is_hex_neg l) as El.
    destruct (is_hex h) eqn:Ih; destruct (hex_value h <? 0)%Z; try discriminate Eh; simpl.
    2:{ split; [done|]. intros (u & _ & Hd). inversion Hd; subst; congruence. }
    destruct (is_hex l) eqn:Il; destruct (hex_value l <? 0)%Z; try discriminate El; simpl.
    2:{ split; [done|]. intros (u & _ & Hd). inversion Hd; subst; congruence. }
    destruct (hex_byte_escape h l Ih Il) as [Hb Hlt]. rewrite Hb.
    case_bool_decide as Hz; rewrite ascii_of_N_NUL in Hz by done.
    + split; [done|]. intros (u & _ & Hd). inversion Hd; subst; congruence.
    + rewrite (IH (length s)) by (simpl; lia || done). split.
      * intros (u & -> & Hd). exists (ascii_of_N (escape_value h l) :: u).
        rewrite <- app_assoc. split; [done|]. by constructor.
      * intros (u & -> & Hd). inversion Hd; subst; [congruence|].
        exists t. by rewrite <- app_assoc.
  - rewrite (IH (length s)) by (simpl; lia || done). split.
    + intros (u & -> & Hd). exists (c :: u). rewrite <- app_assoc. by split; [|constructor].
    + intros (u & -> & Hd). inversion Hd; subst; [|done].
      eexists. by rewrite <- app_assoc.
Qed.

Lemma percent_decode_denotes s t : percent_decode s = Some t <-> denotes s t.
Proof.
  unfold percent_decode. rewrite percent_decode_loop_spec. naive_solver.
Qed.

(** Percent decoding computes the denoted string and fails on everything else: a
    truncated escape, an escape with a non-hexadecimal digit, or an escape of NUL. *)
Theorem percent_decode_spec s t : percent_decode s = Some t <-> denotes s t.
Proof. apply percent_decode_denotes. Qed.

Lemma hex_digits_code c :
  is_hex (hex_digit (code c / 16)) = true /\ is_hex (hex_digit (code c mod 16)) = true /\
  escape_value (hex_digit (code c / 16)) (hex_digit (code c mod 16)) = code c.
Proof. ascii_cases c. Qed.

Lemma percent_encode_denotes esc s :
  esc "%"%char = true -> NUL ∉ s -> denotes (percent_encode esc s) s.
Proof.
  intros Hp. unfold percent_encode. induction s as [|c s IH]; [constructor|].
  rewrite not_elem_of_cons. intros [Hc Hs]. simpl.
  destruct (esc c) eqn:E; simpl.
  - destruct (hex_digits_code c) as (H1 & H2 & H3).
    assert (Hemb : ascii_of_N (code c) = c) by apply ascii_N_embedding.
    assert (Hnz : escape_value (hex_digit (code c / 16)) (hex_digit (code c mod 16)) <> 0%N).
    { rewrite H3. intros Hz. apply Hc. rewrite <- Hemb. by rewrite Hz. }
    pose proof (denotes_escape _ _ _ _ H1 H2 Hnz (IH Hs)) as Hd.
    rewrite H3, Hemb in Hd. exact Hd.
  - constructor; [congruence|]. auto.
Qed.

(** Round trip: however a client chooses the bytes to escape (the percent sign
    among them), decoding gives the original path back. *)
Theorem percent_roundtrip esc s :
  esc "%"%char = true -> NUL ∉ s -> percent_decode (percent_encode esc s) = Some s.
Proof. intros Hp Hs. by apply percent_decode_denotes, percent_encode_denotes. Qed.

Lemma percent_roundtrip_witness :
  percent_decode (percent_encode (fun c => negb (isalnum c)) (lit "/a%b c/..")) = Some (lit "/a%b c/..").
Proof.
  apply percent_roundtrip; [reflexivity|].
  apply (bool_decide_unpack _). vm_compute. exact I.
Defined.

(** ** Reading files *)

Lemma read_loop_spec fuel data eof body max :
  (length data < fuel)%nat -> (len body <= max)%N -> (max < 2 ^ 64)%N ->
  read_loop fuel data eof body max
  = Some (if eof && (len body + len data <=? max)%N then Some (body ++ data) else None).
Proof.
  assert (HB : (0 < BUFFER_SIZE)%nat) by (unfold BUFFER_SIZE; lia).
  revert data body; induction fuel as [|fuel IH]; intros data body Hf Hb Hm; [lia|].
  cbn [read_loop]. rewrite sz_sub_exact by lia.
  destruct (_ <? len (take BUFFER_SIZE data))%N eqn:E.
  { apply N.ltb_lt in E. rewrite (proj2 (N.leb_gt _ _)).
    - by rewrite andb_false_r.
    - unfold len in *. rewrite length_take in E. lia. }
  apply N.ltb_ge in E. destruct (_ <? BUFFER_SIZE)%nat eqn:El.
  - apply Nat.ltb_lt in El. rewrite length_take in El.
    rewrite take_ge in * by lia. rewrite (proj2 (N.leb_le _ _)) by lia.
    by destruct eof.
  - apply Nat.ltb_ge in El. rewrite length_take in El.
    assert (Hbody : len (body ++ take BUFFER_SIZE data) = (len body + len (take BUFFER_SIZE data))%N)
      by (unfold len; rewrite length_app; lia).
    rewrite IH; [|rewrite length_drop; lia|lia|done].
    rewrite Hbody, <- app_assoc, take_drop.
    replace (len body + len (take BUFFER_SIZE data) + len (drop BUFFER_SIZE data))%N
      with (len body + len data)%N; [done|].
    unfold len. rewrite length_take, length_drop. lia.
Qed.

Lemma is_inside_root_prefix root p : is_inside_root root p = true <-> root `prefix_of` p.
Proof.
  revert p; induction root as [|e r IH]; intros [|d p]; simpl.
  - split; [intros _; apply prefix_nil|done].
  - split; [intros _; apply prefix_nil|done].
  - split; [done|]. intros H%prefix_nil_inv. done.
  - case_bool_decide as E; simpl.
    + subst. rewrite IH. split; [apply prefix_cons|apply prefix_cons_inv_2].
    + split; [done|]. intros H%prefix_cons_inv_1. done.
Qed.

Section Reading.
Context `{FileSystem}.

Lemma read_file_inv p max b :
  (max < 2 ^ 64)%N ->
  read_file p max = Some b <->
  exists f, open_file p = Some f /\ if_eof f = true /\ if_data f = b /\ (len b <= max)%N.
Proof.
  intros Hm. unfold read_file. destruct (open_file p) as [f|]; [|split; [done|by intros (? & ? & _)]].
  rewrite read_loop_spec by (unfold len; simpl; lia).
  change (len ([] : bytes) + len (if_data f))%N with (len (if_data f)). simpl.
  destruct (if_eof f) eqn:Ee; simpl; [|split; [done|intros (g & [= <-] & Hg & _); congruence]].
  destruct (_ <=? max)%N eqn:El.
  - apply N.leb_le in El. naive_solver.
  - apply N.leb_gt in El. split; [done|]. intros (g & [= <-] & _ & <- & Hle). lia.
Qed.

(** Reading a file in bounded pieces returns its whole content exactly when it can
    be opened, is read to its end and is within the limit, for every limit a
    [std::size_t] can hold; the guard's unsigned subtraction never wraps. *)
Theorem read_file_spec p max b :
  (max < 2 ^ 64)%N ->
  read_file p max = Some b <->
  exists f, open_file p = Some f /\ if_eof f = true /\ if_data f = b /\ (len b <= max)%N.
Proof. apply read_file_inv. Qed.

(** ** Branches of the handler *)

(** The responses [handle] may give, by status. *)
Lemma serve_file_cases p is_head max :
  serve_file p is_head max = forbidden \/
  exists size, file_size p = Ok size /\ (size <= max)%N /\
    if is_head
    then status_code (serve_file p is_head max) = 200%Z /\
         content_length (serve_file p is_head max) = Some size /\
         suppress_body (serve_file p is_head max) = true /\
         resp_body (serve_file p is_head max) = []
    else status_code (serve_file p is_head max) = 200%Z /\
         read_file p max = Some (resp_body (serve_file p is_head max)) /\
         content_length (serve_file p is_head max) = None /\
         suppress_body (serve_file p is_head max) = false.
Proof.
  unfold serve_file. destruct (file_size p) as [size|]; [|by left].
  destruct (max <? size)%N eqn:E; [by left|]. apply N.ltb_ge in E.
  destruct is_head.
  - right. exists size. by repeat split.
  - destruct (read_file p max) as [b|]; [|by left]. right. exists size. by repeat split.
Qed.

(** The decoded path a request names, after the query is removed and the default
    document is chosen. *)
Definition decoded_target (request : HttpRequest) : option bytes :=
  let path := extract_path (req_target request) in
  percent_decode (if bool_decide (path = lit "/") then lit "/index.html" else path).

Lemma handle_served_inv h request :
  status_code (handle h request) = 200%Z ->
  exists decoded candidate size,
    decoded_target request = Some decoded /\ starts_with (lit "/") decoded = true /\
    weakly_canonical (path_append (root_ h) (make_relative_path decoded)) = Ok candidate /\
    root_ h `prefix_of` candidate /\
    exists_file candidate = Ok true /\ is_regular_file candidate = true /\
    file_size candidate = Ok size /\ (size <= max_file_bytes_ h)%N /\
    if bool_decide (req_method request = lit "HEAD")
    then content_length (handle h request) = Some size /\ payload (handle h request) = []
    else read_file candidate (max_file_bytes_ h) = Some (payload (handle h request)) /\
         declared (handle h request) = len (payload (handle h request)).
Proof.
  unfold handle, decoded_target. set (path := if bool_decide _ then _ else _).
  destruct (percent_decode path) as [decoded|]; [|done].
  destruct (starts_with (lit "/") decoded) eqn:Es; [|done]. cbn [negb].
  destruct (weakly_canonical _) as [candidate|] eqn:Ew; [|done].
  destruct (is_inside_root (root_ h) candidate) eqn:Ei; [|done]. cbn [negb].
  destruct (exists_file candidate) as [[]|] eqn:Ee; [|done|done].
  destruct (is_regular_file candidate) eqn:Er; [|done]. cbn [negb].
  apply is_inside_root_prefix in Ei.
  intros H200.
  destruct (serve_file_cases candidate (bool_decide (req_method request = lit "HEAD"))
              (max_file_bytes_ h)) as [Hf|(size & Hsz & Hle & Hc)].
  { rewrite Hf in H200. done. }
  exists decoded, candidate, size. repeat (split; [done|]).
  destruct (bool_decide (req_method request = lit "HEAD")).
  - destruct Hc as (_ & Hcl & Hsp & _). split; [done|]. unfold payload. by rewrite Hsp.
  - destruct Hc as (_ & Hrd & Hcl & Hsp). unfold payload, declared.
    by rewrite Hsp, Hcl.
Qed.

(** A file is served only in one way: the target decodes, starts with a slash, its
    weakly canonical form lies under the root element by element and is an existing
    regular file whose size is within the limit; a GET then carries exactly what the
    file read returned, and a HEAD its size and no body. *)
Theorem handle_served h request :
  status_code (handle h request) = 200%Z ->
  exists decoded candidate size,
    decoded_target request = Some decoded /\ starts_with (lit "/") decoded = true /\
    weakly_canonical (path_append (root_ h) (make_relative_path decoded)) = Ok candidate /\
    root_ h `prefix_of` candidate /\
    exists_file candidate = Ok true /\ is_regular_file candidate = true /\
    file_size candidate = Ok size /\ (size <= max_file_bytes_ h)%N /\
    if bool_decide (req_method request = lit "HEAD")
    then content_length (handle h request) = Some size /\ payload (handle h request) = []
    else read_file candidate (max_file_bytes_ h) = Some (payload (handle h request)) /\
         declared (handle h request) = len (payload (handle h request)).
Proof. apply handle_served_inv. Qed.

(** Every request is answered with a 200 or one of the fixed 400, 403 and 404 responses. *)
Lemma handle_shapes h request :
  status_code (handle h request) = 200%Z \/ handle h request = bad_request \/
  handle h request = forbidden \/ handle h request = not_found.
Proof.
  unfold handle. repeat (case_match; try tauto).
  all: match goal with |- context [serve_file ?q ?b ?n] =>
         destruct (serve_file_cases q b n) as [->|(? & _ & _ & Hc)]; [tauto|] end.
  all: case_bool_decide; naive_solver.
Qed.

(** The headers a served response has. *)
Lemma handle_headers h request :
  exists v, resp_headers (handle h request) = <[lit "Content-Type" := v]> ∅ /\
    search CRLF v = None.
Proof.
  assert (Hct : forall p, search CRLF (content_type_for p) = None).
  { intros p. unfold content_type_for. by repeat case_match. }
  assert (Hplain : search CRLF (lit "text/plain") = None) by done.
  unfold handle. repeat (case_match; try (eexists; split; [reflexivity|done])).
  all: unfold serve_file; repeat (case_match; try (eexists; split; [reflexivity|done])).
Qed.

End Reading.

(** ** Non-interference *)

(** Two file systems that agree on names and on everything under [root]. *)
Record agree_under (root : path) (F1 F2 : FileSystem) : Prop := {
  agree_weakly p : @weakly_canonical F1 p = @weakly_canonical F2 p;
  agree_exists p : root `prefix_of` p -> @exists_file F1 p = @exists_file F2 p;
  agree_regular p : root `prefix_of` p -> @is_regular_file F1 p = @is_regular_file F2 p;
  agree_size p : root `prefix_of` p -> @file_size F1 p = @file_size F2 p;
  agree_open p : root `prefix_of` p -> @open_file F1 p = @open_file F2 p
}.

(** The handler never looks at a file outside the root by name: its response is the
    same for any two file systems that agree on path resolution and on the paths that
    extend the root element by element. In particular a sibling such as
    [/srv/site-backup] of the root [/srv/site] cannot influence it. *)
Theorem handle_noninterference h request F1 F2 :
  agree_under (root_ h) F1 F2 -> @handle F1 h request = @handle F2 h request.
Proof.
  intros [Hw He Hr Hs Ho]. unfold handle. destruct (percent_decode _) as [d|]; [|done].
  destruct (negb _); [done|]. rewrite Hw.
  destruct (@weakly_canonical F2 _) as [c|]; [|done].
  destruct (is_inside_root (root_ h) c) eqn:Ei; [|done]. simpl.
  apply is_inside_root_prefix in Ei. rewrite (He c Ei).
  destruct (@exists_file F2 c) as [[]|]; [|done|done].
  rewrite (Hr c Ei). destruct (negb _); [done|].
  unfold serve_file, read_file. by rewrite (Hs c Ei), (Ho c Ei).
Qed.
