(* ===== verification/FsTree.v ===== *)
(** * A file system with directories, symbolic links and permissions

    An instance of [FileSystem]: POSIX path resolution over a table of nodes, and
    [canonical] and [weakly_canonical] on top of it with the algorithm of the C++
    standard library (resolve the longest existing prefix, append the remaining
    elements, normalize lexically). It is used to say where the file handler's lookups
    really end: [served_inside_root], and the limits of the containment check,
    [dotdot_symlink_escape]. The table does not change during a request. *)

From Stdlib Require Import Ascii String.
From stdpp Require Import base numbers list gmap strings.
From S2P Require Import Prelude CppLib Parser ParserLemmas Response FileSystem.
From S2P Require Import StaticFileHandler StaticFacts.

(** ** Nodes and path resolution *)

Inductive node :=
| Dir (searchable : bool)
| Regular (content : bytes) (readable : bool)
| Symlink (target : bytes)
| Special.

#[export] Instance node_eq_dec : EqDecision node.
Proof. solve_decision. Defined.

Record tree := { nodes : gmap (list bytes) node; cwd : list bytes }.

Inductive errno := ENOENT | ENOTDIR | EACCES | ELOOP.

#[export] Instance errno_eq_dec : EqDecision errno.
Proof. solve_decision. Defined.

(** The location [[]] is the root directory. *)
Definition node_at (t : tree) (loc : list bytes) : option node :=
  match loc with
  | [] => Some (Dir true)
  | _ => nodes t !! loc
  end.

Definition MAXSYMLINKS : nat := 40.

(** Resolution of the elements [todo] from the location [cur], following at most
    [links] symbolic links. *)
Fixpoint walk (t : tree) (links : nat) : list bytes -> list bytes -> result errno (list bytes) :=
  fix go (cur todo : list bytes) {struct todo} : result errno (list bytes) :=
    match todo with
    | [] => Ok cur
    | c :: rest =>
        match node_at t cur with
        | Some (Dir true) =>
            if bool_decide (c = []) || bool_decide (c = DOT) then go cur rest
            else if bool_decide (c = DOTDOT) then go (removelast cur) rest
            else match node_at t (cur ++ [c]) with
            | None => Err ENOENT
            | Some (Symlink target) =>
                match links with
                | 0 => Err ELOOP
                | S links' =>
                    let q := path_of target in
                    if is_absolute q then walk t links' [] (tail q ++ rest)
                    else walk t links' cur (q ++ rest)
                end
            | Some _ => go (cur ++ [c]) rest
            end
        | Some (Dir false) => Err EACCES
        | _ => Err ENOTDIR
        end
    end.

Arguments walk : simpl never.

(** System calls see a path up to its first NUL byte. *)
Definition before_nul (e : bytes) : bytes :=
  match search [NUL] e with None => e | Some k => take k e end.

Fixpoint c_str (p : path) : path :=
  match p with
  | [] => []
  | e :: p' => if bool_decide (NUL ∈ e) then [before_nul e] else e :: c_str p'
  end.

Definition resolve (t : tree) (p : path) : result errno (list bytes) :=
  match c_str p with
  | [] => Err ENOENT
  | e :: p' =>
      if bool_decide (e = ROOT_DIR) then walk t MAXSYMLINKS [] p'
      else walk t MAXSYMLINKS (cwd t) (e :: p')
  end.

(** ** The queries *)

Inductive file_status := found (n : node) | not_found_status | unknown_status.

Definition tree_status (t : tree) (p : path) : file_status :=
  match resolve t p with
  | Ok loc => match node_at t loc with Some n => found n | None => not_found_status end
  | Err ENOENT | Err ENOTDIR => not_found_status
  | Err _ => unknown_status
  end.

Definition tree_canonical (t : tree) (p : path) : result unit path :=
  match resolve t p with
  | Ok loc => Ok (ROOT_DIR :: loc)
  | Err _ => Err tt
  end.

(** The loop that finds the leading elements that exist. *)
Fixpoint leading (t : tree) (result_ iter : path) : result unit (path * path) :=
  match iter with
  | [] => Ok (result_, [])
  | e :: iter' =>
      let tmp := path_append result_ (elem_path e) in
      match tree_status t tmp with
      | found _ => leading t tmp iter'
      | not_found_status => Ok (result_, iter)
      | unknown_status => Err tt
      end
  end.

Definition tree_weakly_canonical (t : tree) (p : path) : result unit path :=
  match tree_status t p with
  | found _ => tree_canonical t p
  | unknown_status => Err tt
  | not_found_status =>
      let! lr := leading t [] p in
      let! base := match lr.1 with [] => Ok [] | _ => tree_canonical t lr.1 end in
      Ok (lexically_normal (foldl (fun acc e => path_append acc (elem_path e)) base lr.2))
  end.

Definition tree_exists (t : tree) (p : path) : result unit bool :=
  match tree_status t p with
  | found _ => Ok true
  | not_found_status => Ok false
  | unknown_status => Err tt
  end.

Definition tree_is_regular (t : tree) (p : path) : bool :=
  match tree_status t p with found (Regular _ _) => true | _ => false end.

Definition tree_file_size (t : tree) (p : path) : result unit N :=
  match tree_status t p with found (Regular content _) => Ok (len content) | _ => Err tt end.

Definition tree_open (t : tree) (p : path) : option ifstream :=
  match tree_status t p with
  | found (Regular content true) => Some {| if_data := content; if_eof := true |}
  | _ => None
  end.

(** The instance for a tree. *)
Definition tree_fs (t : tree) : FileSystem :=
  {| canonical := tree_canonical t; weakly_canonical := tree_weakly_canonical t;
     exists_file := tree_exists t; is_regular_file := tree_is_regular t;
     file_size := tree_file_size t; open_file := tree_open t |}.

(** ** Examples *)

Definition site : tree := {|
  nodes := list_to_map [
    ([lit "srv"], Dir true);
    ([lit "srv"; lit "www"], Dir true);
    ([lit "srv"; lit "www"; lit "index.html"], Regular (lit "hello") true);
    ([lit "srv"; lit "www"; lit "hidden.txt"], Regular (lit "unreadable") false);
    ([lit "srv"; lit "www"; lit "link"], Symlink (lit "/etc"));
    ([lit "srv"; lit "www"; lit "home"], Symlink (lit "index.html"));
    ([lit "etc"], Dir true);
    ([lit "etc"; lit "secret"], Regular (lit "password") true)];
  cwd := [] |}.

Definition site_handler : StaticFileHandler :=
  {| root_ := [ROOT_DIR; lit "srv"; lit "www"]; max_file_bytes_ := default_max_file_bytes |}.

Definition get (target : string) : HttpRequest :=
  {| req_method := lit "GET"; req_target := lit target; req_version := HTTP11;
     req_headers := ∅; req_header_fields := []; req_body := [] |}.

Example site_root :
  @make_static_file_handler (tree_fs site) (path_of (lit "/srv/www")) default_max_file_bytes
  = Ok site_handler.
Proof. vm_compute. reflexivity. Qed.

Example get_index : resp_body (@handle (tree_fs site) site_handler (get "/")) = lit "hello".
Proof. vm_compute. reflexivity. Qed.
Example get_home : resp_body (@handle (tree_fs site) site_handler (get "/home?x")) = lit "hello".
Proof. vm_compute. reflexivity. Qed.
Example get_link : @handle (tree_fs site) site_handler (get "/link/secret") = forbidden.
Proof. vm_compute. reflexivity. Qed.
Example get_traversal : @handle (tree_fs site) site_handler (get "/%2e%2e/%2e%2e/etc/secret") = forbidden.
Proof. vm_compute. reflexivity. Qed.
Example get_missing : @handle (tree_fs site) site_handler (get "/nope") = not_found.
Proof. vm_compute. reflexivity. Qed.
Example get_escape : resp_body (@handle (tree_fs site) site_handler (get "/nope/../link/secret")) = lit "password".
Proof. vm_compute. reflexivity. Qed.

(** The bound on links is only computed in examples. *)
#[global] Opaque MAXSYMLINKS.

(** ** Lemmas on path resolution *)

Definition ordinary (c : bytes) : Prop :=
  c <> [] /\ c <> DOT /\ c <> DOTDOT /\ c <> ROOT_DIR /\ NUL ∉ c.

(** File names are names: not empty, not a dot or a dot-dot, without separator or NUL. *)
Definition wf_tree (t : tree) : Prop :=
  map_Forall (fun loc _ => Forall ordinary loc) (nodes t).

Definition is_symlink (n : node) : bool := match n with Symlink _ => true | _ => false end.

(** A location reached through directories only: no element is a symbolic link. *)
Inductive real (t : tree) : list bytes -> Prop :=
| real_root : real t []
| real_snoc loc c n :
    real t loc -> node_at t loc = Some (Dir true) -> ordinary c ->
    node_at t (loc ++ [c]) = Some n -> is_symlink n = false -> real t (loc ++ [c]).

#[export] Hint Constructors real : http.

Lemma walk_nil t links cur : walk t links cur [] = Ok cur.
Proof. by destruct links. Qed.

Lemma walk_cons t links cur c rest :
  walk t links cur (c :: rest) =
  match node_at t cur with
  | Some (Dir true) =>
      if bool_decide (c = []) || bool_decide (c = DOT) then walk t links cur rest
      else if bool_decide (c = DOTDOT) then walk t links (removelast cur) rest
      else match node_at t (cur ++ [c]) with
      | None => Err ENOENT
      | Some (Symlink target) =>
          match links with
          | 0 => Err ELOOP
          | S links' =>
              if is_absolute (path_of target) then walk t links' [] (tail (path_of target) ++ rest)
              else walk t links' cur (path_of target ++ rest)
          end
      | Some _ => walk t links (cur ++ [c]) rest
      end
  | Some (Dir false) => Err EACCES
  | _ => Err ENOTDIR
  end.
Proof. by destruct links. Qed.

(** Induction on resolution: on the links left, then on the elements to do. *)
Lemma walk_ind (P : nat -> list bytes -> list bytes -> Prop) :
  (forall links cur, P links cur []) ->
  (forall links cur c rest,
     (forall cur', P links cur' rest) ->
     (forall links' cur' todo', (links' < links)%nat -> P links' cur' todo') ->
     P links cur (c :: rest)) ->
  forall links cur todo, P links cur todo.
Proof.
  intros Hnil Hcons links. induction links as [links IH] using lt_wf_ind.
  intros cur todo. revert cur. induction todo as [|c rest IHt]; intros cur; [apply Hnil|].
  apply Hcons; [done|]. intros links' cur' todo' Hlt. by apply IH.
Qed.

Ltac walk_step := rewrite ?walk_cons, ?walk_nil in *.

Lemma walk_app t links cur a out :
  walk t links cur a = Ok out ->
  exists l', (l' <= links)%nat /\ forall b, walk t links cur (a ++ b) = walk t l' out b.
Proof.
  revert links cur a out. apply (walk_ind (fun links cur a => forall out,
    walk t links cur a = Ok out ->
    exists l', (l' <= links)%nat /\ forall b, walk t links cur (a ++ b) = walk t l' out b)).
  - intros links cur out. rewrite walk_nil. intros [= <-]. by exists links.
  - intros links cur c rest IHr IHl out. rewrite walk_cons. intros Hw.
    setoid_rewrite walk_cons. repeat case_match; simplify_eq; eauto.
    all: apply IHl in Hw as (l' & Hle & Hb); [|lia]; exists l';
      split; [lia|]; intros b; by rewrite app_assoc.
Qed.

Lemma walk_app_err t links cur a b e :
  walk t links cur a = Err e -> walk t links cur (a ++ b) = Err e.
Proof.
  revert links cur a. apply (walk_ind (fun links cur a =>
    walk t links cur a = Err e -> walk t links cur (a ++ b) = Err e)).
  - intros links cur. by rewrite walk_nil.
  - intros links cur c rest IHr IHl. simpl. rewrite !walk_cons.
    repeat case_match; simplify_eq; auto.
    all: rewrite app_assoc; apply IHl; lia.
Qed.

(** More links to follow only matter when resolution ran out of them. *)
Lemma walk_links t l' links cur a e :
  (l' <= links)%nat -> e <> ELOOP -> walk t l' cur a = Err e -> walk t links cur a = Err e.
Proof.
  intros Hle He. revert l' cur a links Hle. apply (walk_ind (fun l' cur a =>
    forall links, (l' <= links)%nat -> walk t l' cur a = Err e -> walk t links cur a = Err e)).
  - intros l' cur links _. by rewrite walk_nil.
  - intros l' cur c rest IHr IHl links Hle. rewrite !walk_cons.
    repeat case_match; simplify_eq; auto; try lia.
    all: intros Hw; first [congruence|eapply IHl; [| |exact Hw]; lia].
Qed.

Lemma node_at_ordinary t loc c n :
  wf_tree t -> node_at t (loc ++ [c]) = Some n -> ordinary c.
Proof.
  intros Hwf Hn. unfold node_at in Hn.
  destruct (loc ++ [c]) as [|x l] eqn:E; [by destruct loc|].
  apply Hwf in Hn. rewrite <- E in Hn. apply Forall_app in Hn as [_ Hn]. by inversion Hn.
Qed.

Lemma real_removelast t loc : real t loc -> real t (removelast loc).
Proof. intros H. inversion H; subst; [constructor|]. by rewrite removelast_last. Qed.

Lemma walk_real t links cur a out :
  wf_tree t -> real t cur -> walk t links cur a = Ok out -> real t out.
Proof.
  intros Hwf. revert links cur a out. apply (walk_ind (fun links cur a => forall out,
    real t cur -> walk t links cur a = Ok out -> real t out)).
  - intros links cur out Hr. rewrite walk_nil. by intros [= <-].
  - intros links cur c rest IHr IHl out Hr. rewrite walk_cons.
    repeat case_match; simplify_eq; intros Hw; try discriminate Hw.
    all: try (eapply IHl; [| |exact Hw]; [lia|done || constructor]).
    all: eapply IHr; [|exact Hw]; try done.
    all: try by apply real_removelast.
    all: econstructor; eauto using node_at_ordinary.
Qed.

Lemma real_ordinary t loc : real t loc -> Forall ordinary loc.
Proof. induction 1; [constructor|]. apply Forall_app. by repeat constructor; try apply H1. Qed.

(** What a real location says of each of its elements. *)
Lemma real_app_inv t loc c rest :
  real t (loc ++ c :: rest) ->
  real t loc /\ node_at t loc = Some (Dir true) /\ ordinary c /\
  real t (loc ++ [c]) /\
  exists n, node_at t (loc ++ [c]) = Some n /\ is_symlink n = false.
Proof.
  revert loc c; induction rest as [|d rest IH] using rev_ind; intros loc c H.
  - inversion H as [E|loc' c' n H1 H2 H3 H4 H5 E]; [by destruct loc|].
    apply app_inj_tail in E as [-> ->]. eauto 10 with http.
  - rewrite app_comm_cons, app_assoc in H.
    inversion H as [E|loc' c' n H1 H2 H3 H4 H5 E]; [by destruct loc|].
    apply app_inj_tail in E as [-> ->]. by apply IH.
Qed.

Lemma walk_along t links cur names rest :
  real t (cur ++ names) ->
  walk t links cur (names ++ rest) = walk t links (cur ++ names) rest.
Proof.
  revert cur; induction names as [|c names IH]; intros cur H.
  - by rewrite app_nil_r.
  - destruct (real_app_inv _ _ _ _ H) as (_ & Hd & (Hc1 & Hc2 & Hc3 & _) & _ & n & Hn & Hs).
    simpl. rewrite walk_cons, Hd, Hn.
    rewrite !bool_decide_eq_false_2 by done. simpl.
    rewrite (cons_middle c cur names), app_assoc in H |- *.
    destruct n; simpl in Hs; try discriminate Hs; by apply IH.
Qed.

(** ** NUL bytes *)

Lemma c_str_app a b : Forall (fun e => NUL ∉ e) a -> c_str (a ++ b) = a ++ c_str b.
Proof.
  induction 1 as [|e a He Ha IH]; simpl; [done|].
  by rewrite bool_decide_eq_false_2, IH.
Qed.

Lemma c_str_nul a b : ¬ Forall (fun e => NUL ∉ e) a -> c_str (a ++ b) = c_str a.
Proof.
  induction a as [|e a IH]; simpl; intros H; [by destruct H|].
  case_bool_decide as He; [done|]. rewrite IH; [done|]. intros Ha. apply H. by constructor.
Qed.

(** What a system call sees of one element. *)
Definition seen (e : bytes) : bytes := if bool_decide (NUL ∈ e) then before_nul e else e.

Lemma c_str_head e m : exists m', c_str (e :: m) = seen e :: m'.
Proof. unfold seen. simpl. case_bool_decide; eauto. Qed.

Lemma c_str_singleton e : c_str [e] = [seen e].
Proof. unfold seen. simpl. by case_bool_decide. Qed.

Lemma ordinary_nul_free loc : Forall ordinary loc -> Forall (fun e => NUL ∉ e) loc.
Proof. intros H. eapply Forall_impl; [exact H|]. by intros c (_ & _ & _ & _ & ?). Qed.

Lemma resolve_after t loc m :
  real t loc -> resolve t (ROOT_DIR :: loc ++ m) = walk t MAXSYMLINKS loc (c_str m).
Proof.
  intros Hr. unfold resolve. cbn [c_str].
  rewrite (bool_decide_eq_false_2 (NUL ∈ ROOT_DIR)) by (vm_compute; set_solver).
  rewrite bool_decide_eq_true_2 by done.
  rewrite c_str_app by (by eapply ordinary_nul_free, real_ordinary).
  by rewrite (walk_along t MAXSYMLINKS [] loc).
Qed.

Lemma resolve_real t loc : real t loc -> resolve t (ROOT_DIR :: loc) = Ok loc.
Proof.
  intros Hr. rewrite <- (app_nil_r loc) at 1. rewrite resolve_after by done. apply walk_nil.
Qed.

(** ** Normalization *)

Definition kept (e : bytes) : Prop := e <> [] /\ e <> DOT.

#[export] Instance kept_dec e : Decision (kept e).
Proof. unfold kept. apply _. Defined.

Lemma normal_loop_names loc p stack d :
  Forall ordinary loc ->
  normal_loop true (loc ++ p) stack d
  = normal_loop true p (rev loc ++ stack) (if bool_decide (loc = []) then d else false).
Proof.
  intros H. revert stack d. induction H as [|c loc (H1 & H2 & H3 & _) Hl IH]; intros stack d; [done|].
  simpl. rewrite !bool_decide_eq_false_2 by done. simpl. rewrite IH.
  rewrite <- app_assoc. simpl. by case_bool_decide.
Qed.

(** Without dot-dot, normalization keeps the names and marks a trailing separator. *)
Lemma normal_loop_plain p stack d :
  DOTDOT ∉ p ->
  exists d', normal_loop true p stack d
    = rev stack ++ filter kept p ++
      (if d' && match rev (filter kept p) ++ stack with
                | e :: _ => negb (bool_decide (e = DOTDOT)) | [] => false end
       then [[]] else []) /\
    (filter kept p = [] -> p <> [] -> d' = true) /\ (p = [] -> d' = d).
Proof.
  revert stack d; induction p as [|e p IH]; intros stack d; simpl.
  - intros _. exists d. by split.
  - rewrite not_elem_of_cons. intros [He Hp]. rewrite filter_cons.
    destruct (bool_decide (e = []) || bool_decide (e = DOT)) eqn:Ek.
    + rewrite decide_False by (intros [? ?]; repeat case_bool_decide; done).
      destruct (IH stack true Hp) as (d' & -> & H1 & H2). exists d'. split; [done|].
      split; [|done]. intros Hf _. destruct p; [by apply H2|by apply H1].
    + apply orb_false_iff in Ek as [E1 E2].
      apply bool_decide_eq_false in E1, E2.
      rewrite decide_True by done. rewrite (bool_decide_eq_false_2 (e = DOTDOT)) by congruence.
      destruct (IH (e :: stack) false Hp) as (d' & -> & H1 & H2). exists d'.
      split; [|done]. simpl. rewrite <- !app_assoc. done.
Qed.

(** ** The weakly canonical form of a missing path *)

(** The elements of a path below the root directory: no root element, and an empty
    element only at the end. *)
Definition tail_ok (q : list bytes) : Prop :=
  Forall (fun e => e <> ROOT_DIR) q /\ Forall (fun e => e <> []) (removelast q) /\ q <> [[]].

Lemma removelast_app_cons {A} (a : list A) e r :
  removelast (a ++ e :: r) = a ++ removelast (e :: r).
Proof. apply removelast_app. done. Qed.

Lemma path_append_elem q e :
  Forall (fun e => e <> [] /\ e <> ROOT_DIR) q -> e <> ROOT_DIR -> (e = [] -> q <> []) ->
  path_append (ROOT_DIR :: q) (elem_path e) = ROOT_DIR :: q ++ [e].
Proof.
  intros Hq He Hne. unfold path_append, elem_path.
  assert (Hlast : forall x, last (ROOT_DIR :: q) = Some x -> x <> []).
  { intros x Hx. destruct q as [|y q] using rev_ind; [by injection Hx as <-|].
    change (ROOT_DIR :: q ++ [y]) with ((ROOT_DIR :: q) ++ [y]) in Hx.
    rewrite last_snoc in Hx. injection Hx as <-. apply Forall_app in Hq as [_ Hq].
    by inversion Hq as [|? ? [? _]]. }
  case_bool_decide as Ee; simpl is_absolute; cbn iota.
  - subst e. specialize (Hne eq_refl). unfold has_filename.
    destruct q as [|y q _] using rev_ind; [done|].
    change (ROOT_DIR :: q ++ [y]) with ((ROOT_DIR :: q) ++ [y]). rewrite last_snoc.
    apply Forall_app in Hq as [_ Hq]. inversion Hq as [|? ? [Hy1 Hy2] _]; subst.
    rewrite !bool_decide_eq_false_2 by done. done.
  - rewrite (bool_decide_eq_false_2 (e = ROOT_DIR)) by done.
    rewrite (bool_decide_eq_false_2 (last _ = Some [])); [done|].
    intros Hl. by apply Hlast in Hl.
Qed.

Lemma foldl_path_append o p :
  Forall (fun e => e <> [] /\ e <> ROOT_DIR) o ->
  Forall (fun e => e <> ROOT_DIR) p -> Forall (fun e => e <> []) (removelast p) ->
  (p = [[]] -> o <> []) ->
  foldl (fun acc e => path_append acc (elem_path e)) (ROOT_DIR :: o) p = ROOT_DIR :: o ++ p.
Proof.
  revert o; induction p as [|e p IH]; intros o Ho Hr He Hne; simpl; [by rewrite app_nil_r|].
  inversion Hr; subst. rewrite path_append_elem; [|done|done|].
  2:{ intros ->. destruct p; [by apply Hne|]. by inversion He. }
  destruct p as [|e' p]; [done|].
  rewrite (IH (o ++ [e])); [by rewrite <- app_assoc| |done| |].
  - apply Forall_app. split; [done|]. inversion He; subst. by repeat constructor.
  - by inversion He.
  - intros _ Hn. by destruct o.
Qed.

Lemma leading_spec t q1 q2 res rest n :
  tail_ok (q1 ++ q2) -> tree_status t (ROOT_DIR :: q1) = found n ->
  leading t (ROOT_DIR :: q1) q2 = Ok (res, rest) ->
  exists q1' n', res = ROOT_DIR :: q1' /\ q1 ++ q2 = q1' ++ rest /\
    tree_status t (ROOT_DIR :: q1') = found n' /\
    match rest with
    | [] => True
    | e :: _ => tree_status t (ROOT_DIR :: q1' ++ [e]) = not_found_status
    end.
Proof.
  revert q1 n; induction q2 as [|e q2 IH]; intros q1 n (Hr & Hl & Hne) Hn; simpl.
  { intros [= <- <-]. by exists q1, n. }
  rewrite removelast_app_cons in Hl. apply Forall_app in Hl as [Hl1 Hl2].
  apply Forall_app in Hr as [Hr1 Hr2].
  rewrite path_append_elem.
  - destruct (tree_status t (ROOT_DIR :: q1 ++ [e])) as [n'| |] eqn:Es; [|by intros [= <- <-]; eauto 10|done].
    intros Hlead. rewrite cons_middle, app_assoc. eapply IH; [|exact Es|exact Hlead].
    rewrite <- app_assoc. repeat split; [by apply Forall_app| |done].
    simpl. rewrite removelast_app_cons. by apply Forall_app.
  - apply Forall_and. done.
  - by inversion Hr2.
  - intros -> ->. destruct q2; [done|]. inversion Hl2. done.
Qed.

Lemma status_found t p n : tree_status t p = found n -> exists loc, resolve t p = Ok loc /\ node_at t loc = Some n.
Proof.
  unfold tree_status. destruct (resolve t p) as [loc|[]]; try done.
  destruct (node_at t loc) eqn:E; [|done]. intros [= <-]. eauto.
Qed.

Lemma real_node t loc : real t loc -> is_Some (node_at t loc).
Proof. intros H. inversion H; subst; [by eexists|by eexists]. Qed.

Lemma resolve_is_real t p loc :
  wf_tree t -> resolve t (ROOT_DIR :: p) = Ok loc -> real t loc.
Proof.
  intros Hwf. unfold resolve. cbn [c_str].
  rewrite (bool_decide_eq_false_2 (NUL ∈ ROOT_DIR)) by (vm_compute; set_solver).
  rewrite bool_decide_eq_true_2 by done. apply walk_real; [done|constructor].
Qed.

(** Resolution stops at a node that is not a searchable directory. *)
Lemma walk_blocked t links loc x m :
  node_at t loc <> Some (Dir true) -> forall out, walk t links loc (x :: m) <> Ok out.
Proof. intros H out. rewrite walk_cons. by repeat case_match. Qed.

Lemma resolve_split t q1 e loc :
  Forall (fun e => NUL ∉ e) q1 -> resolve t (ROOT_DIR :: q1) = Ok loc ->
  exists l', (l' <= MAXSYMLINKS)%nat /\
    resolve t (ROOT_DIR :: q1 ++ [e]) = walk t l' loc [seen e].
Proof.
  intros Hn. unfold resolve. cbn [c_str].
  rewrite (bool_decide_eq_false_2 (NUL ∈ ROOT_DIR)) by (vm_compute; set_solver).
  rewrite bool_decide_eq_true_2 by done.
  rewrite (c_str_app q1 [e]) by done.
  rewrite <- (app_nil_r q1) at 1. rewrite c_str_app by done. rewrite app_nil_r.
  intros (l' & Hle & Hb)%walk_app. exists l'. by rewrite Hb, c_str_singleton.
Qed.

(** System calls depend only on what they see of a path. *)
Lemma status_c_str t p p' : c_str p = c_str p' -> tree_status t p = tree_status t p'.
Proof. intros H. unfold tree_status, resolve. by rewrite H. Qed.

Lemma c_str_root q : c_str (ROOT_DIR :: q) = ROOT_DIR :: c_str q.
Proof. done. Qed.

(** The first element that does not exist, seen from where the ones before it lead. *)
Lemma missing_step t q1 e r o :
  wf_tree t -> tree_status t (ROOT_DIR :: q1 ++ e :: r) = not_found_status ->
  (exists n, tree_status t (ROOT_DIR :: q1) = found n) ->
  tree_status t (ROOT_DIR :: q1 ++ [e]) = not_found_status ->
  resolve t (ROOT_DIR :: q1) = Ok o ->
  exists l' en, (l' <= MAXSYMLINKS)%nat /\ en <> ELOOP /\ walk t l' o [seen e] = Err en.
Proof.
  intros Hwf Hp [n Hn] He Ho.
  assert (Hnul : Forall (fun e => NUL ∉ e) q1).
  { destruct (decide (Forall (fun e => NUL ∉ e) q1)) as [|Hno]; [done|exfalso].
    rewrite (status_c_str t _ (ROOT_DIR :: q1)) in Hp by (by rewrite !c_str_root, c_str_nul).
    by rewrite Hp in Hn. }
  destruct (resolve_split t q1 e o Hnul Ho) as (l' & Hle & Hr).
  unfold tree_status in He. rewrite Hr in He. revert He.
  destruct (walk t l' o [seen e]) as [loc|en] eqn:Ew.
  - apply resolve_is_real in Hr; [|done]. apply real_node in Hr as [x ->]. discriminate.
  - intros He. exists l', en. split; [exact Hle|]. split; [|exact Ew].
    intros ->. discriminate He.
Qed.

Lemma seen_plain e : e = [] \/ e = DOT -> seen e = e.
Proof.
  intros He. unfold seen. rewrite bool_decide_eq_false_2; [done|].
  destruct He as [-> | ->]; vm_compute; set_solver.
Qed.

Lemma step_kept t l' o e en :
  node_at t o = Some (Dir true) -> walk t l' o [seen e] = Err en -> kept e.
Proof.
  intros Hd Hw. split; intros ->; rewrite walk_cons, Hd in Hw; simpl in Hw;
    rewrite walk_nil in Hw; done.
Qed.

(** What normalization leaves of the missing elements is not empty, and begins with the
    first of them when they hang below a directory. *)
Lemma normal_missing t o e r :
  real t o -> DOTDOT ∉ e :: r -> (node_at t o = Some (Dir true) -> kept e) ->
  exists x m, lexically_normal (ROOT_DIR :: o ++ e :: r) = ROOT_DIR :: o ++ x :: m /\
    (node_at t o = Some (Dir true) -> x = e).
Proof.
  intros Ho Hdd Hk. simpl. pose proof (real_ordinary _ _ Ho) as Hord.
  rewrite normal_loop_names by done.
  destruct (normal_loop_plain (e :: r) (rev o ++ []) (if bool_decide (o = []) then false else false) Hdd)
    as (d' & -> & Hd' & _).
  rewrite app_nil_r, rev_involutive.
  destruct (filter kept (e :: r)) as [|x m] eqn:Ef.
  - assert (Hnd : node_at t o <> Some (Dir true)).
    { intros Hd. rewrite filter_cons_True in Ef by auto. done. }
    rewrite Hd' by done. simpl.
    destruct (rev o) as [|y ys] eqn:Er.
    { destruct o; [done|]. simpl in Er. by destruct (rev o). }
    rewrite bool_decide_eq_false_2.
    + exists [], []. split; [done|]. by intros ?.
    + intros ->. assert (DOTDOT ∈ o) as Hin.
      { apply list_elem_of_In, in_rev. rewrite Er. by left. }
      rewrite Forall_forall in Hord. by destruct (Hord _ Hin) as (_ & _ & ? & _).
  - exists x, (m ++ if d' && match rev (x :: m) ++ rev o with
                    | e :: _ => negb (bool_decide (e = DOTDOT)) | [] => false end
                 then [[]] else []).
    split; [done|]. intros Hd. rewrite filter_cons_True in Ef by auto. by injection Ef as <- _.
Qed.

(** How [weakly_canonical] composes its result for a path that does not exist. *)
Lemma weakly_missing_inv t q c :
  tail_ok q -> tree_status t (ROOT_DIR :: q) = not_found_status ->
  tree_weakly_canonical t (ROOT_DIR :: q) = Ok c ->
  exists q1 e r o n, q = q1 ++ e :: r /\ tree_status t (ROOT_DIR :: q1) = found n /\
    resolve t (ROOT_DIR :: q1) = Ok o /\
    tree_status t (ROOT_DIR :: q1 ++ [e]) = not_found_status /\
    c = lexically_normal
          (foldl (fun acc e => path_append acc (elem_path e)) (ROOT_DIR :: o) (e :: r)).
Proof.
  intros Hq Hp. unfold tree_weakly_canonical. rewrite Hp.
  intros ([res rest] & Hl & (base & Hb & [= <-])%rbind_Ok)%rbind_Ok. simpl in Hb |- *.
  assert (H0 : tree_status t [ROOT_DIR] = found (Dir true)).
  { unfold tree_status, resolve. simpl. by rewrite walk_nil. }
  assert (Hl' : leading t [ROOT_DIR] q = Ok (res, rest)).
  { cbn [leading] in Hl. change (path_append [] (elem_path ROOT_DIR)) with [ROOT_DIR] in Hl.
    by rewrite H0 in Hl. }
  destruct (leading_spec t [] q res rest _ Hq H0 Hl') as (q1 & n' & -> & Hsp & Hf & Hr).
  simpl in Hsp. subst q. destruct rest as [|e r].
  { rewrite app_nil_r in Hp. by rewrite Hp in Hf. }
  unfold tree_canonical in Hb. destruct (status_found _ _ _ Hf) as (o & Ho & _).
  rewrite Ho in Hb. injection Hb as <-. by exists q1, e, r, o, n'.
Qed.

Lemma weakly_missing t q c n :
  wf_tree t -> tail_ok q -> DOTDOT ∉ q ->
  tree_status t (ROOT_DIR :: q) = not_found_status ->
  tree_weakly_canonical t (ROOT_DIR :: q) = Ok c -> tree_status t c <> found n.
Proof.
  intros Hwf Hq Hdd Hp Hw.
  destruct (weakly_missing_inv t q c Hq Hp Hw) as (q1 & e & r & o & n' & -> & Hf & Ho & Hr & ->).
  pose proof (resolve_is_real _ _ _ Hwf Ho) as Hreal.
  destruct (missing_step t q1 e r o Hwf Hp (ex_intro _ _ Hf) Hr Ho) as (l' & en & Hle & Hen & Hws).
  assert (Hk : node_at t o = Some (Dir true) -> kept e) by (intros Hd; by eapply step_kept).
  destruct Hq as (Hq1 & Hq2 & _). apply Forall_app in Hq1 as [_ Hq1].
  rewrite removelast_app_cons in Hq2. apply Forall_app in Hq2 as [_ Hq2].
  rewrite foldl_path_append; [| |done|done|].
  2:{ eapply Forall_impl; [by eapply real_ordinary|]. by intros x (? & _ & _ & ? & _). }
  2:{ intros [= -> ->] ->. by destruct (Hk eq_refl). }
  destruct (normal_missing t o e r Hreal) as (x & m & -> & Hx); [set_solver|done|].
  intros (out & Hout & _)%status_found. rewrite resolve_after in Hout by done.
  destruct (c_str_head x m) as [m' Hm]. rewrite Hm in Hout.
  destruct (decide (node_at t o = Some (Dir true))) as [Hd|Hd].
  - rewrite (Hx Hd) in Hout. apply (walk_links t l' MAXSYMLINKS) in Hws; [|done|done].
    apply (walk_app_err _ _ _ _ m') in Hws. simpl in Hws. by rewrite Hws in Hout.
  - by apply walk_blocked in Hout.
Qed.

(** ** Where served files really are *)

Lemma weakly_real t q c n :
  wf_tree t -> tail_ok q -> DOTDOT ∉ q ->
  tree_weakly_canonical t (ROOT_DIR :: q) = Ok c -> tree_status t c = found n ->
  exists loc, c = ROOT_DIR :: loc /\ real t loc /\ node_at t loc = Some n.
Proof.
  intros Hwf Hq Hdd Hw Hs. destruct (tree_status t (ROOT_DIR :: q)) as [n'| |] eqn:E.
  - unfold tree_weakly_canonical in Hw. rewrite E in Hw. unfold tree_canonical in Hw.
    destruct (status_found _ _ _ E) as (loc & Hl & _). rewrite Hl in Hw. injection Hw as <-.
    pose proof (resolve_is_real _ _ _ Hwf Hl) as Hr. exists loc. split; [done|]. split; [done|].
    destruct (status_found _ _ _ Hs) as (loc' & Hl' & Hn). rewrite resolve_real in Hl' by done.
    by injection Hl' as ->.
  - by destruct (weakly_missing t q c n Hwf Hq Hdd E Hw).
  - unfold tree_weakly_canonical in Hw. by rewrite E in Hw.
Qed.

Lemma split_slash_no_slash s : Forall (fun e => "/"%char ∉ e) (split_slash s).
Proof.
  induction s as [|c s IH]; simpl; [repeat constructor; set_solver|].
  case_bool_decide; [constructor; [set_solver|done]|].
  destruct (split_slash s) as [|h l]; [repeat constructor; set_solver|].
  inversion IH; subst. constructor; [set_solver|done].
Qed.

Lemma names_of_ok s : Forall (fun e => e <> [] /\ e <> ROOT_DIR) (names_of s).
Proof.
  apply Forall_forall. intros e [He Hin]%list_elem_of_filter. split; [done|]. intros ->.
  pose proof (split_slash_no_slash s) as Hf. rewrite Forall_forall in Hf.
  specialize (Hf _ Hin). apply Hf. vm_compute. set_solver.
Qed.

Lemma remove_slashes_relative s : starts_with (lit "/") (remove_slashes s) = false.
Proof.
  induction s as [|c s IH]; simpl; [done|]. case_bool_decide as E; [done|].
  change (lit "/") with ["/"%char]. simpl. by rewrite bool_decide_eq_false_2 by congruence.
Qed.

(** The shape of the relative path of a target. *)
Lemma relative_path_shape d :
  exists ns, Forall (fun e => e <> [] /\ e <> ROOT_DIR) ns /\
    (make_relative_path d = ns \/ ns <> [] /\ make_relative_path d = ns ++ [[]]).
Proof.
  unfold make_relative_path, path_of. rewrite remove_slashes_relative.
  exists (names_of (remove_slashes d)). split; [apply names_of_ok|].
  destruct (bool_decide (last _ = _) && _) eqn:E; simpl; [|left; apply app_nil_r].
  right. apply andb_true_iff in E as [_ E]. by destruct (names_of (remove_slashes d)).
Qed.

Lemma joined_path_ok rc d :
  Forall ordinary rc ->
  exists q, path_append (ROOT_DIR :: rc) (make_relative_path d) = ROOT_DIR :: q /\ tail_ok q /\
    (DOTDOT ∉ make_relative_path d -> DOTDOT ∉ q).
Proof.
  intros Hrc.
  assert (Hrc' : Forall (fun e => e <> [] /\ e <> ROOT_DIR) rc).
  { eapply Forall_impl; [exact Hrc|]. by intros x (? & _ & _ & ? & _). }
  assert (Hdd : DOTDOT ∉ rc).
  { intros Hin. rewrite Forall_forall in Hrc. by destruct (Hrc _ Hin) as (_ & _ & ? & _). }
  destruct (relative_path_shape d) as (ns & Hns & Hrel).
  assert (Hsplit : forall l, Forall (fun e => e <> [] /\ e <> ROOT_DIR) l ->
    Forall (fun e : bytes => e <> []) l /\ Forall (fun e : bytes => e <> ROOT_DIR) l).
  { intros l Hl. by apply Forall_and. }
  destruct (Hsplit _ Hrc') as [Hr1 Hr2]. destruct (Hsplit _ Hns) as [Hn1 Hn2].
  destruct (decide (make_relative_path d = [])) as [E|E].
  - rewrite E. destruct (decide (rc = [])) as [->|Hne].
    + exists []. split; [done|]. split; [|done]. split; [constructor|]. split; [constructor|done].
    + exists (rc ++ [[]]). split; [|split].
      * change [] with (elem_path []) at 1. by apply path_append_elem.
      * repeat split; [by apply Forall_app; split; [|apply Forall_singleton]| |by destruct rc as [|? []]].
        by rewrite removelast_last.
      * intros _. rewrite elem_of_app, list_elem_of_singleton. naive_solver.
  - exists (rc ++ make_relative_path d). split; [|split].
    + unfold path_append. destruct (make_relative_path d) as [|e rel] eqn:Er; [done|].
      assert (He : e <> ROOT_DIR).
      { destruct Hrel as [<-|[Hne Hx]]; [by inversion Hn2|].
        destruct ns as [|n0 ns]; [done|]. injection Hx as -> _. by inversion Hn2. }
      simpl is_absolute. rewrite (bool_decide_eq_false_2 (e = ROOT_DIR)) by done.
      rewrite (bool_decide_eq_false_2 (last _ = _)); [done|].
      destruct rc as [|y rc _] using rev_ind; [done|].
      change (ROOT_DIR :: rc ++ [y]) with ((ROOT_DIR :: rc) ++ [y]). rewrite last_snoc.
      apply Forall_app in Hr1 as [_ Hy]. inversion Hy. naive_solver.
    + repeat split.
      * apply Forall_app. split; [done|]. destruct Hrel as [->|[_ ->]]; [done|].
        apply Forall_app. split; [done|]. by apply Forall_singleton.
      * rewrite removelast_app by done. apply Forall_app. split; [done|].
        destruct Hrel as [->|[_ ->]]; [|by rewrite removelast_last].
        destruct ns as [|y ns _] using rev_ind; [done|]. rewrite removelast_last.
        by apply Forall_app in Hn1 as [? _].
      * intros Hx. destruct rc; [|by destruct rc; destruct (make_relative_path d)].
        simpl in Hx. destruct Hrel as [Hrel|[Hne Hrel]]; rewrite Hx in Hrel.
        -- subst ns. by inversion Hn1.
        -- destruct ns as [|? []]; done.
    + intros Hd. rewrite elem_of_app. tauto.
Qed.

(** The location of a regular file under the root, with its content. *)
Definition file_under (t : tree) (rc : list bytes) (content : bytes) (readable : bool) : Prop :=
  exists names, real t (rc ++ names) /\ node_at t (rc ++ names) = Some (Regular content readable).

(** From a candidate that resolves to a real location under the root to its content. *)
Lemma served_content t rc max request c names :
  let h := {| root_ := ROOT_DIR :: rc; max_file_bytes_ := max |} in
  (max < 2 ^ 64)%N -> resolve t c = Ok (rc ++ names) -> real t (rc ++ names) ->
  tree_is_regular t c = true ->
  (if bool_decide (req_method request = lit "HEAD")
   then exists size, tree_file_size t c = Ok size /\
        content_length (@handle (tree_fs t) h request) = Some size
   else @read_file (tree_fs t) c max = Some (payload (@handle (tree_fs t) h request))) ->
  exists content readable, file_under t rc content readable /\
    if bool_decide (req_method request = lit "HEAD")
    then content_length (@handle (tree_fs t) h request) = Some (len content)
    else payload (@handle (tree_fs t) h request) = content.
Proof.
  intros h Hm Hc Hr Hreg Hbody.
  unfold tree_is_regular, tree_file_size, tree_status in *. rewrite Hc in Hreg, Hbody.
  destruct (node_at t (rc ++ names)) as [[]|] eqn:En; try done.
  exists content, readable. split; [by exists names|].
  case_bool_decide; [by destruct Hbody as (size & [= <-] & ->)|].
  apply read_file_inv in Hbody as (f & Hf & _ & Hd & _); [|done].
  simpl in Hf. unfold tree_open, tree_status in Hf. rewrite Hc, En in Hf.
  destruct readable; [|done]. by injection Hf as <-.
Qed.

Section Containment.
Context (t : tree) (rc : list bytes) (max : N).
Context (Hwf : wf_tree t) (Hrc : real t rc) (Hmax : (max < 2 ^ 64)%N).

Local Definition the_handler : StaticFileHandler :=
  {| root_ := ROOT_DIR :: rc; max_file_bytes_ := max |}.

(** Everything a 200 response says about the candidate, in terms of the tree. *)
Lemma served_candidate request :
  status_code (@handle (tree_fs t) the_handler request) = 200%Z ->
  exists decoded c n,
    decoded_target request = Some decoded /\
    tree_weakly_canonical t (path_append (ROOT_DIR :: rc) (make_relative_path decoded)) = Ok c /\
    (ROOT_DIR :: rc) `prefix_of` c /\ tree_status t c = found n /\ tree_is_regular t c = true /\
    (if bool_decide (req_method request = lit "HEAD")
     then exists size, tree_file_size t c = Ok size /\
          content_length (@handle (tree_fs t) the_handler request) = Some size
     else @read_file (tree_fs t) c max = Some (payload (@handle (tree_fs t) the_handler request))).
Proof.
  intros (decoded & c & size & Hd & _ & Hw & Hp & He & Hreg & Hsz & _ & Hb)%handle_served_inv.
  simpl in Hw, Hp, He, Hreg, Hsz. unfold tree_exists in He.
  destruct (tree_status t c) as [n| |] eqn:Es; try done.
  exists decoded, c, n. repeat (split; [done|]).
  destruct (bool_decide _); [|by destruct Hb]. exists size. by destruct Hb.
Qed.

Lemma served_inside request decoded :
  decoded_target request = Some decoded -> DOTDOT ∉ make_relative_path decoded ->
  status_code (@handle (tree_fs t) the_handler request) = 200%Z ->
  exists content readable, file_under t rc content readable /\
    if bool_decide (req_method request = lit "HEAD")
    then content_length (@handle (tree_fs t) the_handler request) = Some (len content)
    else payload (@handle (tree_fs t) the_handler request) = content.
Proof.
  intros Hdec Hdd H200. destruct (served_candidate request H200)
    as (d & c & n & Hd & Hw & Hp & Hs & Hreg & Hb). rewrite Hdec in Hd. injection Hd as <-.
  destruct (joined_path_ok rc decoded (real_ordinary _ _ Hrc)) as (q & Hq & Hok & Hqdd).
  rewrite Hq in Hw.
  destruct (weakly_real t q c n Hwf Hok (Hqdd Hdd) Hw Hs) as (loc & Hc & Hloc & _).
  subst c. destruct Hp as [names Hp]. injection Hp as ->.
  apply (served_content t rc max request (ROOT_DIR :: rc ++ names) names); auto using resolve_real.
Qed.

(** ** Trees without links under the root *)

Definition no_links_under : Prop :=
  forall names target, node_at t (rc ++ names) <> Some (Symlink target).

Lemma removelast_dir loc : real t loc -> node_at t (removelast loc) = Some (Dir true).
Proof. intros H. inversion H; subst; [done|]. by rewrite removelast_last. Qed.

Lemma walk_no_links links a todo loc :
  no_links_under -> real t (rc ++ a) -> DOTDOT ∉ removelast todo ->
  walk t links (rc ++ a) todo = Ok loc ->
  (exists b, loc = rc ++ b) \/ node_at t loc = Some (Dir true).
Proof.
  intros Hnl. revert a; induction todo as [|c todo IH]; intros a Hr Hdd.
  { rewrite walk_nil. intros Hw. injection Hw as <-. left. by exists a. }
  assert (Hdd' : DOTDOT ∉ removelast todo).
  { destruct todo; [done|]. simpl in Hdd |- *. set_solver. }
  rewrite walk_cons. destruct (node_at t (rc ++ a)) as [[[]| | |]|] eqn:Ea; try done.
  destruct (bool_decide (c = []) || bool_decide (c = DOT)); [by apply IH|].
  destruct (bool_decide (c = DOTDOT)) eqn:Ec.
  - apply bool_decide_eq_true in Ec. destruct todo as [|d todo]; [|exfalso; simpl in Hdd; set_solver].
    rewrite walk_nil. intros Hw. injection Hw as <-. right. by apply removelast_dir.
  - destruct (node_at t ((rc ++ a) ++ [c])) as [n|] eqn:En; [|done].
    assert (Hreal : is_symlink n = false -> real t ((rc ++ a) ++ [c])).
    { intros Hs. econstructor; eauto using node_at_ordinary. }
    rewrite <- app_assoc in En, Hreal |- *.
    destruct n; try (apply IH; [by apply Hreal|done]).
    by apply Hnl in En.
Qed.

Lemma normal_loop_no_dotdot p stack d :
  DOTDOT ∉ stack -> DOTDOT ∉ normal_loop true p stack d.
Proof.
  revert stack d; induction p as [|e p IH]; intros stack d Hs; simpl.
  - intros [Hin|Hin]%elem_of_app.
    + apply Hs. apply list_elem_of_In, in_rev. by apply list_elem_of_In in Hin.
    + destruct (d && _); [apply list_elem_of_singleton in Hin; done|by apply not_elem_of_nil in Hin].
  - destruct (bool_decide (e = []) || bool_decide (e = DOT)); [by apply IH|].
    destruct (bool_decide (e = DOTDOT)) eqn:E;
      [apply bool_decide_eq_true in E|apply bool_decide_eq_false in E].
    + destruct stack as [|top stack]; [apply IH; set_solver|].
      rewrite bool_decide_eq_false_2 by set_solver. apply IH. set_solver.
    + apply IH. set_solver.
Qed.

Lemma lexically_normal_no_dotdot q : DOTDOT ∉ lexically_normal (ROOT_DIR :: q).
Proof.
  simpl. intros [Hx|Hx]%elem_of_cons; [by vm_compute in Hx|].
  by apply normal_loop_no_dotdot in Hx; [|apply not_elem_of_nil].
Qed.

Lemma foldl_path_root o p :
  Forall (fun e => e <> ROOT_DIR) p ->
  exists q, foldl (fun acc e => path_append acc (elem_path e)) (ROOT_DIR :: o) p = ROOT_DIR :: q.
Proof.
  intros Hp. revert o. induction Hp as [|e p He Hp IH]; intros o; [by exists o|]. simpl.
  assert (exists o', path_append (ROOT_DIR :: o) (elem_path e) = ROOT_DIR :: o') as [o' ->];
    [|by apply IH].
  unfold path_append, elem_path. destruct (bool_decide (e = [])) eqn:Ee; simpl is_absolute; cbn iota.
  - destruct (has_filename (ROOT_DIR :: o)); simpl; eauto.
  - rewrite (bool_decide_eq_false_2 (e = ROOT_DIR)) by done.
    destruct (bool_decide (last (ROOT_DIR :: o) = Some [])) eqn:El; [|simpl; eauto].
    apply bool_decide_eq_true in El. destruct o; [done|]. simpl. eauto.
Qed.

(** A candidate is either canonical, or normalized and therefore without dot-dot. *)
Lemma weakly_shape q c :
  tail_ok q -> tree_weakly_canonical t (ROOT_DIR :: q) = Ok c ->
  (exists loc, c = ROOT_DIR :: loc /\ real t loc) \/ DOTDOT ∉ c.
Proof.
  intros Hq. unfold tree_weakly_canonical.
  destruct (tree_status t (ROOT_DIR :: q)) as [n| |] eqn:E; [| |done].
  - unfold tree_canonical. destruct (resolve t (ROOT_DIR :: q)) as [loc|] eqn:Er; [|done].
    intros Hc. injection Hc as <-. left. exists loc. split; [done|]. by eapply resolve_is_real.
  - intros Hc. right. assert (Hw : tree_weakly_canonical t (ROOT_DIR :: q) = Ok c)
      by (unfold tree_weakly_canonical; by rewrite E).
    destruct (weakly_missing_inv t q c Hq E Hw) as (q1 & e & r & o & n' & -> & _ & _ & _ & ->).
    destruct Hq as (Hr & _ & _). apply Forall_app in Hr as [_ Hr].
    destruct (foldl_path_root o (e :: r) Hr) as [q' ->]. apply lexically_normal_no_dotdot.
Qed.

Lemma c_str_removelast m x : x <> [] -> NUL ∉ x -> x ∈ removelast (c_str m) -> x ∈ m.
Proof.
  intros Hx Hn. induction m as [|e m IH]; simpl; [done|].
  case_bool_decide; [simpl; intros Hin; by apply not_elem_of_nil in Hin|].
  destruct (c_str m) as [|y l] eqn:E; [simpl; intros Hin; by apply not_elem_of_nil in Hin|].
  intros [->|Hin]%elem_of_cons; [by left|]. right. by apply IH.
Qed.
End Containment.

(** C6. Containment. For every tree, and every root the constructor can produce (a
    location free of links), a target whose decoded path has no dot-dot element is
    served only from a regular file whose real location, with all symbolic links
    resolved, lies under the root: a GET carries that file's content and a HEAD its
    size. *)
Theorem served_inside_root t rc max request decoded :
  wf_tree t -> real t rc -> (max < 2 ^ 64)%N ->
  decoded_target request = Some decoded -> DOTDOT ∉ make_relative_path decoded ->
  status_code (@handle (tree_fs t) (the_handler rc max) request) = 200%Z ->
  exists content readable, file_under t rc content readable /\
    if bool_decide (req_method request = lit "HEAD")
    then content_length (@handle (tree_fs t) (the_handler rc max) request) = Some (len content)
    else payload (@handle (tree_fs t) (the_handler rc max) request) = content.
Proof. intros Hwf Hrc Hmax. by apply served_inside. Qed.

(** Without symbolic links under the root, containment holds for every target,
    dot-dot elements and NUL bytes included. *)
Theorem served_inside_linkless_root t rc max request :
  wf_tree t -> real t rc -> (max < 2 ^ 64)%N -> no_links_under t rc ->
  status_code (@handle (tree_fs t) (the_handler rc max) request) = 200%Z ->
  exists content readable, file_under t rc content readable /\
    if bool_decide (req_method request = lit "HEAD")
    then content_length (@handle (tree_fs t) (the_handler rc max) request) = Some (len content)
    else payload (@handle (tree_fs t) (the_handler rc max) request) = content.
Proof.
  intros Hwf Hrc Hmax Hnl H200.
  destruct (served_candidate t rc max request H200)
    as (d & c & n & Hd & Hw & [names Hp] & Hs & Hreg & Hb).
  destruct (joined_path_ok rc d (real_ordinary _ _ Hrc)) as (q & Hq & Hok & _). rewrite Hq in Hw.
  destruct (weakly_shape t rc max Hwf Hrc Hmax q c Hok Hw) as [(loc & Hc & Hr)|Hdd]; simplify_eq/=.
  - apply (served_content t rc max request (ROOT_DIR :: rc ++ names) names); auto using resolve_real.
  - destruct (status_found _ _ _ Hs) as (loc & Hl & Hn). pose proof Hl as Hl'.
    rewrite resolve_after in Hl by done.
    assert (Hr : real t loc) by (by eapply walk_real).
    rewrite <- (app_nil_r rc) in Hl.
    apply (walk_no_links t rc max Hwf Hrc Hmax) in Hl; [|done|by rewrite app_nil_r|].
    + destruct Hl as [[b ->]|Hdir].
      * by apply (served_content t rc max request (ROOT_DIR :: rc ++ names) b).
      * exfalso. unfold tree_is_regular in Hreg. rewrite Hs in Hreg. by simplify_eq.
    + intros Hin. apply c_str_removelast in Hin; [set_solver|done|vm_compute; set_solver].
Qed.

(** ** The examples as witnesses *)

#[export] Instance ordinary_dec c : Decision (ordinary c).
Proof. unfold ordinary. apply _. Defined.

#[export] Instance wf_tree_dec t : Decision (wf_tree t).
Proof. unfold wf_tree. apply _. Defined.

Ltac by_computation := apply (bool_decide_unpack _); vm_compute; exact I.

Lemma site_wf : wf_tree site.
Proof. by_computation. Qed.

Definition www : list bytes := [lit "srv"; lit "www"].

Lemma site_www_real : real site www.
Proof.
  apply (real_snoc site [lit "srv"] (lit "www") (Dir true)); [|done|by_computation|done|done].
  apply (real_snoc site [] (lit "srv") (Dir true)); [constructor|done|by_computation|done|done].
Qed.

Lemma served_inside_root_witness :
  exists content readable, file_under site www content readable /\
    payload (@handle (tree_fs site) (the_handler www default_max_file_bytes) (get "/home?x")) = content.
Proof.
  apply (served_inside_root site www default_max_file_bytes (get "/home?x") (lit "/home"));
    [exact site_wf|exact site_www_real|vm_compute; reflexivity|vm_compute; reflexivity
    |by_computation|vm_compute; reflexivity].
Defined.

(** The same tree without its links. *)
Definition plain_site : tree := {|
  nodes := list_to_map [
    ([lit "srv"], Dir true);
    ([lit "srv"; lit "www"], Dir true);
    ([lit "srv"; lit "www"; lit "docs"], Dir true);
    ([lit "srv"; lit "www"; lit "index.html"], Regular (lit "hello") true)];
  cwd := [] |}.

Lemma plain_site_www_real : real plain_site www.
Proof.
  apply (real_snoc plain_site [lit "srv"] (lit "www") (Dir true)); [|done|by_computation|done|done].
  apply (real_snoc plain_site [] (lit "srv") (Dir true)); [constructor|done|by_computation|done|done].
Qed.

Lemma plain_site_no_links : no_links_under plain_site www.
Proof.
  assert (H : map_Forall (fun _ n => is_symlink n = false) (nodes plain_site)) by by_computation.
  intros names target Hn. specialize (H (www ++ names) (Symlink target) Hn). done.
Qed.

Lemma served_inside_linkless_root_witness :
  exists content readable, file_under plain_site www content readable /\
    payload (@handle (tree_fs plain_site) (the_handler www default_max_file_bytes)
               (get "/docs/%2e./index.html")) = content.
Proof.
  apply (served_inside_linkless_root plain_site www default_max_file_bytes (get "/docs/%2e./index.html"));
    [by_computation|exact plain_site_www_real|vm_compute; reflexivity|exact plain_site_no_links
    |vm_compute; reflexivity].
Defined.

Lemma handle_served_witness :
  exists candidate, is_regular_file (FileSystem := tree_fs site) candidate = true /\
    @read_file (tree_fs site) candidate default_max_file_bytes
    = Some (payload (@handle (tree_fs site) site_handler (get "/"))).
Proof.
  destruct (@handle_served (tree_fs site) site_handler (get "/"))
    as (d & c & size & _ & _ & _ & _ & _ & Hreg & _ & _ & Hb & _); [vm_compute; reflexivity|].
  exists c. split; [exact Hreg|exact Hb].
Defined.

Lemma read_file_spec_witness :
  exists f, tree_open site (ROOT_DIR :: www ++ [lit "index.html"]) = Some f /\ if_data f = lit "hello".
Proof.
  destruct (proj1 (@read_file_spec (tree_fs site) (ROOT_DIR :: www ++ [lit "index.html"]) 16
    (lit "hello") ltac:(vm_compute; reflexivity)) ltac:(vm_compute; reflexivity))
    as (f & Hf & _ & Hd & _).
  exists f. split; [exact Hf|exact Hd].
Defined.

(** A file system that refuses every query outside [root]. *)
Definition confined (root : path) (F : FileSystem) : FileSystem :=
  {| canonical := canonical; weakly_canonical := weakly_canonical;
     exists_file p := if is_inside_root root p then exists_file p else Err tt;
     is_regular_file p := is_inside_root root p && is_regular_file p;
     file_size p := if is_inside_root root p then file_size p else Err tt;
     open_file p := if is_inside_root root p then open_file p else None |}.

Lemma confined_agrees root F : agree_under root F (confined root F).
Proof.
  split; simpl; intros p; [done|..];
    intros Hp%is_inside_root_prefix; by rewrite Hp.
Qed.

Lemma handle_noninterference_witness :
  @handle (tree_fs site) site_handler (get "/") =
  @handle (confined (root_ site_handler) (tree_fs site)) site_handler (get "/").
Proof. apply handle_noninterference, confined_agrees. Defined.

(** ** The limit of the containment check *)

(** The content of every regular file under [rc], the files reached by links excluded. *)
Lemma not_under t rc content :
  map_Forall (fun loc n => rc `prefix_of` loc ->
    match n with Regular c _ => bool_decide (c <> content) | _ => true end = true) (nodes t) ->
  ~ exists readable, file_under t rc content readable.
Proof.
  intros H (readable & names & _ & Hn). unfold node_at in Hn.
  destruct (rc ++ names) eqn:E; [done|]. rewrite <- E in Hn.
  specialize (H _ _ Hn (prefix_app_r _ _ _ (reflexivity _))).
  by apply bool_decide_eq_true in H.
Qed.

(** The containment check can be passed through a directory that does not exist: the
    target [/link/secret], which follows a link out of the root, is refused, while
    [/nope/../link/secret] is answered with the content of [/etc/secret], a file that is
    not under the root. [weakly_canonical] resolves links only in the leading elements
    that exist; the rest, here [nope/../link/secret], is normalized as text, and the
    link that normalization leaves behind is followed when the file is opened. *)
Theorem dotdot_symlink_escape :
  @make_static_file_handler (tree_fs site) (path_of (lit "/srv/www")) default_max_file_bytes
  = Ok site_handler /\
  @handle (tree_fs site) site_handler (get "/link/secret") = forbidden /\
  status_code (@handle (tree_fs site) site_handler (get "/nope/../link/secret")) = 200%Z /\
  payload (@handle (tree_fs site) site_handler (get "/nope/../link/secret")) = lit "password" /\
  ~ exists readable, file_under site www (lit "password") readable.
Proof.
  repeat (split; [vm_compute; reflexivity|]). apply not_under. by_computation.
Qed.
