(* ===== verification/Router.v ===== *)
(** * The router

    Models [include/http/router.hpp] and [src/router.cpp]: GET and HEAD go to the static
    file handler, every other method is answered with 405. The theorems are about any
    file system that satisfies the interface [FileSystem]. *)

From Stdlib Require Import Ascii String.
From stdpp Require Import base numbers list gmap strings.
From S2P Require Import Prelude CppLib Parser ParserLemmas ParserSpec Response FileSystem.
From S2P Require Import StaticFileHandler StaticFacts FsTree.

Definition method_not_allowed : HttpResponse :=
  {| resp_version := HTTP11; status_code := 405; reason_phrase := lit "Method Not Allowed";
     resp_headers := <[lit "Content-Type" := lit "text/plain"]>
       (<[lit "Allow" := lit "GET, HEAD"]> ∅);
     resp_body := lit "method not allowed" ++ NL; content_length := None;
     suppress_body := false |}.

Definition route_request `{FileSystem} (request : HttpRequest) (file_handler : StaticFileHandler) :
    HttpResponse :=
  if bool_decide (req_method request = lit "GET") || bool_decide (req_method request = lit "HEAD")
  then
    let response := handle file_handler request in
    if bool_decide (req_method request = lit "HEAD")
    then {| resp_version := resp_version response; status_code := status_code response;
            reason_phrase := reason_phrase response; resp_headers := resp_headers response;
            resp_body := resp_body response;
            content_length := match content_length response with
                              | None => Some (len (resp_body response))
                              | Some n => Some n
                              end;
            suppress_body := true |}
    else response
  else method_not_allowed.

(** ** What the router promises *)

Definition set_method (request : HttpRequest) (method : bytes) : HttpRequest :=
  {| req_method := method; req_target := req_target request; req_version := req_version request;
     req_headers := req_headers request; req_header_fields := req_header_fields request;
     req_body := req_body request |}.

(** Files that can be read and do not change between the size query and the read. *)
Definition stable_files (F : FileSystem) : Prop :=
  forall p size, is_regular_file p = true -> file_size p = Ok size ->
  exists f, open_file p = Some f /\ if_eof f = true /\ len (if_data f) = size.

Section Routing.
Context `{F : FileSystem}.

Lemma handle_bounds h request :
  (max_file_bytes_ h < 2 ^ 64)%N -> (declared (handle h request) < 2 ^ 64)%N.
Proof.
  intros Hm. destruct (handle_shapes h request) as [H|[->|[->| ->]]]; [|by vm_compute..].
  apply handle_served_inv in H as (d & c & size & _ & _ & _ & _ & _ & _ & _ & Hs & Hb).
  destruct (bool_decide _).
  - destruct Hb as [Hc _]. unfold declared. rewrite Hc. simpl. lia.
  - destruct Hb as [Hr Hd]. rewrite Hd. apply read_file_inv in Hr as (f & _ & _ & _ & Hl); [lia|done].
Qed.

Lemma handle_version h request :
  resp_version (handle h request) = HTTP11 /\ search CRLF (reason_phrase (handle h request)) = None.
Proof. unfold handle, serve_file. by repeat case_match. Qed.

Lemma handle_safe h request : safe_response (handle h request).
Proof.
  destruct (handle_version h request) as [Hv Hr].
  destruct (handle_headers h request) as (v & Hh & Hc).
  split; [by rewrite Hv|]. split; [done|]. rewrite Hh.
  apply map_Forall_insert_2; [done|apply map_Forall_empty].
Qed.

Lemma method_not_allowed_safe : safe_response method_not_allowed.
Proof.
  split; [done|]. split; [done|].
  apply map_Forall_insert_2; [done|]. apply map_Forall_insert_2; [done|apply map_Forall_empty].
Qed.

Lemma route_safe request h : safe_response (route_request request h).
Proof.
  unfold route_request. destruct (_ || _); [|apply method_not_allowed_safe].
  destruct (bool_decide _); apply handle_safe.
Qed.

Lemma route_declared request h :
  (max_file_bytes_ h < 2 ^ 64)%N -> (declared (route_request request h) < 2 ^ 64)%N.
Proof.
  intros Hm. pose proof (handle_bounds h request Hm) as Hd. unfold route_request.
  destruct (_ || _); [|by vm_compute]. destruct (bool_decide _); [|done].
  unfold declared in *. simpl. by destruct (content_length (handle h request)).
Qed.

(** The handler looks at the method only to tell HEAD from the rest. *)
Lemma handle_head_get h request :
  stable_files F -> (max_file_bytes_ h < 2 ^ 64)%N ->
  let rg := handle h (set_method request (lit "GET")) in
  let rh := handle h (set_method request (lit "HEAD")) in
  resp_version rh = resp_version rg /\ status_code rh = status_code rg /\
  reason_phrase rh = reason_phrase rg /\ resp_headers rh = resp_headers rg /\
  declared rh = len (resp_body rg) /\ content_length rg = None /\ suppress_body rg = false.
Proof.
  intros Hst Hm. unfold handle. simpl.
  destruct (percent_decode _) as [d|]; [|done]. destruct (negb _); [done|].
  destruct (weakly_canonical _) as [c|]; [|done].
  destruct (negb (is_inside_root _ _)); [done|].
  destruct (exists_file c) as [[]|]; [|done|done].
  destruct (is_regular_file c) eqn:Er; [|done]. simpl.
  unfold serve_file. destruct (file_size c) as [size|] eqn:Es; [|done].
  destruct (_ <? size)%N eqn:El; [done|]. apply N.ltb_ge in El.
  destruct (Hst _ _ Er Es) as (f & Hf & He & Hl).
  rewrite (proj2 (read_file_inv c _ (if_data f) Hm)) by (exists f; repeat split; [done|done|lia]).
  by unfold declared; simpl.
Qed.
End Routing.

(** C16. Every request is answered, with one of five statuses; the serialized answer is one
    message with exactly one Content-Length field, whatever the target, the file system
    and its files: no target can inject a line or move the end of the head. Methods
    other than GET and HEAD are never passed to the file system. *)
Theorem route_answers `{FileSystem} `{MapOrder} request h :
  (max_file_bytes_ h < 2 ^ 64)%N ->
  let response := route_request request h in
  (status_code response ∈ [200; 400; 403; 404; 405]%Z) /\
  (status_code response = 405%Z <->
     req_method request <> lit "GET" /\ req_method request <> lit "HEAD") /\
  framed response (serialize_response response) /\
  (req_method request <> lit "HEAD" -> declared response = len (payload response)).
Proof.
  intros Hm response.
  assert (H405 : status_code (handle h request) ∈ [200; 400; 403; 404]%Z).
  { destruct (handle_shapes h request) as [->|[->|[->| ->]]]; set_solver. }
  assert (Hr : status_code response = 405%Z /\ response = method_not_allowed \/
               status_code response = status_code (handle h request)).
  { unfold response, route_request. destruct (_ || _); [|by left].
    right. by destruct (bool_decide _). }
  split; [destruct Hr as [[-> _]| ->]; set_solver|]. split.
  - unfold response, route_request.
    destruct (decide (req_method request = lit "GET")) as [Hg|Hg];
      [rewrite (bool_decide_eq_true_2 _ Hg)|rewrite (bool_decide_eq_false_2 _ Hg)];
    (destruct (decide (req_method request = lit "HEAD")) as [Hh|Hh];
      [rewrite (bool_decide_eq_true_2 _ Hh)|rewrite (bool_decide_eq_false_2 _ Hh)]); simpl;
    split; try naive_solver; intros Hs; rewrite Hs in H405; set_solver.
  - split; [apply serialize_framed; [apply route_safe|by apply route_declared]|].
    intros Hh. unfold response, route_request. rewrite (bool_decide_eq_false_2 _ Hh), orb_false_r.
    destruct (bool_decide _); [|done].
    destruct (handle_shapes h request) as [Hs|[->|[->| ->]]]; [|done..].
    apply handle_served_inv in Hs as (? & ? & ? & _ & _ & _ & _ & _ & _ & _ & _ & Hb).
    rewrite (bool_decide_eq_false_2 _ Hh) in Hb. by destruct Hb.
Qed.

Lemma route_answers_witness :
  status_code (@route_request (tree_fs site) (set_method (get "/") (lit "PUT")) site_handler) = 405%Z /\
  declared (@route_request (tree_fs site) (get "/") site_handler) = 5%N.
Proof.
  split.
  - apply (proj1 (proj2 (@route_answers (tree_fs site) map_to_list_order
      (set_method (get "/") (lit "PUT")) site_handler eq_refl))). by_computation.
  - rewrite (proj2 (proj2 (proj2 (@route_answers (tree_fs site) map_to_list_order
      (get "/") site_handler eq_refl)))); [vm_compute; reflexivity|by_computation].
Defined.

(** C17. HEAD is GET without the body: when files are readable and stable, the serialized
    answer to a HEAD is the serialized answer to the same GET cut after the empty line,
    so it carries the same status, the same fields and the length of the representation
    a GET would return. *)
Theorem head_like_get `{F : FileSystem} `{MapOrder} request h :
  stable_files F -> (max_file_bytes_ h < 2 ^ 64)%N ->
  let get_response := route_request (set_method request (lit "GET")) h in
  let head_response := route_request (set_method request (lit "HEAD")) h in
  serialize_response get_response = serialize_response head_response ++ resp_body get_response /\
  payload head_response = [] /\ declared head_response = len (resp_body get_response).
Proof.
  intros Hst Hm. simpl.
  destruct (handle_head_get h request Hst Hm) as (Hv & Hs & Hr & Hh & Hd & Hc & Hb).
  unfold route_request. cbn [req_method set_method].
  rewrite !(bool_decide_eq_true_2 (_ = _)) by done.
  rewrite (bool_decide_eq_false_2 (lit "GET" = lit "HEAD")) by done. simpl.
  assert (Hd' : forall r, match content_length r with
    None => Some (len (resp_body r)) | Some n => Some n end = Some (declared r)).
  { intros r. unfold declared. by destruct (content_length r). }
  rewrite Hd', Hd. unfold declared, serialize_response. simpl.
  rewrite Hv, Hs, Hr, Hh, Hc, Hb. done.
Qed.

Lemma plain_site_stable : stable_files (tree_fs plain_site).
Proof.
  assert (H : map_Forall (fun _ n => match n with Regular _ r => r | _ => true end = true)
                (nodes plain_site)) by by_computation.
  intros p size _. simpl. unfold tree_file_size, tree_open, tree_status.
  destruct (resolve plain_site p) as [loc|[]] eqn:E; try done.
  destruct (node_at plain_site loc) as [[]|] eqn:En; try done. intros [= <-].
  destruct loc as [|x loc]; [done|]. apply H in En. subst readable.
  eexists. split; [reflexivity|]. done.
Qed.

Lemma head_like_get_witness :
  @serialize_response map_to_list_order (@route_request (tree_fs plain_site) (get "/") site_handler)
  = @serialize_response map_to_list_order
      (@route_request (tree_fs plain_site) (set_method (get "/") (lit "HEAD")) site_handler)
    ++ lit "hello".
Proof.
  etransitivity; [exact (proj1 (@head_like_get (tree_fs plain_site) map_to_list_order (get "/")
    site_handler plain_site_stable eq_refl))|].
  f_equal.
Defined.

(** The readability hypothesis is needed: the size of a file that cannot be opened is
    still reported to a HEAD, with 200, while a GET of it is refused with 403. *)
Theorem head_of_unreadable_file :
  status_code (@route_request (tree_fs site) (get "/hidden.txt") site_handler) = 403%Z /\
  status_code (@route_request (tree_fs site) (set_method (get "/hidden.txt") (lit "HEAD")) site_handler)
    = 200%Z /\
  declared (@route_request (tree_fs site) (set_method (get "/hidden.txt") (lit "HEAD")) site_handler)
    = 10%N.
Proof. vm_compute. done. Qed.
