(* ===== verification/Fd.v ===== *)
(** * Descriptor ownership

    Models [include/http/fd.hpp] and [src/fd.cpp]. An [Fd] object is a cell that holds a
    descriptor number; the objects of a program are a store, so that the moves, which
    change two objects, and the self-assignment guard are visible. [close] acts on the
    kernel's table of open descriptors and is recorded when its argument is not open,
    which is what a second [close] of the same number would be. *)

From stdpp Require Import base numbers list gmap sets.
From S2P Require Import Prelude.

(** An object [x] is a key of the store; the number is its member [fd_]. *)
Record heap := {
  objects : gmap nat Z;
  open_fds : gset Z;
  bad_closes : nat
}.

(** ** The operations of the class *)

Definition fd_of (h : heap) (x : nat) : Z := default (-1)%Z (objects h !! x).

Definition set_fd (x : nat) (fd : Z) (h : heap) : heap :=
  {| objects := <[x := fd]> (objects h); open_fds := open_fds h; bad_closes := bad_closes h |}.

(** [close(2)]: the number leaves the table, or the call fails with [EBADF]. *)
Definition sys_close (fd : Z) (h : heap) : heap :=
  {| objects := objects h; open_fds := open_fds h ∖ {[fd]};
     bad_closes := if bool_decide (fd ∈ open_fds h) then bad_closes h else S (bad_closes h) |}.

Definition fd_ctor (x : nat) (fd : Z) (h : heap) : heap := set_fd x fd h.

Definition fd_get (x : nat) (h : heap) : Z := fd_of h x.

Definition valid_fd (fd : Z) : bool := (0 <=? fd)%Z.
Definition fd_valid (x : nat) (h : heap) : bool := valid_fd (fd_of h x).

Definition fd_reset (x : nat) (fd : Z) (h : heap) : heap :=
  let h := if (0 <=? fd_of h x)%Z && negb (bool_decide (fd_of h x = fd))
           then sys_close (fd_of h x) h else h in
  set_fd x fd h.

(** The destructor, after which the object is gone. *)
Definition fd_dtor (x : nat) (h : heap) : heap :=
  let h := fd_reset x (-1) h in
  {| objects := delete x (objects h); open_fds := open_fds h; bad_closes := bad_closes h |}.

(** [std::exchange(fd_, -1)] *)
Definition fd_release (x : nat) (h : heap) : Z * heap := (fd_of h x, set_fd x (-1) h).

Definition fd_move_ctor (x other : nat) (h : heap) : heap :=
  let '(fd, h) := fd_release other h in set_fd x fd h.

Definition fd_move_assign (x other : nat) (h : heap) : heap :=
  if negb (bool_decide (x = other)) then
    let h := fd_reset x (-1) h in
    let '(fd, h) := fd_release other h in set_fd x fd h
  else h.

(** ** Programs that use the class *)

(** A program state: the objects, and the open descriptors the program holds as plain
    integers, which the kernel returned or which were released from an object. *)
Record program := { mem : heap; loose : gset Z }.

Inductive op :=
| OpKernel (fd : Z)           (* accept, pipe, socket: a descriptor that was not open *)
| OpCtor (x : nat) (fd : Z)
| OpDtor (x : nat)
| OpMoveCtor (x other : nat)
| OpMoveAssign (x other : nat)
| OpRelease (x : nat)
| OpReset (x : nat) (fd : Z).

Definition run_op (o : op) (p : program) : program :=
  match o with
  | OpKernel fd =>
      {| mem := {| objects := objects (mem p); open_fds := {[fd]} ∪ open_fds (mem p);
                   bad_closes := bad_closes (mem p) |};
         loose := {[fd]} ∪ loose p |}
  | OpCtor x fd => {| mem := fd_ctor x fd (mem p); loose := loose p ∖ {[fd]} |}
  | OpDtor x => {| mem := fd_dtor x (mem p); loose := loose p |}
  | OpMoveCtor x other => {| mem := fd_move_ctor x other (mem p); loose := loose p |}
  | OpMoveAssign x other => {| mem := fd_move_assign x other (mem p); loose := loose p |}
  | OpRelease x =>
      let '(fd, h) := fd_release x (mem p) in
      {| mem := h; loose := if (0 <=? fd)%Z then {[fd]} ∪ loose p else loose p |}
  | OpReset x fd => {| mem := fd_reset x fd (mem p); loose := loose p ∖ {[fd]} |}
  end.

(** What the language and the kernel guarantee, and the one rule a client must follow:
    an integer given to an object is not already owned by another. *)
Definition legal (o : op) (p : program) : Prop :=
  let live x := is_Some (objects (mem p) !! x) in
  match o with
  | OpKernel fd => (0 <= fd)%Z /\ fd ∉ open_fds (mem p)
  | OpCtor x fd => ~ live x /\ ((fd < 0)%Z \/ fd ∈ loose p)
  | OpDtor x | OpRelease x => live x
  | OpMoveCtor x other => ~ live x /\ live other
  | OpMoveAssign x other => live x /\ live other
  | OpReset x fd => live x /\ ((fd < 0)%Z \/ fd ∈ loose p \/ fd = fd_of (mem p) x)
  end.

Inductive reaches : program -> list op -> program -> Prop :=
| reaches_nil p : reaches p [] p
| reaches_cons p o os q : legal o p -> reaches (run_op o p) os q -> reaches p (o :: os) q.

Definition program_start : program :=
  {| mem := {| objects := ∅; open_fds := ∅; bad_closes := 0 |}; loose := ∅ |}.

(** ** The ownership invariant *)

Record owned_once (p : program) : Prop := {
  own_closed : bad_closes (mem p) = 0;
  own_distinct x y fd :
    objects (mem p) !! x = Some fd -> objects (mem p) !! y = Some fd -> (0 <= fd)%Z -> x = y;
  own_not_loose x fd : objects (mem p) !! x = Some fd -> fd ∉ loose p;
  own_open fd :
    fd ∈ open_fds (mem p) <->
    fd ∈ loose p \/ ((0 <= fd)%Z /\ exists x, objects (mem p) !! x = Some fd);
  own_loose fd : fd ∈ loose p -> (0 <= fd)%Z
}.

Lemma start_owned : owned_once program_start.
Proof.
  split; simpl; try done; [set_solver..|].
  intros fd. split; [set_solver|]. intros [?|(_ & x & H)]; [done|by rewrite lookup_empty in H].
Qed.

(** Storing in [x] a descriptor nobody owns, after [x] has given up its own. *)
Lemma set_fd_owned p x fd :
  owned_once p -> (fd_of (mem p) x < 0)%Z ->
  (fd < 0)%Z \/ fd ∈ loose p ->
  owned_once {| mem := set_fd x fd (mem p); loose := loose p ∖ {[fd]} |}.
Proof.
  intros [H1 H2 H3 H4 H5] Hx Hfd. split; simpl; [done|..].
  - intros a b f. rewrite !lookup_insert_Some.
    intros [[<- <-]|[Ha Ha']] [[<- Hb]|[Hb Hb']] Hf; subst; try done; [..|by eapply H2];
      destruct Hfd as [?|Hl]; try lia; [by apply H3 in Hb'|by apply H3 in Ha'].
  - intros a f. rewrite lookup_insert_Some. intros [[<- <-]|[Ha Ha']]; [set_solver|].
    apply H3 in Ha'. set_solver.
  - intros f. rewrite H4. split.
    + intros [Hf|(Hf & a & Ha)].
      * destruct (decide (f = fd)) as [->|]; [|set_solver].
        right. split; [by apply H5|]. exists x. by rewrite lookup_insert_eq.
      * right. split; [done|]. exists a. rewrite lookup_insert_ne; [done|].
        intros ->. unfold fd_of in Hx. rewrite Ha in Hx. simpl in Hx. lia.
    + intros [Hf|(Hf & a & Ha)]; [set_solver|]. rewrite lookup_insert_Some in Ha.
      destruct Ha as [[<- <-]|[Ha Ha']]; [destruct Hfd; [lia|by left]|]. right. eauto.
  - intros f Hf. apply H5. set_solver.
Qed.

(** The set [release] leaves behind. *)
Definition freed (fd : Z) (l : gset Z) : gset Z := if (0 <=? fd)%Z then {[fd]} ∪ l else l.

Lemma elem_of_freed fd f l : f ∈ freed fd l <-> (f = fd /\ (0 <= fd)%Z) \/ f ∈ l.
Proof. unfold freed. destruct (Z.leb_spec 0 fd); set_solver by lia. Qed.

Lemma release_owned p x fd :
  owned_once p -> objects (mem p) !! x = Some fd ->
  owned_once {| mem := set_fd x (-1) (mem p); loose := freed fd (loose p) |}.
Proof.
  intros [H1 H2 H3 H4 H5] Hx. split; simpl; [done|..].
  - intros a b f [[_ ?]|[_ Ha]]%lookup_insert_Some [[_ ?]|[_ Hb]]%lookup_insert_Some Hf;
      try lia. by eapply H2.
  - intros a f Ha. rewrite elem_of_freed. apply lookup_insert_Some in Ha as [[_ <-]|[Hne Ha]].
    + intros [[<- ?]|Hl]; [lia|]. apply H5 in Hl. lia.
    + intros [[-> ?]|Hl]; [by apply Hne; eapply H2|by apply H3 in Ha].
  - intros f. rewrite H4, elem_of_freed. split.
    + intros [Hf|(Hf & a & Ha)]; [by left; right|].
      destruct (decide (a = x)) as [->|]; [rewrite Hx in Ha; left; left; by simplify_eq|].
      right. split; [done|]. exists a. by rewrite lookup_insert_ne.
    + intros [[[-> Hf]|Hf]|(Hf & a & Ha)]; [by right; eauto|by left|].
      rewrite lookup_insert_Some in Ha. destruct Ha as [[_ <-]|[_ Ha]]; [lia|by right; eauto].
  - intros f. rewrite elem_of_freed. intros [[-> ?]|Hl]; [done|by apply H5].
Qed.

Lemma close_owned p fd :
  owned_once p -> fd ∈ loose p ->
  owned_once {| mem := sys_close fd (mem p); loose := loose p ∖ {[fd]} |}.
Proof.
  intros [H1 H2 H3 H4 H5] Hl. split; simpl; [|done|set_solver| |set_solver].
  - rewrite bool_decide_eq_true_2; [done|]. apply H4. by left.
  - intros f. rewrite elem_of_difference, H4, elem_of_difference, elem_of_singleton. split; [tauto|].
    intros [?|(Hf & a & Ha)]; [tauto|]. split; [eauto|]. intros ->. by apply (H3 _ _ Ha).
Qed.

Lemma delete_owned p x :
  owned_once p -> objects (mem p) !! x = Some (-1)%Z ->
  owned_once {| mem := {| objects := delete x (objects (mem p)); open_fds := open_fds (mem p);
                          bad_closes := bad_closes (mem p) |}; loose := loose p |}.
Proof.
  intros [H1 H2 H3 H4 H5] Hx. split; simpl; [done|..|done].
  - intros a b f. rewrite !lookup_delete_Some. intros [_ ?] [_ ?]. by eapply H2.
  - intros a f. rewrite lookup_delete_Some. intros [_ ?]. by eapply H3.
  - intros f. rewrite H4. split.
    + intros [?|(Hf & a & Ha)]; [by left|]. right. split; [done|]. exists a.
      rewrite lookup_delete_Some. split; [|done]. intros <-. rewrite Hx in Ha. simplify_eq. lia.
    + intros [?|(Hf & a & Ha)]; [by left|]. apply lookup_delete_Some in Ha as [_ ?]. eauto.
Qed.

(** Giving up what [x] owns, closing it, and storing [fd]. *)
Lemma reset_owned p x fd :
  owned_once p -> is_Some (objects (mem p) !! x) ->
  (fd < 0)%Z \/ fd ∈ loose p \/ fd = fd_of (mem p) x ->
  owned_once {| mem := fd_reset x fd (mem p); loose := loose p ∖ {[fd]} |}.
Proof.
  intros Ho [o Hx] Hfd. unfold fd_reset. assert (Hof : fd_of (mem p) x = o)
    by (unfold fd_of; by rewrite Hx). rewrite Hof in *.
  pose proof (release_owned p x o Ho Hx) as Hr. pose proof (own_not_loose _ Ho _ _ Hx) as Hnl.
  destruct (decide (o = fd)) as [->|Hne].
  - rewrite (bool_decide_eq_true_2 (fd = fd)), andb_false_r by done.
    replace (set_fd x fd (mem p)) with (mem p)
      by (destruct p as [[]]; unfold set_fd; simpl in *; by rewrite insert_id).
    replace (loose p ∖ {[fd]}) with (loose p) by set_solver. by destruct p.
  - assert (Hfd' : (fd < 0)%Z \/ fd ∈ loose p) by naive_solver.
    rewrite (bool_decide_eq_false_2 (o = fd)), andb_true_r by done.
    unfold freed in Hr. destruct (0 <=? o)%Z.
    + apply (close_owned _ o) in Hr; simpl in Hr; [|set_solver].
      apply (set_fd_owned _ x fd) in Hr; simpl in Hr.
      * unfold set_fd, sys_close in *. simpl in *. rewrite insert_insert_eq in Hr.
        by replace (({[o]} ∪ loose p) ∖ {[o]} ∖ {[fd]}) with (loose p ∖ {[fd]}) in Hr by set_solver.
      * unfold fd_of. simpl. rewrite lookup_insert_eq. simpl. lia.
      * set_solver.
    + apply (set_fd_owned _ x fd) in Hr; simpl in Hr.
      * unfold set_fd in *. simpl in *. by rewrite insert_insert_eq in Hr.
      * unfold fd_of. simpl. rewrite lookup_insert_eq. simpl. lia.
      * done.
Qed.

Lemma loose_nonneg p (fd : Z) : owned_once p -> (fd < 0)%Z -> loose p ∖ {[fd]} = loose p.
Proof. intros Ho Hfd. apply set_eq. intros f. pose proof (own_loose _ Ho f). set_solver by lia. Qed.

Lemma transfer_owned p x other fd :
  owned_once p -> x <> other -> objects (mem p) !! other = Some fd -> (fd_of (mem p) x < 0)%Z ->
  owned_once {| mem := set_fd x fd (set_fd other (-1) (mem p)); loose := loose p |}.
Proof.
  intros Ho Hne Hy Hx. pose proof (own_not_loose _ Ho _ _ Hy) as Hnl.
  pose proof (release_owned p other fd Ho Hy) as Hr.
  apply (set_fd_owned _ x fd) in Hr; simpl in *.
  - replace (freed fd (loose p) ∖ {[fd]}) with (loose p) in Hr; [done|].
    apply set_eq. intros f. rewrite elem_of_difference, elem_of_freed. set_solver.
  - unfold fd_of in *. simpl. by rewrite lookup_insert_ne.
  - rewrite elem_of_freed. lia.
Qed.

Lemma kernel_owned p fd :
  owned_once p -> (0 <= fd)%Z -> fd ∉ open_fds (mem p) -> owned_once (run_op (OpKernel fd) p).
Proof.
  intros Ho Hf Hn. pose proof Ho as [H1 H2 H3 H4 H5]. split; simpl; [done|done|..|set_solver].
  - intros x f Hx. pose proof (H3 _ _ Hx). intros [->%elem_of_singleton|?]%elem_of_union; [|done].
    apply Hn, H4. eauto.
  - intros f. rewrite !elem_of_union, H4, elem_of_singleton. tauto.
Qed.

(** ** Properties *)

Lemma run_op_owned o p : owned_once p -> legal o p -> owned_once (run_op o p).
Proof.
  intros Ho Hl. destruct o as [fd|x fd|x|x other|x other|x|x fd]; simpl in Hl.
  - destruct Hl. by apply kernel_owned.
  - destruct Hl as [Hx Hfd]. apply set_fd_owned; [done| |done].
    unfold fd_of. destruct (objects (mem p) !! x) eqn:E; [by destruct Hx; eauto|done].
  - pose proof (reset_owned p x (-1) Ho Hl ltac:(lia)) as Hr.
    rewrite (loose_nonneg p) in Hr by (done || lia).
    by apply (delete_owned _ x) in Hr; [|simpl; by rewrite lookup_insert_eq].
  - destruct Hl as [Hx [fd Hy]]. simpl. unfold fd_move_ctor, fd_release.
    replace (fd_of (mem p) other) with fd by (unfold fd_of; by rewrite Hy).
    apply transfer_owned; [done|by intros ->; destruct Hx|done|].
    unfold fd_of. destruct (objects (mem p) !! x) eqn:E; [by destruct Hx; eauto|done].
  - destruct Hl as [Hx [fd Hy]]. simpl. unfold fd_move_assign.
    case_bool_decide as Hne; simpl; [by destruct p|].
    pose proof (reset_owned p x (-1) Ho Hx ltac:(lia)) as Hr.
    rewrite (loose_nonneg p) in Hr by (done || lia).
    assert (Hy' : objects (fd_reset x (-1) (mem p)) !! other = Some fd).
    { unfold fd_reset. simpl. rewrite lookup_insert_ne by done. by destruct (_ && _). }
    unfold fd_of at 1. rewrite Hy'. simpl.
    apply (transfer_owned _ x other fd) in Hr; [done|done|done|].
    unfold fd_of. simpl. by rewrite lookup_insert_eq.
  - destruct Hl as [fd Hx]. simpl. replace (fd_of (mem p) x) with fd by (unfold fd_of; by rewrite Hx).
    apply (release_owned p x fd Ho Hx).
  - destruct Hl. by apply reset_owned.
Qed.

Lemma reaches_owned p os q : owned_once p -> reaches p os q -> owned_once q.
Proof. intros Ho H. induction H; [done|]. auto using run_op_owned. Qed.

(** C20. Ownership. In every run of constructions, moves, releases, resets and destructions,
    no [close] ever hits a descriptor that is not open (so none is closed twice), no two
    objects hold the same descriptor, every descriptor an object holds is open, and an
    open descriptor is held by an object or by the caller: once all objects are
    destroyed and the caller holds none, none is left open. *)
Theorem fd_ownership os q :
  reaches program_start os q ->
  bad_closes (mem q) = 0 /\
  (forall x y fd, objects (mem q) !! x = Some fd -> objects (mem q) !! y = Some fd ->
                  valid_fd fd = true -> x = y /\ fd ∈ open_fds (mem q)) /\
  (objects (mem q) = ∅ -> loose q = ∅ -> open_fds (mem q) = ∅).
Proof.
  intros H%reaches_owned; [|apply start_owned]. destruct H as [H1 H2 H3 H4 H5].
  split; [done|]. split.
  - unfold valid_fd. intros x y fd Hx Hy Hv%Z.leb_le. split; [by eapply H2|]. apply H4. eauto.
  - intros He Hl. apply set_eq. intros fd. rewrite H4, Hl, He. split; [|set_solver].
    intros [?|(_ & x & Hx)]; [done|by rewrite lookup_empty in Hx].
Qed.

(** An accepted descriptor moved from a local into a queue slot, out of it and into a
    connection, with every object destroyed at the end. *)
Definition handoff : list op :=
  [OpKernel 5; OpCtor 0 5; OpMoveCtor 1 0; OpDtor 0; OpMoveCtor 2 1; OpCtor 3 (-1);
   OpMoveAssign 3 2; OpMoveAssign 3 3; OpDtor 1; OpDtor 2; OpDtor 3].

Lemma fd_ownership_witness :
  bad_closes (mem (foldl (flip run_op) program_start handoff)) = 0 /\
  open_fds (mem (foldl (flip run_op) program_start handoff)) = ∅.
Proof.
  destruct (fd_ownership handoff (foldl (flip run_op) program_start handoff)) as (H1 & _ & H3).
  - unfold handoff. repeat (apply reaches_cons; [apply (bool_decide_unpack _); vm_compute; exact I|]).
    apply reaches_nil.
  - split; [exact H1|]. apply H3; vm_compute; reflexivity.
Defined.
