(* ===== verification/Connection.v ===== *)
(** * The connection state machine

    Models [include/http/connection.hpp] and [src/connection.cpp]. The object is the
    record [Connection]; its member functions are commands of a state monad over the
    object and the history of its system calls. What the kernel answers (the clock, a
    [setsockopt], a [read], a [send]) is a function of that history, the class
    [Kernel]: the theorems quantify over it, so they cover every fragmentation of the
    input, every partial write, every interruption and every failure. *)

From Stdlib Require Import Ascii String.
From stdpp Require Import base numbers list gmap strings.
From S2P Require Import Prelude CppLib Parser Response FileSystem StaticFileHandler Router Fd.

(** ** Connection options of a request *)

Fixpoint remove_front (input : bytes) : bytes :=
  match input with
  | c :: rest => if bool_decide (c = SP) || bool_decide (c = HT) then remove_front rest else input
  | [] => []
  end.

(** The second loop looks at [back()]: the view is reversed to recurse on it. *)
Definition remove_back (input : bytes) : bytes := reverse (remove_front (reverse input)).

Definition trim_ows_view (input : bytes) : bytes := remove_back (remove_front input).

(** The loop of [ascii_iequals], with the two views at position [i]. *)
Fixpoint iequals_loop (left right : bytes) : bool :=
  match left, right with
  | l :: left', r :: right' =>
      if negb (bool_decide (tolower l = tolower r)) then false else iequals_loop left' right'
  | _, _ => true
  end.

Definition ascii_iequals (left right : bytes) : bool :=
  if negb (length left =? length right)%nat then false else iequals_loop left right.

(** The loop of [has_connection_token] on the view [remaining]; [None] is exhausted
    fuel, and [token_loop_total] shows one more than the length is enough. *)
Fixpoint token_loop (fuel : nat) (remaining token : bytes) : option bool :=
  match fuel with
  | 0 => None
  | S fuel' =>
      let comma := find_at (lit ",") remaining 0 in
      let candidate := trim_ows_view
        (match comma with None => remaining | Some i => substr remaining 0 i end) in
      if ascii_iequals candidate token then Some true
      else match comma with
      | None => Some false
      | Some i => token_loop fuel' (drop (i + 1) remaining) token
      end
  end.

Definition has_connection_token (request : HttpRequest) (token : bytes) : bool :=
  match req_headers request !! lit "connection" with
  | None => false
  | Some value => default false (token_loop (S (length value)) value token)
  end.

Definition should_keep_alive (request : HttpRequest) : bool :=
  if has_connection_token request (lit "close") then false
  else if bool_decide (req_version request = HTTP11) then true
  else bool_decide (req_version request = HTTP10) &&
       has_connection_token request (lit "keep-alive").

(** ** The fixed responses *)

Definition plain_response (code : Z) (reason body : bytes) : HttpResponse :=
  {| resp_version := HTTP11; status_code := code; reason_phrase := reason;
     resp_headers := <[lit "Content-Type" := lit "text/plain"]> ∅;
     resp_body := body; content_length := None; suppress_body := false |}.

Definition bad_request_response : HttpResponse :=
  plain_response 400 (lit "Bad Request") (lit "bad request" ++ NL).
Definition not_implemented_response : HttpResponse :=
  plain_response 501 (lit "Not Implemented") (lit "transfer encoding is not supported" ++ NL).
Definition request_timeout_response : HttpResponse :=
  plain_response 408 (lit "Request Timeout") (lit "request timeout" ++ NL).

(** ** Data *)

(** Durations and times are in nanoseconds, the period of the steady clock. *)
Definition milliseconds (n : Z) : Z := n * 1000000.

Record ConnectionTimeouts := {
  read_timeout : Z; keep_alive_timeout : Z; write_timeout : Z
}.

Definition default_timeouts : ConnectionTimeouts :=
  {| read_timeout := milliseconds 10000; keep_alive_timeout := milliseconds 5000;
     write_timeout := milliseconds 10000 |}.

Record ConnectionLimits := { max_requests : N }.
Definition default_limits : ConnectionLimits := {| max_requests := 100 |}.

Record ConnectionConfig := { timeouts : ConnectionTimeouts; limits : ConnectionLimits }.
Definition default_config : ConnectionConfig :=
  {| timeouts := default_timeouts; limits := default_limits |}.

Inductive ConnectionEndReason :=
| PeerClosed | ConnectionClose | RequestLimit | ParseError | ReadTimeout
| KeepAliveTimeout | WriteTimeout | ReadError | WriteError.

Record ConnectionResult := {
  reason : ConnectionEndReason;
  requests_served : N;
  bytes_read : N;
  bytes_written : N
}.

Definition default_result : ConnectionResult :=
  {| reason := PeerClosed; requests_served := 0; bytes_read := 0; bytes_written := 0 |}.

Inductive State := Reading | Parsing | Writing | Closed.
Inductive ReadPhase := Request | KeepAlive.

Record Connection := {
  fd_ : Z;
  parser_ : HttpParser;
  state_ : State;
  pending_response_ : bytes;
  write_offset_ : nat;
  close_after_write_ : bool;
  close_reason_after_write_ : ConnectionEndReason;
  config_ : ConnectionConfig;
  read_phase_ : ReadPhase;
  read_deadline_ : Z;
  write_deadline_ : Z;
  result_ : ConnectionResult
}.

#[export] Instance State_eq_dec : EqDecision State.
Proof. solve_decision. Defined.
#[export] Instance ReadPhase_eq_dec : EqDecision ReadPhase.
Proof. solve_decision. Defined.
#[export] Instance ConnectionEndReason_eq_dec : EqDecision ConnectionEndReason.
Proof. solve_decision. Defined.

(** ** System calls *)

(** The error numbers the code tells apart. [EAGAIN] and [EWOULDBLOCK] are one. *)
Inductive errno := EINTR | EAGAIN | EOTHER.
Inductive sockopt := SO_RCVTIMEO | SO_SNDTIMEO.
Record timeval := { tv_sec : Z; tv_usec : Z }.

#[export] Instance errno_eq_dec : EqDecision errno.
Proof. solve_decision. Defined.

Inductive event :=
| EvNow (t : Z)
| EvSetsockopt (option : sockopt) (value : timeval) (r : result errno unit)
| EvRead (size : nat) (r : result errno bytes)
| EvSend (data : bytes) (r : result errno nat).

(** The calls made so far, the latest first. *)
Notation history := (list event).

(** What the kernel answers to the next call. [read] returns at most the bytes asked
    for, none at the end of the stream; [send] takes at most the bytes given. *)
Class Kernel := {
  k_now : history -> Z;
  k_setsockopt : history -> sockopt -> timeval -> result errno unit;
  k_read : history -> nat -> result errno bytes;
  k_send : history -> bytes -> result errno nat;
  k_read_size hist size data : k_read hist size = Ok data -> (length data <= size)%nat;
  k_send_size hist data n : k_send hist data = Ok n -> (n <= length data)%nat
}.

(** ** Assignments to the members *)

Definition set_state (s : State) (c : Connection) : Connection :=
  {| fd_ := fd_ c; parser_ := parser_ c; state_ := s;
     pending_response_ := pending_response_ c; write_offset_ := write_offset_ c;
     close_after_write_ := close_after_write_ c;
     close_reason_after_write_ := close_reason_after_write_ c; config_ := config_ c;
     read_phase_ := read_phase_ c; read_deadline_ := read_deadline_ c;
     write_deadline_ := write_deadline_ c; result_ := result_ c |}.
Definition set_parser (p : HttpParser) (c : Connection) : Connection :=
  {| fd_ := fd_ c; parser_ := p; state_ := state_ c;
     pending_response_ := pending_response_ c; write_offset_ := write_offset_ c;
     close_after_write_ := close_after_write_ c;
     close_reason_after_write_ := close_reason_after_write_ c; config_ := config_ c;
     read_phase_ := read_phase_ c; read_deadline_ := read_deadline_ c;
     write_deadline_ := write_deadline_ c; result_ := result_ c |}.
Definition set_write_offset (n : nat) (c : Connection) : Connection :=
  {| fd_ := fd_ c; parser_ := parser_ c; state_ := state_ c;
     pending_response_ := pending_response_ c; write_offset_ := n;
     close_after_write_ := close_after_write_ c;
     close_reason_after_write_ := close_reason_after_write_ c; config_ := config_ c;
     read_phase_ := read_phase_ c; read_deadline_ := read_deadline_ c;
     write_deadline_ := write_deadline_ c; result_ := result_ c |}.
Definition set_pending (out : bytes) (n : nat) (c : Connection) : Connection :=
  {| fd_ := fd_ c; parser_ := parser_ c; state_ := state_ c; pending_response_ := out;
     write_offset_ := n; close_after_write_ := close_after_write_ c;
     close_reason_after_write_ := close_reason_after_write_ c; config_ := config_ c;
     read_phase_ := read_phase_ c; read_deadline_ := read_deadline_ c;
     write_deadline_ := write_deadline_ c; result_ := result_ c |}.
Definition set_after_write (close : bool) (r : ConnectionEndReason) (c : Connection) : Connection :=
  {| fd_ := fd_ c; parser_ := parser_ c; state_ := state_ c;
     pending_response_ := pending_response_ c; write_offset_ := write_offset_ c;
     close_after_write_ := close; close_reason_after_write_ := r; config_ := config_ c;
     read_phase_ := read_phase_ c; read_deadline_ := read_deadline_ c;
     write_deadline_ := write_deadline_ c; result_ := result_ c |}.
Definition set_read_deadline (phase : ReadPhase) (t : Z) (c : Connection) : Connection :=
  {| fd_ := fd_ c; parser_ := parser_ c; state_ := state_ c;
     pending_response_ := pending_response_ c; write_offset_ := write_offset_ c;
     close_after_write_ := close_after_write_ c;
     close_reason_after_write_ := close_reason_after_write_ c; config_ := config_ c;
     read_phase_ := phase; read_deadline_ := t; write_deadline_ := write_deadline_ c;
     result_ := result_ c |}.
Definition set_write_deadline (t : Z) (c : Connection) : Connection :=
  {| fd_ := fd_ c; parser_ := parser_ c; state_ := state_ c;
     pending_response_ := pending_response_ c; write_offset_ := write_offset_ c;
     close_after_write_ := close_after_write_ c;
     close_reason_after_write_ := close_reason_after_write_ c; config_ := config_ c;
     read_phase_ := read_phase_ c; read_deadline_ := read_deadline_ c;
     write_deadline_ := t; result_ := result_ c |}.
Definition set_result (r : ConnectionResult) (c : Connection) : Connection :=
  {| fd_ := fd_ c; parser_ := parser_ c; state_ := state_ c;
     pending_response_ := pending_response_ c; write_offset_ := write_offset_ c;
     close_after_write_ := close_after_write_ c;
     close_reason_after_write_ := close_reason_after_write_ c; config_ := config_ c;
     read_phase_ := read_phase_ c; read_deadline_ := read_deadline_ c;
     write_deadline_ := write_deadline_ c; result_ := r |}.

Definition set_reason (x : ConnectionEndReason) (r : ConnectionResult) : ConnectionResult :=
  {| reason := x; requests_served := requests_served r; bytes_read := bytes_read r;
     bytes_written := bytes_written r |}.
Definition count_request (r : ConnectionResult) : ConnectionResult :=
  {| reason := reason r; requests_served := sz_add (requests_served r) 1;
     bytes_read := bytes_read r; bytes_written := bytes_written r |}.
Definition count_read (n : N) (r : ConnectionResult) : ConnectionResult :=
  {| reason := reason r; requests_served := requests_served r;
     bytes_read := sz_add (bytes_read r) n; bytes_written := bytes_written r |}.
Definition count_written (n : N) (r : ConnectionResult) : ConnectionResult :=
  {| reason := reason r; requests_served := requests_served r;
     bytes_read := bytes_read r; bytes_written := sz_add (bytes_written r) n |}.

(** ** Commands *)

Record World := { self : Connection; hist : history }.

Definition M (A : Type) : Type := World -> A * World.

#[export] Instance M_ret : MRet M := fun A x w => (x, w).
#[export] Instance M_bind : MBind M := fun A B f m w => let '(x, w') := m w in f x w'.

Definition this : M Connection := fun w => (self w, w).
Definition update (f : Connection -> Connection) : M unit :=
  fun w => (tt, {| self := f (self w); hist := hist w |}).
Definition record (e : event) : M unit :=
  fun w => (tt, {| self := self w; hist := e :: hist w |}).

Section Members.
Context `{Kernel} `{MapOrder} `{FileSystem}.

Definition now : M Z :=
  fun w => let t := k_now (hist w) in (t, (record (EvNow t) w).2).
Definition setsockopt (option : sockopt) (value : timeval) : M (result errno unit) :=
  fun w => let r := k_setsockopt (hist w) option value in
           (r, (record (EvSetsockopt option value r) w).2).
Definition sys_read (size : nat) : M (result errno bytes) :=
  fun w => let r := k_read (hist w) size in (r, (record (EvRead size r) w).2).
Definition sys_send (data : bytes) : M (result errno nat) :=
  fun w => let r := k_send (hist w) data in (r, (record (EvSend data r) w).2).

(** ** Member functions *)

Definition finish (r : ConnectionEndReason) : M unit :=
  update (fun c => set_state Closed (set_result (set_reason r (result_ c)) c)).

(** [duration_cast] truncates towards zero. *)
Definition timeval_of (remaining : Z) : timeval :=
  let timeout := Z.quot remaining 1000 in
  let timeout := if (timeout <=? 0)%Z then 1%Z else timeout in
  {| tv_sec := Z.quot timeout 1000000; tv_usec := Z.rem timeout 1000000 |}.

(** [Err e] is [false] with [errno] equal to [e]. *)
Definition arm_socket_timeout (option : sockopt) (deadline : Z) : M (result errno unit) :=
  t ← now;
  let remaining := (deadline - t)%Z in
  if (remaining <=? 0)%Z then mret (Err EAGAIN)
  else setsockopt option (timeval_of remaining).

Definition begin_request_timeout : M unit :=
  t ← now;
  update (fun c => set_read_deadline Request (t + read_timeout (timeouts (config_ c)))%Z c).

Definition begin_keep_alive_timeout : M unit :=
  t ← now;
  update (fun c => set_read_deadline KeepAlive (t + keep_alive_timeout (timeouts (config_ c)))%Z c).

Definition set_header (name value : bytes) (r : HttpResponse) : HttpResponse :=
  {| resp_version := resp_version r; status_code := status_code r;
     reason_phrase := reason_phrase r; resp_headers := <[name := value]> (resp_headers r);
     resp_body := resp_body r; content_length := content_length r;
     suppress_body := suppress_body r |}.

Definition set_version (v : bytes) (r : HttpResponse) : HttpResponse :=
  {| resp_version := v; status_code := status_code r; reason_phrase := reason_phrase r;
     resp_headers := resp_headers r; resp_body := resp_body r;
     content_length := content_length r; suppress_body := suppress_body r |}.

Definition queue_response (response : HttpResponse) (keep_alive : bool)
    (close_reason : ConnectionEndReason) : M unit :=
  let response := set_header (lit "Connection")
    (if keep_alive then lit "keep-alive" else lit "close") response in
  update (set_pending (serialize_response response) 0);;
  update (set_after_write (negb keep_alive) close_reason);;
  t ← now;
  update (fun c => set_write_deadline (t + write_timeout (timeouts (config_ c)))%Z c);;
  update (set_state Writing).

Definition READ_SIZE : nat := N.to_nat 4096.

(** The two ways a read deadline ends a connection. *)
Definition read_timed_out : M unit :=
  c ← this;
  if bool_decide (read_phase_ c = KeepAlive) then finish KeepAliveTimeout
  else queue_response request_timeout_response false ReadTimeout.

Definition read_from_socket : M unit :=
  c ← this;
  armed ← arm_socket_timeout SO_RCVTIMEO (read_deadline_ c);
  match armed with
  | Err e => if negb (bool_decide (e = EAGAIN)) then finish ReadError else read_timed_out
  | Ok _ =>
      n ← sys_read READ_SIZE;
      match n with
      | Ok [] => finish PeerClosed
      | Ok buffer =>
          update (fun c => set_result (count_read (len buffer) (result_ c)) c);;
          c ← this;
          (if bool_decide (read_phase_ c = KeepAlive) then begin_request_timeout else mret tt);;
          update (fun c => set_parser (feed (parser_ c) buffer) c);;
          update (set_state Parsing)
      | Err e =>
          if bool_decide (e = EINTR) then mret tt
          else if bool_decide (e = EAGAIN) then read_timed_out
          else finish ReadError
      end
  end.

Definition parse_request (file_handler : StaticFileHandler) : M unit :=
  c ← this;
  (if bool_decide (read_phase_ c = KeepAlive) && (0 <? buffered_bytes (parser_ c))%N
      then begin_request_timeout else mret tt);;
  c ← this;
  let '(result, parser) := next (parser_ c) in
  update (set_parser parser);;
  match status result, request result with
  | NeedMoreData, _ => update (set_state Reading)
  | RequestReady, Some request =>
      update (fun c => set_result (count_request (result_ c)) c);;
      c ← this;
      let request_limit_reached :=
        (max_requests (limits (config_ c)) <=? requests_served (result_ c))%N in
      let keep_alive := should_keep_alive request && negb request_limit_reached in
      let response := set_version (req_version request) (route_request request file_handler) in
      queue_response response keep_alive
        (if request_limit_reached then RequestLimit else ConnectionClose)
  | _, _ =>
      let response :=
        match error_kind result with
        | UnsupportedTransferEncoding => not_implemented_response
        | _ => bad_request_response
        end in
      queue_response response false ParseError
  end.

Definition write_to_socket : M unit :=
  c ← this;
  armed ← arm_socket_timeout SO_SNDTIMEO (write_deadline_ c);
  match armed with
  | Err e => finish (if bool_decide (e = EAGAIN) then WriteTimeout else WriteError)
  | Ok _ =>
      n ← sys_send (drop (write_offset_ c) (pending_response_ c));
      match n with
      | Ok (S _ as n) =>
          update (fun c => set_write_offset (write_offset_ c + n) c);;
          update (fun c => set_result (count_written (N.of_nat n) (result_ c)) c);;
          c ← this;
          if (write_offset_ c =? length (pending_response_ c))%nat then
            update (set_pending [] 0);;
            if close_after_write_ c then finish (close_reason_after_write_ c)
            else
              begin_keep_alive_timeout;;
              update (set_state Parsing)
          else mret tt
      | Ok 0 => finish WriteError
      | Err e =>
          if bool_decide (e = EINTR) then mret tt
          else if bool_decide (e = EAGAIN) then finish WriteTimeout
          else finish WriteError
      end
  end.

(** One iteration of the loop of [serve]. *)
Definition serve_step (file_handler : StaticFileHandler) : M unit :=
  c ← this;
  match state_ c with
  | Reading => read_from_socket
  | Parsing => parse_request file_handler
  | Writing => write_to_socket
  | Closed => mret tt
  end.

(** [serve]; [None] is exhausted fuel. *)
Fixpoint serve (fuel : nat) (file_handler : StaticFileHandler) (w : World) :
    option (ConnectionResult * World) :=
  match state_ (self w) with
  | Closed => Some (result_ (self w), w)
  | _ =>
      match fuel with
      | 0 => None
      | S fuel' => serve fuel' file_handler (serve_step file_handler w).2
      end
  end.

(** The constructor; [Err] is [std::invalid_argument]. The members are initialized
    before the configuration is checked. *)
Definition make_connection (fd : Z) (config : ConnectionConfig) (h : history) : result unit World :=
  let t1 := k_now h in
  let h := EvNow t1 :: h in
  let t2 := k_now h in
  let h := EvNow t2 :: h in
  let c :=
    {| fd_ := fd; parser_ := default_parser;
       state_ := if valid_fd fd then Reading else Closed;
       pending_response_ := []; write_offset_ := 0; close_after_write_ := false;
       close_reason_after_write_ := ConnectionClose; config_ := config; read_phase_ := Request;
       read_deadline_ := (t1 + read_timeout (timeouts config))%Z; write_deadline_ := t2;
       result_ := default_result |} in
  if (read_timeout (timeouts config) <=? 0)%Z || (keep_alive_timeout (timeouts config) <=? 0)%Z ||
     (write_timeout (timeouts config) <=? 0)%Z || (max_requests (limits config) =? 0)%N
  then Err tt
  else
    let c := if negb (valid_fd fd) then set_result (set_reason ReadError (result_ c)) c else c in
    Ok {| self := c; hist := h |}.

(** The constructor from timeouts alone. *)
Definition make_connection_timeouts (fd : Z) (ts : ConnectionTimeouts) (h : history) :
    result unit World :=
  make_connection fd {| timeouts := ts; limits := default_limits |} h.

End Members.
