(* ===== verification/KeepAliveFacts.v ===== *)
(** * When a connection is kept

    The options of the [Connection] fields: [has_connection_token] decides membership in
    the comma-separated lists, and [should_keep_alive] follows the fields as they were
    sent, however they were split over field lines. *)

From Stdlib Require Import Ascii String.
From stdpp Require Import base numbers list gmap strings.
From S2P Require Import Prelude CppLib Parser ParserLemmas ParserSpec Response FileSystem.
From S2P Require Import StaticFileHandler Router Fd Connection.

(** ** Reference definitions *)

Fixpoint split_commas (s : bytes) : list bytes :=
  match s with
  | [] => [[]]
  | c :: s' => if bool_decide (c = ","%char) then [] :: split_commas s'
               else cons_head c (split_commas s')
  end.

(** The options of a field value: the elements of the list, trimmed and in lower case. *)
Definition options (value : bytes) : list bytes :=
  (fun e => to_lower_ascii (trim_ows e)) <$> split_commas value.

(** The options of all [Connection] field lines of a request. *)
Definition connection_options (r : HttpRequest) : list bytes :=
  concat ((fun f => options (hf_value f)) <$>
    filter (fun f => hf_name f = lit "connection") (req_header_fields r)).

(** ** Lemmas *)

(** The two [trim_ows] of the program are the same function. *)
Lemma trim_ows_view_eq s : trim_ows_view s = trim_ows s.
Proof. by rewrite trim_ows_spec. Qed.

Lemma iequals_loop_spec l r :
  length l = length r -> iequals_loop l r = bool_decide (to_lower_ascii l = to_lower_ascii r).
Proof.
  unfold to_lower_ascii. revert r; induction l as [|a l IH]; intros [|b r] H; simplify_eq/=.
  - done.
  - rewrite IH by done.
    destruct (decide (tolower a = tolower b)) as [E|E];
      [rewrite bool_decide_eq_true_2|rewrite bool_decide_eq_false_2]; try done; simpl.
    + rewrite E. apply bool_decide_ext. split; congruence.
    + symmetry. apply bool_decide_eq_false. congruence.
Qed.

Lemma ascii_iequals_spec l r :
  ascii_iequals l r = bool_decide (to_lower_ascii l = to_lower_ascii r).
Proof.
  unfold ascii_iequals. destruct (Nat.eqb_spec (length l) (length r)); simpl.
  - by apply iequals_loop_spec.
  - symmetry. apply bool_decide_eq_false. intros E%(f_equal length).
    unfold to_lower_ascii in E. rewrite !length_map in E. done.
Qed.

Lemma split_commas_search s :
  split_commas s = match search (lit ",") s with
                   | None => [s]
                   | Some i => take i s :: split_commas (drop (i + 1) s)
                   end.
Proof.
  induction s as [|c s IH]; [done|]. cbn [split_commas search].
  change (starts_with (lit ",") (c :: s)) with (bool_decide (","%char = c) && true).
  rewrite andb_true_r. destruct (decide (c = ","%char)) as [->|Hc].
  - rewrite !bool_decide_eq_true_2 by done. done.
  - rewrite !bool_decide_eq_false_2 by congruence. rewrite IH.
    by destruct (search (lit ",") s).
Qed.

Lemma token_loop_spec fuel s token :
  (length s < fuel)%nat ->
  token_loop fuel s token = Some (bool_decide (to_lower_ascii token ∈ options s)).
Proof.
  revert s; induction fuel as [|fuel IH]; intros s Hf; [lia|]. cbn [token_loop].
  unfold options. rewrite split_commas_search. unfold find_at. rewrite drop_0.
  destruct (search (lit ",") s) as [i|] eqn:E; cbn [fmap option_fmap option_map].
  - rewrite Nat.add_0_l. rewrite ascii_iequals_spec, trim_ows_view_eq. unfold substr. rewrite drop_0.
    rewrite fmap_cons. destruct (bool_decide _) eqn:Et.
    + apply bool_decide_eq_true in Et. rewrite bool_decide_eq_true_2; [done|]. rewrite Et. by left.
    + apply bool_decide_eq_false in Et. rewrite IH.
      * f_equal. apply bool_decide_ext. unfold options. rewrite elem_of_cons. naive_solver.
      * apply search_bound in E. rewrite length_drop. simpl in E. lia.
  - rewrite ascii_iequals_spec, trim_ows_view_eq. simpl.
    destruct (bool_decide _) eqn:Et.
    + apply bool_decide_eq_true in Et. rewrite bool_decide_eq_true_2; [done|]. rewrite Et. by left.
    + apply bool_decide_eq_false in Et. rewrite bool_decide_eq_false_2; [done|].
      rewrite list_elem_of_singleton. congruence.
Qed.

Lemma split_commas_app a b :
  split_commas (a ++ ","%char :: b) = split_commas a ++ split_commas b.
Proof.
  induction a as [|c a IH]; [done|]. simpl. rewrite IH. case_bool_decide; [done|].
  rewrite (split_commas_search a). by destruct (search _ a).
Qed.

Lemma options_space b : options (SP :: b) = options b.
Proof.
  unfold options. cbn [split_commas]. rewrite bool_decide_eq_false_2 by done.
  rewrite (split_commas_search b).
  destruct (search _ b); cbn [cons_head]; rewrite !fmap_cons, trim_cons_SP; done.
Qed.

Lemma options_combine a b : options (a ++ lit ", " ++ b) = options a ++ options b.
Proof.
  change (lit ", " ++ b) with (","%char :: SP :: b). unfold options at 1.
  rewrite split_commas_app, fmap_app. fold (options (SP :: b)). by rewrite options_space.
Qed.

(** Combining repeated fields into one value keeps their options. *)
Lemma headers_of_connection fs :
  match headers_of fs !! lit "connection" with Some v => options v | None => [] end
  = concat ((fun f => options (hf_value f)) <$> filter (fun f => hf_name f = lit "connection") fs).
Proof.
  induction fs as [|f fs IH] using rev_ind.
  - change (headers_of []) with (∅ : gmap bytes bytes). by rewrite lookup_empty.
  - rewrite headers_of_snoc, filter_app, fmap_app, concat_app, <- IH. unfold combine_field.
    destruct (decide (hf_name f = lit "connection")) as [E|E].
    + rewrite filter_cons_True, filter_nil, fmap_cons by done. rewrite E.
      destruct (headers_of fs !! lit "connection") as [v|]; rewrite lookup_insert_eq;
        [rewrite options_combine; f_equal|]; cbn [concat fmap list_fmap]; by rewrite app_nil_r.
    + rewrite filter_cons_False by done. simpl. rewrite app_nil_r.
      destruct (headers_of fs !! hf_name f); by rewrite lookup_insert_ne.
Qed.

Lemma has_connection_token_spec r token :
  req_headers r = headers_of (req_header_fields r) ->
  has_connection_token r token = bool_decide (to_lower_ascii token ∈ connection_options r).
Proof.
  intros Hh. unfold has_connection_token, connection_options.
  rewrite <- headers_of_connection, <- Hh.
  destruct (req_headers r !! lit "connection") as [v|].
  - rewrite token_loop_spec by lia. done.
  - symmetry. apply bool_decide_eq_false, not_elem_of_nil.
Qed.

(** ** Properties *)

(** A connection is kept exactly as the request's [Connection] options say, over all its
    [Connection] field lines, each a comma-separated list with optional whitespace and
    any letter case: an option [close] always ends it, HTTP/1.1 keeps it by default and
    HTTP/1.0 only with an option [keep-alive]. *)
Theorem should_keep_alive_spec r :
  wf_head r ->
  should_keep_alive r = true <->
  lit "close" ∉ connection_options r /\
  (req_version r = HTTP11 \/ lit "keep-alive" ∈ connection_options r).
Proof.
  intros (_ & _ & _ & _ & Hv & _ & _ & Hh). unfold should_keep_alive.
  rewrite !has_connection_token_spec by done.
  change (to_lower_ascii (lit "close")) with (lit "close").
  change (to_lower_ascii (lit "keep-alive")) with (lit "keep-alive").
  destruct (decide (lit "close" ∈ connection_options r)) as [Hc|Hc];
    [rewrite (bool_decide_eq_true_2 _ Hc)|rewrite (bool_decide_eq_false_2 _ Hc)]; [naive_solver|].
  destruct Hv as [Hv|Hv]; rewrite Hv.
  - rewrite bool_decide_eq_true_2 by done. naive_solver.
  - rewrite (bool_decide_eq_false_2 (HTTP10 = HTTP11)), (bool_decide_eq_true_2 (HTTP10 = HTTP10)) by done.
    simpl. rewrite bool_decide_eq_true. naive_solver.
Qed.

(** Two field lines, the second with the option [close] in a list. *)
Definition close_example : HttpRequest :=
  mk_request (lit "GET") (lit "/") HTTP11
    [{| hf_name := lit "host"; hf_value := lit "a" |};
     {| hf_name := lit "connection"; hf_value := lit "upgrade" |};
     {| hf_name := lit "connection"; hf_value := lit "x ,  Close" |}].

Lemma close_example_wf : wf_head close_example.
Proof.
  apply (parse_head_sound 0 (render_head close_example) close_example 0).
  vm_compute. reflexivity.
Qed.

Lemma should_keep_alive_spec_witness : should_keep_alive close_example <> true.
Proof.
  intros H. apply (proj1 (should_keep_alive_spec close_example close_example_wf)) in H.
  destruct H as [H _]. apply H. apply (bool_decide_unpack _). vm_compute. exact I.
Defined.
