(* ===== verification/ConnectionSpec.v ===== *)
(** * What a connection promises

    The abstract specification of [Connection::serve]: a conversation is the list of the
    requests asked and possibly one failure that ends it; its script is the exact byte
    sequence of the responses. [ConnectionFacts] shows that the state machine refines
    it whatever the kernel answers. *)

From Stdlib Require Import Ascii String.
From stdpp Require Import base numbers list gmap strings.
From S2P Require Import Prelude CppLib Parser ParserLemmas ParserSpec ParserFacts Response.
From S2P Require Import FileSystem StaticFileHandler Router Fd Connection.

(** ** The wire *)

Fixpoint received (h : history) : bytes :=
  match h with
  | [] => []
  | EvRead _ (Ok data) :: h' => received h' ++ data
  | _ :: h' => received h'
  end.

Fixpoint sent (h : history) : bytes :=
  match h with
  | [] => []
  | EvSend data (Ok n) :: h' => sent h' ++ take n data
  | _ :: h' => sent h'
  end.

(** The requests taken from a parser one after the other, and the parser left. *)
Inductive parsed : HttpParser -> list HttpRequest -> HttpParser -> Prop :=
| parsed_nil p : parsed p [] p
| parsed_snoc p rs q r q' :
    parsed p rs q -> next q = (request_ready r, q') -> parsed p (rs ++ [r]) q'.

#[export] Hint Constructors parsed : http.

(** ** Conversations *)

Section Spec.
Context `{MapOrder} `{FileSystem}.
Context (cfg : ConnectionConfig) (h : StaticFileHandler).

(** Whether the connection is kept after the request number [i], counting from 0. *)
Definition keeps (i : nat) (r : HttpRequest) : bool :=
  should_keep_alive r && (N.of_nat (S i) <? max_requests (limits cfg))%N.

Definition advertise (keep : bool) (r : HttpResponse) : HttpResponse :=
  set_header (lit "Connection") (if keep then lit "keep-alive" else lit "close") r.

Definition response_to (i : nat) (r : HttpRequest) : HttpResponse :=
  advertise (keeps i r) (set_version (req_version r) (route_request r h)).

Definition reply (i : nat) (r : HttpRequest) : bytes := serialize_response (response_to i r).

Definition final_reply (r : HttpResponse) : bytes := serialize_response (advertise false r).

Record conversation := { asked : list HttpRequest; failure : option HttpResponse }.

Definition script (cv : conversation) : bytes :=
  concat (imap reply (asked cv)) ++ match failure cv with Some r => final_reply r | None => [] end.

(** Every request so far left the connection open. *)
Definition all_keep (rs : list HttpRequest) : Prop :=
  forall i r, rs !! i = Some r -> keeps i r = true.

(** The last request closes the connection. *)
Definition last_closes (rs : list HttpRequest) : Prop :=
  exists rs' r, rs = rs' ++ [r] /\ all_keep rs' /\ keeps (length rs') r = false.

(** The failure that answers what the parser [p] says next. *)
Definition parse_failure (p : HttpParser) (r : HttpResponse) : Prop :=
  status (next p).1 = Error /\
  r = match error_kind (next p).1 with
      | UnsupportedTransferEncoding => not_implemented_response
      | BadRequest => bad_request_response
      end.

(** What a connection that ends for a reason has sent. *)
Definition ends (cv : conversation) (p : HttpParser) (out : bytes) (why : ConnectionEndReason) :
    Prop :=
  match why with
  | PeerClosed | KeepAliveTimeout | ReadError =>
      out = script cv /\ failure cv = None /\ all_keep (asked cv)
  | ConnectionClose =>
      out = script cv /\ failure cv = None /\ last_closes (asked cv) /\
      (len (asked cv) < max_requests (limits cfg))%N
  | RequestLimit =>
      out = script cv /\ failure cv = None /\ last_closes (asked cv) /\
      len (asked cv) = max_requests (limits cfg)
  | ParseError =>
      out = script cv /\ all_keep (asked cv) /\
      exists r, failure cv = Some r /\ parse_failure p r
  | ReadTimeout =>
      out = script cv /\ all_keep (asked cv) /\ failure cv = Some request_timeout_response
  | WriteTimeout | WriteError =>
      exists rest, rest <> [] /\ out ++ rest = script cv /\
      (failure cv <> None -> all_keep (asked cv)) /\
      (failure cv = None -> all_keep (asked cv) \/ last_closes (asked cv))
  end.

(** ** The invariant of the state machine *)

(** The response being written is the last of the script. *)
Definition writing (c : Connection) (cv : conversation) (out : bytes) : Prop :=
  out ++ drop (write_offset_ c) (pending_response_ c) = script cv /\
  (write_offset_ c < length (pending_response_ c))%nat /\
  (if close_after_write_ c
   then forall out', out' = script cv -> ends cv (parser_ c) out' (close_reason_after_write_ c)
   else failure cv = None /\ all_keep (asked cv)) /\
  (failure cv <> None -> all_keep (asked cv)) /\
  (failure cv = None -> all_keep (asked cv) \/ last_closes (asked cv)).

Definition in_state (c : Connection) (cv : conversation) (out : bytes) : Prop :=
  match state_ c with
  | Reading | Parsing => out = script cv /\ failure cv = None /\ all_keep (asked cv)
  | Writing => writing c cv out
  | Closed => ends cv (parser_ c) out (reason (result_ c))
  end.

Record follows (w : World) (cv : conversation) : Prop := {
  fol_config : config_ (self w) = cfg;
  fol_parsed : parsed (feed default_parser (received (hist w))) (asked cv) (parser_ (self w));
  fol_served : requests_served (result_ (self w)) = len (asked cv);
  fol_read : bytes_read (result_ (self w)) = (len (received (hist w)) mod 2 ^ 64)%N;
  fol_written : bytes_written (result_ (self w)) = (len (sent (hist w)) mod 2 ^ 64)%N;
  fol_state : in_state (self w) cv (sent (hist w))
}.
End Spec.
