(* ===== verification/ConnectionStep.v ===== *)
(** * One iteration of [Connection::serve] as a step relation

    A weakest-precondition calculus for the commands of [Connection], and with it the
    relation [step]: every outcome an iteration can have, one constructor each, with the
    condition under which it happens and its effect on the object and on the history.
    The properties of the state machine are proved on the relation. *)

From Stdlib Require Import Ascii String.
From stdpp Require Import base numbers list gmap strings.
From S2P Require Import Prelude CppLib Parser Response FileSystem StaticFileHandler Router Fd.
From S2P Require Import Connection.

(** ** Weakest preconditions *)

Definition wp {A} (m : M A) (Q : A -> World -> Prop) (w : World) : Prop := Q (m w).1 (m w).2.

Section Rules.
Context `{K : Kernel} `{MO : MapOrder} `{FS : FileSystem}.

Lemma wp_bind {A B} (m : M A) (f : A -> M B) Q w :
  wp m (fun a => wp (f a) Q) w -> wp (m ≫= f) Q w.
Proof. unfold wp, mbind, M_bind. by destruct (m w). Qed.

Lemma wp_ret {A} (x : A) (Q : A -> World -> Prop) w : Q x w -> wp (mret x) Q w.
Proof. done. Qed.

Lemma wp_this Q w : Q (self w) w -> wp this Q w.
Proof. done. Qed.

Lemma wp_update f (Q : unit -> World -> Prop) w :
  Q tt {| self := f (self w); hist := hist w |} -> wp (update f) Q w.
Proof. done. Qed.

Lemma wp_now Q w :
  Q (k_now (hist w)) {| self := self w; hist := EvNow (k_now (hist w)) :: hist w |} -> wp now Q w.
Proof. done. Qed.

Lemma wp_finish r (Q : unit -> World -> Prop) w :
  Q tt {| self := set_state Closed (set_result (set_reason r (result_ (self w))) (self w));
          hist := hist w |} -> wp (finish r) Q w.
Proof. done. Qed.

Lemma wp_read size Q w :
  (forall r, (forall data, r = Ok data -> (length data <= size)%nat) ->
     Q r {| self := self w; hist := EvRead size r :: hist w |}) -> wp (sys_read size) Q w.
Proof. intros HQ. apply HQ. intros data. apply k_read_size. Qed.

Lemma wp_send data Q w :
  (forall r, (forall n, r = Ok n -> (n <= length data)%nat) ->
     Q r {| self := self w; hist := EvSend data r :: hist w |}) -> wp (sys_send data) Q w.
Proof. intros HQ. apply HQ. intros n. apply k_send_size. Qed.

(** Arming fails with [EAGAIN] at the deadline, and otherwise as [setsockopt] does. *)
Lemma wp_arm option deadline (Q : result errno unit -> World -> Prop) w :
  (deadline <= k_now (hist w) ->
     Q (Err EAGAIN) {| self := self w; hist := EvNow (k_now (hist w)) :: hist w |})%Z ->
  (k_now (hist w) < deadline -> forall r,
     Q r {| self := self w;
            hist := EvSetsockopt option (timeval_of (deadline - k_now (hist w))) r ::
                    EvNow (k_now (hist w)) :: hist w |})%Z ->
  wp (arm_socket_timeout option deadline) Q w.
Proof.
  intros He Hs. unfold arm_socket_timeout. apply wp_bind, wp_now. simpl.
  destruct (Z.leb_spec (deadline - k_now (hist w)) 0); [apply wp_ret, He; lia|].
  apply Hs. lia.
Qed.

(** The object after [queue_response], when the clock reads [t]. *)
Definition queued (response : HttpResponse) (keep_alive : bool) (why : ConnectionEndReason)
    (t : Z) (c : Connection) : Connection :=
  set_state Writing
    (set_write_deadline (t + write_timeout (timeouts (config_ c)))%Z
      (set_after_write (negb keep_alive) why
        (set_pending (serialize_response (set_header (lit "Connection")
           (if keep_alive then lit "keep-alive" else lit "close") response)) 0 c))).

Lemma wp_queue response keep_alive why (Q : unit -> World -> Prop) w :
  Q tt {| self := queued response keep_alive why (k_now (hist w)) (self w);
          hist := EvNow (k_now (hist w)) :: hist w |} ->
  wp (queue_response response keep_alive why) Q w.
Proof. done. Qed.
End Rules.

(** Symbolic execution of one command after the other. *)
Ltac wp_step :=
  lazymatch goal with
  | |- wp (mbind _ _) _ _ => apply wp_bind
  | |- wp this _ _ => apply wp_this
  | |- wp (update _) _ _ => apply wp_update
  | |- wp (finish _) _ _ => apply wp_finish
  | |- wp (queue_response _ _ _) _ _ => apply wp_queue
  | |- wp (mret _) _ _ => apply wp_ret
  | |- wp now _ _ => apply wp_now
  | |- wp (arm_socket_timeout _ _) _ _ => apply wp_arm; [intros ?|intros ? [[]|?]]
  end; cbn [self hist].

(** Decide an equation between two constructors and take the branch. *)
Ltac take_branch :=
  repeat first [ rewrite bool_decide_eq_true_2 by done | rewrite bool_decide_eq_false_2 by done ];
  cbn [negb andb].

(** ** The step relation *)

(** An event that moves no bytes. *)
Definition quiet (e : event) : bool :=
  match e with
  | EvRead _ (Ok (_ :: _)) | EvSend _ (Ok (S _)) => false
  | _ => true
  end.

Definition all_quiet (es : list event) : Prop := Forall (fun e => quiet e = true) es.

Definition closed_with (why : ConnectionEndReason) (c : Connection) : Connection :=
  set_state Closed (set_result (set_reason why (result_ c)) c).

(** A new deadline for the request that begins, when the idle phase is over. *)
Definition started (t : Z) (begins : bool) (c : Connection) : Connection :=
  if begins && bool_decide (read_phase_ c = KeepAlive)
  then set_read_deadline Request (t + read_timeout (timeouts (config_ c)))%Z c else c.

Definition error_response (kind : ParseErrorKind) : HttpResponse :=
  match kind with
  | UnsupportedTransferEncoding => not_implemented_response
  | BadRequest => bad_request_response
  end.

Section Step.
Context `{K : Kernel} `{MO : MapOrder} `{FS : FileSystem}.
Context (h : StaticFileHandler).

(** The object after [n] more bytes of the response are written. *)
Definition wrote (n : nat) (c : Connection) : Connection :=
  set_result (count_written (N.of_nat n) (result_ c)) (set_write_offset (write_offset_ c + n) c).

Inductive step : World -> World -> Prop :=
| step_read_data c hs t data es1 es2 :
    state_ c = Reading -> (k_now hs < read_deadline_ c)%Z ->
    data <> [] -> (length data <= READ_SIZE)%nat ->
    all_quiet es1 -> all_quiet es2 -> es1 <> [] ->
    (read_phase_ c = KeepAlive -> es2 = [EvNow t] /\
       t = k_now (EvRead READ_SIZE (Ok data) :: es1 ++ hs)) ->
    step {| self := c; hist := hs |}
      {| self := set_state Parsing (set_parser (feed (parser_ c) data)
                   (started t true (set_result (count_read (len data) (result_ c)) c)));
         hist := es2 ++ EvRead READ_SIZE (Ok data) :: es1 ++ hs |}
| step_read_interrupted c hs es :
    state_ c = Reading -> (k_now hs < read_deadline_ c)%Z -> all_quiet es -> es <> [] ->
    step {| self := c; hist := hs |} {| self := c; hist := es ++ hs |}
| step_read_end c hs why es :
    state_ c = Reading -> all_quiet es ->
    why = PeerClosed \/ why = ReadError \/ (why = KeepAliveTimeout /\ read_phase_ c = KeepAlive) ->
    step {| self := c; hist := hs |} {| self := closed_with why c; hist := es ++ hs |}
| step_read_timeout c hs t es :
    state_ c = Reading -> read_phase_ c = Request -> all_quiet es -> t = k_now (es ++ hs) ->
    step {| self := c; hist := hs |}
      {| self := queued request_timeout_response false ReadTimeout t c;
         hist := EvNow t :: es ++ hs |}
| step_need_more c hs t es :
    state_ c = Parsing -> next (parser_ c) = (need_more_data, parser_ c) -> all_quiet es ->
    step {| self := c; hist := hs |}
      {| self := set_state Reading (started t (0 <? buffered_bytes (parser_ c))%N c);
         hist := es ++ hs |}
| step_parse_error c hs t t' msg kind es :
    state_ c = Parsing -> next (parser_ c) = (parse_error msg kind, parser_ c) -> all_quiet es ->
    step {| self := c; hist := hs |}
      {| self := queued (error_response kind) false ParseError t'
                   (started t (0 <? buffered_bytes (parser_ c))%N c);
         hist := es ++ hs |}
| step_request c hs t t' r p es :
    state_ c = Parsing -> next (parser_ c) = (request_ready r, p) -> all_quiet es ->
    let c1 := set_result (count_request (result_ c))
                (set_parser p (started t (0 <? buffered_bytes (parser_ c))%N c)) in
    let limit := (max_requests (limits (config_ c)) <=? requests_served (result_ c1))%N in
    step {| self := c; hist := hs |}
      {| self := queued (set_version (req_version r) (route_request r h))
                   (should_keep_alive r && negb limit)
                   (if limit then RequestLimit else ConnectionClose) t' c1;
         hist := es ++ hs |}
| step_write_end c hs why es :
    state_ c = Writing -> all_quiet es -> why = WriteTimeout \/ why = WriteError ->
    step {| self := c; hist := hs |} {| self := closed_with why c; hist := es ++ hs |}
| step_write_interrupted c hs es :
    state_ c = Writing -> (k_now hs < write_deadline_ c)%Z -> all_quiet es -> es <> [] ->
    step {| self := c; hist := hs |} {| self := c; hist := es ++ hs |}
| step_write_part c hs n data es :
    state_ c = Writing -> (k_now hs < write_deadline_ c)%Z ->
    data = drop (write_offset_ c) (pending_response_ c) -> (0 < n <= length data)%nat ->
    write_offset_ c + n <> length (pending_response_ c) -> all_quiet es ->
    step {| self := c; hist := hs |}
      {| self := wrote n c; hist := EvSend data (Ok n) :: es ++ hs |}
| step_write_last c hs n data es :
    state_ c = Writing -> (k_now hs < write_deadline_ c)%Z ->
    data = drop (write_offset_ c) (pending_response_ c) -> (0 < n <= length data)%nat ->
    write_offset_ c + n = length (pending_response_ c) -> all_quiet es ->
    close_after_write_ c = true ->
    step {| self := c; hist := hs |}
      {| self := closed_with (close_reason_after_write_ c) (set_pending [] 0 (wrote n c));
         hist := EvSend data (Ok n) :: es ++ hs |}
| step_write_next c hs n t data es :
    state_ c = Writing -> (k_now hs < write_deadline_ c)%Z ->
    data = drop (write_offset_ c) (pending_response_ c) -> (0 < n <= length data)%nat ->
    write_offset_ c + n = length (pending_response_ c) -> all_quiet es ->
    close_after_write_ c = false -> t = k_now (EvSend data (Ok n) :: es ++ hs) ->
    step {| self := c; hist := hs |}
      {| self := set_state Parsing (set_read_deadline KeepAlive
                   (t + keep_alive_timeout (timeouts (config_ c)))%Z
                   (set_pending [] 0 (wrote n c)));
         hist := EvNow t :: EvSend data (Ok n) :: es ++ hs |}.

(** ** Soundness of the relation *)

Lemma step_eq w w1 w2 : step w w1 -> w1 = w2 -> step w w2.
Proof. by intros ? <-. Qed.

Ltac quiet_list := unfold all_quiet; repeat (apply Forall_cons; split; [done|]); apply Forall_nil; done.

Lemma wp_read_timed_out c hs es (Q := fun (_ : unit) w' => step {| self := c; hist := hs |} w') :
  state_ c = Reading -> all_quiet es ->
  wp read_timed_out Q {| self := c; hist := es ++ hs |}.
Proof.
  intros Hs Hq. unfold read_timed_out. do 2 wp_step.
  destruct (read_phase_ c) eqn:Ep; take_branch; wp_step.
  - by apply step_read_timeout.
  - apply (step_read_end c hs KeepAliveTimeout es); auto.
Qed.

Lemma read_from_socket_step c hs :
  state_ c = Reading ->
  wp read_from_socket (fun _ w' => step {| self := c; hist := hs |} w') {| self := c; hist := hs |}.
Proof.
  intros Hs. unfold read_from_socket. wp_step. wp_step. wp_step. wp_step.
  - take_branch. apply (wp_read_timed_out c hs [_]); [done|quiet_list].
  - wp_step. apply wp_read. intros r Hr. cbn [self hist].
    set (ev := EvSetsockopt _ _ _).
    destruct r as [[|x data]|e].
    + wp_step. apply (step_read_end c hs PeerClosed [_; _; _]); [done|quiet_list|auto].
    + do 4 wp_step.
      assert (Hl : (length (x :: data) <= READ_SIZE)%nat) by auto.
      destruct (read_phase_ c) eqn:Ep; cbn [read_phase_ set_result]; rewrite Ep; take_branch.
      * do 4 wp_step. eapply step_eq.
        -- apply (step_read_data c hs 0 (x :: data) [ev; EvNow (k_now hs)] []);
             first [done|congruence|quiet_list].
        -- unfold started. simpl. by rewrite Ep.
      * unfold begin_request_timeout. do 7 wp_step. set (t := k_now (EvRead _ _ :: _)). eapply step_eq.
        -- apply (step_read_data c hs t (x :: data) [ev; EvNow (k_now hs)] [EvNow t]); first [done|congruence|quiet_list].
        -- unfold started. simpl. by rewrite Ep.
    + destruct e; take_branch.
      * wp_step. apply (step_read_interrupted c hs [_; _; _]); [done|done|quiet_list|done].
      * apply (wp_read_timed_out c hs [_; _; _]); [done|quiet_list].
      * wp_step. apply (step_read_end c hs ReadError [_; _; _]); [done|quiet_list|auto].
  - destruct e; take_branch.
    + wp_step. apply (step_read_end c hs ReadError [_; _]); [done|quiet_list|auto].
    + apply (wp_read_timed_out c hs [_; _]); [done|quiet_list].
    + wp_step. apply (step_read_end c hs ReadError [_; _]); [done|quiet_list|auto].
Qed.

Lemma next_cases p :
  next p = (need_more_data, p) \/ (exists msg kind, next p = (parse_error msg kind, p)) \/
  exists r p', next p = (request_ready r, p').
Proof. unfold next. repeat case_match; eauto. Qed.

Lemma parse_request_step c hs :
  state_ c = Parsing ->
  wp (parse_request h) (fun _ w' => step {| self := c; hist := hs |} w') {| self := c; hist := hs |}.
Proof.
  intros Hs. unfold parse_request. do 3 wp_step.
  set (begins := (0 <? buffered_bytes (parser_ c))%N).
  assert (Hb : exists es t, all_quiet es /\ forall Q : unit -> World -> Prop,
    Q tt {| self := started t begins c; hist := es ++ hs |} ->
    wp (if bool_decide (read_phase_ c = KeepAlive) && begins then begin_request_timeout else mret tt)
      Q {| self := c; hist := hs |}).
  { unfold started. destruct (bool_decide _), begins; simpl.
    1: exists [EvNow (k_now hs)], (k_now hs). 2-4: exists [], 0%Z.
    all: (split; [quiet_list|]); intros Q HQ; unfold begin_request_timeout; repeat wp_step; exact HQ. }
  destruct Hb as (es & t & Hq & Hb). apply Hb. do 2 wp_step.
  assert (Hp : parser_ (started t begins c) = parser_ c) by (unfold started; by destruct (begins && _)).
  rewrite Hp.
  assert (Hid : set_parser (parser_ c) (started t begins c) = started t begins c)
    by (rewrite <- Hp; by destruct (started t begins c)).
  assert (Hc : config_ (started t begins c) = config_ c /\ result_ (started t begins c) = result_ c)
    by (unfold started; by destruct (begins && _)). destruct Hc as [Hc Hr].
  destruct (next_cases (parser_ c)) as [E|[(msg & kind & E)|(r & p & E)]]; rewrite E;
    do 2 wp_step; cbn [status request error error_kind need_more_data parse_error request_ready].
  - wp_step. rewrite Hid. by apply step_need_more.
  - wp_step. rewrite Hid. set (t' := k_now _).
    replace (match kind with BadRequest => _ | _ => _ end) with (error_response kind) by by destruct kind.
    apply (step_parse_error c hs t t' msg kind (EvNow t' :: es)); [done|done|].
    by apply Forall_cons.
  - do 4 wp_step. wp_step. set (t' := k_now _). eapply step_eq.
    + apply (step_request c hs t t' r p (EvNow t' :: es)); [done|done|]. by apply Forall_cons.
    + cbn [config_ result_ set_result set_parser]. by rewrite Hc, Hr.
Qed.

Lemma write_to_socket_step c hs :
  state_ c = Writing ->
  wp write_to_socket (fun _ w' => step {| self := c; hist := hs |} w') {| self := c; hist := hs |}.
Proof.
  intros Hs. unfold write_to_socket. do 4 wp_step.
  - wp_step. apply (step_write_end c hs _ [_]); [done|quiet_list|]. take_branch. auto.
  - wp_step. apply wp_send. intros r Hr. cbn [self hist]. set (ev := EvSetsockopt _ _ _).
    destruct r as [[|n]|e].
    + wp_step. apply (step_write_end c hs WriteError [_; _; _]); [done|quiet_list|auto].
    + assert (Hl : (0 < S n <= length (drop (write_offset_ c) (pending_response_ c)))%nat)
        by (specialize (Hr _ eq_refl); lia).
      do 6 wp_step. cbn [write_offset_ pending_response_ set_result set_write_offset].
      destruct (Nat.eqb_spec (write_offset_ c + S n) (length (pending_response_ c))) as [He|He].
      * do 2 wp_step. cbn [close_after_write_ set_result set_write_offset].
        destruct (close_after_write_ c) eqn:Ec.
        -- wp_step. by apply (step_write_last c hs (S n) _ [ev; EvNow (k_now hs)]); try done; [quiet_list].
        -- unfold begin_keep_alive_timeout. do 5 wp_step.
           by apply (step_write_next c hs (S n) _ _ [ev; EvNow (k_now hs)]); try done; [quiet_list].
      * wp_step. by apply (step_write_part c hs (S n) _ [ev; EvNow (k_now hs)]); try done; [quiet_list].
    + destruct e; take_branch; wp_step.
      * apply (step_write_interrupted c hs [_; _; _]); [done|done|quiet_list|done].
      * apply (step_write_end c hs WriteTimeout [_; _; _]); [done|quiet_list|auto].
      * apply (step_write_end c hs WriteError [_; _; _]); [done|quiet_list|auto].
  - wp_step. apply (step_write_end c hs _ [_; _]); [done|quiet_list|]. case_bool_decide; auto.
Qed.

Lemma serve_step_sound w : state_ (self w) <> Closed -> step w (serve_step h w).2.
Proof.
  destruct w as [c hs]. cbn [self]. intros Hs.
  assert (H : wp (serve_step h) (fun _ w' => step {| self := c; hist := hs |} w') {| self := c; hist := hs |}).
  { unfold serve_step. do 2 wp_step. destruct (state_ c) eqn:E; [..|done].
    - by apply read_from_socket_step.
    - by apply parse_request_step.
    - by apply write_to_socket_step. }
  exact H.
Qed.
End Step.
