(* ===== verification/ConnectionFacts.v ===== *)
(** * The connection refines its specification

    The state machine of [Connection] follows a conversation of [ConnectionSpec] at every
    moment and for every kernel: each response byte is sent exactly once and in order,
    each end reason means what it says, requests are taken from the received bytes alone.
    Then the deadlines: they are absolute, and they end every connection. *)

From Stdlib Require Import Ascii String.
From stdpp Require Import base numbers list gmap strings.
From S2P Require Import Prelude CppLib Parser ParserLemmas ParserSpec ParserFacts Response.
From S2P Require Import FileSystem StaticFileHandler Router Fd Connection ConnectionSpec.
From S2P Require Import ConnectionStep.

(** ** Histories *)

Lemma received_quiet es hs : all_quiet es -> received (es ++ hs) = received hs.
Proof.
  induction 1 as [|e es He Hes IH]; [done|]. simpl. rewrite IH.
  destruct e as [| |? [[|]|]|]; try done. by rewrite app_nil_r.
Qed.

Lemma sent_quiet es hs : all_quiet es -> sent (es ++ hs) = sent hs.
Proof.
  induction 1 as [|e es He Hes IH]; [done|]. simpl. rewrite IH.
  destruct e as [| | |? [[|]|]]; try done. by rewrite app_nil_r.
Qed.

Lemma parsed_feed p rs q b : parsed p rs q -> parsed (feed p b) rs (feed q b).
Proof.
  induction 1 as [|p rs q r q' _ IH Hn]; [constructor|].
  econstructor; [done|]. by apply (next_ready_extend q _ q' r b).
Qed.

Lemma len_app {A} (a b : list A) : len (a ++ b) = (len a + len b)%N.
Proof. unfold len. rewrite length_app. lia. Qed.

Lemma sz_add_mod a b : sz_add (a mod 2 ^ 64) b = ((a + b) mod 2 ^ 64)%N.
Proof. unfold sz_add. by rewrite N.Div0.add_mod_idemp_l. Qed.

Lemma serialize_nonempty `{MapOrder} r : (0 < length (serialize_response r))%nat.
Proof.
  rewrite serialize_lines, !length_app. unfold CRLF2. simpl. lia.
Qed.

(** The fields that the handling of deadlines leaves alone. *)
Lemma started_same t b c :
  config_ (started t b c) = config_ c /\ result_ (started t b c) = result_ c /\
  parser_ (started t b c) = parser_ c /\ state_ (started t b c) = state_ c.
Proof. unfold started. by destruct (b && _). Qed.

Lemma make_connection_valid `{K : Kernel} cfg fd hs w :
  make_connection fd cfg hs = Ok w ->
  (0 < read_timeout (timeouts cfg))%Z /\ (0 < keep_alive_timeout (timeouts cfg))%Z /\
  (0 < write_timeout (timeouts cfg))%Z /\ (0 < max_requests (limits cfg))%N /\
  requests_served (result_ (self w)) = 0%N /\ parser_ (self w) = default_parser /\
  config_ (self w) = cfg /\ (state_ (self w) = Reading \/ state_ (self w) = Closed).
Proof.
  unfold make_connection. intros Hm. destruct (_ || _ || _ || _) eqn:E; [done|].
  rewrite !orb_false_iff, !Z.leb_gt, N.eqb_neq in E. simplify_eq.
  destruct (valid_fd fd); simpl; repeat split; try lia; auto.
Qed.

Section Refinement.
Context `{K : Kernel} `{MO : MapOrder} `{FS : FileSystem}.
Context (cfg : ConnectionConfig) (h : StaticFileHandler).
Context (Hpos : (0 < max_requests (limits cfg))%N).
Context (Hmax : (max_requests (limits cfg) < 2 ^ 64)%N).

Notation follows := (follows cfg h).
Notation script := (script cfg h).
Notation all_keep := (all_keep cfg).

Lemma all_keep_limit rs : all_keep rs -> (len rs < max_requests (limits cfg))%N.
Proof.
  intros Hk. destruct rs as [|x rs _] using rev_ind; [done|].
  assert (Hx : (rs ++ [x]) !! length rs = Some x) by apply list_lookup_middle, eq_refl.
  apply Hk in Hx. unfold keeps in Hx. apply andb_true_iff in Hx as [_ Hx%N.ltb_lt].
  rewrite len_app. unfold len in *. simpl. lia.
Qed.

Lemma script_snoc rs r :
  script {| asked := rs ++ [r]; failure := None |}
  = script {| asked := rs; failure := None |} ++ reply cfg h (length rs) r.
Proof.
  unfold ConnectionSpec.script. simpl. rewrite imap_app, concat_app. simpl.
  by rewrite !app_nil_r, Nat.add_0_r.
Qed.

Lemma script_failure rs r :
  script {| asked := rs; failure := Some r |}
  = script {| asked := rs; failure := None |} ++ final_reply r.
Proof. unfold ConnectionSpec.script. simpl. by rewrite app_nil_r. Qed.

(** The bookkeeping of a step that neither reads a request nor moves bytes. *)
Lemma follows_frame c c' hs hs' cv cv' :
  follows {| self := c; hist := hs |} cv ->
  config_ c' = config_ c -> parser_ c' = parser_ c ->
  requests_served (result_ c') = requests_served (result_ c) ->
  bytes_read (result_ c') = bytes_read (result_ c) ->
  bytes_written (result_ c') = bytes_written (result_ c) ->
  received hs' = received hs -> sent hs' = sent hs -> asked cv' = asked cv ->
  in_state cfg h c' cv' (sent hs) -> follows {| self := c'; hist := hs' |} cv'.
Proof.
  intros [F1 F2 F3 F4 F5 _] E1 E2 E3 E4 E5 E6 E7 E8 Hst. simpl in *.
  split; simpl; rewrite ?E1, ?E2, ?E3, ?E4, ?E5, ?E6, ?E7, ?E8; done.
Qed.

(** Queueing a final response. *)
Lemma follows_failure c c1 hs hs' cv r t why :
  follows {| self := c; hist := hs |} cv ->
  sent hs = script cv -> failure cv = None -> all_keep (asked cv) ->
  config_ c1 = config_ c -> result_ c1 = result_ c -> parser_ c1 = parser_ c ->
  received hs' = received hs -> sent hs' = sent hs ->
  (forall out, out = script {| asked := asked cv; failure := Some r |} ->
     ends cfg h {| asked := asked cv; failure := Some r |} (parser_ c) out why) ->
  follows {| self := queued r false why t c1; hist := hs' |}
          {| asked := asked cv; failure := Some r |}.
Proof.
  intros Hf Hs Hn Hk E1 E2 E3 Hr Hs' He.
  apply (follows_frame c _ hs _ cv); simpl; try done; try (by rewrite E2).
  unfold in_state, writing. simpl. rewrite drop_0, E3. split.
  - rewrite script_failure, Hs. f_equal. destruct cv. simpl in *. by subst.
  - split; [apply serialize_nonempty|]. naive_solver.
Qed.

(** Queueing the response to a request. *)
Lemma follows_request c hs hs' cv r p t t' b :
  follows {| self := c; hist := hs |} cv ->
  sent hs = script cv -> failure cv = None -> all_keep (asked cv) ->
  next (parser_ c) = (request_ready r, p) ->
  received hs' = received hs -> sent hs' = sent hs ->
  let c1 := set_result (count_request (result_ c)) (set_parser p (started t b c)) in
  let limit := (max_requests (limits (config_ c)) <=? requests_served (result_ c1))%N in
  follows {| self := queued (set_version (req_version r) (route_request r h))
                   (should_keep_alive r && negb limit)
                   (if limit then RequestLimit else ConnectionClose) t' c1;
             hist := hs' |}
          {| asked := asked cv ++ [r]; failure := None |}.
Proof.
  intros [F1 F2 F3 F4 F5 _] Hs Hn Hk Hnext Hr Hs' c1 limit. cbn [self hist] in *.
  pose proof (all_keep_limit _ Hk) as Hlt.
  destruct (started_same t b c) as (C1 & C2 & C3 & C4).
  assert (Hserved : requests_served (result_ c1) = len (asked cv ++ [r])).
  { unfold c1. simpl. rewrite F3, len_app. unfold sz_add. apply N.mod_small.
    unfold len in *. simpl. lia. }
  assert (Hkeep : should_keep_alive r && negb limit = keeps cfg (length (asked cv)) r).
  { unfold keeps, limit. rewrite Hserved, F1, <- N.ltb_antisym, len_app. unfold len. simpl.
    f_equal. f_equal. lia. }
  split; simpl; rewrite ?C1, ?Hr, ?Hs'; try done.
  - by apply parsed_snoc with (q := parser_ c).
  - unfold in_state, writing. simpl. rewrite drop_0, Hkeep.
    assert (Hlast : keeps cfg (length (asked cv)) r = false -> last_closes cfg (asked cv ++ [r]))
      by (intros; exists (asked cv), r; done).
    assert (Hall : keeps cfg (length (asked cv)) r = true -> all_keep (asked cv ++ [r])).
    { intros Hkr i r' [Hi|[Hi Hx]]%lookup_app_Some; [by apply Hk|].
      apply list_lookup_singleton_Some in Hx as [Hx <-].
      by replace i with (length (asked cv)) by lia. }
    split; [|split; [apply serialize_nonempty|split; [|split; [done|]]]].
    + rewrite script_snoc, Hs. f_equal. destruct cv; simpl in *; by subst.
    + destruct (keeps _ _ r) eqn:Ek; simpl; [by auto|].
      intros out ->. unfold limit. rewrite Hserved, F1.
      destruct (N.leb_spec (max_requests (limits cfg)) (len (asked cv ++ [r]))) as [Hge|Hge];
        simpl; [|by auto]. split; [done|]. split; [done|]. split; [by auto|].
      rewrite len_app in *. unfold len in *. simpl in *. lia.
    + intros _. destruct (keeps _ _ r) eqn:Ek; auto.
Qed.

Lemma in_state_open c cv out :
  state_ c = Reading \/ state_ c = Parsing -> in_state cfg h c cv out ->
  out = script cv /\ failure cv = None /\ all_keep (asked cv).
Proof. unfold in_state. by intros [-> | ->]. Qed.

(** What [in_state] means for a state that is known. *)
Lemma in_state_intro c cv out s :
  state_ c = s -> match s with
                  | Reading | Parsing => out = script cv /\ failure cv = None /\ all_keep (asked cv)
                  | Writing => writing cfg h c cv out
                  | Closed => ends cfg h cv (parser_ c) out (reason (result_ c))
                  end -> in_state cfg h c cv out.
Proof. unfold in_state. by intros ->. Qed.

(** More of the response is written. *)
Lemma follows_wrote c c' hs es n cv data :
  follows {| self := c; hist := hs |} cv -> data = drop (write_offset_ c) (pending_response_ c) ->
  (n <= length data)%nat ->
  received (es ++ EvSend data (Ok n) :: hs) = received hs ->
  sent (es ++ EvSend data (Ok n) :: hs) = sent hs ++ take n data ->
  config_ c' = config_ c -> parser_ c' = parser_ c ->
  requests_served (result_ c') = requests_served (result_ c) ->
  bytes_read (result_ c') = bytes_read (result_ c) ->
  bytes_written (result_ c') = sz_add (bytes_written (result_ c)) (N.of_nat n) ->
  in_state cfg h c' cv (sent hs ++ take n data) ->
  follows {| self := c'; hist := es ++ EvSend data (Ok n) :: hs |} cv.
Proof.
  intros [F1 F2 F3 F4 F5 _] Hd Hn Er Es E1 E2 E3 E4 E5 Hst. simpl in *.
  split; simpl; rewrite ?E1, ?E2, ?E3, ?E4, ?E5, ?Er, ?Es; try done.
  rewrite F5, sz_add_mod, len_app. f_equal. f_equal. unfold len. rewrite length_take. lia.
Qed.

Lemma writing_more c cv out n :
  writing cfg h c cv out -> (n <= length (drop (write_offset_ c) (pending_response_ c)))%nat ->
  (out ++ take n (drop (write_offset_ c) (pending_response_ c)))
    ++ drop (write_offset_ c + n) (pending_response_ c) = script cv.
Proof.
  intros (Hw & _) Hn. rewrite <- Hw, <- (assoc_L (++)), <- drop_drop, take_drop. done.
Qed.

(** The send that reaches the end of the pending response completes the script. *)
Lemma writing_all c cv out n :
  writing cfg h c cv out -> (n <= length (drop (write_offset_ c) (pending_response_ c)))%nat ->
  (write_offset_ c + n = length (pending_response_ c))%nat ->
  out ++ take n (drop (write_offset_ c) (pending_response_ c)) = script cv.
Proof.
  intros Hw Hn He. rewrite <- (writing_more _ _ _ n Hw Hn), He, drop_all, app_nil_r. done.
Qed.

Lemma follows_quiet c hs es cv :
  all_quiet es -> follows {| self := c; hist := hs |} cv -> follows {| self := c; hist := es ++ hs |} cv.
Proof.
  intros Hq Hf. apply (follows_frame c c hs _ cv cv); try done;
    [by apply received_quiet|by apply sent_quiet|apply Hf].
Qed.

Lemma follows_read c c' hs es data cv :
  follows {| self := c; hist := hs |} cv -> state_ c = Reading -> state_ c' = Parsing ->
  all_quiet es ->
  config_ c' = config_ c -> parser_ c' = feed (parser_ c) data ->
  requests_served (result_ c') = requests_served (result_ c) ->
  bytes_read (result_ c') = sz_add (bytes_read (result_ c)) (len data) ->
  bytes_written (result_ c') = bytes_written (result_ c) ->
  follows {| self := c'; hist := es ++ EvRead READ_SIZE (Ok data) :: hs |} cv.
Proof.
  intros [F1 F2 F3 F4 F5 F6] Hs Hs' Hq E1 E2 E3 E4 E5. simpl in *.
  apply in_state_open in F6; [|by left].
  split; simpl; rewrite ?received_quiet, ?sent_quiet by done; simpl;
    rewrite ?E1, ?E2, ?E3, ?E4, ?E5; try done.
  - rewrite <- feed_app. by apply parsed_feed.
  - by rewrite F4, sz_add_mod, len_app.
  - by apply (in_state_intro _ _ _ Parsing).
Qed.

Lemma follows_step w w' cv : step h w w' -> follows w cv -> exists cv', follows w' cv'.
Proof.
  intros Hstep Hf. destruct Hstep.
  all: match goal with Hq : all_quiet ?es |- _ =>
         pose proof (received_quiet es hs Hq) as Hrec; pose proof (sent_quiet es hs Hq) as Hsent;
         pose proof (follows_quiet _ _ _ _ Hq Hf) as Hfq end.
  all: pose proof (fol_state _ _ _ _ Hf) as Hst; cbn [self hist] in Hst.
  all: try (apply in_state_open in Hst as (Ho & Hn & Hk); [|by auto]).
  - exists cv. apply (follows_read c _ (es1 ++ hs)); try done; [by apply follows_quiet|..];
      destruct (started_same t true (set_result (count_read (len data) (result_ c)) c))
        as (C1 & C2 & _); simpl; by rewrite ?C1, ?C2.
  - by exists cv.
  - exists cv. apply (follows_frame c _ hs _ cv); try done.
    unfold in_state. simpl. destruct H1 as [->|[->|[-> _]]]; done.
  - eexists. apply (follows_failure c c hs _ cv); try done.
  - destruct (started_same t (0 <? buffered_bytes (parser_ c))%N c) as (C1 & C2 & C3 & C4).
    exists cv. apply (follows_frame c _ hs _ cv); simpl; try done; try (by rewrite C2).
  - destruct (started_same t (0 <? buffered_bytes (parser_ c))%N c) as (C1 & C2 & C3 & C4).
    eexists. apply (follows_failure c _ hs _ cv); try done.
    intros out ->. simpl. repeat (split; [done|]). eexists. split; [done|].
    unfold parse_failure. rewrite H0. by destruct kind.
  - eexists. by apply (follows_request c hs).
  - unfold in_state in Hst. rewrite H in Hst. destruct Hst as (Hw1 & Hw2 & Hw3 & Hw4 & Hw5).
    exists cv. apply (follows_frame c _ hs _ cv); try done. unfold in_state. simpl.
    destruct H1 as [->| ->]; simpl;
      (exists (drop (write_offset_ c) (pending_response_ c)); split; [|done]);
      intros Hd%(f_equal length); rewrite length_drop in Hd; simpl in Hd; lia.
  - by exists cv.
  - unfold in_state in Hst. rewrite H in Hst. pose proof (writing_more _ _ _ n Hst) as Hm.
    destruct Hst as (Hw1 & Hw2 & Hw3 & Hw4 & Hw5). subst data.
    exists cv. apply (follows_wrote c _ (es ++ hs) [] n); try done; simpl; [lia|].
    rewrite Hsent. apply (in_state_intro _ _ _ Writing); [done|].
    unfold writing. simpl. split; [apply Hm; lia|]. split; [|done].
    rewrite length_drop in H2. lia.
  - unfold in_state in Hst. rewrite H in Hst. pose proof (writing_all _ _ _ n Hst) as Hm.
    destruct Hst as (Hw1 & Hw2 & Hw3 & Hw4 & Hw5). subst data. rewrite H5 in Hw3.
    exists cv. apply (follows_wrote c _ (es ++ hs) [] n); try done; simpl; [lia|].
    rewrite Hsent. apply (in_state_intro _ _ _ Closed); [done|]. simpl. apply Hw3.
    apply Hm; [lia|done].
  - unfold in_state in Hst. rewrite H in Hst. pose proof (writing_all _ _ _ n Hst) as Hm.
    destruct Hst as (Hw1 & Hw2 & Hw3 & Hw4 & Hw5). subst data. rewrite H5 in Hw3.
    exists cv. apply (follows_wrote c _ (es ++ hs) [EvNow t] n); try done; simpl; [lia|].
    rewrite Hsent. apply (in_state_intro _ _ _ Parsing); [done|]. simpl. split; [|done].
    apply Hm; [lia|done].
Qed.

(** ** Whole runs *)

(** [n] iterations of the loop of [serve]; a closed connection stays as it is. *)
Definition run (n : nat) (w : World) : World := Nat.iter n (fun w => (serve_step h w).2) w.

Lemma serve_step_closed w : state_ (self w) = Closed -> (serve_step h w).2 = w.
Proof.
  intros Hc. unfold serve_step, mbind, M_bind, this. rewrite Hc. done.
Qed.

Lemma run_follows n w cv : follows w cv -> exists cv', follows (run n w) cv'.
Proof.
  intros Hf. induction n as [|n [cv' IH]]; [by exists cv|]. simpl. fold (run n w).
  destruct (decide (state_ (self (run n w)) = Closed)) as [Hc|Hc].
  - rewrite serve_step_closed by done. eauto.
  - by eapply follows_step; [apply serve_step_sound|].
Qed.

Lemma serve_run fuel w res w' :
  serve fuel h w = Some (res, w') ->
  exists n, w' = run n w /\ state_ (self w') = Closed /\ res = result_ (self w').
Proof.
  revert w; induction fuel as [|fuel IH]; intros w Hs; cbn [serve] in Hs.
  - destruct (state_ (self w)) eqn:E; simplify_eq. by exists 0.
  - assert (Hstep : serve fuel h (serve_step h w).2 = Some (res, w') ->
      exists n, w' = run n w /\ state_ (self w') = Closed /\ res = result_ (self w')).
    { intros (n & -> & Hc & Hr)%IH. exists (S n). split; [|done].
      unfold run. by rewrite Nat.iter_succ_r. }
    destruct (state_ (self w)) eqn:E; [by auto..|]. simplify_eq. by exists 0.
Qed.

Lemma make_connection_follows fd w :
  make_connection fd cfg [] = Ok w -> follows w {| asked := []; failure := None |}.
Proof.
  unfold make_connection. intros Hm. destruct (_ || _ || _ || _) eqn:E; [done|]. simplify_eq.
  split; simpl.
  - by destruct (valid_fd fd).
  - destruct (valid_fd fd); apply parsed_nil.
  - by destruct (valid_fd fd).
  - by destruct (valid_fd fd).
  - by destruct (valid_fd fd).
  - destruct (valid_fd fd); (split; [done|]; split; [done|]; intros i r Hi; by destruct i).
Qed.

(** The bound that holds whatever the state. *)
Lemma follows_limit w cv : follows w cv -> (len (asked cv) <= max_requests (limits cfg))%N.
Proof.
  intros Hf. pose proof (fol_state _ _ _ _ Hf) as Hst.
  assert (Hl : last_closes cfg (asked cv) -> (len (asked cv) <= max_requests (limits cfg))%N).
  { intros (rs & r & -> & Hk & _). apply all_keep_limit in Hk. rewrite len_app.
    unfold len in *. simpl. lia. }
  assert (Ha : all_keep (asked cv) -> (len (asked cv) <= max_requests (limits cfg))%N)
    by (intros Hk%all_keep_limit; lia).
  assert (Hd : (failure cv <> None -> all_keep (asked cv)) ->
    (failure cv = None -> all_keep (asked cv) \/ last_closes cfg (asked cv)) ->
    (len (asked cv) <= max_requests (limits cfg))%N) by (destruct (failure cv); naive_solver).
  unfold in_state in Hst. destruct (state_ (self w)).
  - naive_solver.
  - naive_solver.
  - destruct Hst as (_ & _ & _ & H4 & H5). auto.
  - destruct (reason (result_ (self w))); simpl in Hst; naive_solver.
Qed.

Lemma ends_prefix cv p out why : ends cfg h cv p out why -> out `prefix_of` script cv.
Proof.
  destruct why; simpl; try (by intros (-> & _); eexists; rewrite app_nil_r);
    intros (rest & _ & Hr & _); by exists rest.
Qed.

Lemma follows_prefix w cv : follows w cv -> sent (hist w) `prefix_of` script cv.
Proof.
  intros Hf. pose proof (fol_state _ _ _ _ Hf) as Hst. unfold in_state in Hst.
  destruct (state_ (self w)).
  - destruct Hst as (-> & _). done.
  - destruct Hst as (-> & _). done.
  - destruct Hst as (Hw & _). eexists. symmetry. apply Hw.
  - by eapply ends_prefix.
Qed.
End Refinement.

(** ** Properties *)

Section Properties.
Context `{K : Kernel} `{MO : MapOrder} `{FS : FileSystem}.

(** C2. Whatever the kernel answers (how the input is cut, how much of each write is taken,
    interruptions, failures, the clock), at every moment of a connection: the requests
    it took are exactly those the parser finds, in order, in the bytes received so far,
    at most [max_requests] of them; the bytes sent are a prefix of their responses in
    the same order followed by at most one error response, so that no byte is lost,
    repeated or reordered by partial writes; and the three counters are right, the byte
    counters modulo the word size. *)
Theorem responses_in_order cfg h fd w n :
  make_connection fd cfg [] = Ok w -> (max_requests (limits cfg) < 2 ^ 64)%N ->
  let w' := run h n w in
  exists cv,
    parsed (feed default_parser (received (hist w'))) (asked cv) (parser_ (self w')) /\
    sent (hist w') `prefix_of` script cfg h cv /\
    (state_ (self w') = Reading -> sent (hist w') = script cfg h cv /\ failure cv = None) /\
    requests_served (result_ (self w')) = len (asked cv) /\
    (len (asked cv) <= max_requests (limits cfg))%N /\
    bytes_read (result_ (self w')) = (len (received (hist w')) mod 2 ^ 64)%N /\
    bytes_written (result_ (self w')) = (len (sent (hist w')) mod 2 ^ 64)%N.
Proof.
  intros Hm Hmax. pose proof (make_connection_valid cfg _ _ _ Hm) as (_ & _ & _ & Hpos & _).
  destruct (run_follows cfg h Hpos Hmax n _ _ (make_connection_follows cfg h _ _ Hm)) as [cv Hf].
  exists cv. split; [apply Hf|]. split; [by eapply follows_prefix|].
  split; [|split; [apply Hf|split; [by eapply follows_limit|split; apply Hf]]].
  intros Hr. pose proof (fol_state _ _ _ _ Hf) as Hst. unfold in_state in Hst. rewrite Hr in Hst.
  naive_solver.
Qed.

Lemma serve_follows cfg h fd w fuel res w' :
  make_connection fd cfg [] = Ok w -> (max_requests (limits cfg) < 2 ^ 64)%N ->
  serve fuel h w = Some (res, w') ->
  exists cv, follows cfg h w' cv /\
    ends cfg h cv (parser_ (self w')) (sent (hist w')) (reason res) /\ res = result_ (self w').
Proof.
  intros Hm Hmax Hs. pose proof (make_connection_valid cfg _ _ _ Hm) as (_ & _ & _ & Hpos & _).
  destruct (serve_run h _ _ _ _ Hs) as (n & -> & Hc & ->).
  destruct (run_follows cfg h Hpos Hmax n _ _ (make_connection_follows cfg h _ _ Hm)) as [cv Hf].
  exists cv. split; [done|]. split; [|done].
  pose proof (fol_state _ _ _ _ Hf) as Hst. unfold in_state in Hst. by rewrite Hc in Hst.
Qed.

(** C1. A connection that ends has done what its end reason says. [PeerClosed], an idle
    timeout or a read error: every request was answered in full and none asked to
    close. [ConnectionClose]: every request was answered and the last asked to close.
    [RequestLimit]: exactly the allowed number was answered. [ParseError]: all the
    requests before the malformed one were answered, then a 400 or a 501, by the kind of
    the parser's error. [ReadTimeout]: likewise with a 408. A write failure: a proper
    prefix of the responses was sent. After a closing request, an error or the limit no
    further request is served. *)
Theorem serve_conversation cfg h fd w fuel res w' :
  make_connection fd cfg [] = Ok w -> (max_requests (limits cfg) < 2 ^ 64)%N ->
  serve fuel h w = Some (res, w') ->
  exists cv,
    parsed (feed default_parser (received (hist w'))) (asked cv) (parser_ (self w')) /\
    requests_served res = len (asked cv) /\
    ends cfg h cv (parser_ (self w')) (sent (hist w')) (reason res).
Proof.
  intros Hm Hmax Hs. destruct (serve_follows cfg h fd w fuel res w' Hm Hmax Hs) as (cv & Hf & He & ->).
  exists cv. split; [apply Hf|]. split; [apply Hf|done].
Qed.
End Properties.
