(* ===== verification/ConnectionDeadlines.v ===== *)
(** * Deadlines, termination and memory of a connection

    The deadlines are absolute, an expired one ends the phase it belongs to, and with a
    clock that advances every connection ends; the input buffer stays within a constant. *)

From Stdlib Require Import Ascii String.
From stdpp Require Import base numbers list gmap strings.
From S2P Require Import Prelude CppLib Parser ParserLemmas ParserSpec ParserFacts Response.
From S2P Require Import FileSystem StaticFileHandler Router Fd Connection ConnectionSpec.
From S2P Require Import ConnectionStep ConnectionFacts.

(** ** The transitions *)

(** The edges of the state machine. *)
Definition edge (s s' : State) : bool :=
  match s, s' with
  | Reading, (Reading | Parsing | Writing | Closed) => true
  | Parsing, (Reading | Writing) => true
  | Writing, (Writing | Parsing | Closed) => true
  | _, _ => false
  end.

Section Deadlines.
Context `{K : Kernel} `{MO : MapOrder} `{FS : FileSystem}.
Context (h : StaticFileHandler).

(** A request's deadline is fixed when it begins, and a response's when it is queued. *)
Lemma step_deadlines w w' :
  step h w w' ->
  (read_phase_ (self w) = Request -> read_phase_ (self w') = Request ->
   read_deadline_ (self w') = read_deadline_ (self w)) /\
  (state_ (self w) = Writing -> state_ (self w') = Writing ->
   write_deadline_ (self w') = write_deadline_ (self w)) /\
  config_ (self w') = config_ (self w).
Proof.
  intros Hs. assert (Hst : forall t b c, read_phase_ c = Request -> started t b c = c).
  { intros t b c Hc. unfold started. by rewrite Hc, andb_comm. }
  assert (Hcfg : forall t b c, config_ (started t b c) = config_ c) by apply started_same.
  destruct Hs; cbn [self]; (split; [intros Hp Hp'|split; [intros Hw Hw'|]]); try done; try congruence;
    try (simpl; rewrite ?Hcfg; done);
    try (rewrite (Hst _ _ c) by done; done).
  - by rewrite (Hst _ _ (set_result _ c)).
  - unfold c1. by rewrite (Hst _ _ c).
Qed.

Lemma step_edge w w' : step h w w' -> edge (state_ (self w)) (state_ (self w')) = true.
Proof. intros Hs. destruct Hs; simpl; by rewrite H. Qed.

(** Every step but parsing makes a system call. *)
Lemma step_history w w' :
  step h w w' ->
  (length (hist w) <= length (hist w'))%nat /\
  (state_ (self w) <> Parsing -> state_ (self w') <> Closed ->
   length (hist w) < length (hist w'))%nat.
Proof.
  intros Hs. destruct Hs; simpl; rewrite ?length_app; simpl; rewrite ?length_app.
  all: split; [lia|]; intros Hp Hc; try done; try lia.
  all: match goal with H : ?e <> [] |- _ => destruct e; [done|simpl; lia] end.
Qed.

Lemma serve_step_wp (Q : World -> Prop) w :
  wp (serve_step h) (fun _ w' => Q w') w -> Q (serve_step h w).2.
Proof. done. Qed.

(** After the deadline nothing is read any more. *)
Lemma read_expired w :
  state_ (self w) = Reading -> (read_deadline_ (self w) <= k_now (hist w))%Z ->
  let w' := (serve_step h w).2 in
  received (hist w') = received (hist w) /\ sent (hist w') = sent (hist w) /\
  match read_phase_ (self w) with
  | KeepAlive => state_ (self w') = Closed /\ reason (result_ (self w')) = KeepAliveTimeout
  | Request =>
      state_ (self w') = Writing /\ close_after_write_ (self w') = true /\
      close_reason_after_write_ (self w') = ReadTimeout /\ write_offset_ (self w') = 0 /\
      pending_response_ (self w') = final_reply request_timeout_response
  end.
Proof.
  destruct w as [c hs]. cbn [self hist]. intros Hs Hd.
  pattern (serve_step h {| self := c; hist := hs |}).2.
  apply serve_step_wp. unfold serve_step. do 2 wp_step.
  rewrite Hs. unfold read_from_socket. do 4 wp_step.
  - take_branch. unfold read_timed_out. do 2 wp_step.
    destruct (read_phase_ c) eqn:Ep; take_branch; wp_step; done.
  - cbn [hist] in *. lia.
  - cbn [hist] in *. lia.
Qed.

Lemma write_expired w :
  state_ (self w) = Writing -> (write_deadline_ (self w) <= k_now (hist w))%Z ->
  let w' := (serve_step h w).2 in
  sent (hist w') = sent (hist w) /\ state_ (self w') = Closed /\
  reason (result_ (self w')) = WriteTimeout.
Proof.
  destruct w as [c hs]. cbn [self hist]. intros Hs Hd.
  pattern (serve_step h {| self := c; hist := hs |}).2.
  apply serve_step_wp. unfold serve_step. do 2 wp_step.
  rewrite Hs. unfold write_to_socket. do 4 wp_step.
  - wp_step. take_branch. done.
  - cbn [hist] in *. lia.
  - cbn [hist] in *. lia.
Qed.

(** ** Termination *)

(** Time passes: however far a moment is, after enough system calls it is past. *)
Definition clock_advances : Prop :=
  forall t, exists n, forall hs : history, (n <= length hs)%nat -> (t < k_now hs)%Z.

Definition terminates (w : World) : Prop := exists fuel r, serve fuel h w = Some r.

Lemma terminates_closed w : state_ (self w) = Closed -> terminates w.
Proof. intros Hc. exists 0. simpl. rewrite Hc. eauto. Qed.

Lemma terminates_step w :
  (forall w', step h w w' -> terminates w') -> terminates w.
Proof.
  intros Hs. destruct (decide (state_ (self w) = Closed)) as [Hc|Hc]; [by apply terminates_closed|].
  destruct (Hs _ (serve_step_sound h w Hc)) as (fuel & r & Hr).
  exists (S fuel), r. simpl. by destruct (state_ (self w)).
Qed.

Context (Hclock : clock_advances).


Lemma writing_terminates w :
  state_ (self w) = Writing ->
  (close_after_write_ (self w) = false -> forall w', state_ (self w') = Parsing ->
     config_ (self w') = config_ (self w) ->
     requests_served (result_ (self w')) = requests_served (result_ (self w)) -> terminates w') ->
  terminates w.
Proof.
  destruct (Hclock (write_deadline_ (self w))) as [n Hn].
  remember (n - length (hist w)) as k eqn:Hk. revert w Hn Hk.
  induction k as [k IH] using lt_wf_ind; intros w Hn -> Hs Hnext.
  assert (Hagain : forall w', (k_now (hist w) < write_deadline_ (self w))%Z ->
    (length (hist w) < length (hist w'))%nat -> state_ (self w') = Writing ->
    write_deadline_ (self w') = write_deadline_ (self w) ->
    config_ (self w') = config_ (self w) ->
    requests_served (result_ (self w')) = requests_served (result_ (self w)) ->
    close_after_write_ (self w') = close_after_write_ (self w) -> terminates w').
  { intros w' Ht Hl Hs' Hd Hc Hr Hca.
    assert (length (hist w) < n)%nat by (destruct (decide (n <= length (hist w))%nat) as [Hle|]; [|lia];
      apply Hn in Hle; lia).
    eapply (IH (n - length (hist w'))); [lia|by rewrite Hd|done|done|].
    rewrite Hca, Hc, Hr. done. }
  apply terminates_step. intros w' Hst. pose proof (step_history _ _ Hst) as [_ Hlen].
  destruct Hst; cbn [self hist] in *; try congruence; try (by apply terminates_closed);
    try (apply Hagain; try done; apply Hlen; simpl; congruence).
  by apply Hnext.
Qed.

(** Every response that may be queued next is written. *)
Definition writes_end (c : Connection) : Prop :=
  forall w', state_ (self w') = Writing -> config_ (self w') = config_ c ->
  (close_after_write_ (self w') = true \/
   (requests_served (result_ (self w')) = sz_add (requests_served (result_ c)) 1 /\
    (requests_served (result_ (self w')) < max_requests (limits (config_ c)))%N)) ->
  terminates w'.

Lemma parsing_terminates w :
  state_ (self w) = Parsing -> writes_end (self w) ->
  (forall w', state_ (self w') = Reading -> config_ (self w') = config_ (self w) ->
     result_ (self w') = result_ (self w) -> (length (hist w) <= length (hist w'))%nat ->
     (read_phase_ (self w) = Request -> read_phase_ (self w') = Request /\
        read_deadline_ (self w') = read_deadline_ (self w)) -> terminates w') ->
  terminates w.
Proof.
  intros Hs Hw Hr. apply terminates_step. intros w' Hst.
  pose proof (step_history _ _ Hst) as [Hlen _].
  assert (Hstart : forall t b c, read_phase_ c = Request -> started t b c = c).
  { intros t b c Hc. unfold started. by rewrite Hc, andb_comm. }
  destruct Hst; cbn [self hist] in *; try congruence.
  - destruct (started_same t (0 <? buffered_bytes (parser_ c))%N c) as (C1 & C2 & _).
    apply Hr; [done|done|done|done|]. intros Hp. cbn [read_phase_ read_deadline_ set_state self].
    by rewrite Hstart.
  - destruct (started_same t (0 <? buffered_bytes (parser_ c))%N c) as (C1 & C2 & _).
    apply Hw; [done|done|by left].
  - destruct (started_same t (0 <? buffered_bytes (parser_ c))%N c) as (C1 & C2 & _).
    apply Hw; [done|done|]. cbn [self]. destruct (should_keep_alive r), limit eqn:El; simpl; auto.
    right. split; [done|]. unfold limit in El. apply N.leb_gt in El. done.
Qed.

(** Waiting for a request ends, in both phases. *)
Lemma request_terminates w :
  state_ (self w) = Reading -> read_phase_ (self w) = Request -> writes_end (self w) -> terminates w.
Proof.
  destruct (Hclock (read_deadline_ (self w))) as [n Hn].
  remember (n - length (hist w)) as k eqn:Hk. revert w Hn Hk.
  induction k as [k IH] using lt_wf_ind; intros w Hn -> Hs Hp Hw.
  assert (Hagain : forall w', (k_now (hist w) < read_deadline_ (self w))%Z ->
    (length (hist w) < length (hist w'))%nat -> state_ (self w') = Reading ->
    read_phase_ (self w') = Request -> read_deadline_ (self w') = read_deadline_ (self w) ->
    writes_end (self w') -> terminates w').
  { intros w' Ht Hl Hs' Hp' Hd Hw'.
    assert (length (hist w) < n)%nat by (destruct (decide (n <= length (hist w))%nat) as [Hle|]; [|lia];
      apply Hn in Hle; lia).
    eapply (IH (n - length (hist w'))); [lia|by rewrite Hd|done..]. }
  apply terminates_step. intros w' Hst. pose proof (step_history _ _ Hst) as [_ Hlen].
  destruct Hst; cbn [self hist] in *; try congruence; try (by apply terminates_closed).
  - assert (Hst : started t true (set_result (count_read (len data) (result_ c)) c)
                  = set_result (count_read (len data) (result_ c)) c)
      by (unfold started; simpl; by rewrite Hp).
    rewrite Hst in *. apply parsing_terminates; [done|done|]. cbn [self hist] in *.
    intros w' Hs' Hc' Hr' Hl' Hph. destruct (Hph Hp) as [Hp' Hd'].
    assert (Hlen' := Hlen ltac:(congruence) ltac:(done)).
    apply Hagain; [done|lia|done|done|done|].
    intros w2 Hs2 Hc2; rewrite Hc', Hr'; intros Hor; apply Hw; [done|by rewrite Hc2|done].
  - apply Hagain; try done. apply Hlen; congruence.
  - apply Hw; [done|done|by left].
Qed.

Lemma idle_terminates w :
  state_ (self w) = Reading -> read_phase_ (self w) = KeepAlive -> writes_end (self w) -> terminates w.
Proof.
  destruct (Hclock (read_deadline_ (self w))) as [n Hn].
  remember (n - length (hist w)) as k eqn:Hk. revert w Hn Hk.
  induction k as [k IH] using lt_wf_ind; intros w Hn -> Hs Hp Hw.
  apply terminates_step. intros w' Hst. pose proof (step_history _ _ Hst) as [_ Hlen].
  destruct Hst; cbn [self hist] in *; try congruence; try (by apply terminates_closed).
  - assert (Hst : started t true (set_result (count_read (len data) (result_ c)) c)
                  = set_read_deadline Request (t + read_timeout (timeouts (config_ c)))%Z
                      (set_result (count_read (len data) (result_ c)) c))
      by (unfold started; simpl; by rewrite Hp).
    rewrite Hst in *. apply parsing_terminates; [done|done|]. cbn [self hist] in *.
    intros w' Hs' Hc' Hr' Hl' Hph. destruct (Hph eq_refl) as [Hp' Hd'].
    apply request_terminates; [done|done|].
    intros w2 Hs2 Hc2; rewrite Hc', Hr'; intros Hor; apply Hw; [done|by rewrite Hc2|done].
  - assert (length hs < n)%nat by (destruct (decide (n <= length hs)%nat) as [Hle|]; [|lia];
      apply Hn in Hle; lia).
    eapply (IH (n - length (es ++ hs))); [|done|done|done|done|done].
    assert (length hs < length (es ++ hs))%nat by (apply Hlen; congruence). lia.
Qed.

Lemma open_terminates cfg b w :
  (N.to_nat (max_requests (limits cfg) - requests_served (result_ (self w))) <= b)%nat ->
  config_ (self w) = cfg -> (max_requests (limits cfg) < 2 ^ 64)%N ->
  (requests_served (result_ (self w)) < 2 ^ 64 - 1)%N ->
  state_ (self w) = Reading \/ state_ (self w) = Parsing -> terminates w.
Proof.
  revert w; induction b as [b IH] using lt_wf_ind; intros w Hb Hcfg Hmax Hserved Hs.
  assert (Hw : writes_end (self w)).
  { intros w' Hs' Hc' Hor. apply writing_terminates; [done|]. intros Hca w2 Hs2 Hc2 Hr2.
    destruct Hor as [?|[Hr' Hlt]]; [congruence|].
    assert (Hexact : sz_add (requests_served (result_ (self w))) 1
                     = (requests_served (result_ (self w)) + 1)%N) by (apply N.mod_small; lia).
    rewrite Hexact, <- Hr2 in *. rewrite Hcfg in *.
    eapply (IH (N.to_nat (max_requests (limits cfg) - requests_served (result_ (self w2)))));
      [lia|done|congruence|done|lia|by right]. }
  assert (Hread : forall w', state_ (self w') = Reading -> writes_end (self w') -> terminates w').
  { intros w' Hs' Hw'. destruct (read_phase_ (self w')) eqn:Ep;
      [by apply request_terminates|by apply idle_terminates]. }
  destruct Hs as [Hs|Hs]; [by auto|]. apply parsing_terminates; [done|done|].
  intros w' Hs' Hc' Hr' _ _. apply Hread; [done|].
  intros w2 Hs2 Hc2; rewrite Hc', Hr'; intros Hor; apply Hw; [done|by rewrite Hc2|done].
Qed.

End Deadlines.

(** ** Memory *)

Definition HEADER_LIMIT : N := 16 * 1024.
Definition BODY_LIMIT : N := 1024 * 1024.

(** The parser's limits, and the bytes it may hold: after a request for more data, and at
    any time. *)
Record bounded_buffer (c : Connection) : Prop := {
  bb_header : max_header_bytes_ (parser_ c) = HEADER_LIMIT;
  bb_body : max_body_bytes_ (parser_ c) = BODY_LIMIT;
  bb_reading : state_ c = Reading ->
    (buffered_bytes (parser_ c) <= HEADER_LIMIT + 3 + BODY_LIMIT)%N;
  bb_any : (buffered_bytes (parser_ c) <= HEADER_LIMIT + 3 + BODY_LIMIT + 4096)%N
}.

(** A state change that leaves the parser alone and does not start to read. *)
Lemma bounded_same c c' :
  parser_ c' = parser_ c -> (state_ c' = Reading -> state_ c = Reading) ->
  bounded_buffer c -> bounded_buffer c'.
Proof. intros Hp Hs [B1 B2 B3 B4]. split; rewrite ?Hp; auto. Qed.

Lemma bounded_next c c' r :
  bounded_buffer c -> next (parser_ c) = (request_ready r, parser_ c') -> state_ c' <> Reading ->
  bounded_buffer c'.
Proof.
  intros [B1 B2 B3 B4] Hn Hs. destruct (next_limits _ _ _ Hn) as [L1 L2].
  pose proof (next_ready_shorter _ _ _ _ Hn eq_refl) as Hl.
  split; [congruence|congruence|congruence|]. unfold buffered_bytes, len in *. lia.
Qed.

Lemma bounded_step `{K : Kernel} `{MO : MapOrder} `{FS : FileSystem} h w w' :
  step h w w' -> bounded_buffer (self w) -> bounded_buffer (self w').
Proof.
  intros Hst Hb.
  assert (Hst' : forall t b c, parser_ (started t b c) = parser_ c) by apply started_same.
  destruct Hst; cbn [self] in *; try done;
    try (by apply (bounded_same c); [simpl; rewrite ?Hst'|..]).
  - destruct Hb as [B1 B2 B3 B4]. specialize (B3 H).
    split; simpl; [done|done|done|]. unfold buffered_bytes, len, feed in *. simpl.
    rewrite length_app. replace READ_SIZE with (N.to_nat 4096) in H2 by done. lia.
  - destruct Hb as [B1 B2 B3 B4]. destruct (need_more_limit _ _ H0) as [_ Hl].
    rewrite B1, B2 in Hl. split; simpl; rewrite Hst'; done.
  - by apply (bounded_next c _ r).
Qed.

(** ** Properties *)

Section Properties.
Context `{K : Kernel} `{MO : MapOrder} `{FS : FileSystem}.

Lemma connection_ends cfg h fd hs w :
  make_connection fd cfg hs = Ok w -> (max_requests (limits cfg) < 2 ^ 64)%N -> clock_advances ->
  exists fuel res w', serve fuel h w = Some (res, w').
Proof.
  intros Hm Hmax Hclock.
  destruct (make_connection_valid cfg _ _ _ Hm) as (_ & _ & _ & _ & Hr & _ & Hc & Hs).
  assert (Ht : terminates h w).
  { destruct Hs as [Hs|Hs]; [|by apply terminates_closed].
    eapply (open_terminates h Hclock cfg); [done|done|done| |by left]. rewrite Hr. lia. }
  destruct Ht as (fuel & [res w'] & Ht). eauto.
Qed.

(** C3. Every connection ends. If the clock advances with the system calls, [serve] returns,
    whatever the peer sends or withholds, however often a call is interrupted and
    however few bytes each write takes: the deadlines bound every phase, and the request
    limit the number of phases. *)
Theorem serve_terminates cfg h fd hs w :
  make_connection fd cfg hs = Ok w -> (max_requests (limits cfg) < 2 ^ 64)%N -> clock_advances ->
  exists fuel res w', serve fuel h w = Some (res, w').
Proof. apply connection_ends. Qed.

(** C18. The deadlines are absolute. An iteration never moves the deadline of the request
    being received, whatever arrives, nor the deadline of the response being written,
    however much of it is taken; once the request deadline is past nothing more is read
    and the answer is a 408 after which the connection closes; once the idle or the write
    deadline is past the connection closes at once, with nothing more sent. *)
Theorem deadlines_absolute h w :
  let w' := (serve_step h w).2 in
  (read_phase_ (self w) = Request -> read_phase_ (self w') = Request ->
   read_deadline_ (self w') = read_deadline_ (self w)) /\
  (state_ (self w) = Writing -> state_ (self w') = Writing ->
   write_deadline_ (self w') = write_deadline_ (self w)) /\
  (state_ (self w) = Reading -> (read_deadline_ (self w) <= k_now (hist w))%Z ->
   received (hist w') = received (hist w) /\ sent (hist w') = sent (hist w) /\
   match read_phase_ (self w) with
   | KeepAlive => state_ (self w') = Closed /\ reason (result_ (self w')) = KeepAliveTimeout
   | Request =>
       state_ (self w') = Writing /\ close_after_write_ (self w') = true /\
       close_reason_after_write_ (self w') = ReadTimeout /\ write_offset_ (self w') = 0 /\
       pending_response_ (self w') = final_reply request_timeout_response
   end) /\
  (state_ (self w) = Writing -> (write_deadline_ (self w) <= k_now (hist w))%Z ->
   sent (hist w') = sent (hist w) /\ state_ (self w') = Closed /\
   reason (result_ (self w')) = WriteTimeout).
Proof.
  intros w'. split; [|split; [|split; [apply read_expired|apply write_expired]]].
  all: destruct (decide (state_ (self w) = Closed)) as [Hc|Hc];
    [unfold w'; by rewrite serve_step_closed|].
  all: by apply step_deadlines with (h := h), serve_step_sound.
Qed.

(** C23. The memory a client can make a connection hold: at any moment at most the parser's
    limits, the three bytes of a partial empty line and one read are buffered. *)
Theorem input_buffer_bounded cfg h fd hs w n :
  make_connection fd cfg hs = Ok w ->
  (buffered_bytes (parser_ (self (run h n w))) <= 16 * 1024 + 3 + 1024 * 1024 + 4096)%N.
Proof.
  intros Hm. assert (Hb : bounded_buffer (self (run h n w))); [|apply Hb].
  destruct (make_connection_valid cfg _ _ _ Hm) as (_ & _ & _ & _ & _ & Hp & _ & _).
  induction n as [|n IH].
  - simpl. split; rewrite Hp; done.
  - simpl. fold (run h n w) in *.
    destruct (decide (state_ (self (run h n w)) = Closed)) as [Hc|Hc].
    + by rewrite serve_step_closed.
    + by eapply bounded_step; [apply serve_step_sound|].
Qed.

(** The transitions of the state machine: bytes lead from [Reading] to [Parsing], an
    expired request from [Reading] to [Writing]; [Parsing] never closes without an
    answer; [Writing] goes back to [Parsing], so that buffered requests are looked at
    before the socket is; nothing leaves [Closed]. *)
Theorem state_edges h w :
  let s := state_ (self w) in
  let s' := state_ (self (serve_step h w).2) in
  (s = Closed -> s' = Closed) /\ (s <> Closed -> edge s s' = true).
Proof.
  split; [intros Hc; by rewrite serve_step_closed|].
  intros Hc. by apply (step_edge h), serve_step_sound.
Qed.
End Properties.

(** The timeout given to the kernel is valid and never zero, which would mean to wait
    without limit; it never exceeds the time left by more than the one microsecond that
    the shortest timeout is. *)
Theorem timeval_valid remaining :
  (0 < remaining)%Z ->
  let v := timeval_of remaining in
  (0 <= tv_sec v /\ 0 <= tv_usec v < 1000000 /\ 0 < tv_sec v * 1000000 + tv_usec v /\
   1000 * (tv_sec v * 1000000 + tv_usec v) <= Z.max remaining 1000)%Z.
Proof.
  intros Hr. unfold timeval_of. simpl.
  rewrite (Z.quot_div_nonneg remaining) by lia.
  set (q := (remaining / 1000)%Z).
  assert (Hq : (1000 * q <= remaining < 1000 * q + 1000)%Z)
    by (unfold q; pose proof (Z.div_mod remaining 1000); pose proof (Z.mod_pos_bound remaining 1000); lia).
  destruct (Z.leb_spec q 0).
  - vm_compute (1 ÷ 1000000)%Z. vm_compute (Z.rem 1 1000000). lia.
  - pose proof (Z.quot_rem' q 1000000). pose proof (Z.rem_bound_pos q 1000000).
    pose proof (Z.quot_pos q 1000000). lia.
Qed.
