(* ===== verification/ConnectionExample.v ===== *)
(** * A kernel for examples

    An instance of [Kernel] that delivers given chunks of input, takes at most a given
    number of bytes per write, and whose clock advances with every system call. The
    witnesses of the connection's properties run the state machine on it. *)

From Stdlib Require Import Ascii String.
From stdpp Require Import base numbers list gmap strings.
From S2P Require Import Prelude CppLib Parser ParserLemmas ParserSpec ParserFacts Response.
From S2P Require Import FileSystem StaticFileHandler Router FsTree Fd Connection ConnectionSpec.
From S2P Require Import ConnectionStep ConnectionFacts ConnectionDeadlines.

(** One millisecond per system call. *)
Definition ticks (hs : history) : Z := (Z.of_nat (length hs) * 1000000)%Z.

Definition is_read (e : event) : bool := match e with EvRead _ _ => true | _ => false end.

(** The answer to the next [read]: the chunks in order, then the end of the stream; an
    empty chunk is an interruption. *)
Definition chunk_read (chunks : list bytes) (hs : history) (size : nat) :
    result Connection.errno bytes :=
  match chunks !! length (filter (fun e => is_read e = true) hs) with
  | None => Ok []
  | Some [] => Err EINTR
  | Some data => Ok (take size data)
  end.

#[refine] Definition scripted (chunks : list bytes) (most : nat) : Kernel :=
  {| k_now := ticks;
     k_setsockopt _ _ _ := Ok tt;
     k_read := chunk_read chunks;
     k_send _ data := Ok (length data `min` S most) |}.
Proof.
  - intros hs size data. unfold chunk_read. destruct (chunks !! _) as [[|x l]|]; [done| |intros; simplify_eq/=; lia].
    intros Hd. injection Hd as <-.
    change (length (take size (x :: l)) <= size)%nat. rewrite length_take. lia.
  - intros hs data n Hn. injection Hn as <-. lia.
Defined.

(** ** A session *)

(** Two pipelined requests on the example site, cut inside the second, with an
    interruption; the second asks to close. *)
Definition session_chunks : list bytes :=
  [lit "GET / HTTP/1.1" ++ CRLF ++ lit "Host: a" ++ CRLF2 ++ lit "HEAD /no";
   [];
   lit "pe HTTP/1.1" ++ CRLF ++ lit "Host: a" ++ CRLF ++ lit "Connection: close" ++ CRLF2 ++
   lit "GET /ignored"].

Definition session_kernel : Kernel := scripted session_chunks 30.
#[local] Existing Instance session_kernel.
#[local] Existing Instance map_to_list_order.
#[local] Instance session_fs : FileSystem := tree_fs site.

Definition session : result unit World := make_connection 4 default_config [].

Definition world_of (r : result unit World) : World :=
  match r with
  | Ok w => w
  | Err _ => {| self := {| fd_ := -1; parser_ := default_parser; state_ := Closed;
      pending_response_ := []; write_offset_ := 0; close_after_write_ := true;
      close_reason_after_write_ := ReadError; config_ := default_config; read_phase_ := Request;
      read_deadline_ := 0; write_deadline_ := 0; result_ := default_result |}; hist := [] |}
  end.

Definition session_end : option (ConnectionResult * World) :=
  serve 40 site_handler (world_of session).

Lemma session_ok : session = Ok (world_of session).
Proof. vm_compute. reflexivity. Qed.

Definition session_result : ConnectionResult :=
  {| reason := ConnectionClose; requests_served := 2; bytes_read := 90; bytes_written := 183 |}.

(** The result of the session: both requests are answered, the second as a 404 without a
    body, and the bytes after it are left alone. *)
Lemma session_serves :
  exists w', serve 40 site_handler (world_of session) = Some (session_result, w').
Proof.
  exists (match session_end with Some p => p.2 | None => world_of session end).
  vm_compute. reflexivity.
Qed.

Lemma responses_in_order_witness :
  exists cv, sent (hist (run site_handler 8 (world_of session)))
             `prefix_of` script default_config site_handler cv /\ len (asked cv) = 1%N.
Proof.
  destruct (responses_in_order default_config site_handler 4 (world_of session) 8 session_ok)
    as (cv & _ & Hp & _ & Hn & _); [vm_compute; reflexivity|].
  exists cv. split; [exact Hp|]. rewrite <- Hn. vm_compute. reflexivity.
Defined.

Lemma serve_conversation_witness :
  exists cv w',
    ends default_config site_handler cv (parser_ (self w')) (sent (hist w')) ConnectionClose /\
    len (asked cv) = 2%N.
Proof.
  destruct session_serves as [w' E].
  destruct (serve_conversation default_config site_handler 4 (world_of session) 40 session_result w'
    session_ok ltac:(vm_compute; reflexivity) E) as (cv & _ & Hn & He).
  exists cv, w'. split; [exact He|]. exact (eq_sym Hn).
Defined.

Lemma ticks_advance : clock_advances (K := session_kernel).
Proof.
  intros t. exists (S (Z.to_nat t)). intros hs Hl. simpl. unfold ticks. lia.
Qed.

Lemma serve_terminates_witness :
  exists fuel res w', serve fuel site_handler (world_of session) = Some (res, w').
Proof.
  apply (serve_terminates default_config site_handler 4 [] (world_of session));
    [exact session_ok|vm_compute; reflexivity|exact ticks_advance].
Defined.

Lemma input_buffer_bounded_witness :
  (buffered_bytes (parser_ (self (run site_handler 3 (world_of session))))
   <= 16 * 1024 + 3 + 1024 * 1024 + 4096)%N.
Proof. exact (input_buffer_bounded default_config site_handler 4 [] (world_of session) 3 session_ok). Defined.

Lemma timeval_valid_witness : (0 < tv_sec (timeval_of 500) * 1000000 + tv_usec (timeval_of 500))%Z.
Proof. exact (proj1 (proj2 (proj2 (timeval_valid 500 ltac:(lia))))). Defined.
