(* ===== verification/ReplyFacts.v ===== *)
(** * The responses of a connection as a client reads them

    While a connection writes, what it writes is one message whose [Connection] field tells
    the client what the connection does when the message is sent. *)

From Stdlib Require Import Ascii String.
From stdpp Require Import base numbers list gmap strings.
From S2P Require Import Prelude CppLib Parser ParserLemmas ParserSpec ParserFacts Response.
From S2P Require Import FileSystem StaticFileHandler StaticFacts FsTree Router Fd Connection.
From S2P Require Import ConnectionSpec ConnectionStep ConnectionFacts ConnectionExample.

(** No field of the table is already a [Connection] field, in any letter case. *)
Definition no_connection (m : gmap bytes bytes) : Prop :=
  map_Forall (fun n _ => to_lower_ascii n <> lit "connection") m.

(** The message [s] is one response with the body, the length and the connection option
    of [r]. *)
Definition message (r : HttpResponse) (option : bytes) (s : bytes) : Prop :=
  exists head lines,
    s = head ++ CRLF2 ++ payload r /\
    search CRLF2 s = Some (length head) /\
    header_lines head = status_line r :: lines /\
    field_values (lit "content-length") lines = [print_N (declared r)] /\
    field_values (lit "connection") lines = [option].

Section Reply.
Context `{MO : MapOrder}.

Lemma field_values_perm n ls ls' : ls ≡ₚ ls' -> field_values n ls ≡ₚ field_values n ls'.
Proof. intros Hp. unfold field_values. by rewrite Hp. Qed.

Lemma field_values_other n (l : list (bytes * bytes)) :
  Forall (fun nv => is_token nv.1 = true /\ to_lower_ascii nv.1 <> n) l ->
  field_values n (header_line <$> l) = [].
Proof.
  induction 1 as [|nv l [Ht Hn] _ IH]; [done|]. unfold field_values in *.
  rewrite fmap_cons. cbn [omap list_omap]. rewrite header_line_parse by done.
  by rewrite bool_decide_eq_false_2.
Qed.

(** The [Connection] field of a response whose table got one. *)
Lemma connection_field r v :
  safe_response (set_header (lit "Connection") v r) -> no_connection (resp_headers r) ->
  trim_ows v = v ->
  field_values (lit "connection")
    ((header_line <$> shown (set_header (lit "Connection") v r))
     ++ [length_line (set_header (lit "Connection") v r)]) = [v].
Proof.
  intros (_ & _ & Hs) Hn Hv. simpl in Hs. set (m := delete (lit "Connection") (resp_headers r)).
  assert (Hm : <[lit "Connection" := v]> (resp_headers r) = <[lit "Connection" := v]> m)
    by (unfold m; by rewrite insert_delete_eq).
  assert (Hnm : m !! lit "Connection" = None) by (unfold m; by rewrite lookup_delete_eq).
  assert (Hsh : shown (set_header (lit "Connection") v r) ≡ₚ
    (lit "Connection", v) :: filter (fun nv => is_content_length nv.1 = false) (map_to_list m)).
  { unfold shown. simpl. rewrite (map_order_perm _), Hm, (map_to_list_insert m) by done.
    by rewrite filter_cons_True. }
  rewrite field_values_app. replace (field_values _ [length_line _]) with (@nil bytes).
  2: { symmetry. apply (field_values_other _ [(lit "Content-Length", print_N (declared r))]).
       apply Forall_singleton. split; [done|by vm_compute]. }
  rewrite app_nil_r. apply Permutation_singleton_r.
  rewrite (field_values_perm _ _ _ (fmap_Permutation header_line _ _ Hsh)).
  rewrite fmap_cons. change (?a :: ?b) with ([a] ++ b). rewrite field_values_app.
  rewrite field_values_line by done. rewrite field_values_other; [simpl; by rewrite Hv|].
  apply Forall_forall. intros [n w] [_ Hin]%list_elem_of_filter. simpl.
  apply elem_of_map_to_list in Hin. split.
  - refine (proj1 (Hs n w _)). rewrite Hm, lookup_insert_ne; [done|]. intros <-. congruence.
  - unfold m in Hin. apply lookup_delete_Some in Hin as [_ Hin]. by apply (Hn _ _ Hin).
Qed.

Lemma safe_set_header n v r :
  safe_response r -> is_token n = true -> search CRLF v = None -> safe_response (set_header n v r).
Proof. intros (H1 & H2 & H3) Hn Hv. split; [done|]. split; [done|]. by apply map_Forall_insert_2. Qed.

Lemma serialize_message r keep :
  safe_response r -> no_connection (resp_headers r) ->
  message (advertise keep r) (if keep then lit "keep-alive" else lit "close")
    (serialize_response (advertise keep r)).
Proof.
  intros Hr Hn. set (r' := advertise keep r).
  assert (Hs : safe_response r') by (apply safe_set_header; [done|done|by destruct keep]).
  pose proof (lines_plain r' Hs) as Hp. pose proof (status_line_plain r' Hs) as Hl.
  exists (join_lines (status_line r') ((header_line <$> shown r') ++ [length_line r'])),
         ((header_line <$> shown r') ++ [length_line r']).
  rewrite serialize_lines. split; [done|]. split; [by apply search_crlf2_block|].
  split; [apply header_lines_join; [done|unfold status_line; by destruct (resp_version r')|done]|].
  split.
  - rewrite field_values_app, shown_no_length by done.
    change (length_line r') with (header_line (lit "Content-Length", print_N (declared r'))).
    rewrite field_values_line by done. simpl. by rewrite trim_print.
  - apply connection_field; [done|done|by destruct keep].
Qed.
End Reply.

Lemma route_no_connection `{FileSystem} request h : no_connection (resp_headers (route_request request h)).
Proof.
  unfold no_connection, route_request.
  destruct (handle_headers h request) as (v & Hv & _).
  destruct (_ || _); [destruct (bool_decide _); simpl; rewrite Hv|].
  all: repeat (apply map_Forall_insert_2; [by vm_compute|]); apply map_Forall_empty.
Qed.

(** ** The pending response *)

Definition error_responses : list HttpResponse :=
  [bad_request_response; not_implemented_response; request_timeout_response].

Lemma error_safe e : e ∈ error_responses -> safe_response e /\ no_connection (resp_headers e).
Proof.
  intros He%list_elem_of_In. repeat (destruct He as [<-|He]; [|]); try done.
  all: split; [split; [done|split; [done|apply map_Forall_insert_2; [done|apply map_Forall_empty]]]|].
  all: apply map_Forall_insert_2; [by vm_compute|apply map_Forall_empty].
Qed.

Lemma error_response_elem kind : error_response kind ∈ error_responses.
Proof. destruct kind; [left|right; left]. Qed.

(** The request [next] delivers has one of the two versions, so the answer to it has a plain
    status line. *)
Lemma routed_safe `{FileSystem} h p q p' :
  next p = (request_ready q, p') -> safe_response (set_version (req_version q) (route_request q h)).
Proof.
  intros Hn. destruct (next_ready_inv _ _ _ q Hn eq_refl) as (_ & head & r0 & m & rest & _ & _ & Hh & _ & _ & Hw & _).
  apply parse_head_sound in Hh as ((_ & _ & _ & _ & Hv & _) & _).
  destruct (route_safe q h) as (_ & H2 & H3). split; [|done]. rewrite Hw. simpl. by destruct Hv as [-> | ->].
Qed.

Section Pending.
Context `{K : Kernel} `{MO : MapOrder} `{FS : FileSystem}.
Context (cfg : ConnectionConfig) (h : StaticFileHandler).

(** What the response [r] that a connection is writing answers, and whether the connection is
    to be closed after it: the last of the requests taken from the received bytes, in the
    version of that request and closing unless the request lets the connection live and is not
    the last the limit allows; or an error, always closing. *)
Inductive answers (w : World) : HttpResponse -> Prop :=
| answers_request rs q :
    parsed (feed default_parser (received (hist w))) (rs ++ [q]) (parser_ (self w)) ->
    close_after_write_ (self w)
      = negb (should_keep_alive q && (len (rs ++ [q]) <? max_requests (limits cfg))%N) ->
    answers w (set_version (req_version q) (route_request q h))
| answers_error e :
    e ∈ error_responses -> close_after_write_ (self w) = true -> answers w e.

Definition connection_option (c : Connection) : bytes :=
  if close_after_write_ c then lit "close" else lit "keep-alive".

(** The effect of one iteration on a connection that writes: the response stays pending, or
    the write fails, or the rest of the response is sent and the connection does what
    [close_after_write_] says. *)
Definition writes (w w' : World) : Prop :=
  let c := self w in let c' := self w' in
  (state_ c' = Writing /\ pending_response_ c' = pending_response_ c /\
   close_after_write_ c' = close_after_write_ c) \/
  (state_ c' = Closed /\ (reason (result_ c') = WriteTimeout \/ reason (result_ c') = WriteError)) \/
  (state_ c' = (if close_after_write_ c then Closed else Parsing) /\
   sent (hist w') = sent (hist w) ++ drop (write_offset_ c) (pending_response_ c)).

Definition offers (w : World) : Prop :=
  state_ (self w) = Writing ->
  exists r, message r (connection_option (self w)) (pending_response_ (self w)) /\ answers w r.

Lemma queued_message r keep why t c :
  safe_response r -> no_connection (resp_headers r) ->
  message r (connection_option (queued r keep why t c)) (pending_response_ (queued r keep why t c)).
Proof.
  intros Hs Hn. pose proof (serialize_message r keep Hs Hn) as Hm.
  unfold connection_option. simpl. by destruct keep.
Qed.

Lemma writes_step w w' : step h w w' -> state_ (self w) = Writing -> writes w w'.
Proof.
  intros Hs Hw. destruct Hs; cbn [self] in Hw; try congruence; unfold writes; cbn [self hist].
  - right; left. split; [done|]. by destruct H1 as [-> | ->]; [left|right].
  - by left.
  - by left.
  - right; right. rewrite H5. split; [done|]. simpl. rewrite sent_quiet, H1 by done. f_equal.
    apply take_ge. rewrite length_drop. subst data. rewrite length_drop in H2. lia.
  - right; right. rewrite H5. split; [done|]. simpl. rewrite sent_quiet, H1 by done. f_equal.
    apply take_ge. rewrite length_drop. subst data. rewrite length_drop in H2. lia.
Qed.

(** The bytes sent do not matter to [offers]. *)
Lemma offers_frame c c' hs hs' :
  offers {| self := c; hist := hs |} -> state_ c = Writing ->
  pending_response_ c' = pending_response_ c -> close_after_write_ c' = close_after_write_ c ->
  parser_ c' = parser_ c -> received hs' = received hs -> offers {| self := c'; hist := hs' |}.
Proof.
  intros Ho Hw E1 E2 E3 E4 _. destruct (Ho Hw) as (r & Hm & Ha). exists r. cbn [self hist] in *.
  split; [unfold connection_option; by rewrite E1, E2|].
  destruct Ha as [rs q Hp Hc|e He Hc]; cbn [self hist] in *.
  - apply (answers_request _ rs); simpl; [by rewrite E3, E4|congruence].
  - apply answers_error; simpl; [done|congruence].
Qed.

Lemma offers_error e why t c hs :
  e ∈ error_responses -> offers {| self := queued e false why t c; hist := hs |}.
Proof.
  intros He _. destruct (error_safe e He) as [Hs Hn]. exists e.
  split; [by apply (queued_message e false)|by apply answers_error].
Qed.

Lemma offers_step w w' cv :
  (0 < max_requests (limits cfg) < 2 ^ 64)%N ->
  step h w w' -> follows cfg h w cv -> offers w -> offers w'.
Proof.
  intros Hmax Hs Hf Ho. destruct Hs; try (by intros Hw; discriminate Hw).
  - by intros Hw; cbn [self] in Hw; congruence.
  - apply offers_error. do 2 right. left.
  - apply offers_error, error_response_elem.
  - intros _. eexists. split; [apply queued_message; [by eapply routed_safe|apply route_no_connection]|].
    pose proof (fol_parsed _ _ _ _ Hf) as Hp. pose proof (fol_served _ _ _ _ Hf) as Hn.
    pose proof (fol_config _ _ _ _ Hf) as Hc. pose proof (fol_state _ _ _ _ Hf) as Hst. cbn [self hist] in *.
    apply in_state_open in Hst as (_ & _ & Hk); [|by right].
    pose proof (all_keep_limit cfg (proj1 Hmax) (proj2 Hmax) (asked cv) Hk) as Hl.
    apply (answers_request _ (asked cv)); cbn [self hist]; [|simpl].
    + rewrite received_quiet by done. by apply parsed_snoc with (q := parser_ c).
    + unfold limit, c1. simpl. rewrite Hc, Hn, <- N.ltb_antisym, sz_add_exact, len_app by (unfold len in *; simpl; lia). done.
  - apply (offers_frame _ _ _ _ Ho); try done. by apply received_quiet.
  - apply (offers_frame _ _ _ _ Ho); try done. simpl. by apply received_quiet.
Qed.

Lemma run_offers fd w n :
  make_connection fd cfg [] = Ok w -> (max_requests (limits cfg) < 2 ^ 64)%N -> offers (run h n w).
Proof.
  intros Hm Hmax. destruct (make_connection_valid cfg _ _ _ Hm) as (_ & _ & _ & Hpos & _ & _ & _ & Hst).
  induction n as [|n IH]; [by intros Hw; simpl in Hw; rewrite Hw in Hst; destruct Hst|].
  change (run h (S n) w) with (serve_step h (run h n w)).2.
  destruct (decide (state_ (self (run h n w)) = Closed)) as [Hc|Hc]; [by rewrite serve_step_closed|].
  destruct (run_follows cfg h Hpos Hmax n w _ (make_connection_follows cfg h fd w Hm)) as [cv Hf].
  eapply offers_step; [by split|by apply serve_step_sound|exact Hf|exact IH].
Qed.

(** ** Property *)

(** C19. While a connection writes, what it writes is one message: its first empty line ends
    the head, it has one Content-Length, which gives the length of the representation, and one
    [Connection] field. The message answers an error, or the last request taken from the
    received bytes, in the version of that request. The field says [keep-alive] exactly when
    the connection is not to be closed after the message, which is so only for a request that
    lets the connection live and is not the last the limit allows; and so it happens: the
    iteration that sends the rest of the message leaves the connection open for the next
    request if the field says [keep-alive], and closed if it says [close]. *)
Theorem replies_advertise fd w n :
  make_connection fd cfg [] = Ok w -> (max_requests (limits cfg) < 2 ^ 64)%N ->
  state_ (self (run h n w)) = Writing ->
  (exists r,
     message r (if close_after_write_ (self (run h n w)) then lit "close" else lit "keep-alive")
       (pending_response_ (self (run h n w))) /\
     answers (run h n w) r) /\
  writes (run h n w) (run h (S n) w).
Proof.
  intros Hm Hmax Hw. split; [by apply (run_offers fd)|].
  apply writes_step; [|done]. change (run h (S n) w) with (serve_step h (run h n w)).2.
  apply serve_step_sound. by rewrite Hw.
Qed.
End Pending.

#[local] Existing Instance session_kernel.
#[local] Existing Instance map_to_list_order.
#[local] Existing Instance session_fs.

(** The example session while the second response, the last one, is written. *)
Lemma replies_advertise_witness :
  (exists r, message r (lit "close") (pending_response_ (self (run site_handler 11 (world_of session)))) /\
     answers default_config site_handler (run site_handler 11 (world_of session)) r) /\
  writes (run site_handler 11 (world_of session)) (run site_handler 12 (world_of session)).
Proof.
  exact (replies_advertise default_config site_handler 4 (world_of session) 11 session_ok
    ltac:(vm_compute; reflexivity) ltac:(vm_compute; reflexivity)).
Defined.
