(* ===== verification/ConnectionLifetime.v ===== *)
(** * How long a connection can last

    The deadlines of [Connection] are checked before every call that may block, and the call
    is given the time left. With a kernel that keeps the timeouts it is given, up to a
    latency, this bounds the whole life of a connection by its configuration, whatever the
    peer does. *)

From Stdlib Require Import Ascii String.
From stdpp Require Import base numbers list gmap strings.
From S2P Require Import Prelude CppLib Parser ParserLemmas ParserSpec ParserFacts Response.
From S2P Require Import FileSystem StaticFileHandler Router FsTree Fd Connection ConnectionSpec.
From S2P Require Import ConnectionStep ConnectionFacts ConnectionDeadlines ConnectionExample.

Local Open Scope Z_scope.

(** ** A kernel that keeps its timeouts *)

(** The timeout in force for receiving or sending, in nanoseconds. *)
Definition nanoseconds (v : timeval) : Z := 1000 * (tv_sec v * 1000000 + tv_usec v).

#[export] Instance sockopt_eq_dec : EqDecision sockopt.
Proof. solve_decision. Defined.

Fixpoint timeout_of (opt : sockopt) (hs : history) : option Z :=
  match hs with
  | [] => None
  | EvSetsockopt o v (Ok _) :: hs' => if decide (o = opt) then Some (nanoseconds v) else timeout_of opt hs'
  | _ :: hs' => timeout_of opt hs'
  end.

(** The time between two readings of the clock around a call is at most [late], the latency of
    the machine with the work of the program in it; a [read] or [send] may block for its
    timeout in addition, unless that is zero, which means without limit. *)
Record timely `{K : Kernel} (late : Z) : Prop := {
  tm_now hs : k_now (EvNow (k_now hs) :: hs) <= k_now hs + late;
  tm_setsockopt hs o v : k_now (EvSetsockopt o v (k_setsockopt hs o v) :: hs) <= k_now hs + late;
  tm_read hs size T :
    timeout_of SO_RCVTIMEO hs = Some T -> 0 < T ->
    k_now (EvRead size (k_read hs size) :: hs) <= k_now hs + T + late;
  tm_send hs data T :
    timeout_of SO_SNDTIMEO hs = Some T -> 0 < T ->
    k_now (EvSend data (k_send hs data) :: hs) <= k_now hs + T + late
}.

(** ** The bound *)

(** How far a phase may overrun its deadline: the shortest timeout is a microsecond, and a
    phase ends within four system calls of the last look at its deadline. *)
Definition slack (late : Z) : Z := 1000 + 4 * late.

Definition read_span (ts : ConnectionTimeouts) (late : Z) : Z := read_timeout ts + slack late.
Definition write_span (ts : ConnectionTimeouts) (late : Z) : Z := write_timeout ts + slack late.
Definition idle_span (ts : ConnectionTimeouts) (late : Z) : Z := keep_alive_timeout ts + slack late.

(** From one response to the end of the next. *)
Definition cycle (ts : ConnectionTimeouts) (late : Z) : Z :=
  idle_span ts late + read_span ts late + write_span ts late.

(** The first request without an idle phase before it, and the others. *)
Definition lifetime (cfg : ConnectionConfig) (late : Z) : Z :=
  read_span (timeouts cfg) late + write_span (timeouts cfg) late +
  (Z.of_N (max_requests (limits cfg)) - 1) * cycle (timeouts cfg) late.

Lemma wp_mono {A} (m : M A) (P Q : A -> World -> Prop) w :
  (forall a w', P a w' -> Q a w') -> wp m P w -> wp m Q w.
Proof. unfold wp. auto. Qed.

Section Lifetime.
Context `{K : Kernel} `{MO : MapOrder} `{FS : FileSystem}.
Context (h : StaticFileHandler) (cfg : ConnectionConfig) (late : Z).
Context (Hlate : 0 <= late) (Htimely : timely late).
Context (Hread : 0 < read_timeout (timeouts cfg)) (Hidle : 0 < keep_alive_timeout (timeouts cfg)).
Context (Hwrite : 0 < write_timeout (timeouts cfg)).
Context (Hmax : (max_requests (limits cfg) < 2 ^ 64)%N).

Notation ts := (timeouts cfg).
Notation slack := (slack late).

(** The requests the connection may still take. *)
Definition requests_left (c : Connection) : Z :=
  Z.of_N (max_requests (limits cfg)) - Z.of_N (requests_served (result_ c)).

(** The latest moment at which the connection is closed, from its state. *)
Definition horizon (c : Connection) : Z :=
  match state_ c with
  | Reading | Parsing =>
      read_deadline_ c + slack +
      (if decide (read_phase_ c = KeepAlive) then read_span ts late else 0) +
      write_span ts late + (requests_left c - 1) * cycle ts late
  | Writing =>
      write_deadline_ c + slack +
      (if close_after_write_ c then 0 else requests_left c * cycle ts late)
  | Closed => 0
  end.

(** The phase the connection is in is not overdue, and its horizon is before [limit]. *)
Record on_time (limit : Z) (w : World) : Prop := {
  ot_config : config_ (self w) = cfg;
  ot_left :
    match state_ (self w) with
    | Reading | Parsing => 1 <= requests_left (self w)
    | Writing => close_after_write_ (self w) = false -> 1 <= requests_left (self w)
    | Closed => True
    end;
  ot_horizon : state_ (self w) <> Closed -> horizon (self w) <= limit;
  ot_now : match state_ (self w) with
           | Reading | Parsing => k_now (hist w) + late <= read_deadline_ (self w) + slack
           | Writing => k_now (hist w) + late <= write_deadline_ (self w) + slack
           | Closed => k_now (hist w) <= limit
           end
}.

Ltac time_lia :=
  unfold write_span, read_span, idle_span, ConnectionLifetime.slack in *; lia.

Lemma cycles_nonneg n : 0 <= n -> 0 <= n * cycle ts late.
Proof. clear Hmax. intros Hn. apply Z.mul_nonneg_nonneg; unfold cycle; time_lia. Qed.

(** A timeout armed for a deadline lets a call return soon after it. *)
Lemma timeval_of_bound t deadline :
  t < deadline ->
  0 < nanoseconds (timeval_of (deadline - t)) /\ t + nanoseconds (timeval_of (deadline - t)) <= deadline + 1000.
Proof.
  intros Ht. destruct (timeval_valid (deadline - t)) as (_ & _ & H0 & H); [lia|].
  unfold nanoseconds. lia.
Qed.

Lemma on_time_closed limit why c hs :
  config_ c = cfg -> k_now hs <= limit -> on_time limit {| self := closed_with why c; hist := hs |}.
Proof. intros Hc Ht. by split. Qed.

Lemma on_time_queued limit r keep why c hs t :
  t = k_now hs -> config_ c = cfg -> (keep = true -> 1 <= requests_left c) ->
  t + write_span ts late + (if keep then requests_left c * cycle ts late else 0) <= limit ->
  on_time limit {| self := queued r keep why t c; hist := EvNow t :: hs |}.
Proof.
  intros -> Hc Hk Ht. pose proof (tm_now _ Htimely hs) as Hn.
  assert (Hr : requests_left (queued r keep why (k_now hs) c) = requests_left c) by done.
  split; cbn [self hist queued state_ set_state]; [done|..].
  - rewrite Hr. by destruct keep; [auto|].
  - intros _. unfold horizon. rewrite Hr. simpl. rewrite Hc. destruct keep; simpl; time_lia.
  - simpl. rewrite Hc. time_lia.
Qed.

(** [arm_socket_timeout] and the calls it precedes. *)
Lemma wp_arm_timely opt deadline (Q : result errno unit -> World -> Prop) w :
  (deadline <= k_now (hist w) ->
     Q (Err EAGAIN) {| self := self w; hist := EvNow (k_now (hist w)) :: hist w |}) ->
  (k_now (hist w) < deadline -> forall hs,
     k_now hs <= k_now (hist w) + 2 * late ->
     (forall e, Q (Err e) {| self := self w; hist := hs |}) /\
     (timeout_of opt hs = Some (nanoseconds (timeval_of (deadline - k_now (hist w)))) ->
      Q (Ok tt) {| self := self w; hist := hs |})) ->
  wp (arm_socket_timeout opt deadline) Q w.
Proof.
  intros He Hs. unfold arm_socket_timeout. apply wp_bind, wp_now. simpl.
  destruct (Z.leb_spec (deadline - k_now (hist w)) 0); [apply wp_ret, He; lia|].
  unfold wp, setsockopt. cbn [fst snd record self hist].
  set (hs1 := EvNow _ :: hist w). set (v := timeval_of _). set (r := k_setsockopt hs1 opt v).
  pose proof (tm_now _ Htimely (hist w)) as H1. pose proof (tm_setsockopt _ Htimely hs1 opt v) as H2.
  fold hs1 in H1. fold r in H2.
  destruct (Hs ltac:(lia) (EvSetsockopt opt v r :: hs1)) as [He' Hk]; [lia|].
  destruct r as [[]|e]; [|apply He']. apply Hk. simpl. by rewrite decide_True.
Qed.

(** ** The steps *)

Lemma read_timed_out_on_time limit c hs :
  config_ c = cfg -> k_now hs <= read_deadline_ c + slack ->
  read_deadline_ c + slack + write_span ts late <= limit ->
  wp read_timed_out (fun _ w => on_time limit w) {| self := c; hist := hs |}.
Proof.
  intros Hc Ht Hl. unfold read_timed_out. do 2 wp_step.
  destruct (read_phase_ c); take_branch; wp_step.
  - apply on_time_queued; [done..|time_lia].
  - apply on_time_closed; [done|time_lia].
Qed.

Lemma read_on_time limit c hs :
  state_ c = Reading -> on_time limit {| self := c; hist := hs |} ->
  wp read_from_socket (fun _ w => on_time limit w) {| self := c; hist := hs |}.
Proof.
  intros Hs [Hc Hl Hh Ht]. cbn [self hist] in *. rewrite Hs in *. specialize (Hh ltac:(done)).
  unfold horizon in Hh. rewrite Hs in Hh. pose proof (cycles_nonneg (requests_left c - 1) ltac:(lia)) as Hn.
  assert (Hend : read_deadline_ c + slack + write_span ts late <= limit)
    by (destruct (decide _); time_lia).
  unfold read_from_socket. do 3 wp_step. apply wp_arm_timely; cbn [self hist].
  - intros _. take_branch. pose proof (tm_now _ Htimely hs).
    apply read_timed_out_on_time; [done|time_lia|done].
  - intros Hlt hs' Hhs. split.
    + intros e. case_bool_decide; cbn [negb]; [apply read_timed_out_on_time; [done|time_lia|done]|].
      wp_step. apply on_time_closed; [done|time_lia].
    + intros HT. wp_step. destruct (timeval_of_bound _ _ Hlt) as [Hp Hb].
      pose proof (tm_read _ Htimely hs' READ_SIZE _ HT Hp) as Hr.
      unfold wp at 1, sys_read. cbn [fst snd record self hist]. set (r := k_read hs' READ_SIZE) in *.
      destruct r as [[|x data]|e].
      * wp_step. apply on_time_closed; [done|time_lia].
      * do 4 wp_step. cbn [read_phase_ set_result].
        destruct (read_phase_ c) eqn:Ep; take_branch; [do 4 wp_step|unfold begin_request_timeout; do 7 wp_step].
        -- split; simpl; [done|done|intros _|time_lia]. unfold horizon. simpl. rewrite Ep in *. exact Hh.
        -- set (hs2 := EvRead _ _ :: hs') in *. pose proof (tm_now _ Htimely hs2) as H2.
           split; simpl; [done|done|intros _|rewrite Hc; time_lia].
           unfold horizon. simpl. rewrite Hc. rewrite decide_True in Hh by done.
           change (requests_left _) with (requests_left c). time_lia.
      * destruct e; take_branch; [wp_step|apply read_timed_out_on_time; [done|time_lia|done]|wp_step].
        -- split; simpl; rewrite ?Hs; [done|done|intros _|time_lia]. unfold horizon. rewrite Hs. exact Hh.
        -- apply on_time_closed; [done|time_lia].
Qed.

(** A request that begins in the buffer starts its deadline. *)
Lemma begin_on_time limit c hs (begins : bool) :
  state_ c = Parsing -> on_time limit {| self := c; hist := hs |} ->
  wp (if bool_decide (read_phase_ c = KeepAlive) && begins then begin_request_timeout else mret tt)
    (fun _ w => on_time limit w /\ state_ (self w) = Parsing) {| self := c; hist := hs |}.
Proof.
  intros Hs Ho. destruct (bool_decide _ && begins) eqn:E; [|by wp_step].
  apply andb_true_iff in E as [Ep%bool_decide_eq_true_1 _]. destruct Ho as [Hc Hl Hh Ht]. cbn [self hist] in *.
  rewrite Hs in *. specialize (Hh ltac:(done)). unfold horizon in Hh. rewrite Hs, decide_True in Hh by done.
  unfold begin_request_timeout. do 2 wp_step. wp_step. pose proof (tm_now _ Htimely hs).
  split; [|done]. split; simpl; rewrite ?Hs; [done|done|intros _|rewrite Hc; time_lia].
  unfold horizon. simpl. rewrite Hs, Hc. change (requests_left _) with (requests_left c). time_lia.
Qed.

Lemma parse_on_time limit c hs :
  state_ c = Parsing -> on_time limit {| self := c; hist := hs |} ->
  wp (parse_request h) (fun _ w => on_time limit w) {| self := c; hist := hs |}.
Proof.
  intros Hs Ho. unfold parse_request. do 3 wp_step. eapply wp_mono; [|by apply begin_on_time].
  clear c hs Hs Ho. intros _ [c hs] [[Hc Hl Hh Ht] Hs]. cbn [self hist] in *. do 2 wp_step.
  rewrite Hs in *. specialize (Hh ltac:(done)). unfold horizon in Hh. rewrite Hs in Hh.
  pose proof (cycles_nonneg (requests_left c - 1) ltac:(lia)) as Hn.
  assert (Hend : read_deadline_ c + slack + write_span ts late + (requests_left c - 1) * cycle ts late <= limit)
    by (destruct (decide _); time_lia).
  destruct (next_cases (parser_ c)) as [E|[(msg & kind & E)|(r & p & E)]]; rewrite E;
    do 2 wp_step; cbn [status request error error_kind need_more_data parse_error request_ready].
  - wp_step. by split.
  - wp_step. apply on_time_queued; [done|done|done|]. time_lia.
  - do 4 wp_step. wp_step. set (c1 := set_result _ _).
    assert (Hr : requests_left c1 = requests_left c - 1).
    { unfold requests_left in *. unfold c1. cbn [result_ set_result count_request requests_served set_parser].
      rewrite sz_add_exact by lia. lia. }
    set (limit' := (_ <=? _)%N).
    assert (Hk : should_keep_alive r && negb limit' = true -> 1 <= requests_left c1).
    { intros [_ Hk%negb_true_iff]%andb_true_iff. unfold limit' in Hk. apply N.leb_gt in Hk.
      replace (config_ c1) with cfg in Hk. unfold requests_left. lia. }
    apply on_time_queued; [done|done|done|]. rewrite Hr. destruct (_ && _); time_lia.
Qed.

Lemma write_on_time limit c hs :
  state_ c = Writing -> on_time limit {| self := c; hist := hs |} ->
  wp write_to_socket (fun _ w => on_time limit w) {| self := c; hist := hs |}.
Proof.
  intros Hs [Hc Hl Hh Ht]. cbn [self hist] in *. rewrite Hs in *. specialize (Hh ltac:(done)).
  unfold horizon in Hh. rewrite Hs in Hh.
  assert (Hend : write_deadline_ c + slack <= limit).
  { destruct (close_after_write_ c); [lia|]. pose proof (cycles_nonneg (requests_left c) ltac:(specialize (Hl eq_refl); lia)). lia. }
  unfold write_to_socket. do 3 wp_step. apply wp_arm_timely; cbn [self hist].
  - intros _. pose proof (tm_now _ Htimely hs). wp_step. apply on_time_closed; [done|time_lia].
  - intros Hlt hs' Hhs. split; [intros e; wp_step; apply on_time_closed; [done|time_lia]|].
    intros HT. wp_step. set (data := drop _ _). destruct (timeval_of_bound _ _ Hlt) as [Hp Hb].
    pose proof (tm_send _ Htimely hs' data _ HT Hp) as Hr.
    unfold wp at 1, sys_send. cbn [fst snd record self hist]. set (r := k_send hs' data) in *.
    assert (Hstay : forall c' hs2, config_ c' = cfg -> state_ c' = Writing -> requests_left c' = requests_left c ->
      close_after_write_ c' = close_after_write_ c -> write_deadline_ c' = write_deadline_ c ->
      k_now hs2 + late <= write_deadline_ c + slack -> on_time limit {| self := c'; hist := hs2 |}).
    { intros c' hs2 E1 E2 E3 E4 E5 E6. split; cbn [self hist]; [done|..]; unfold horizon; rewrite E2, ?E3, ?E4, ?E5; done. }
    destruct r as [[|n]|e].
    + wp_step. apply on_time_closed; [done|time_lia].
    + do 6 wp_step. cbn [write_offset_ pending_response_ set_result set_write_offset].
      destruct (_ =? _)%nat; [|wp_step; apply Hstay; (done || time_lia)].
      do 2 wp_step. cbn [close_after_write_ set_result set_write_offset]. destruct (close_after_write_ c) eqn:Ec.
      * wp_step. apply on_time_closed; [done|time_lia].
      * unfold begin_keep_alive_timeout. do 5 wp_step. set (hs2 := EvSend _ _ :: hs') in *.
        pose proof (tm_now _ Htimely hs2) as H2. specialize (Hl eq_refl).
        split; simpl; [done|done|intros _|rewrite Hc; time_lia]. unfold horizon. simpl. rewrite Hc.
        change (requests_left _) with (requests_left c).
        assert (requests_left c * cycle ts late = cycle ts late + (requests_left c - 1) * cycle ts late) by lia.
        unfold cycle in *. time_lia.
    + destruct e; take_branch; wp_step; [apply Hstay; (done || time_lia)|apply on_time_closed; [done|time_lia]..].
Qed.

Lemma step_on_time limit w : on_time limit w -> on_time limit (serve_step h w).2.
Proof.
  destruct w as [c hs]. intros Ho. apply (serve_step_wp h). unfold serve_step. do 2 wp_step.
  destruct (state_ c) eqn:E; [by apply read_on_time|by apply parse_on_time|by apply write_on_time|by wp_step].
Qed.

Lemma on_time_now limit w : on_time limit w -> k_now (hist w) <= limit.
Proof.
  intros [Hc Hl Hh Ht]. unfold horizon in Hh. destruct (state_ (self w)) eqn:E; [..|done]; specialize (Hh ltac:(done)).
  1,2: pose proof (cycles_nonneg (requests_left (self w) - 1) ltac:(lia)); destruct (decide _); time_lia.
  destruct (close_after_write_ (self w)); [lia|].
  pose proof (cycles_nonneg (requests_left (self w)) ltac:(specialize (Hl eq_refl); lia)). lia.
Qed.
End Lifetime.

(** ** Properties *)

Section Properties.
Context `{K : Kernel} `{MO : MapOrder} `{FS : FileSystem}.

Lemma make_connection_on_time fd cfg hs w late :
  make_connection fd cfg hs = Ok w -> 0 <= late -> timely late ->
  on_time cfg late (k_now hs + lifetime cfg late) w.
Proof.
  intros Hm Hl Ht. destruct (make_connection_valid cfg _ _ _ Hm) as (Hr & Hi & Hw & Hn & _).
  unfold make_connection in Hm. destruct (_ || _); [done|]. simplify_eq.
  pose proof (tm_now _ Ht hs) as H1. pose proof (tm_now _ Ht (EvNow (k_now hs) :: hs)) as H2.
  assert (Hc : 0 <= (Z.of_N (max_requests (limits cfg)) - 1) * cycle (timeouts cfg) late)
    by (apply cycles_nonneg; (done || lia)).
  assert (Hlife : 3 * late <= lifetime cfg late)
    by (unfold lifetime, read_span, write_span, slack; lia).
  destruct (valid_fd fd) eqn:Ef; cbn [negb]; split; simpl; try done; unfold requests_left; simpl.
  - lia.
  - intros _. unfold horizon, requests_left, lifetime, read_span. simpl. lia.
  - unfold slack. lia.
  - lia.
Qed.

(** C12. The life of a connection is bounded by its configuration. On a kernel that keeps the
    timeouts it is given, up to a latency, the clock never passes the moment of the
    construction plus one read and one write timeout for the first request and one idle, read
    and write timeout for each further request that the limit allows, with a microsecond and
    four latencies for each of these phases; and by then [serve] has returned. A peer that
    sends a byte at a time, takes a byte at a time, stays silent, or interrupts every call
    gains nothing. *)
Theorem connection_lifetime h fd cfg hs w late :
  make_connection fd cfg hs = Ok w -> (max_requests (limits cfg) < 2 ^ 64)%N -> 0 <= late ->
  timely late -> clock_advances ->
  (forall n, k_now (hist (run h n w)) <= k_now hs + lifetime cfg late) /\
  exists fuel res w', serve fuel h w = Some (res, w') /\ k_now (hist w') <= k_now hs + lifetime cfg late.
Proof.
  intros Hm Hmax Hl Ht Hclock. destruct (make_connection_valid cfg _ _ _ Hm) as (Hr & Hi & Hw & _).
  assert (Hrun : forall n, k_now (hist (run h n w)) <= k_now hs + lifetime cfg late).
  { intros n. apply (on_time_now cfg late); [done..|]. induction n as [|n IH]; [by apply make_connection_on_time with fd|].
    by apply step_on_time. }
  split; [done|]. destruct (connection_ends cfg h fd hs w Hm Hmax Hclock) as (fuel & res & w' & Hs).
  exists fuel, res, w'. split; [done|]. destruct (serve_run h _ _ _ _ Hs) as (n & -> & _). apply Hrun.
Qed.
End Properties.

(** ** The example session *)

#[local] Existing Instance session_kernel.
#[local] Existing Instance map_to_list_order.
#[local] Existing Instance session_fs.

(** One millisecond per call is the whole latency of the example kernel. *)
Lemma session_timely : timely (milliseconds 1).
Proof.
  assert (Htick : forall e hs, k_now (e :: hs) = k_now hs + milliseconds 1)
    by (intros; simpl; unfold ticks, milliseconds; cbn [length]; lia).
  split; intros; rewrite Htick; lia.
Qed.

(** A session with the default configuration is over within 42 minutes. *)
Lemma connection_lifetime_witness :
  exists fuel res w', serve fuel site_handler (world_of session) = Some (res, w') /\
    k_now (hist w') <= k_now [] + milliseconds (42 * 60 * 1000).
Proof.
  destruct (proj2 (connection_lifetime site_handler 4 default_config [] (world_of session) (milliseconds 1)
    session_ok ltac:(vm_compute; reflexivity) ltac:(vm_compute; discriminate) session_timely ticks_advance))
    as (fuel & res & w' & Hs & Ht).
  exists fuel, res, w'. split; [exact Hs|]. etransitivity; [exact Ht|]. vm_compute. discriminate.
Defined.
