(* ===== verification/ConnectionTypes.v ===== *)
(** * The well-formed connection objects

    The class invariant of [Connection]: what its members have to do with each other in each
    state. The constructor establishes it and every member function keeps it, whatever the
    kernel answers. *)

From Stdlib Require Import Ascii String.
From stdpp Require Import base numbers list gmap strings.
From S2P Require Import Prelude CppLib Parser ParserLemmas ParserSpec ParserFacts Response.
From S2P Require Import FileSystem StaticFileHandler Router FsTree Fd Connection ConnectionSpec.
From S2P Require Import ConnectionStep ConnectionFacts ConnectionDeadlines ConnectionExample.

Definition valid_config (cfg : ConnectionConfig) : Prop :=
  (0 < read_timeout (timeouts cfg))%Z /\ (0 < keep_alive_timeout (timeouts cfg))%Z /\
  (0 < write_timeout (timeouts cfg))%Z /\ (0 < max_requests (limits cfg) < 2 ^ 64)%N.

(** The reasons a response may be the last one for. *)
Definition closing_reason (r : ConnectionEndReason) : bool :=
  match r with ConnectionClose | RequestLimit | ParseError | ReadTimeout => true | _ => false end.

(** The reasons that leave a response unfinished. *)
Definition cut_short (r : ConnectionEndReason) : bool :=
  match r with WriteTimeout | WriteError => true | _ => false end.

Definition nothing_pending (c : Connection) : Prop := pending_response_ c = [] /\ write_offset_ c = 0.
Definition unfinished (c : Connection) : Prop := (write_offset_ c < length (pending_response_ c))%nat.
Definition may_continue (c : Connection) : Prop :=
  (requests_served (result_ c) < max_requests (limits (config_ c)))%N.

Record well_formed (c : Connection) : Prop := {
  wf_config : valid_config (config_ c);
  wf_limits : max_header_bytes_ (parser_ c) = HEADER_LIMIT /\ max_body_bytes_ (parser_ c) = BODY_LIMIT;
  wf_served : (requests_served (result_ c) <= max_requests (limits (config_ c)))%N;
  wf_counters : (bytes_read (result_ c) < 2 ^ 64 /\ bytes_written (result_ c) < 2 ^ 64)%N;
  wf_state :
    match state_ c with
    | Reading =>
        nothing_pending c /\ may_continue c /\
        (read_phase_ c = KeepAlive -> buffered_bytes (parser_ c) = 0%N)
    | Parsing => nothing_pending c /\ may_continue c
    | Writing =>
        unfinished c /\
        (if close_after_write_ c then closing_reason (close_reason_after_write_ c) = true
         else may_continue c)
    | Closed => if cut_short (reason (result_ c)) then unfinished c else nothing_pending c
    end
}.

Section Types.
Context `{K : Kernel} `{MO : MapOrder} `{FS : FileSystem}.
Context (h : StaticFileHandler).

Lemma sz_add_range a b : (sz_add a b < 2 ^ 64)%N.
Proof. by apply N.mod_lt. Qed.

Lemma make_connection_well_formed fd cfg hs w :
  make_connection fd cfg hs = Ok w -> (max_requests (limits cfg) < 2 ^ 64)%N -> well_formed (self w).
Proof.
  intros Hm Hmax. destruct (make_connection_valid cfg _ _ _ Hm) as (Hr & Hi & Hw & Hn & _).
  unfold make_connection in Hm. destruct (_ || _ || _ || _); [done|]. simplify_eq.
  destruct (valid_fd fd) eqn:Ef; (split; simpl; [by split_and!|done|lia|done|]); [|done].
  split; [done|]. split; [done|done].
Qed.

(** A response that is queued. *)
Lemma queued_well_formed c r keep why t :
  valid_config (config_ c) -> max_header_bytes_ (parser_ c) = HEADER_LIMIT ->
  max_body_bytes_ (parser_ c) = BODY_LIMIT ->
  (requests_served (result_ c) <= max_requests (limits (config_ c)))%N ->
  (bytes_read (result_ c) < 2 ^ 64 /\ bytes_written (result_ c) < 2 ^ 64)%N ->
  (keep = true -> may_continue c) -> (keep = false -> closing_reason why = true) ->
  well_formed (queued r keep why t c).
Proof.
  intros Hv Hh Hb Hs Hc Hk Hr. split; [done|done|done|done|]. cbn [state_ queued set_state].
  split; [apply serialize_nonempty|]. destruct keep; simpl; auto.
Qed.

(** The start of a request's deadline touches nothing the invariant is about but the phase. *)
Lemma started_fields t b c :
  config_ (started t b c) = config_ c /\ result_ (started t b c) = result_ c /\
  parser_ (started t b c) = parser_ c /\ nothing_pending (started t b c) = nothing_pending c /\
  (read_phase_ (started t b c) = KeepAlive -> b = false).
Proof.
  unfold started. destruct b, (read_phase_ c) eqn:E; simpl; rewrite ?E; by split_and!.
Qed.

Lemma request_counted c :
  well_formed c -> may_continue c ->
  (requests_served (count_request (result_ c)) <= max_requests (limits (config_ c)))%N.
Proof.
  intros [(_ & _ & _ & Hmax) _ _ _ _] Hm. unfold may_continue in Hm. simpl. rewrite sz_add_exact; lia.
Qed.

Lemma step_well_formed w w' : step h w w' -> well_formed (self w) -> well_formed (self w').
Proof.
  intros Hst Hwf. pose proof (request_counted (self w) Hwf) as Hcount. destruct Hwf as [Hv [Hh Hb] Hs Hc Hw].
  destruct Hst as [c hs t data es1 es2 Es|c hs es Es|c hs why es Es _ Hwhy|c hs t es Es|c hs t es Es|
    c hs t t' msg kind es Es|c hs t t' r p es Es En Hq c1 limit|c hs why es Es _ Hwhy|c hs es Es|
    c hs n data es Es _ -> Hn Hne|c hs n data es Es _ -> Hn He _ Hca|c hs n t data es Es _ -> Hn He _ Hca];
    cbn [self] in *; rewrite Es in Hw; simpl in Hw;
    try (destruct (started_fields t (0 <? buffered_bytes (parser_ c))%N c) as (S1 & S2 & S3 & S4 & S5)).
  - unfold started. destruct (true && _); (split; simpl; [done|done|done|split; [apply sz_add_range|apply Hc]|split; apply Hw]).
  - by split; rewrite ?Es.
  - split; simpl; [done|done|done|done|]. destruct Hwhy as [->|[->|[-> _]]]; apply Hw.
  - apply queued_well_formed; (done || auto).
  - split; simpl; rewrite ?S1, ?S2, ?S3; [done|done|done|done|]. change (nothing_pending (set_state _ _)) with (nothing_pending (started t (0 <? buffered_bytes (parser_ c))%N c)).
    rewrite S4. split; [apply Hw|]. unfold may_continue. simpl. rewrite S1, S2. split; [apply Hw|].
    intros Hp. apply S5 in Hp. apply N.ltb_ge in Hp. lia.
  - apply queued_well_formed; rewrite ?S1, ?S2, ?S3; (done || auto).
  - destruct (next_limits _ _ _ En) as [L1 L2]. apply queued_well_formed; unfold c1; simpl; rewrite ?S1, ?S2; [done|congruence..| | | |].
    + apply Hcount, Hw.
    + done.
    + intros [_ Hl%negb_true_iff]%andb_true_iff. unfold limit, c1 in Hl. apply N.leb_gt in Hl.
      unfold may_continue. simpl in *. rewrite S1. exact Hl.
    + intros _. by destruct limit.
  - split; simpl; [done|done|done|done|]. destruct Hwhy as [->| ->]; apply Hw.
  - by split; rewrite ?Es.
  - split; simpl; rewrite ?Es; [done|done|done|split; [apply Hc|apply sz_add_range]|].
    split; [|apply Hw]. unfold unfinished. simpl. rewrite length_drop in Hn. lia.
  - split; simpl; [done|done|done|split; [apply Hc|apply sz_add_range]|]. destruct Hw as [_ Hw].
    rewrite Hca in Hw. by destruct (close_reason_after_write_ c).
  - rewrite Hca in Hw. split; simpl; [done|done|done|split; [apply Hc|apply sz_add_range]|]. split; [done|apply Hw].
Qed.

(** C11. The class invariant. At every moment the members of a connection fit together:
    outside [Writing] no response is pending, in [Writing] some of it is left to send and it is
    either the last, for one of the four reasons, or another request is allowed; the idle phase
    waits on an empty buffer; a closed connection has unsent bytes exactly for the two write
    failures; the limit on requests and the width of the counters are respected. *)
Theorem connection_well_formed fd cfg hs w n :
  make_connection fd cfg hs = Ok w -> (max_requests (limits cfg) < 2 ^ 64)%N ->
  well_formed (self (run h n w)).
Proof.
  intros Hm Hmax. induction n as [|n IH]; [by apply (make_connection_well_formed fd cfg hs)|].
  change (run h (S n) w) with (serve_step h (run h n w)).2.
  destruct (decide (state_ (self (run h n w)) = Closed)) as [Hc|Hc]; [by rewrite serve_step_closed|].
  by eapply step_well_formed; [apply serve_step_sound|].
Qed.
End Types.

#[local] Existing Instance session_kernel.
#[local] Existing Instance map_to_list_order.
#[local] Existing Instance session_fs.

(** In the example session, while the second response is written. *)
Lemma connection_well_formed_witness :
  let c := self (run site_handler 11 (world_of session)) in
  well_formed c /\ state_ c = Writing /\ requests_served (result_ c) = 2%N.
Proof.
  split; [|split; vm_compute; reflexivity].
  apply (connection_well_formed site_handler 4 default_config [] (world_of session) 11 session_ok).
  vm_compute. reflexivity.
Defined.
