(* ===== verification/BoundedQueue.v ===== *)
(** * The bounded queue

    Models [include/http/bounded_queue.hpp]: the critical sections of its operations as
    functions on the guarded members, and on top of them the monitor with its two
    condition variables as a step relation over any number of threads. Between the
    acquisition of the mutex and its release or a wait no other thread sees the members,
    so a critical section is one step; the notification that follows the unlock is a
    step of its own, and waiting threads may wake up spuriously. *)

From stdpp Require Import base numbers list gmap fin_maps.
From S2P Require Import Prelude.

(** ** The guarded members *)

Record BoundedQueue (T : Type) := {
  capacity_ : nat;
  queue_ : list T;
  high_water_mark_ : nat;
  closed_ : bool
}.
Arguments capacity_ {T} _.
Arguments queue_ {T} _.
Arguments high_water_mark_ {T} _.
Arguments closed_ {T} _.

Section Operations.
Context {T : Type}.

(** The constructor; [None] is [std::invalid_argument]. *)
Definition make_queue (capacity : nat) : option (BoundedQueue T) :=
  if (capacity =? 0)%nat then None
  else Some {| capacity_ := capacity; queue_ := []; high_water_mark_ := 0; closed_ := false |}.

Inductive push_outcome := PushWait | PushRefused | PushDone (q : BoundedQueue T).

(** [push] from the test of the wait predicate to the unlock. *)
Definition push (item : T) (q : BoundedQueue T) : push_outcome :=
  if negb (closed_ q || (length (queue_ q) <? capacity_ q)%nat) then PushWait
  else if closed_ q then PushRefused
  else
    let items := queue_ q ++ [item] in
    PushDone
      {| capacity_ := capacity_ q; queue_ := items;
         high_water_mark_ := if (high_water_mark_ q <? length items)%nat then length items
                             else high_water_mark_ q;
         closed_ := closed_ q |}.

Inductive pop_outcome := PopWait | PopNone | PopItem (item : T) (q : BoundedQueue T).

Definition pop (q : BoundedQueue T) : pop_outcome :=
  if negb (closed_ q || negb (match queue_ q with [] => true | _ => false end)) then PopWait
  else match queue_ q with
  | [] => PopNone
  | item :: items =>
      PopItem item
        {| capacity_ := capacity_ q; queue_ := items; high_water_mark_ := high_water_mark_ q;
           closed_ := closed_ q |}
  end.

Definition close (q : BoundedQueue T) : BoundedQueue T :=
  {| capacity_ := capacity_ q; queue_ := queue_ q; high_water_mark_ := high_water_mark_ q;
     closed_ := true |}.

Definition size (q : BoundedQueue T) : nat := length (queue_ q).
Definition capacity (q : BoundedQueue T) : nat := capacity_ q.
Definition closed (q : BoundedQueue T) : bool := closed_ q.
Definition high_water_mark (q : BoundedQueue T) : nat := high_water_mark_ q.

(** ** The branches of the operations *)

Lemma push_cases item q :
  (closed_ q = true /\ push item q = PushRefused) \/
  (closed_ q = false /\ (capacity_ q <= size q)%nat /\ push item q = PushWait) \/
  (closed_ q = false /\ (size q < capacity_ q)%nat /\ exists q', push item q = PushDone q' /\
     queue_ q' = queue_ q ++ [item] /\ capacity_ q' = capacity_ q /\ closed_ q' = false /\
     high_water_mark_ q' = Nat.max (high_water_mark_ q) (S (size q))).
Proof.
  unfold push, size. destruct (closed_ q) eqn:Ec; simpl; [by left|].
  destruct (Nat.ltb_spec (length (queue_ q)) (capacity_ q)); simpl; [|right; left; done].
  right. right. repeat (split; [done|]). eexists. split; [done|]. simpl.
  repeat (split; [done|]). rewrite length_app. simpl.
  destruct (Nat.ltb_spec (high_water_mark_ q) (length (queue_ q) + 1)); lia.
Qed.

Lemma pop_cases q :
  (queue_ q = [] /\ closed_ q = false /\ pop q = PopWait) \/
  (queue_ q = [] /\ closed_ q = true /\ pop q = PopNone) \/
  exists item items, queue_ q = item :: items /\
    pop q = PopItem item {| capacity_ := capacity_ q; queue_ := items;
                            high_water_mark_ := high_water_mark_ q; closed_ := closed_ q |}.
Proof.
  unfold pop. destruct (queue_ q) as [|item items]; simpl; [|rewrite orb_true_r; eauto 10].
  destruct (closed_ q); simpl; auto.
Qed.
End Operations.
Arguments push_outcome : clear implicits.
Arguments pop_outcome : clear implicits.

(** ** The monitor *)

(** What a thread is doing. [PushAt] and [PopAt] are at the test of the wait predicate
    with the mutex still to be acquired, on entry or after a wake-up; [PushWaiting] and
    [PopWaiting] are asleep on their condition variable; the [Notify] states hold no lock
    and have the notification of the operation left to do. *)
Inductive thread (T : Type) :=
| Idle
| PushAt (item : T)
| PushWaiting (item : T)
| NotifyNotEmpty
| PopAt
| PopWaiting
| NotifyNotFull
| CloseNotifyEmpty
| CloseNotifyFull.
Arguments Idle {T}. Arguments PushAt {T} _. Arguments PushWaiting {T} _.
Arguments NotifyNotEmpty {T}. Arguments PopAt {T}. Arguments PopWaiting {T}.
Arguments NotifyNotFull {T}. Arguments CloseNotifyEmpty {T}. Arguments CloseNotifyFull {T}.

Section Monitor.
Context {T : Type}.

(** The queue, its threads, and the items that went in and came out, in order. *)
Record monitor := {
  q : BoundedQueue T;
  threads : gmap nat (thread T);
  pushed : list T;
  popped : list T
}.

Definition set_thread (i : nat) (t : thread T) (m : monitor) : monitor :=
  {| q := q m; threads := <[i := t]> (threads m); pushed := pushed m; popped := popped m |}.

Definition is_waiting_pop (t : thread T) : bool := match t with PopWaiting => true | _ => false end.
Definition is_waiting_push (t : thread T) : bool :=
  match t with PushWaiting _ => true | _ => false end.

(** Wake every thread asleep on a condition variable. *)
Definition wake (t : thread T) : thread T :=
  match t with PushWaiting item => PushAt item | PopWaiting => PopAt | _ => t end.

Definition notify_all (waits : thread T -> bool) (m : monitor) : monitor :=
  {| q := q m; threads := (fun t => if waits t then wake t else t) <$> threads m;
     pushed := pushed m; popped := popped m |}.

Inductive mstep : monitor -> monitor -> Prop :=
| m_call_push m i item : threads m !! i = Some Idle -> mstep m (set_thread i (PushAt item) m)
| m_call_pop m i : threads m !! i = Some Idle -> mstep m (set_thread i PopAt m)
| m_push_wait m i item :
    threads m !! i = Some (PushAt item) -> push item (q m) = PushWait ->
    mstep m (set_thread i (PushWaiting item) m)
| m_push_refused m i item :
    threads m !! i = Some (PushAt item) -> push item (q m) = PushRefused ->
    mstep m (set_thread i Idle m)
| m_push_done m i item q' :
    threads m !! i = Some (PushAt item) -> push item (q m) = PushDone q' ->
    mstep m {| q := q'; threads := <[i := NotifyNotEmpty]> (threads m);
               pushed := pushed m ++ [item]; popped := popped m |}
| m_pop_wait m i :
    threads m !! i = Some PopAt -> pop (q m) = PopWait -> mstep m (set_thread i PopWaiting m)
| m_pop_none m i :
    threads m !! i = Some PopAt -> pop (q m) = PopNone -> mstep m (set_thread i Idle m)
| m_pop_item m i item q' :
    threads m !! i = Some PopAt -> pop (q m) = PopItem item q' ->
    mstep m {| q := q'; threads := <[i := NotifyNotFull]> (threads m);
               pushed := pushed m; popped := popped m ++ [item] |}
| m_notify_empty_one m i j :
    threads m !! i = Some NotifyNotEmpty -> threads m !! j = Some PopWaiting ->
    mstep m (set_thread j PopAt (set_thread i Idle m))
| m_notify_empty_none m i :
    threads m !! i = Some NotifyNotEmpty ->
    (forall j, threads m !! j <> Some PopWaiting) -> mstep m (set_thread i Idle m)
| m_notify_full_one m i j item :
    threads m !! i = Some NotifyNotFull -> threads m !! j = Some (PushWaiting item) ->
    mstep m (set_thread j (PushAt item) (set_thread i Idle m))
| m_notify_full_none m i :
    threads m !! i = Some NotifyNotFull ->
    (forall j item, threads m !! j <> Some (PushWaiting item)) -> mstep m (set_thread i Idle m)
| m_spurious m i t :
    threads m !! i = Some t -> is_waiting_pop t || is_waiting_push t = true ->
    mstep m (set_thread i (wake t) m)
| m_close m i :
    threads m !! i = Some Idle ->
    mstep m {| q := close (q m); threads := <[i := CloseNotifyEmpty]> (threads m);
               pushed := pushed m; popped := popped m |}
| m_close_notify_empty m i :
    threads m !! i = Some CloseNotifyEmpty ->
    mstep m (set_thread i CloseNotifyFull (notify_all is_waiting_pop m))
| m_close_notify_full m i :
    threads m !! i = Some CloseNotifyFull ->
    mstep m (set_thread i Idle (notify_all is_waiting_push m)).

Definition monitor_start (capacity n : nat) (m : monitor) : Prop :=
  make_queue capacity = Some (q m) /\ pushed m = [] /\ popped m = [] /\
  threads m = gset_to_gmap Idle (set_seq 0 n).

(** ** Counting threads *)

Definition number (P : thread T -> bool) (ts : gmap nat (thread T)) : nat :=
  base.size (filter (fun it => P it.2 = true) ts).

Definition bnat (b : bool) : nat := if b then 1 else 0.

Lemma number_insert P ts i t t' :
  ts !! i = Some t -> (number P (<[i := t']> ts) + bnat (P t) = number P ts + bnat (P t'))%nat.
Proof.
  intros Hi. unfold number.
  rewrite <- (insert_delete_id ts i t Hi), insert_insert_eq.
  assert (Hn : delete i ts !! i = None) by apply lookup_delete_eq.
  assert (Hc : forall x, base.size (filter (fun it => P it.2 = true) (<[i := x]> (delete i ts)))
    = (base.size (filter (fun it : nat * thread T => P it.2 = true) (delete i ts)) + bnat (P x))%nat).
  { intros x. destruct (P x) eqn:E; simpl.
    - rewrite map_filter_insert_True by done. rewrite map_size_insert_None; [lia|].
      apply map_lookup_filter_None. by left.
    - rewrite map_filter_insert_not'; [lia|simpl; congruence|intros y; by rewrite Hn]. }
  rewrite !Hc. lia.
Qed.

Lemma number_fmap P f ts : (forall t, P (f t) = P t) -> number P (f <$> ts) = number P ts.
Proof.
  intros Hf. unfold number. rewrite map_filter_fmap, map_size_fmap. f_equal.
  apply map_filter_ext. intros i t _. simpl. by rewrite Hf.
Qed.

Lemma number_zero P ts : number P ts = 0 <-> forall i t, ts !! i = Some t -> P t = false.
Proof.
  unfold number. rewrite map_size_empty_iff, map_empty.  split.
  - intros He i t Hi. specialize (He i). rewrite map_lookup_filter_None in He.
    destruct He as [He|He]; [congruence|]. specialize (He _ Hi). simpl in He. by destruct (P t).
  - intros He i. apply map_lookup_filter_None. right. intros t Hi. simpl. by rewrite (He i t Hi).
Qed.

Definition at_pop (t : thread T) : bool := match t with PopAt => true | _ => false end.
Definition at_push (t : thread T) : bool := match t with PushAt _ => true | _ => false end.
Definition notifies_empty (t : thread T) : bool := match t with NotifyNotEmpty => true | _ => false end.
Definition notifies_full (t : thread T) : bool := match t with NotifyNotFull => true | _ => false end.
Definition closes_empty (t : thread T) : bool := match t with CloseNotifyEmpty => true | _ => false end.
Definition closes_full (t : thread T) : bool := match t with CloseNotifyFull => true | _ => false end.

(** ** The invariant of the monitor *)

(** While a consumer sleeps on an open queue there are at least as many consumers about
    to look or notifications on their way as there are items; dually for producers and
    free places. A closed queue is being announced as long as somebody sleeps. *)
Record monitor_inv (m : monitor) : Prop := {
  mi_bound : (size (q m) <= capacity_ (q m))%nat;
  mi_fifo : pushed m = popped m ++ queue_ (q m);
  mi_high : (size (q m) <= high_water_mark_ (q m) <= capacity_ (q m))%nat;
  mi_pop : closed_ (q m) = false -> (0 < number is_waiting_pop (threads m))%nat ->
    (size (q m) <= number at_pop (threads m) + number notifies_empty (threads m))%nat;
  mi_push : closed_ (q m) = false -> (0 < number is_waiting_push (threads m))%nat ->
    (capacity_ (q m) - size (q m)
     <= number at_push (threads m) + number notifies_full (threads m))%nat;
  mi_close_pop : closed_ (q m) = true -> (0 < number is_waiting_pop (threads m))%nat ->
    (0 < number closes_empty (threads m))%nat;
  mi_close_push : closed_ (q m) = true -> (0 < number is_waiting_push (threads m))%nat ->
    (0 < number closes_empty (threads m) + number closes_full (threads m))%nat;
  mi_closing : (0 < number closes_empty (threads m) + number closes_full (threads m))%nat ->
    closed_ (q m) = true
}.

(** The changes in all the counts when thread [i] goes from [t] to [t']. *)
Ltac count_change ts i t t' H :=
  pose proof (number_insert is_waiting_pop ts i t t' H);
  pose proof (number_insert is_waiting_push ts i t t' H);
  pose proof (number_insert at_pop ts i t t' H);
  pose proof (number_insert at_push ts i t t' H);
  pose proof (number_insert notifies_empty ts i t t' H);
  pose proof (number_insert notifies_full ts i t t' H);
  pose proof (number_insert closes_empty ts i t t' H);
  pose proof (number_insert closes_full ts i t t' H);
  cbn [bnat is_waiting_pop is_waiting_push at_pop at_push notifies_empty notifies_full
       closes_empty closes_full wake] in *.

(** Split the invariant and leave the counts to [lia]. *)
Ltac use_counts :=
  repeat match goal with
  | H : closed_ ?x = ?b -> _, Hc : closed_ ?x = ?b |- _ => specialize (H Hc)
  | H : closed_ _ = _ -> _ |- _ => clear H
  end.
Ltac by_counting :=
  split; unfold size in *; simpl in *; try done; intros;
  try (apply mi_closing; [done|lia]); try congruence; use_counts; try lia.

Lemma mstep_push_inv m i item m' :
  monitor_inv m -> threads m !! i = Some (PushAt item) ->
  match push item (q m) with
  | PushWait => m' = set_thread i (PushWaiting item) m
  | PushRefused => m' = set_thread i Idle m
  | PushDone q' => m' = {| q := q'; threads := <[i := NotifyNotEmpty]> (threads m);
                           pushed := pushed m ++ [item]; popped := popped m |}
  end -> monitor_inv m'.
Proof.
  intros Hinv Ht. pose proof Hinv as [B F Hi P1 P2 C1 C2 C3].
  destruct (push_cases item (q m)) as [(Hc & ->)|[(Hc & Hs & ->)|(Hc & Hs & q' & -> & Hq & Hcap & Hcl & Hh)]];
    intros ->.
  - count_change (threads m) i (PushAt item) (@Idle T) Ht. by_counting.
  - count_change (threads m) i (PushAt item) (PushWaiting item) Ht. by_counting.
  - count_change (threads m) i (PushAt item) (@NotifyNotEmpty T) Ht.
    split; unfold size in *; simpl; rewrite ?Hq, ?Hcap, ?Hh, ?length_app; simpl; try lia.
    + by rewrite F, (assoc_L (++)).
    + intros _ Hw. specialize (P1 Hc ltac:(lia)). lia.
    + intros _ Hw. specialize (P2 Hc ltac:(lia)). lia.
    + congruence.
    + congruence.
    + intros Hw. specialize (C3 ltac:(lia)). congruence.
Qed.

Lemma mstep_pop_inv m i m' :
  monitor_inv m -> threads m !! i = Some PopAt ->
  match pop (q m) with
  | PopWait => m' = set_thread i PopWaiting m
  | PopNone => m' = set_thread i Idle m
  | PopItem item q' => m' = {| q := q'; threads := <[i := NotifyNotFull]> (threads m);
                               pushed := pushed m; popped := popped m ++ [item] |}
  end -> monitor_inv m'.
Proof.
  intros Hinv Ht. pose proof Hinv as [B F Hi P1 P2 C1 C2 C3].
  destruct (pop_cases (q m)) as [(Hq & Hc & ->)|[(Hq & Hc & ->)|(item & items & Hq & ->)]]; intros ->.
  - count_change (threads m) i (@PopAt T) (@PopWaiting T) Ht. by_counting; rewrite Hq; simpl; lia.
  - count_change (threads m) i (@PopAt T) (@Idle T) Ht. by_counting.
  - count_change (threads m) i (@PopAt T) (@NotifyNotFull T) Ht.
    unfold size in *. rewrite Hq in *. simpl in *.
    split; unfold size; simpl; try lia.
    + by rewrite F, <- (assoc_L (++)).
    + intros Hc Hw. specialize (P1 Hc ltac:(lia)). lia.
    + intros Hc Hw. specialize (P2 Hc ltac:(lia)). lia.
    + intros Hc Hw. specialize (C1 Hc ltac:(lia)). lia.
    + intros Hc Hw. specialize (C2 Hc ltac:(lia)). lia.
    + intros Hw. apply C3. lia.
Qed.

Lemma waits_zero m (w : thread T -> bool) :
  (forall j t, threads m !! j = Some t -> w t = false) -> number w (threads m) = 0.
Proof. apply number_zero. Qed.

(** What [notify_all] does to the counts that matter once the queue is closed. *)
Lemma notify_all_pop m :
  let ts := threads (notify_all is_waiting_pop m) in
  number is_waiting_pop ts = 0 /\ number is_waiting_push ts = number is_waiting_push (threads m) /\
  number closes_empty ts = number closes_empty (threads m) /\
  number closes_full ts = number closes_full (threads m).
Proof.
  simpl. split; [|repeat split; apply number_fmap; by intros []].
  apply number_zero. intros i t. rewrite lookup_fmap_Some. intros (t' & <- & _). by destruct t'.
Qed.

Lemma notify_all_push m :
  let ts := threads (notify_all is_waiting_push m) in
  number is_waiting_push ts = 0 /\ number is_waiting_pop ts = number is_waiting_pop (threads m) /\
  number closes_empty ts = number closes_empty (threads m) /\
  number closes_full ts = number closes_full (threads m).
Proof.
  simpl. split; [|repeat split; apply number_fmap; by intros []].
  apply number_zero. intros i t. rewrite lookup_fmap_Some. intros (t' & <- & _). by destruct t'.
Qed.

Lemma mstep_inv m m' : mstep m m' -> monitor_inv m -> monitor_inv m'.
Proof.
  intros Hstep Hinv. pose proof Hinv as [B F Hi P1 P2 C1 C2 C3]. destruct Hstep.
  - count_change (threads m) i (@Idle T) (PushAt item) H. by_counting.
  - count_change (threads m) i (@Idle T) (@PopAt T) H. by_counting.
  - eapply mstep_push_inv; [done..|]. by rewrite H0.
  - eapply mstep_push_inv; [done..|]. by rewrite H0.
  - eapply mstep_push_inv; [done..|]. by rewrite H0.
  - eapply mstep_pop_inv; [done..|]. by rewrite H0.
  - eapply mstep_pop_inv; [done..|]. by rewrite H0.
  - eapply mstep_pop_inv; [done..|]. by rewrite H0.
  - assert (Hj : <[i := Idle]> (threads m) !! j = Some PopWaiting)
      by (rewrite lookup_insert_ne; [done|congruence]).
    count_change (threads m) i (@NotifyNotEmpty T) (@Idle T) H.
    count_change (<[i := Idle]> (threads m)) j (@PopWaiting T) (@PopAt T) Hj. by_counting.
  - assert (number is_waiting_pop (threads m) = 0)
      by (apply number_zero; intros j [] Hj; naive_solver).
    count_change (threads m) i (@NotifyNotEmpty T) (@Idle T) H. by_counting.
  - assert (Hj : <[i := Idle]> (threads m) !! j = Some (PushWaiting item))
      by (rewrite lookup_insert_ne; [done|congruence]).
    count_change (threads m) i (@NotifyNotFull T) (@Idle T) H.
    count_change (<[i := Idle]> (threads m)) j (PushWaiting item) (PushAt item) Hj. by_counting.
  - assert (number is_waiting_push (threads m) = 0)
      by (apply number_zero; intros j [] Hj; naive_solver).
    count_change (threads m) i (@NotifyNotFull T) (@Idle T) H. by_counting.
  - destruct t; try done; [count_change (threads m) i (PushWaiting item) (PushAt item) H
                          |count_change (threads m) i (@PopWaiting T) (@PopAt T) H]; by_counting.
  - count_change (threads m) i (@Idle T) (@CloseNotifyEmpty T) H. by_counting.
  - assert (Hn : threads (notify_all is_waiting_pop m) !! i = Some CloseNotifyEmpty)
      by (simpl; by rewrite lookup_fmap, H).
    destruct (notify_all_pop m) as (N1 & N2 & N3 & N4).
    count_change (threads (notify_all is_waiting_pop m)) i (@CloseNotifyEmpty T) (@CloseNotifyFull T) Hn.
    assert (Hc : closed_ (q m) = true) by (apply C3; lia). by_counting.
  - assert (Hn : threads (notify_all is_waiting_push m) !! i = Some CloseNotifyFull)
      by (simpl; by rewrite lookup_fmap, H).
    destruct (notify_all_push m) as (N1 & N2 & N3 & N4).
    count_change (threads (notify_all is_waiting_push m)) i (@CloseNotifyFull T) (@Idle T) Hn.
    assert (Hc : closed_ (q m) = true) by (apply C3; lia). by_counting.
Qed.

Lemma start_inv cap n m : monitor_start cap n m -> monitor_inv m.
Proof.
  intros (Hq & Hp & Ho & Ht). unfold make_queue in Hq.
  destruct (Nat.eqb_spec cap 0); [done|]. injection Hq as Hq.
  assert (Hz : forall P : thread T -> bool, P Idle = false -> number P (threads m) = 0).
  { intros P HP. apply number_zero. intros i t. rewrite Ht, lookup_gset_to_gmap_Some.
    by intros [_ <-]. }
  split; rewrite <- ?Hq, ?Hp, ?Ho, ?(Hz is_waiting_pop), ?(Hz is_waiting_push), ?(Hz closes_empty),
    ?(Hz closes_full) by done; unfold size; simpl; done || lia.
Qed.

Lemma rtc_inv m m' : rtc mstep m m' -> monitor_inv m -> monitor_inv m'.
Proof. induction 1; eauto using mstep_inv. Qed.

(** What one step does to the queue. *)
Lemma mstep_queue m m' :
  mstep m m' ->
  (pushed m' = pushed m /\ high_water_mark_ (q m') = high_water_mark_ (q m) /\
   (closed_ (q m) = true -> closed_ (q m') = true)) \/
  (closed_ (q m) = false /\ high_water_mark_ (q m') = Nat.max (high_water_mark_ (q m)) (size (q m'))).
Proof.
  intros Hs. destruct Hs; simpl; auto.
  - destruct (push_cases item (q m)) as [(_ & E)|[(_ & _ & E)|(Hc & _ & q2 & E & Hq & _ & _ & Hh)]];
      rewrite E in H0; simplify_eq. right. split; [done|]. rewrite Hh. unfold size.
    rewrite Hq, length_app. simpl. lia.
  - destruct (pop_cases (q m)) as [(_ & _ & E)|[(_ & _ & E)|(x & xs & Hq & E)]];
      rewrite E in H0; simplify_eq/=. by left.
Qed.

Lemma closed_stays m m' :
  rtc mstep m m' -> closed_ (q m) = true -> closed_ (q m') = true /\ pushed m' = pushed m.
Proof.
  induction 1 as [m|m m1 m' Hs _ IH]; [done|]. intros Hc.
  destruct (mstep_queue _ _ Hs) as [(Hp & _ & Hc')|(Hf & _)]; [|congruence].
  destruct (IH (Hc' Hc)) as [? ->]. done.
Qed.

Lemma high_water_mono m m' :
  rtc mstep m m' -> (high_water_mark_ (q m) <= high_water_mark_ (q m'))%nat.
Proof.
  induction 1 as [m|m m1 m' Hs _ IH]; [done|].
  destruct (mstep_queue _ _ Hs) as [(_ & Hh & _)|(_ & Hh)]; lia.
Qed.

Lemma high_water_attained m m' :
  rtc mstep m m' -> high_water_mark_ (q m) = size (q m) ->
  exists m1, rtc mstep m m1 /\ rtc mstep m1 m' /\ high_water_mark_ (q m') = size (q m1).
Proof.
  intros Hr Hm. revert m' Hr. apply (rtc_ind_r (fun m' => exists m1,
    rtc mstep m m1 /\ rtc mstep m1 m' /\ high_water_mark_ (q m') = size (q m1))).
  - by exists m.
  - intros m1 m' Hr Hs (m2 & H1 & H2 & IH). destruct (mstep_queue _ _ Hs) as [(_ & Hh & _)|(_ & Hh)].
    + exists m2. rewrite Hh. split; [done|]. split; [by apply rtc_r with m1|done].
    + destruct (decide (high_water_mark_ (q m1) <= size (q m'))%nat).
      * exists m'. split; [by apply rtc_r with m1|]. split; [done|]. lia.
      * exists m2. split; [done|]. split; [by apply rtc_r with m1|]. lia.
Qed.

(** No thread can take a step of its own: all are outside the queue or asleep. *)
Definition quiescent (m : monitor) : Prop :=
  forall i t, threads m !! i = Some t -> t = Idle \/ is_waiting_pop t = true \/ is_waiting_push t = true.
End Monitor.
Arguments monitor : clear implicits.

(** ** Properties *)

(** C8. FIFO and bounded, under every interleaving of any number of producers and consumers,
    spurious wake-ups included: the items taken out followed by the items queued are
    exactly the items put in, in order, so none is lost, duplicated or overtaken; at most
    [capacity] are queued; the high-water mark is the greatest length the queue ever had;
    and once the queue is closed nothing more is put in. *)
Theorem queue_fifo_bounded {T} cap n (m0 m m' : monitor T) :
  monitor_start cap n m0 -> rtc mstep m0 m -> rtc mstep m m' ->
  pushed m' = popped m' ++ queue_ (q m') /\ (size (q m') <= cap)%nat /\
  (size (q m) <= high_water_mark_ (q m'))%nat /\
  (exists m1, rtc mstep m0 m1 /\ rtc mstep m1 m' /\ high_water_mark_ (q m') = size (q m1)) /\
  (closed_ (q m) = true -> closed_ (q m') = true /\ pushed m' = pushed m).
Proof.
  intros Hs H1 H2. pose proof (start_inv _ _ _ Hs) as Hi.
  assert (Hcap : forall x y : monitor T, rtc mstep x y -> capacity_ (q y) = capacity_ (q x)).
  { induction 1 as [|x y z Hxy _ IH]; [done|]. rewrite IH. clear -Hxy.
    destruct Hxy; try done; simpl.
    - destruct (push_cases item (q m)) as [(_ & E)|[(_ & _ & E)|(_ & _ & q2 & E & _ & Hc & _)]];
        rewrite E in H0; by simplify_eq.
    - destruct (pop_cases (q m)) as [(_ & _ & E)|[(_ & _ & E)|(z & zs & _ & E)]];
        rewrite E in H0; by simplify_eq/=. }
  pose proof (rtc_inv _ _ H1 Hi) as Hm. pose proof (rtc_inv _ _ H2 Hm) as Hm'.
  destruct Hs as (Hq & _). unfold make_queue in Hq. destruct (Nat.eqb_spec cap 0); [done|].
  injection Hq as Hq.
  split; [apply Hm'|]. split; [pose proof (mi_bound _ Hm'); rewrite (Hcap m m'), (Hcap m0 m) in * by done;
    by rewrite <- Hq in *|].
  split; [pose proof (mi_high _ Hm); pose proof (high_water_mono _ _ H2); lia|].
  split; [|by apply closed_stays].
  apply high_water_attained; [by etransitivity|]. by rewrite <- Hq.
Qed.

(** C7. No wake-up is lost: when no thread has a step of its own left to take, a consumer is
    asleep only if the queue is empty and open, and a producer only if it is full and
    open. So a sleeping thread always waits for something that really has not happened,
    and closing the queue leaves nobody asleep. *)
Theorem no_lost_wakeup {T} cap n (m0 m : monitor T) i t :
  monitor_start cap n m0 -> rtc mstep m0 m -> quiescent m -> threads m !! i = Some t ->
  (is_waiting_pop t = true -> queue_ (q m) = [] /\ closed_ (q m) = false) /\
  (is_waiting_push t = true -> size (q m) = capacity_ (q m) /\ closed_ (q m) = false).
Proof.
  intros Hs Hr Hqu Ht. pose proof (rtc_inv _ _ Hr (start_inv _ _ _ Hs)) as [B F Hi P1 P2 C1 C2 C3].
  assert (Hz : forall P : thread T -> bool,
    P Idle = false -> (forall t, is_waiting_pop t = true \/ is_waiting_push t = true -> P t = false) ->
    number P (threads m) = 0).
  { intros P HI HP. apply number_zero. intros j t' Hj. destruct (Hqu _ _ Hj) as [->|H]; auto. }
  assert (Hsome : forall P : thread T -> bool, P t = true -> (0 < number P (threads m))%nat).
  { intros P HP. destruct (decide (number P (threads m) = 0)) as [H0|]; [|lia].
    rewrite number_zero in H0. specialize (H0 _ _ Ht). congruence. }
  rewrite (Hz at_pop), (Hz notifies_empty) in P1 by (try done; by intros [] []).
  rewrite (Hz at_push), (Hz notifies_full) in P2 by (try done; by intros [] []).
  rewrite (Hz closes_empty) in C1 by (try done; by intros [] []).
  rewrite (Hz closes_empty), (Hz closes_full) in C2 by (try done; by intros [] []).
  split; intros Hw; pose proof (Hsome _ Hw) as Hn; destruct (closed_ (q m)).
  - specialize (C1 eq_refl Hn). lia.
  - specialize (P1 eq_refl Hn). split; [|done]. unfold size in P1. destruct (queue_ (q m)); [done|].
    simpl in P1. lia.
  - specialize (C2 eq_refl Hn). lia.
  - specialize (P2 eq_refl Hn). split; [lia|done].
Qed.

(** A queue of one place used by two threads. *)
Definition small_start : monitor nat :=
  {| q := {| capacity_ := 1; queue_ := []; high_water_mark_ := 0; closed_ := false |};
     threads := gset_to_gmap Idle (set_seq 0 2); pushed := []; popped := [] |}.

(** Thread 0 pops and falls asleep; thread 1 pushes 7 and notifies it. *)
Definition small_asleep : monitor nat := set_thread 0 PopWaiting (set_thread 0 PopAt small_start).
Definition small_pushed : monitor nat :=
  {| q := {| capacity_ := 1; queue_ := [7]; high_water_mark_ := 1; closed_ := false |};
     threads := <[1 := NotifyNotEmpty]> (threads (set_thread 1 (PushAt 7) small_asleep));
     pushed := [7]; popped := [] |}.

Lemma small_asleep_reached : rtc mstep small_start small_asleep.
Proof.
  eapply rtc_l; [by apply (m_call_pop small_start 0)|].
  apply rtc_once. by apply m_pop_wait.
Qed.

Lemma small_pushed_reached : rtc mstep small_asleep small_pushed.
Proof.
  eapply rtc_l; [by apply (m_call_push small_asleep 1 7)|].
  apply rtc_once. by apply (m_push_done (set_thread 1 (PushAt 7) small_asleep) 1 7).
Qed.

Lemma small_quiescent : quiescent small_asleep.
Proof.
  assert (H : map_Forall (fun _ t => t = Idle \/ is_waiting_pop t = true \/ is_waiting_push t = true)
                (threads small_asleep)); [|exact H].
  unfold small_asleep, set_thread. simpl.
  rewrite insert_insert_eq. apply map_Forall_insert_2; [by auto|].
  intros i t. rewrite lookup_gset_to_gmap_Some. intros [_ <-]. by left.
Qed.

Lemma queue_fifo_bounded_witness :
  pushed small_pushed = popped small_pushed ++ queue_ (q small_pushed) /\
  (size (q small_pushed) <= 1)%nat.
Proof.
  destruct (queue_fifo_bounded 1 2 small_start small_asleep small_pushed) as (H1 & H2 & _);
    [repeat split|exact small_asleep_reached|exact small_pushed_reached|].
  split; [exact H1|exact H2].
Defined.

Lemma no_lost_wakeup_witness : queue_ (q small_asleep) = [] /\ closed_ (q small_asleep) = false.
Proof.
  apply (no_lost_wakeup 1 2 small_start small_asleep 0 PopWaiting);
    [repeat split|exact small_asleep_reached|exact small_quiescent|reflexivity|reflexivity].
Defined.
