(* ===== verification/WorkerPool.v ===== *)
(** * The worker pool

    Models [include/http/worker_pool.hpp] and [src/worker_pool.cpp] as a transition
    system: any number of threads call [dispatch], each worker runs [worker_loop], and
    the steps of all of them interleave at the accesses to the queue and to the atomic
    counters. A blocking [push] or [pop] is a step that is enabled when its wait predicate
    holds, which [BoundedQueue.no_lost_wakeup] justifies. What a connection returns is
    the result of [Connection.serve] for some behaviour of the kernel. *)

From Stdlib Require Import Ascii String.
From stdpp Require Import base numbers list gmap strings.
From S2P Require Import Prelude CppLib Parser Response FileSystem StaticFileHandler Router Fd.
From S2P Require Import Connection BoundedQueue.

(** ** The atomic counters *)

(** The names of the [std::atomic] members. *)
Inductive counter :=
| dispatched_connections_ | rejected_dispatches_ | active_connections_
| completed_connections_ | requests_served_ | bytes_read_ | bytes_written_
| peer_closes_ | explicit_closes_ | request_limit_closes_ | parse_errors_ | read_timeouts_
| keep_alive_timeouts_ | write_timeouts_ | read_errors_ | write_errors_ | worker_errors_.

#[export] Instance counter_eq_dec : EqDecision counter.
Proof. solve_decision. Defined.

(** The values of the counters, which wrap around at the size of [std::size_t]. *)
Definition Counters : Type := counter -> N.
Definition zero_counters : Counters := fun _ => 0%N.

Definition fetch_add (x : counter) (n : N) (c : Counters) : Counters :=
  fun y => if bool_decide (x = y) then sz_add (c y) n else c y.
Definition fetch_sub (x : counter) (n : N) (c : Counters) : Counters :=
  fun y => if bool_decide (x = y) then sz_sub (c y) n else c y.

Record WorkerPoolStats := {
  dispatched_connections : N; rejected_dispatches : N; active_connections : N;
  queued_connections : N; queue_high_water : N; completed_connections : N;
  total_requests_served : N; total_bytes_read : N; total_bytes_written : N;
  peer_closes : N; explicit_closes : N; request_limit_closes : N; parse_errors : N;
  read_timeouts : N; keep_alive_timeouts : N; write_timeouts : N; read_errors : N;
  write_errors : N; worker_errors : N
}.

(** The counter the [switch] of [record_result] selects. *)
Definition reason_counter (why : ConnectionEndReason) : counter :=
  match why with
  | PeerClosed => peer_closes_
  | ConnectionClose => explicit_closes_
  | RequestLimit => request_limit_closes_
  | ParseError => parse_errors_
  | ReadTimeout => read_timeouts_
  | KeepAliveTimeout => keep_alive_timeouts_
  | WriteTimeout => write_timeouts_
  | ReadError => read_errors_
  | WriteError => write_errors_
  end.

Definition record_result (r : ConnectionResult) (c : Counters) : Counters :=
  let c := fetch_add completed_connections_ 1 c in
  let c := fetch_add requests_served_ (requests_served r) c in
  let c := fetch_add bytes_read_ (bytes_read r) c in
  let c := fetch_add bytes_written_ (bytes_written r) c in
  fetch_add (reason_counter (reason r)) 1 c.

(** ** The pool *)

(** Where a worker is in its loop: before [pop]; after it, before the active count is
    raised; serving; after the result or the error is counted, before the active count
    is lowered; returned. *)
Inductive worker :=
| Popping | Popped (client : Z) | Serving (client : Z) | Finishing | Exited.

#[export] Instance worker_eq_dec : EqDecision worker.
Proof. solve_decision. Defined.

(** [uncounted] and [unrejected] are the calls of [dispatch] between the queue and the
    counter. The last four members are not in the program: the descriptors dispatched and
    those whose service ended, in order, the results recorded and the errors counted. *)
Record WorkerPool := {
  pool_queue : BoundedQueue Z;
  counters : Counters;
  workers_ : list worker;
  uncounted : nat;
  unrejected : nat;
  taken : list Z;
  ended : list Z;
  results : list ConnectionResult;
  errors : nat
}.

(** The constructor; [None] is [std::invalid_argument] from the queue or the pool. *)
Definition make_worker_pool (worker_count queue_capacity : nat) : option WorkerPool :=
  match make_queue queue_capacity with
  | None => None
  | Some q =>
      if (worker_count =? 0)%nat then None
      else Some
        {| pool_queue := q; counters := zero_counters; workers_ := replicate worker_count Popping;
           uncounted := 0; unrejected := 0; taken := []; ended := []; results := []; errors := 0 |}
  end.

Definition worker_count (p : WorkerPool) : nat := length (workers_ p).
Definition pending (p : WorkerPool) : nat := size (pool_queue p).

Definition stats (p : WorkerPool) : WorkerPoolStats :=
  let load := counters p in
  {| dispatched_connections := load dispatched_connections_;
     rejected_dispatches := load rejected_dispatches_;
     active_connections := load active_connections_;
     queued_connections := N.of_nat (size (pool_queue p));
     queue_high_water := N.of_nat (high_water_mark (pool_queue p));
     completed_connections := load completed_connections_;
     total_requests_served := load requests_served_;
     total_bytes_read := load bytes_read_;
     total_bytes_written := load bytes_written_;
     peer_closes := load peer_closes_;
     explicit_closes := load explicit_closes_;
     request_limit_closes := load request_limit_closes_;
     parse_errors := load parse_errors_;
     read_timeouts := load read_timeouts_;
     keep_alive_timeouts := load keep_alive_timeouts_;
     write_timeouts := load write_timeouts_;
     read_errors := load read_errors_;
     write_errors := load write_errors_;
     worker_errors := load worker_errors_ |}.

(** ** The steps *)

Definition request_shutdown (p : WorkerPool) : WorkerPool :=
  {| pool_queue := close (pool_queue p); counters := counters p; workers_ := workers_ p;
     uncounted := uncounted p; unrejected := unrejected p; taken := taken p;
     ended := ended p; results := results p; errors := errors p |}.

(** [dispatch]: a successful or refused [push], then its counter. *)
Definition dispatch_pushed (q : BoundedQueue Z) (p : WorkerPool) : WorkerPool :=
  {| pool_queue := q; counters := counters p; workers_ := workers_ p;
     uncounted := S (uncounted p); unrejected := unrejected p; taken := taken p;
     ended := ended p; results := results p; errors := errors p |}.
Definition dispatch_counted (n : nat) (p : WorkerPool) : WorkerPool :=
  {| pool_queue := pool_queue p; counters := fetch_add dispatched_connections_ 1 (counters p);
     workers_ := workers_ p; uncounted := n; unrejected := unrejected p; taken := taken p;
     ended := ended p; results := results p; errors := errors p |}.
Definition dispatch_refused (p : WorkerPool) : WorkerPool :=
  {| pool_queue := pool_queue p; counters := counters p; workers_ := workers_ p;
     uncounted := uncounted p; unrejected := S (unrejected p); taken := taken p;
     ended := ended p; results := results p; errors := errors p |}.
Definition dispatch_rejected (n : nat) (p : WorkerPool) : WorkerPool :=
  {| pool_queue := pool_queue p; counters := fetch_add rejected_dispatches_ 1 (counters p);
     workers_ := workers_ p; uncounted := uncounted p; unrejected := n; taken := taken p;
     ended := ended p; results := results p; errors := errors p |}.

(** The steps of [worker_loop] of worker [i]. *)
Definition worker_popped (i : nat) (client : Z) (q : BoundedQueue Z) (p : WorkerPool) : WorkerPool :=
  {| pool_queue := q; counters := counters p;
     workers_ := <[i := Popped client]> (workers_ p); uncounted := uncounted p;
     unrejected := unrejected p; taken := taken p ++ [client]; ended := ended p;
     results := results p; errors := errors p |}.
Definition worker_starts (i : nat) (client : Z) (p : WorkerPool) : WorkerPool :=
  {| pool_queue := pool_queue p; counters := fetch_add active_connections_ 1 (counters p);
     workers_ := <[i := Serving client]> (workers_ p); uncounted := uncounted p;
     unrejected := unrejected p; taken := taken p; ended := ended p; results := results p;
     errors := errors p |}.
Definition worker_result (i : nat) (client : Z) (r : ConnectionResult) (p : WorkerPool) : WorkerPool :=
  {| pool_queue := pool_queue p; counters := record_result r (counters p);
     workers_ := <[i := Finishing]> (workers_ p); uncounted := uncounted p;
     unrejected := unrejected p; taken := taken p; ended := ended p ++ [client];
     results := results p ++ [r]; errors := errors p |}.
Definition worker_error (i : nat) (client : Z) (p : WorkerPool) : WorkerPool :=
  {| pool_queue := pool_queue p; counters := fetch_add worker_errors_ 1 (counters p);
     workers_ := <[i := Finishing]> (workers_ p); uncounted := uncounted p;
     unrejected := unrejected p; taken := taken p; ended := ended p ++ [client];
     results := results p; errors := S (errors p) |}.
Definition worker_finishes (i : nat) (p : WorkerPool) : WorkerPool :=
  {| pool_queue := pool_queue p; counters := fetch_sub active_connections_ 1 (counters p);
     workers_ := <[i := Popping]> (workers_ p); uncounted := uncounted p;
     unrejected := unrejected p; taken := taken p; ended := ended p; results := results p;
     errors := errors p |}.
Definition worker_exits (i : nat) (p : WorkerPool) : WorkerPool :=
  {| pool_queue := pool_queue p; counters := counters p;
     workers_ := <[i := Exited]> (workers_ p); uncounted := uncounted p;
     unrejected := unrejected p; taken := taken p; ended := ended p; results := results p;
     errors := errors p |}.

(** What constructing and serving a connection may return. *)
Definition served `{MapOrder} `{FileSystem} (cfg : ConnectionConfig) (h : StaticFileHandler)
    (client : Z) (r : ConnectionResult) : Prop :=
  exists (K : Kernel) w fuel w', make_connection client cfg [] = Ok w /\ serve fuel h w = Some (r, w').

Section Steps.
Context `{MapOrder} `{FileSystem}.
Context (cfg : ConnectionConfig) (h : StaticFileHandler).

Inductive worker_step : WorkerPool -> WorkerPool -> Prop :=
| w_pop p i client q :
    workers_ p !! i = Some Popping -> pop (pool_queue p) = PopItem client q ->
    worker_step p (worker_popped i client q p)
| w_start p i client :
    workers_ p !! i = Some (Popped client) -> worker_step p (worker_starts i client p)
| w_result p i client r :
    workers_ p !! i = Some (Serving client) -> served cfg h client r ->
    worker_step p (worker_result i client r p)
| w_error p i client :
    workers_ p !! i = Some (Serving client) -> worker_step p (worker_error i client p)
| w_finish p i :
    workers_ p !! i = Some Finishing -> worker_step p (worker_finishes i p)
| w_exit p i :
    workers_ p !! i = Some Popping -> pop (pool_queue p) = PopNone ->
    worker_step p (worker_exits i p).

Inductive pool_step : WorkerPool -> WorkerPool -> Prop :=
| p_worker p p' : worker_step p p' -> pool_step p p'
| p_push p client q :
    push client (pool_queue p) = PushDone q -> pool_step p (dispatch_pushed q p)
| p_count p n : uncounted p = S n -> pool_step p (dispatch_counted n p)
| p_refuse p client :
    push client (pool_queue p) = PushRefused -> pool_step p (dispatch_refused p)
| p_reject p n : unrejected p = S n -> pool_step p (dispatch_rejected n p)
| p_close p : pool_step p (request_shutdown p).
End Steps.
