(* ===== verification/WorkerPoolFacts.v ===== *)
(** * The worker pool conserves connections

    The invariant of the pool under every interleaving, and what it means for the
    counters, for the number of descriptors the program holds and for shutdown. *)

From Stdlib Require Import Ascii String.
From stdpp Require Import base numbers list gmap strings.
From S2P Require Import Prelude CppLib Parser Response FileSystem StaticFileHandler Router Fd.
From S2P Require Import Connection BoundedQueue WorkerPool.

(** ** What the pool holds *)

(** The descriptor a worker holds. *)
Definition client_of (w : worker) : option Z :=
  match w with Popped client | Serving client => Some client | _ => None end.

Definition in_service (p : WorkerPool) : list Z := omap client_of (workers_ p).

(** The descriptors that entered the queue, in order. *)
Definition entered (p : WorkerPool) : list Z := taken p ++ queue_ (pool_queue p).

(** Whether a worker is counted as active. *)
Definition counted (w : worker) : bool :=
  match w with Serving _ | Finishing => true | _ => false end.

Definition active (p : WorkerPool) : nat := length (filter (fun w => counted w = true) (workers_ p)).

Definition with_reason (why : ConnectionEndReason) (rs : list ConnectionResult) : nat :=
  length (filter (fun r => reason r = why) rs).

Definition total (f : ConnectionResult -> N) (rs : list ConnectionResult) : N :=
  foldr (fun r n => (f r + n)%N) 0%N rs.

(** ** Modular counters *)

Definition word (n : N) : N := (n mod 2 ^ 64)%N.

Lemma word_add a b n : sz_add (word a) b = word n <-> word (a + b) = word n.
Proof. unfold word, sz_add. by rewrite N.Div0.add_mod_idemp_l. Qed.

Lemma sz_add_word a b : sz_add (word a) b = word (a + b).
Proof. by apply word_add. Qed.

Lemma sz_sub_word a b : (b <= a)%N -> (b < 2 ^ 64)%N -> sz_sub (word a) b = word (a - b).
Proof.
  intros Hb Hlt. unfold sz_sub, word. rewrite (N.mod_small b) by done.
  rewrite N.Div0.add_mod_idemp_l. replace (a + (2 ^ 64 - b))%N with (a - b + 1 * 2 ^ 64)%N by lia.
  by rewrite N.Div0.mod_add.
Qed.

Lemma total_snoc f rs r : total f (rs ++ [r]) = (total f rs + f r)%N.
Proof. induction rs as [|x rs IH]; simpl; [lia|]. rewrite IH. lia. Qed.

Lemma with_reason_snoc why rs r :
  with_reason why (rs ++ [r]) = (with_reason why rs + if bool_decide (reason r = why) then 1 else 0)%nat.
Proof.
  unfold with_reason. rewrite filter_app, length_app. f_equal.
  case_bool_decide; [by rewrite filter_cons_True|by rewrite filter_cons_False].
Qed.

(** An updated place of a list, seen from its two sides. *)
Lemma insert_sides {A} (l : list A) i x :
  l !! i = Some x -> exists a b, l = a ++ x :: b /\ forall y, <[i := y]> l = a ++ y :: b.
Proof.
  intros Hi. exists (take i l), (drop (S i) l). split; [by rewrite take_drop_middle|].
  intros y. apply insert_take_drop. by eapply lookup_lt_Some.
Qed.

Lemma length_omap_le {A B} (f : A -> option B) l : (length (omap f l) <= length l)%nat.
Proof.
  induction l as [|x l IH]; [done|].
  change (omap f (x :: l)) with (match f x with Some y => y :: omap f l | None => omap f l end).
  destruct (f x); cbn [length]; lia.
Qed.

(** ** The invariant *)

Record pool_inv (W Q : nat) (p : WorkerPool) : Prop := {
  pi_workers : length (workers_ p) = W;
  pi_capacity : capacity_ (pool_queue p) = Q;
  pi_bound : (size (pool_queue p) <= Q)%nat;
  pi_dispatched : exists d, counters p dispatched_connections_ = word (N.of_nat d) /\
    (d + uncounted p = length (entered p))%nat;
  pi_taken : taken p ≡ₚ ended p ++ in_service p;
  pi_ended : (length (ended p) = length (results p) + errors p)%nat;
  pi_active : counters p active_connections_ = word (N.of_nat (active p));
  pi_completed : counters p completed_connections_ = word (len (results p));
  pi_requests : counters p requests_served_ = word (total requests_served (results p));
  pi_read : counters p bytes_read_ = word (total bytes_read (results p));
  pi_written : counters p bytes_written_ = word (total bytes_written (results p));
  pi_reason why : counters p (reason_counter why) = word (N.of_nat (with_reason why (results p)));
  pi_errors : counters p worker_errors_ = word (N.of_nat (errors p));
  pi_exited : Exited ∈ workers_ p -> closed_ (pool_queue p) = true /\ queue_ (pool_queue p) = []
}.

Lemma make_pool_inv W Q p : make_worker_pool W Q = Some p -> pool_inv W Q p.
Proof.
  unfold make_worker_pool, make_queue. destruct (Q =? 0)%nat; [done|].
  destruct (W =? 0)%nat; [done|]. intros Hp. injection Hp as <-.
  assert (Ha : forall n, filter (fun w => counted w = true) (replicate n Popping) = []) by (by induction n).
  assert (Ho : forall n, omap client_of (replicate n Popping) = []) by (by induction n).
  split; simpl; try done; unfold size, entered, in_service, active; simpl; rewrite ?Ha, ?Ho; try done.
  - by rewrite length_replicate.
  - lia.
  - by exists 0.
  - intros Hin%elem_of_replicate_inv. done.
Qed.

Lemma make_pool_workers W Q p : make_worker_pool W Q = Some p -> W <> 0.
Proof. unfold make_worker_pool. destruct (make_queue Q); [|done]. by destruct (Nat.eqb_spec W 0). Qed.

(** What a step of a worker that keeps the queue and the results does to the invariant:
    only the worker's place and the active count change. *)
Lemma move_worker W Q p i w w' c :
  pool_inv W Q p -> workers_ p !! i = Some w -> client_of w' = client_of w ->
  (forall x, x <> active_connections_ -> c x = counters p x) ->
  c active_connections_
    = word (N.of_nat (active p) + (if counted w' then 1 else 0) - (if counted w then 1 else 0)) ->
  (w' = Exited -> closed_ (pool_queue p) = true /\ queue_ (pool_queue p) = []) ->
  pool_inv W Q {| pool_queue := pool_queue p; counters := c; workers_ := <[i := w']> (workers_ p);
                  uncounted := uncounted p; unrejected := unrejected p; taken := taken p;
                  ended := ended p; results := results p; errors := errors p |}.
Proof.
  intros [] Hw Hcl Hc Ha Hx. destruct (insert_sides _ _ _ Hw) as (a & b & Hl & Hi).
  split; simpl; try done; try (rewrite Hc by done; done).
  - by rewrite length_insert.
  - etransitivity; [exact pi_taken0|]. unfold in_service. simpl. rewrite Hi, Hl, !omap_app. simpl.
    by rewrite Hcl.
  - rewrite Ha. f_equal. unfold active. simpl. rewrite Hi, Hl, !filter_app, !length_app.
    rewrite !filter_cons. destruct (decide (counted w = true)) as [E|E], (decide (counted w' = true)) as [E'|E'];
      rewrite ?E, ?E'; try (apply not_true_is_false in E; rewrite E);
      try (apply not_true_is_false in E'; rewrite E'); simpl; lia.
  - intros why. rewrite Hc by (by destruct why). done.
  - rewrite Hi. intros Hin. destruct (decide (w' = Exited)); [by auto|].
    apply pi_exited0. rewrite Hl. set_solver.
Qed.

(** The end of a service: the worker gives up its descriptor and a result or an error is
    counted. *)
Lemma end_service W Q p i client c rs n :
  pool_inv W Q p -> workers_ p !! i = Some (Serving client) ->
  (forall x, x = dispatched_connections_ \/ x = active_connections_ -> c x = counters p x) ->
  (length (results p) + errors p + 1 = length rs + n)%nat ->
  c completed_connections_ = word (len rs) ->
  c requests_served_ = word (total requests_served rs) ->
  c bytes_read_ = word (total bytes_read rs) ->
  c bytes_written_ = word (total bytes_written rs) ->
  (forall why, c (reason_counter why) = word (N.of_nat (with_reason why rs))) ->
  c worker_errors_ = word (N.of_nat n) ->
  pool_inv W Q {| pool_queue := pool_queue p; counters := c;
                  workers_ := <[i := Finishing]> (workers_ p);
                  uncounted := uncounted p; unrejected := unrejected p; taken := taken p;
                  ended := ended p ++ [client]; results := rs; errors := n |}.
Proof.
  intros [] Hw Hc Hn E1 E2 E3 E4 E5 E6. destruct (insert_sides _ _ _ Hw) as (a & b & Hl & Hi).
  split; simpl; try done; try (rewrite Hc by auto; done).
  - by rewrite length_insert.
  - etransitivity; [exact pi_taken0|]. unfold in_service. simpl. rewrite Hi, Hl, !omap_app. simpl.
    rewrite <- (assoc_L (++)). f_equiv. simpl. by rewrite Permutation_middle.
  - rewrite length_app. simpl. lia.
  - rewrite Hc by auto. rewrite pi_active0. f_equal. f_equal. unfold active. simpl.
    rewrite Hi, Hl, !filter_app, !length_app. simpl. done.
  - rewrite Hi. intros Hin. apply pi_exited0. rewrite Hl. set_solver.
Qed.

(** The effect of [record_result] on the counters. *)
Lemma record_result_spec r c :
  record_result r c dispatched_connections_ = c dispatched_connections_ /\
  record_result r c active_connections_ = c active_connections_ /\
  record_result r c worker_errors_ = c worker_errors_ /\
  record_result r c completed_connections_ = sz_add (c completed_connections_) 1 /\
  record_result r c requests_served_ = sz_add (c requests_served_) (requests_served r) /\
  record_result r c bytes_read_ = sz_add (c bytes_read_) (bytes_read r) /\
  record_result r c bytes_written_ = sz_add (c bytes_written_) (bytes_written r) /\
  forall why, record_result r c (reason_counter why)
    = if bool_decide (reason r = why) then sz_add (c (reason_counter why)) 1
      else c (reason_counter why).
Proof.
  unfold record_result, fetch_add. repeat split; [by destruct (reason r)..|].
  intros why. by destruct (reason r), why.
Qed.

(** A worker takes the front of the queue. *)
Lemma take_client W Q p i client q :
  pool_inv W Q p -> workers_ p !! i = Some Popping -> pop (pool_queue p) = PopItem client q ->
  pool_inv W Q (worker_popped i client q p).
Proof.
  intros [] Hw Hpop.
  destruct (pop_cases (pool_queue p)) as [(_ & _ & E)|[(_ & _ & E)|(x & xs & Hq & E)]];
    rewrite E in *; simplify_eq.
  assert (Hin : taken p ++ [client] ++ xs = entered p) by (unfold entered; by rewrite Hq).
  destruct (insert_sides _ _ _ Hw) as (a & b & Hl & Hi).
  split; simpl; try done.
  - by rewrite length_insert.
  - unfold size in *. simpl. rewrite Hq in pi_bound0. simpl in pi_bound0. lia.
  - unfold entered at 1. simpl. rewrite <- (assoc_L (++)), Hin. done.
  - unfold in_service in *. simpl. rewrite Hi. rewrite pi_taken0, Hl, !omap_app. simpl.
    rewrite <- (assoc_L (++)). f_equiv. rewrite (Permutation_app_comm _ [client]). simpl.
    by rewrite Permutation_middle.
  - rewrite pi_active0. f_equal. f_equal. unfold active. simpl.
    by rewrite Hi, Hl, !filter_app, !length_app.
  - rewrite Hi. intros Hin'. destruct pi_exited0 as [_ He]; [rewrite Hl; set_solver|].
    rewrite Hq in He. done.
Qed.

(** A worker being between its two counter updates is counted. *)
Lemma active_pos p i w :
  workers_ p !! i = Some w -> counted w = true -> (1 <= active p)%nat.
Proof.
  intros Hw Hc. unfold active. destruct (insert_sides _ _ _ Hw) as (a & b & -> & _).
  rewrite filter_app, length_app, filter_cons_True by done. simpl. lia.
Qed.

Lemma worker_step_inv `{MapOrder} `{FileSystem} cfg h W Q p p' :
  worker_step cfg h p p' -> pool_inv W Q p -> pool_inv W Q p'.
Proof.
  intros Hs Hp. pose proof Hp as []. destruct Hs.
  - by apply take_client.
  - apply (move_worker W Q p i (Popped client)); try done.
    + intros x Hx. unfold fetch_add. by rewrite bool_decide_eq_false_2.
    + unfold fetch_add. rewrite bool_decide_eq_true_2, pi_active0, sz_add_word by done. simpl.
      f_equal. lia.
  - destruct (record_result_spec r (counters p)) as (R1 & R2 & R3 & R4 & R5 & R6 & R7 & R8).
    apply end_service; try done.
    + by intros x [->| ->].
    + rewrite length_app. simpl. lia.
    + rewrite R4, pi_completed0, sz_add_word. f_equal. unfold len. rewrite length_app. simpl. lia.
    + by rewrite R5, pi_requests0, sz_add_word, total_snoc.
    + by rewrite R6, pi_read0, sz_add_word, total_snoc.
    + by rewrite R7, pi_written0, sz_add_word, total_snoc.
    + intros why. rewrite R8, with_reason_snoc, pi_reason0. case_bool_decide; [|by rewrite Nat.add_0_r].
      rewrite sz_add_word. f_equal. lia.
    + by rewrite R3.
  - apply end_service; try done.
    + by intros x [->| ->].
    + lia.
    + intros why. by destruct why; rewrite <- pi_reason0.
    + unfold fetch_add. rewrite bool_decide_eq_true_2, pi_errors0, sz_add_word by done. f_equal. lia.
  - apply (move_worker W Q p i Finishing); try done.
    + intros x Hx. unfold fetch_sub. by rewrite bool_decide_eq_false_2.
    + unfold fetch_sub. rewrite bool_decide_eq_true_2, pi_active0 by done.
      pose proof (active_pos p i Finishing ltac:(done) eq_refl).
      rewrite sz_sub_word by lia. simpl. f_equal. lia.
  - apply (move_worker W Q p i Popping); try done.
    + rewrite pi_active0. simpl. f_equal. lia.
    + intros _. destruct (pop_cases (pool_queue p)) as [(_ & _ & E)|[(Hq & Hc & _)|(x & xs & _ & E)]];
        [rewrite E in *; done|done|rewrite E in *; done].
Qed.

Section Runs.
Context `{MapOrder} `{FileSystem}.
Context (cfg : ConnectionConfig) (h : StaticFileHandler).

Notation worker_step := (worker_step cfg h).
Notation pool_step := (pool_step cfg h).

Lemma pool_step_inv W Q p p' : pool_step p p' -> pool_inv W Q p -> pool_inv W Q p'.
Proof.
  intros Hs Hp. destruct Hs as [p p' Hs|p client q Hq|p n Hn|p client Hq|p n Hn|p];
    [by eapply worker_step_inv|..]; pose proof Hp as [].
  - destruct (push_cases client (pool_queue p))
      as [(_ & E)|[(_ & _ & E)|(Hc & Hs & q' & E & Hq' & Hcap & Hcl & _)]]; rewrite E in Hq; simplify_eq.
    split; simpl; try done.
    + unfold size in *. rewrite Hq', length_app. simpl. lia.
    + destruct pi_dispatched0 as (d & Hd & Hl). exists d. split; [done|]. unfold entered in *. simpl.
      rewrite Hq', !length_app in *. simpl. lia.
    + intros Hx. destruct (pi_exited0 Hx). congruence.
  - split; simpl; try done.
    + destruct pi_dispatched0 as (d & Hd & Hl). exists (S d).
      split; [|unfold entered in *; simpl; lia].
      unfold fetch_add. rewrite bool_decide_eq_true_2, Hd, sz_add_word by done. f_equal. lia.
    + intros why. by destruct why; rewrite <- pi_reason0.
  - by split.
  - split; simpl; try done. intros why. by destruct why; rewrite <- pi_reason0.
  - split; simpl; try done. intros Hx. by destruct (pi_exited0 Hx).
Qed.

Lemma pool_run_inv W Q p p' : rtc pool_step p p' -> pool_inv W Q p -> pool_inv W Q p'.
Proof. induction 1; eauto using pool_step_inv. Qed.

(** ** Shutdown *)

(** When all workers have returned nothing is left in the pool. *)
Lemma all_exited_drained W Q p :
  pool_inv W Q p -> W <> 0 -> Forall (fun w => w = Exited) (workers_ p) ->
  closed_ (pool_queue p) = true /\ queue_ (pool_queue p) = [] /\ entered p ≡ₚ ended p /\ active p = 0.
Proof.
  intros [] HW Hall.
  assert (Hs0 : in_service p = [] /\ active p = 0).
  { unfold in_service, active. clear -Hall. induction Hall as [|w ws -> _ [IH1 IH2]]; [done|].
    rewrite filter_cons_False by done. split; [|done]. exact IH1. }
  assert (Hx : Exited ∈ workers_ p).
  { destruct (workers_ p) as [|w ws]; [simpl in *; lia|]. apply Forall_cons in Hall as [-> _]. by left. }
  destruct (pi_exited0 Hx) as [Hc Hq]. destruct Hs0 as [Hs0 Ha]. repeat (split; [done|]).
  split; [|done]. unfold entered. by rewrite Hq, app_nil_r, pi_taken0, Hs0, app_nil_r.
Qed.

(** How much a worker and the queue have left to do once the queue is closed. *)
Definition rank (w : worker) : nat :=
  match w with Exited => 0 | Popping => 1 | Finishing => 2 | Serving _ => 3 | Popped _ => 4 end.

Definition work_left (p : WorkerPool) : nat :=
  4 * size (pool_queue p) + sum_list_with rank (workers_ p).

Lemma sum_insert i w w' ws :
  ws !! i = Some w ->
  (sum_list_with rank (<[i := w']> ws) + rank w = sum_list_with rank ws + rank w')%nat.
Proof.
  intros Hw. destruct (insert_sides _ _ _ Hw) as (a & b & -> & Hi).
  rewrite Hi, !sum_list_with_app. simpl. lia.
Qed.

Lemma worker_step_work p p' : worker_step p p' -> (work_left p' < work_left p)%nat.
Proof.
  intros Hs. unfold work_left. destruct Hs; simpl;
    match goal with Hw : workers_ _ !! _ = Some ?w |- context [<[_ := ?w']> _] =>
      pose proof (sum_insert _ _ w' _ Hw) end; simpl in *; try lia.
  destruct (pop_cases (pool_queue p)) as [(_ & _ & E)|[(_ & _ & E)|(x & xs & Hq & E)]];
    rewrite E in *; simplify_eq. unfold size. rewrite Hq. simpl. lia.
Qed.

Lemma worker_progress p i w :
  closed_ (pool_queue p) = true -> workers_ p !! i = Some w -> w <> Exited ->
  exists p', worker_step p p'.
Proof.
  intros Hc Hw Hx. destruct w as [|client|client| |]; [|eexists; by econstructor..|done].
  destruct (pop_cases (pool_queue p)) as [(_ & E & _)|[(_ & _ & E)|(x & xs & _ & E)]]; [congruence|..].
  - eexists. by eapply w_exit.
  - eexists. by eapply w_pop.
Qed.
End Runs.

(** ** Properties *)

Section Properties.
Context `{MapOrder} `{FileSystem}.

(** The counter that the report has for each end reason. *)
Definition end_counters : list (ConnectionEndReason * counter) :=
  [(PeerClosed, peer_closes_); (ConnectionClose, explicit_closes_); (RequestLimit, request_limit_closes_);
   (ParseError, parse_errors_); (ReadTimeout, read_timeouts_); (KeepAliveTimeout, keep_alive_timeouts_);
   (WriteTimeout, write_timeouts_); (ReadError, read_errors_); (WriteError, write_errors_)].

Lemma end_counters_named : Forall (fun wk => reason_counter wk.1 = wk.2) end_counters.
Proof. by repeat constructor. Qed.

(** C10. Conservation. At every moment of every interleaving of dispatching threads and
    workers: each descriptor that entered the queue is queued, in service or ended,
    exactly once; the counters that dispatching threads have updated agree with it;
    completed connections and worker errors together are the services that ended; the
    request and byte counters are the sums over the recorded results, and each end reason
    is counted exactly as often as it occurred, in the counter that has its name, all modulo
    the word size. *)
Theorem pool_conserves cfg h W Q p0 p :
  make_worker_pool W Q = Some p0 -> rtc (pool_step cfg h) p0 p ->
  Permutation (entered p) (ended p ++ in_service p ++ queue_ (pool_queue p)) /\
  (exists d, counters p dispatched_connections_ = word (N.of_nat d) /\
     (d + uncounted p = length (entered p))%nat) /\
  (length (ended p) = length (results p) + errors p)%nat /\
  counters p completed_connections_ = word (len (results p)) /\
  counters p worker_errors_ = word (N.of_nat (errors p)) /\
  counters p active_connections_ = word (N.of_nat (active p)) /\
  counters p requests_served_ = word (total requests_served (results p)) /\
  counters p bytes_read_ = word (total bytes_read (results p)) /\
  counters p bytes_written_ = word (total bytes_written (results p)) /\
  (forall why, counters p (reason_counter why) = word (N.of_nat (with_reason why (results p)))) /\
  Forall (fun wk => counters p wk.2 = word (N.of_nat (with_reason wk.1 (results p)))) end_counters.
Proof.
  intros Hm Hr. pose proof (pool_run_inv _ _ _ _ _ _ Hr (make_pool_inv _ _ _ Hm)) as [].
  split; [unfold entered; by rewrite pi_taken0, <- (assoc_L (++))|]. repeat (split; [done|]).
  eapply Forall_impl; [exact end_counters_named|]. intros [why k] <-. done.
Qed.

(** Bounded resources: with [W] workers and a queue of capacity [Q] at most [W]
    descriptors are in service and at most [Q] are queued, whatever the load. *)
Theorem pool_descriptors_bounded cfg h W Q p0 p :
  make_worker_pool W Q = Some p0 -> rtc (pool_step cfg h) p0 p ->
  (length (in_service p) <= W)%nat /\ (pending p <= Q)%nat /\ worker_count p = W.
Proof.
  intros Hm Hr. pose proof (pool_run_inv _ _ _ _ _ _ Hr (make_pool_inv _ _ _ Hm)) as [].
  split; [|done]. rewrite <- pi_workers0. apply length_omap_le.
Qed.

(** C21. Shutdown drains and ends. After the queue is closed, the workers take at most
    [work_left] steps in any interleaving, and as long as one has not returned one can
    take a step; when all have returned, the queue is empty and every descriptor that was
    ever dispatched has been served to its end. *)
Theorem shutdown_drains cfg h W Q p0 p p' n :
  make_worker_pool W Q = Some p0 -> rtc (pool_step cfg h) p0 p -> closed_ (pool_queue p) = true ->
  nsteps (worker_step cfg h) n p p' ->
  (n <= work_left p)%nat /\
  ((exists w, w ∈ workers_ p' /\ w <> Exited) -> exists p'', worker_step cfg h p' p'') /\
  (Forall (fun w => w = Exited) (workers_ p') ->
     queue_ (pool_queue p') = [] /\ Permutation (entered p) (ended p') /\ active p' = 0).
Proof.
  intros Hm Hr Hc Hn.
  assert (Hsteps : (work_left p' + n <= work_left p)%nat /\ closed_ (pool_queue p') = true /\
                   entered p' = entered p).
  { clear Hr. induction Hn as [p|n p p1 p' Hs Hn IH]; [split; [lia|done]|].
    assert (closed_ (pool_queue p1) = true /\ entered p1 = entered p) as [Hc1 He1].
    { destruct Hs; simpl; try done.
      destruct (pop_cases (pool_queue p)) as [(_ & _ & E)|[(_ & _ & E)|(x & xs & Hq & E)]];
        rewrite E in *; simplify_eq/=. split; [done|]. unfold entered. simpl.
      by rewrite Hq, <- (assoc_L (++)). }
    pose proof (worker_step_work _ _ _ _ Hs). destruct (IH Hc1) as (H1' & H2' & H3').
    rewrite H3', He1. split; [lia|done]. }
  destruct Hsteps as (Hwork & Hc' & He). split; [lia|]. split.
  - intros (w & Hw & Hx). apply list_elem_of_lookup in Hw as [i Hi]. by eapply worker_progress.
  - intros Hall. assert (Hr' : rtc (pool_step cfg h) p0 p').
    { etransitivity; [exact Hr|]. apply (rtc_subrel (worker_step cfg h)); [|by apply rtc_nsteps; exists n].
      intros x y Hxy. by apply p_worker. }
    destruct (all_exited_drained W Q p') as (_ & Hq & Hp & Ha); [..|done|].
    + exact (pool_run_inv _ _ _ _ _ _ Hr' (make_pool_inv _ _ _ Hm)).
    + exact (make_pool_workers _ _ _ Hm).
    + split; [done|]. split; [|done]. by rewrite <- He.
Qed.
End Properties.
