(* ===== verification/WorkerPoolExample.v ===== *)
(** * A run of the worker pool

    One worker and a queue of one place: a connection is dispatched, the pool is shut
    down, and the worker drains it. The connection is the session of
    [ConnectionExample]. *)

From Stdlib Require Import Ascii String.
From stdpp Require Import base numbers list gmap strings.
From S2P Require Import Prelude CppLib Parser Response FileSystem StaticFileHandler Router.
From S2P Require Import FsTree Fd Connection ConnectionSpec ConnectionStep ConnectionFacts.
From S2P Require Import ConnectionExample BoundedQueue WorkerPool WorkerPoolFacts.

#[local] Existing Instance map_to_list_order.
#[local] Instance example_fs : FileSystem := tree_fs site.

Definition queue_of (items : list Z) (high : nat) (c : bool) : BoundedQueue Z :=
  {| capacity_ := 1; queue_ := items; high_water_mark_ := high; closed_ := c |}.

Definition pool_0 : WorkerPool :=
  {| pool_queue := queue_of [] 0 false; counters := zero_counters; workers_ := [Popping];
     uncounted := 0; unrejected := 0; taken := []; ended := []; results := []; errors := 0 |}.

(** A dispatch, counted, and a shutdown request. *)
Definition pool_closed : WorkerPool :=
  request_shutdown (dispatch_counted 0 (dispatch_pushed (queue_of [4%Z] 1 false) pool_0)).

(** The worker serves the connection and returns. *)
Definition pool_drained : WorkerPool :=
  worker_exits 0 (worker_finishes 0 (worker_result 0 4 session_result
    (worker_starts 0 4 (worker_popped 0 4 (queue_of [] 1 true) pool_closed)))).

Lemma session_served : served default_config site_handler 4 session_result.
Proof.
  destruct session_serves as [w' Hw]. exists session_kernel, (world_of session), 40, w'.
  split; [exact session_ok|exact Hw].
Qed.

Lemma pool_closed_reached : rtc (pool_step default_config site_handler) pool_0 pool_closed.
Proof.
  eapply rtc_l; [by apply (p_push _ _ pool_0 4%Z (queue_of [4%Z] 1 false))|].
  eapply rtc_l; [by apply (p_count _ _ _ 0)|].
  apply rtc_once, p_close.
Qed.

Lemma pool_drains : nsteps (worker_step default_config site_handler) 5 pool_closed pool_drained.
Proof.
  eapply nsteps_l; [by apply (w_pop _ _ pool_closed 0 4%Z (queue_of [] 1 true))|].
  eapply nsteps_l; [by apply (w_start _ _ _ 0 4%Z)|].
  eapply nsteps_l; [by apply (w_result _ _ _ 0 4%Z session_result); [|exact session_served]|].
  eapply nsteps_l; [by apply (w_finish _ _ _ 0)|].
  eapply nsteps_l; [by apply (w_exit _ _ _ 0)|]. apply nsteps_O.
Qed.

Lemma pool_drained_reached : rtc (pool_step default_config site_handler) pool_0 pool_drained.
Proof.
  etransitivity; [exact pool_closed_reached|].
  apply (rtc_subrel (worker_step default_config site_handler)).
  - intros x y Hxy. by apply p_worker.
  - apply rtc_nsteps. exists 5. exact pool_drains.
Qed.

Lemma pool_conserves_witness :
  Permutation (entered pool_drained)
    (ended pool_drained ++ in_service pool_drained ++ queue_ (pool_queue pool_drained)) /\
  counters pool_drained requests_served_ = 2%N.
Proof.
  destruct (pool_conserves default_config site_handler 1 1 pool_0 pool_drained eq_refl
    pool_drained_reached) as (H1 & _ & _ & _ & _ & _ & H2 & _).
  split; [exact H1|]. rewrite H2. vm_compute. reflexivity.
Defined.

Lemma pool_descriptors_bounded_witness : (length (in_service pool_drained) <= 1)%nat.
Proof.
  exact (proj1 (pool_descriptors_bounded default_config site_handler 1 1 pool_0 pool_drained eq_refl
    pool_drained_reached)).
Defined.

Lemma shutdown_drains_witness :
  Permutation (entered pool_closed) (ended pool_drained) /\ (5 <= work_left pool_closed)%nat.
Proof.
  destruct (shutdown_drains default_config site_handler 1 1 pool_0 pool_closed pool_drained 5 eq_refl
    pool_closed_reached eq_refl pool_drains) as (H1 & _ & H2).
  split; [|exact H1]. apply H2. constructor; [reflexivity|constructor].
Defined.
