(* ===== verification/PoolStart.v ===== *)
(** * Starting the workers

    The constructor of the pool ([src/worker_pool.cpp]) starts its threads one by one; a
    thread that cannot be started makes it close the queue, join the threads that run
    already and rethrow. The workers run while the constructor does. [WorkerPool] takes
    the pool with all its workers as given; here it is what a successful constructor
    leaves, and a failed one leaves no thread behind. *)

From Stdlib Require Import Ascii String.
From stdpp Require Import base numbers list gmap strings.
From S2P Require Import Prelude CppLib Parser Response FileSystem StaticFileHandler Router Fd.
From S2P Require Import Connection FsTree ConnectionExample BoundedQueue WorkerPool.
From S2P Require Import WorkerPoolFacts WorkerPoolExample.

(** Where the constructor is: in the loop that starts threads, in the handler waiting for
    the threads it started, returned, or left by the exception. *)
Inductive start_phase := Spawning | JoiningStarted | Started | StartThrew.

Record Starting := { st_pool : WorkerPool; st_phase : start_phase }.

(** The pool before the body of the constructor, with the workers started so far. *)
Definition pool_with (q : BoundedQueue Z) (ws : list worker) : WorkerPool :=
  {| pool_queue := q; counters := zero_counters; workers_ := ws; uncounted := 0; unrejected := 0;
     taken := []; ended := []; results := []; errors := 0 |}.

(** The member initializers and the check of the worker count. *)
Definition start_pool (worker_count queue_capacity : nat) : option Starting :=
  match make_queue queue_capacity with
  | None => None
  | Some q =>
      if (worker_count =? 0)%nat then None
      else Some {| st_pool := pool_with q []; st_phase := Spawning |}
  end.

Definition spawned (p : WorkerPool) : WorkerPool :=
  {| pool_queue := pool_queue p; counters := counters p; workers_ := workers_ p ++ [Popping];
     uncounted := uncounted p; unrejected := unrejected p; taken := taken p; ended := ended p;
     results := results p; errors := errors p |}.

Section Steps.
Context `{MapOrder} `{FileSystem}.
Context (cfg : ConnectionConfig) (h : StaticFileHandler) (worker_count : nat).

Inductive start_step : Starting -> Starting -> Prop :=
| st_spawn p :
    (length (workers_ p) < worker_count)%nat ->
    start_step {| st_pool := p; st_phase := Spawning |}
               {| st_pool := spawned p; st_phase := Spawning |}
| st_spawn_fails p :
    (length (workers_ p) < worker_count)%nat ->
    start_step {| st_pool := p; st_phase := Spawning |}
               {| st_pool := request_shutdown p; st_phase := JoiningStarted |}
| st_done p :
    ~ (length (workers_ p) < worker_count)%nat ->
    start_step {| st_pool := p; st_phase := Spawning |}
               {| st_pool := p; st_phase := Started |}
| st_joined p :
    Forall (fun w => w = Exited) (workers_ p) ->
    start_step {| st_pool := p; st_phase := JoiningStarted |}
               {| st_pool := p; st_phase := StartThrew |}
| st_worker p p' ph :
    worker_step cfg h p p' -> ph <> Started ->
    start_step {| st_pool := p; st_phase := ph |} {| st_pool := p'; st_phase := ph |}.

(** ** The invariant: no worker has found anything to do *)

Record start_inv (q : BoundedQueue Z) (s : Starting) : Prop := {
  sti_pool : st_pool s = pool_with (match st_phase s with
               | Spawning | Started => q | _ => close q end) (workers_ (st_pool s));
  sti_length : (length (workers_ (st_pool s)) <= worker_count)%nat;
  sti_popping : st_phase s = Spawning \/ st_phase s = Started ->
    Forall (fun w => w = Popping) (workers_ (st_pool s));
  sti_idle : Forall (fun w => w = Popping \/ w = Exited) (workers_ (st_pool s));
  sti_full : st_phase s = Started -> length (workers_ (st_pool s)) = worker_count;
  sti_gone : st_phase s = StartThrew -> Forall (fun w => w = Exited) (workers_ (st_pool s))
}.

(** On a queue that was never used, an open queue blocks every worker and a closed one
    lets it return. *)
Lemma idle_worker_step q ws p' :
  queue_ q = [] -> Forall (fun w => w = Popping \/ w = Exited) ws ->
  worker_step cfg h (pool_with q ws) p' ->
  closed_ q = true /\ exists i, ws !! i = Some Popping /\ p' = pool_with q (<[i := Exited]> ws).
Proof.
  intros Hq Hidle Hs. inversion Hs as
    [p i c q' Hw Hp|p i c Hw|p i c r Hw|p i c Hw|p i Hw|p i Hw Hp]; subst; simpl in *;
    pose proof (Forall_lookup_1 _ _ _ _ Hidle Hw) as [?|?]; simplify_eq;
    unfold pop in Hp; rewrite Hq in Hp; destruct (closed_ q) eqn:E; simpl in Hp; try done.
  split; [done|]. by exists i.
Qed.

Lemma start_step_inv q s s' :
  queue_ q = [] -> closed_ q = false -> start_step s s' -> start_inv q s -> start_inv q s'.
Proof.
  intros Hq Hc Hs [I1 I2 I3 I4 I5 I6]. destruct Hs as [p Hl|p Hl|p Hl|p Hall|p p' ph Hw Hph]; simpl in *.
  - assert (Hpop := I3 (or_introl eq_refl)). split; simpl; try done.
    + rewrite I1. done.
    + rewrite length_app. simpl. lia.
    + intros _. apply Forall_app. by split; [|apply Forall_singleton].
    + apply Forall_app. split; [done|]. apply Forall_singleton. by left.
  - split; simpl; try done; [by rewrite I1 at 1|by intros [?|?]].
  - split; simpl; try done; [intros _; apply I3; by left|]. intros _. lia.
  - split; simpl; try done. by intros [?|?].
  - rewrite I1 in Hw. apply idle_worker_step in Hw as (Hcl & i & Hi & ->); [|by destruct ph|done].
    destruct ph; try done; try congruence.
    + split; simpl; try done; [by rewrite length_insert|by intros [?|?]|].
      apply Forall_insert; [done|by right].
    + exfalso. rewrite Forall_lookup in I6. by specialize (I6 eq_refl _ _ Hi).
Qed.
End Steps.

(** ** Properties *)

Section Properties.
Context `{MapOrder} `{FileSystem}.

(** What is left of the constructor: threads to start, threads to join. *)
Definition start_left (worker_count : nat) (s : Starting) : nat :=
  match st_phase s with
  | Spawning => 2 * (worker_count - length (workers_ (st_pool s))) + length (workers_ (st_pool s)) + 2
  | JoiningStarted => sum_list_with rank (workers_ (st_pool s)) + 1
  | Started | StartThrew => 0
  end.

Lemma rank_popping ws : Forall (fun w => w = Popping) ws -> sum_list_with rank ws = length ws.
Proof. induction 1 as [|w ws -> _ IH]; simpl; lia. Qed.

Lemma replicate_eq ws :
  Forall (fun w => w = Popping) ws -> ws = replicate (length ws) Popping.
Proof. induction 1 as [|w ws -> _ IH]; simpl; [done|]. by f_equal. Qed.

Lemma start_step_left cfg h W q s s' :
  queue_ q = [] -> closed_ q = false -> start_inv W q s ->
  start_step cfg h W s s' -> (start_left W s' < start_left W s)%nat.
Proof.
  intros Hq Hc [I1 I2 I3 I4 I5 I6] Hs. destruct Hs as [p Hl|p Hl|p Hl|p Hall|p p' ph Hw Hph]; simpl in *.
  - unfold start_left. simpl. rewrite length_app. simpl. lia.
  - unfold start_left. simpl. rewrite rank_popping by auto. lia.
  - unfold start_left. simpl. lia.
  - unfold start_left. simpl. lia.
  - rewrite I1 in Hw. apply idle_worker_step in Hw as (Hcl & i & Hi & ->); [|by destruct ph|done].
    destruct ph; try done; try (simpl in Hcl; congruence).
    + unfold start_left. simpl. pose proof (sum_insert i Popping Exited _ Hi). simpl in *. lia.
    + rewrite Forall_lookup in I6. by specialize (I6 eq_refl _ _ Hi).
Qed.

Lemma start_run_inv cfg h W q s s' :
  queue_ q = [] -> closed_ q = false -> rtc (start_step cfg h W) s s' -> start_inv W q s -> start_inv W q s'.
Proof. intros Hq Hc. induction 1; eauto using start_step_inv. Qed.

Lemma start_pool_inv W Q s :
  start_pool W Q = Some s ->
  exists q, make_queue Q = Some q /\ queue_ q = [] /\ closed_ q = false /\ W <> 0 /\ start_inv W q s.
Proof.
  unfold start_pool, make_queue. destruct (Q =? 0)%nat eqn:EQ; [done|].
  destruct (Nat.eqb_spec W 0) as [|HW]; [done|]. intros Hs. injection Hs as <-.
  eexists. repeat (split; [done|]). split; simpl; try done. lia.
Qed.

(** C29. All threads or none. Starting the workers ends, whichever thread cannot be started
    and however the started ones run meanwhile: there is a step until the constructor has
    returned or thrown, and there are at most [start_left] of them. When it returns, the
    pool is the one [make_worker_pool] describes; when it throws, every thread that was
    started has returned and nothing was served. *)
Theorem start_all_or_nothing cfg h W Q s0 s n :
  start_pool W Q = Some s0 -> nsteps (start_step cfg h W) n s0 s ->
  (n + start_left W s <= start_left W s0)%nat /\
  (st_phase s = Spawning \/ st_phase s = JoiningStarted -> exists s', start_step cfg h W s s') /\
  (st_phase s = Started -> make_worker_pool W Q = Some (st_pool s)) /\
  (st_phase s = StartThrew ->
     Forall (fun w => w = Exited) (workers_ (st_pool s)) /\ taken (st_pool s) = [] /\
     queue_ (pool_queue (st_pool s)) = [] /\ counters (st_pool s) = zero_counters).
Proof.
  intros Hs0 Hn. destruct (start_pool_inv _ _ _ Hs0) as (q & Hmk & Hq & Hc & HW & I0).
  assert (Hbound : (n + start_left W s <= start_left W s0)%nat /\ start_inv W q s).
  { clear Hs0. induction Hn as [|n s0 s1 s Hs _ IH]; [by split; [lia|]|].
    pose proof (start_step_left _ _ _ _ _ _ Hq Hc I0 Hs).
    destruct IH as [IH ?]; [by eapply start_step_inv|]. split; [lia|done]. }
  destruct Hbound as [Hb [I1 I2 I3 I4 I5 I6]]. split; [done|].
  destruct s as [p ph]. simpl in *. split; [|split].
  - intros [->| ->].
    + destruct (decide (length (workers_ p) < W)%nat); eexists; [by apply st_spawn|by apply st_done].
    + destruct (decide (Forall (fun w => w = Exited) (workers_ p))) as [Hall|Hsome];
        [eexists; by apply st_joined|].
      apply not_Forall_Exists, Exists_exists in Hsome as (w & Hin & Hx); [|apply _].
      apply list_elem_of_lookup in Hin as [i Hi].
      destruct (worker_progress cfg h p i w) as [p' Hp']; [by rewrite I1|done|done|].
      eexists. by apply st_worker.
  - intros ->. unfold make_worker_pool. rewrite Hmk. destruct (Nat.eqb_spec W 0); [done|].
    rewrite I1, (replicate_eq (workers_ p)), I5; [done|done|]. apply I3. by right.
  - intros ->. rewrite I1. split; [by apply I6|]. done.
Qed.
End Properties.

(** ** An example: the second of two threads cannot be started *)

#[local] Existing Instance map_to_list_order.
#[local] Instance start_fs : FileSystem := tree_fs site.

Definition start_failed : Starting :=
  {| st_pool := pool_with (queue_of [] 0 true) [Exited]; st_phase := StartThrew |}.

Lemma start_fails :
  nsteps (start_step default_config site_handler 2) 4
    {| st_pool := pool_with (queue_of [] 0 false) []; st_phase := Spawning |} start_failed.
Proof.
  eapply nsteps_l; [apply st_spawn; simpl; lia|].
  eapply nsteps_l; [apply st_spawn_fails; simpl; lia|].
  eapply nsteps_l; [apply st_worker; [by apply (w_exit _ _ _ 0)|done]|].
  eapply nsteps_l; [apply st_joined; by apply Forall_singleton|]. apply nsteps_O.
Qed.

Lemma start_all_or_nothing_witness :
  Forall (fun w => w = Exited) (workers_ (st_pool start_failed)).
Proof.
  destruct (start_all_or_nothing default_config site_handler 2 1 _ start_failed 4 eq_refl start_fails)
    as (_ & _ & _ & H). exact (proj1 (H eq_refl)).
Defined.
