(* ===== verification/Listener.v ===== *)
(** * The listening socket

    Models [include/http/tcp_listener.hpp] and [src/tcp_listener.cpp]: the socket address,
    the calls of [bind_ipv4] with the text of the exception of each that fails and the
    descriptors on every path, and the retry loop of [accept]. The text of an error number
    is that of [std::strerror]; what the kernel answers may depend on the address it was
    given before. *)

From Stdlib Require Import Ascii String.
From stdpp Require Import base numbers list gmap strings sets.
From S2P Require Import Prelude CppLib Fd Connection.

(** ** Exceptions *)

(** The texts the library gives to its errors: those of [std::strerror], and of the exception of
    [std::filesystem::canonical] for a path. *)
Class ErrorTexts := { strerror : Z -> bytes; canonical_what : list bytes -> bytes }.

Definition syscall_error `{ErrorTexts} (operation : bytes) (errno : Z) : bytes :=
  operation ++ lit ": " ++ strerror errno.

(** ** Socket addresses *)

(** A port in network order: its two bytes as they stand in memory, the more significant
    first, whatever the order of the machine. *)
Definition htons (port : N) : ascii * ascii := (ascii_of_N (port / 256), ascii_of_N (port mod 256)).
Definition ntohs (p : ascii * ascii) : N := N_of_ascii p.1 * 256 + N_of_ascii p.2.

Definition AF_INET : Z := 2.

Record sockaddr_in := { sin_family : Z; sin_port : ascii * ascii; sin_addr : bytes }.

(** The answers of the system: an error number or a value. [inet_pton] gives the four bytes of
    an address it accepts; the calls after [bind] are asked about the address bound. *)
Record ListenerCalls := {
  sys_socket : result Z Z;
  sys_reuseaddr : result Z unit;
  sys_inet_pton : bytes -> option bytes;
  sys_bind : sockaddr_in -> result Z unit;
  sys_listen : sockaddr_in -> Z -> result Z unit;
  sys_getsockname : sockaddr_in -> result Z sockaddr_in
}.

(** [address.c_str()] ends at the first NUL. *)
Definition c_text (s : bytes) : bytes := match search [NUL] s with None => s | Some k => take k s end.

Section Listener.
Context `{ErrorTexts}.

Definition make_ipv4_address (k : ListenerCalls) (address : bytes) (port : N) : result bytes sockaddr_in :=
  match sys_inet_pton k (c_text address) with
  | None => Err (lit "invalid IPv4 address: " ++ address)
  | Some a => Ok {| sin_family := AF_INET; sin_port := htons port; sin_addr := a |}
  end.

Definition bound_port (k : ListenerCalls) (bound : sockaddr_in) : result bytes N :=
  match sys_getsockname k bound with
  | Err e => Err (syscall_error (lit "getsockname") e)
  | Ok addr => Ok (ntohs (sin_port addr))
  end.

(** A call whose failure is reported under a name. *)
Definition checked {A} (operation : bytes) (r : result Z A) : result bytes A :=
  match r with Ok a => Ok a | Err e => Err (syscall_error operation e) end.

(** The calls of [bind_ipv4] after the socket exists. *)
Definition bind_calls (k : ListenerCalls) (port : N) (backlog : Z) (address : bytes) : result bytes N :=
  let! _ := checked (lit "setsockopt(SO_REUSEADDR)") (sys_reuseaddr k) in
  let! addr := make_ipv4_address k address port in
  let! _ := checked (lit "bind") (sys_bind k addr) in
  let! _ := checked (lit "listen") (sys_listen k addr backlog) in
  bound_port k addr.

(** The constructor of [TcpListener]: the parameter, object [z], is moved from the
    argument, object [x], the member [y] from the parameter, which is then destroyed. *)
Definition make_listener (x y z : nat) (h : heap) : heap :=
  fd_dtor z (fd_move_ctor y z (fd_move_ctor z x h)).

(** [bind_ipv4]: the local [listener] is object [x], the member of the result is object
    [y]. The destructor of the local runs on every path. *)
Definition bind_ipv4 (k : ListenerCalls) (port : N) (backlog : Z) (address : bytes) (x y z : nat) (h : heap) :
    result bytes N * heap :=
  let fd := match sys_socket k with Ok s => s | Err _ => (-1)%Z end in
  let h := match sys_socket k with
           | Ok s => {| objects := objects h; open_fds := {[s]} ∪ open_fds h; bad_closes := bad_closes h |}
           | Err _ => h
           end in
  let h := fd_ctor x fd h in
  if negb (fd_valid x h) then
    (Err (syscall_error (lit "socket") (match sys_socket k with Err e => e | Ok _ => 0%Z end)), fd_dtor x h)
  else match bind_calls k port backlog address with
  | Err e => (Err e, fd_dtor x h)
  | Ok port => (Ok port, fd_dtor x (make_listener x y z h))
  end.
End Listener.

(** [accept] on the answers of successive calls: interruptions are retried, [None] is a
    call that has not returned. *)
Fixpoint accept (answers : list (result errno Z)) : option (result errno Z) :=
  match answers with
  | [] => None
  | Ok client :: _ => Some (Ok client)
  | Err e :: rest => if negb (bool_decide (e = EINTR)) then Some (Err e) else accept rest
  end.

(** ** Properties *)

Lemma ntohs_htons port : (port < 2 ^ 16)%N -> ntohs (htons port) = port.
Proof.
  intros Hp. unfold ntohs, htons. simpl.
  assert (port / 256 < 256)%N by (apply N.Div0.div_lt_upper_bound; lia).
  assert (port mod 256 < 256)%N by (apply N.mod_lt; lia).
  rewrite !N_ascii_embedding by done. pose proof (N.div_mod port 256 ltac:(lia)). lia.
Qed.

Lemma c_text_plain s : NUL ∉ s -> c_text s = s.
Proof. intros Hs. unfold c_text. by rewrite (proj2 (search_char_None _ _)). Qed.

(** What [getsockname] is documented to report: the address the socket was bound to, with the
    port it was bound to unless that was zero. *)
Definition reports_bound (k : ListenerCalls) : Prop :=
  forall a a', sys_getsockname k a = Ok a' ->
    sin_family a' = sin_family a /\ sin_addr a' = sin_addr a /\
    (sin_port a <> htons 0 -> sin_port a' = sin_port a).

(** A listener that was made listens on the address and the port it was given, and its
    [port()] is that port. *)
Lemma bind_calls_bound `{ErrorTexts} k port backlog address p :
  bind_calls k port backlog address = Ok p -> reports_bound k -> (0 < port < 2 ^ 16)%N ->
  p = port /\ exists a, sys_inet_pton k (c_text address) = Some a /\
    let bound := {| sin_family := AF_INET; sin_port := htons port; sin_addr := a |} in
    sys_bind k bound = Ok tt /\ sys_listen k bound backlog = Ok tt.
Proof.
  intros Hb Hr Hp. unfold bind_calls, make_ipv4_address, bound_port, checked in Hb.
  destruct (sys_reuseaddr k) as [[]|]; [|done]. simpl in Hb. destruct (sys_inet_pton k _) as [a|]; [|done]. simpl in Hb.
  set (bound := {| sin_family := AF_INET; sin_port := htons port; sin_addr := a |}) in *.
  destruct (sys_bind k bound) as [[]|] eqn:Eb; [|done]. simpl in Hb.
  destruct (sys_listen k bound backlog) as [[]|] eqn:El; [|done]. simpl in Hb.
  destruct (sys_getsockname k bound) as [b|] eqn:Eg; [|done]. simplify_eq.
  assert (Hne : sin_port bound <> htons 0).
  { intros E. apply (f_equal ntohs) in E. simpl in E. rewrite !ntohs_htons in E by lia. lia. }
  destruct (Hr _ _ Eg) as (_ & _ & Hport). rewrite (Hport Hne). simpl. rewrite ntohs_htons by lia. split; [done|]. by exists a.
Qed.
