(* ===== verification/Server.v ===== *)
(** * The server

    Models [include/http/server.hpp], [src/server.cpp] and the signal handler of
    [src/main.cpp]: the construction of the server on top of the listener and of the
    shutdown pipe with the descriptors they own on every failure path, and the accept loop as a
    transition system that interleaves with the workers, with calls of
    [request_shutdown] from other threads and with signals. *)

From Stdlib Require Import Ascii String.
From stdpp Require Import base numbers list gmap strings sets.
From S2P Require Import Prelude CppLib Parser Response FileSystem StaticFileHandler Router Fd.
From S2P Require Import Connection BoundedQueue WorkerPool Listener.

(** ** The shutdown pipe *)

Record PipeCalls := {
  sys_pipe : result Z (Z * Z);
  sys_cloexec : Z -> result Z unit;
  sys_getfl : Z -> result Z N;
  sys_setfl : Z -> N -> result Z unit
}.

Definition O_NONBLOCK : N := 2048.

(** The [fcntl] calls on the two ends. *)
Definition pipe_calls `{ErrorTexts} (k : PipeCalls) (d0 d1 : Z) : result bytes unit :=
  let! _ := checked (lit "fcntl(FD_CLOEXEC)") (sys_cloexec k d0) in
  let! _ := checked (lit "fcntl(FD_CLOEXEC)") (sys_cloexec k d1) in
  let! flags := checked (lit "fcntl(O_NONBLOCK)") (sys_getfl k d1) in
  checked (lit "fcntl(O_NONBLOCK)") (sys_setfl k d1 (N.lor flags O_NONBLOCK)).

(** [make_shutdown_pipe]: the elements of the array are objects [x] and [y]; an
    exception destroys them in reverse order. *)
Definition make_shutdown_pipe `{ErrorTexts} (k : PipeCalls) (x y : nat) (h : heap) : result bytes unit * heap :=
  match sys_pipe k with
  | Err e => (Err (syscall_error (lit "pipe") e), h)
  | Ok (d0, d1) =>
      let h := {| objects := objects h; open_fds := {[d0]} ∪ ({[d1]} ∪ open_fds h);
                  bad_closes := bad_closes h |} in
      let h := fd_ctor y d1 (fd_ctor x d0 h) in
      match pipe_calls k (fd_get x h) (fd_get y h) with
      | Err e => (Err e, fd_dtor x (fd_dtor y h))
      | Ok _ => (Ok tt, h)
      end
  end.

(** ** The accept loop *)

(** The exceptions that leave [serve_forever]. *)
Inductive failure := PollFailed | AcceptFailed | PoolClosed.

(** Where the thread that runs [serve_forever] is: at the loop condition, in [poll], in
    [serve_one] before [accept] returns, in [dispatch], after a refused dispatch, in
    [WorkerPool::shutdown] waiting for the workers, returned, or left by an exception. *)
Inductive acceptor :=
| LoopTest | Polling | Accepting | Dispatching (client : Z) | Refused | Joining | Returned
| Thrown (f : failure).

(** A call of [request_shutdown] that won the exchange, before the queue is closed and
    before the pipe is written. *)
Inductive stopper := Closing | Notifying.

Record Server := {
  pool : WorkerPool;
  shutdown_requested_ : bool;
  pipe_bytes : nat;
  accepted_connections_ : N;
  main : acceptor;
  stoppers : list stopper;
  accepts : nat
}.

(** The state of a server whose members are constructed. *)
Definition make_server (workers capacity : nat) : option Server :=
  match make_worker_pool workers capacity with
  | None => None
  | Some p => Some {| pool := p; shutdown_requested_ := false; pipe_bytes := 0;
                      accepted_connections_ := 0; main := LoopTest; stoppers := []; accepts := 0 |}
  end.

(** The exception of [make_server]: the queue is constructed before the pool looks at the
    number of workers. *)
Definition invalid_size (capacity : nat) : bytes :=
  if (capacity =? 0)%nat then lit "queue capacity must be greater than zero"
  else lit "worker count must be greater than zero".

(** The constructor of [HttpServer]: the file handler, the listener (object 1, made from
    the objects 0 and 2), the pool and the pipe (objects 3 and 4), in the order of the
    members. An exception destroys the members made before; the destructor of the pool
    closes no descriptor, since nothing was dispatched. [threads] is whether every worker
    thread could be started; [PoolStart] has the constructor of the pool in that case. *)
Definition construct_server `{ErrorTexts} `{FileSystem} (kl : ListenerCalls) (threads : result bytes unit)
    (kp : PipeCalls) (root : FileSystem.path) (port : N) (backlog : Z) (address : bytes)
    (workers capacity : nat) (h : heap) :
    result bytes (StaticFileHandler * N * Server) * heap :=
  match make_static_file_handler root default_max_file_bytes with
  | Err _ => (Err (canonical_what root), h)
  | Ok file_handler =>
      match bind_ipv4 kl port backlog address 0 1 2 h with
      | (Err e, h) => (Err e, h)
      | (Ok port, h) =>
          match make_server workers capacity with
          | None => (Err (invalid_size capacity), fd_dtor 1 h)
          | Some server =>
              match threads with
              | Err e => (Err e, fd_dtor 1 h)
              | Ok _ =>
                  match make_shutdown_pipe kp 3 4 h with
                  | (Err e, h) => (Err e, fd_dtor 1 h)
                  | (Ok _, h) => (Ok (file_handler, port, server), h)
                  end
              end
          end
      end
  end.

Definition set_main (a : acceptor) (s : Server) : Server :=
  {| pool := pool s; shutdown_requested_ := shutdown_requested_ s; pipe_bytes := pipe_bytes s;
     accepted_connections_ := accepted_connections_ s; main := a; stoppers := stoppers s;
     accepts := accepts s |}.
Definition set_pool (p : WorkerPool) (s : Server) : Server :=
  {| pool := p; shutdown_requested_ := shutdown_requested_ s; pipe_bytes := pipe_bytes s;
     accepted_connections_ := accepted_connections_ s; main := main s; stoppers := stoppers s;
     accepts := accepts s |}.
Definition set_stoppers (l : list stopper) (s : Server) : Server :=
  {| pool := pool s; shutdown_requested_ := shutdown_requested_ s; pipe_bytes := pipe_bytes s;
     accepted_connections_ := accepted_connections_ s; main := main s; stoppers := l;
     accepts := accepts s |}.
Definition set_requested (s : Server) : Server :=
  {| pool := pool s; shutdown_requested_ := true; pipe_bytes := pipe_bytes s;
     accepted_connections_ := accepted_connections_ s; main := main s; stoppers := stoppers s;
     accepts := accepts s |}.

(** One byte into the pipe: the write end does not block, and the write is ignored when
    the pipe is full. *)
Definition write_notification (room : bool) (s : Server) : Server :=
  {| pool := pool s; shutdown_requested_ := shutdown_requested_ s;
     pipe_bytes := if room then S (pipe_bytes s) else pipe_bytes s;
     accepted_connections_ := accepted_connections_ s; main := main s; stoppers := stoppers s;
     accepts := accepts s |}.

(** A pipe that is full holds at least one byte. *)
Definition can_write (room : bool) (s : Server) : Prop := room = false -> (0 < pipe_bytes s)%nat.

(** [serve_one] after [accept] returned. *)
Definition count_accepted (client : Z) (s : Server) : Server :=
  {| pool := pool s; shutdown_requested_ := shutdown_requested_ s; pipe_bytes := pipe_bytes s;
     accepted_connections_ := sz_add (accepted_connections_ s) 1; main := Dispatching client;
     stoppers := stoppers s; accepts := S (accepts s) |}.

(** [request_shutdown] called in one go by the accept loop. *)
Definition request_shutdown_now (room : bool) (s : Server) : Server :=
  if shutdown_requested_ s then s
  else
    let s := set_requested s in
    let s := set_pool (request_shutdown (pool s)) s in
    write_notification room s.

Section Steps.
Context `{MapOrder} `{FileSystem}.
Context (cfg : ConnectionConfig) (h : StaticFileHandler).

(** The steps of [serve_forever]. [poll] reports the pipe exactly when it holds a byte. *)
Inductive main_step : Server -> Server -> Prop :=
| s_loop s :
    main s = LoopTest -> shutdown_requested_ s = false -> main_step s (set_main Polling s)
| s_leave s :
    main s = LoopTest -> shutdown_requested_ s = true ->
    main_step s (set_main Joining (set_pool (request_shutdown (pool s)) s))
| s_poll_again s : main s = Polling -> main_step s (set_main LoopTest s)
| s_poll_failed s : main s = Polling -> main_step s (set_main (Thrown PollFailed) s)
| s_poll_pipe s room :
    main s = Polling -> (0 < pipe_bytes s)%nat -> can_write room s ->
    let s' := request_shutdown_now room s in
    main_step s (set_main Joining (set_pool (request_shutdown (pool s')) s'))
| s_poll_client s : main s = Polling -> pipe_bytes s = 0 -> main_step s (set_main Accepting s)
| s_accept s answers client :
    main s = Accepting -> accept answers = Some (Ok client) -> main_step s (count_accepted client s)
| s_accept_failed s answers e :
    main s = Accepting -> accept answers = Some (Err e) ->
    main_step s (set_main (Thrown AcceptFailed) s)
| s_dispatch s client q :
    main s = Dispatching client -> push client (pool_queue (pool s)) = PushDone q ->
    main_step s (set_main LoopTest (set_pool (dispatch_pushed q (pool s)) s))
| s_refused s client :
    main s = Dispatching client -> push client (pool_queue (pool s)) = PushRefused ->
    main_step s (set_main Refused (set_pool (dispatch_refused (pool s)) s))
| s_refused_ok s :
    main s = Refused -> shutdown_requested_ s = true -> main_step s (set_main LoopTest s)
| s_refused_throw s :
    main s = Refused -> shutdown_requested_ s = false ->
    main_step s (set_main (Thrown PoolClosed) s)
| s_joined s :
    main s = Joining -> Forall (fun w => w = Exited) (workers_ (pool s)) ->
    main_step s (set_main Returned s).

(** The counter updates of [dispatch] that follow the queue operation. *)
Inductive count_step : Server -> Server -> Prop :=
| c_count s n :
    uncounted (pool s) = S n -> count_step s (set_pool (dispatch_counted n (pool s)) s)
| c_reject s n :
    unrejected (pool s) = S n -> count_step s (set_pool (dispatch_rejected n (pool s)) s).

(** [request_shutdown] called by another thread: the exchange, which only the first call
    passes, the queue, and the pipe. *)
Inductive stop_step : Server -> Server -> Prop :=
| t_exchange s :
    shutdown_requested_ s = false ->
    stop_step s (set_stoppers (Closing :: stoppers s) (set_requested s))
| t_close s l r :
    stoppers s = l ++ Closing :: r ->
    stop_step s (set_stoppers (l ++ Notifying :: r) (set_pool (request_shutdown (pool s)) s))
| t_notify s l r room :
    stoppers s = l ++ Notifying :: r -> can_write room s ->
    stop_step s (set_stoppers (l ++ r) (write_notification room s)).

(** [handle_shutdown_signal]. *)
Inductive signal_step : Server -> Server -> Prop :=
| g_signal s room : can_write room s -> signal_step s (write_notification room s).

Inductive server_step : Server -> Server -> Prop :=
| v_main s s' : main_step s s' -> server_step s s'
| v_count s s' : count_step s s' -> server_step s s'
| v_stop s s' : stop_step s s' -> server_step s s'
| v_signal s s' : signal_step s s' -> server_step s s'
| v_worker s p : worker_step cfg h (pool s) p -> server_step s (set_pool p s).
End Steps.
