(* ===== verification/ServerFacts.v ===== *)
(** * Properties of the server

    Descriptors are not leaked when construction fails; the accept loop keeps the bound on
    descriptors, never reports a closed pool, stops accepting once notified and returns
    only after every dispatched connection has been served. *)

From Stdlib Require Import Ascii String.
From stdpp Require Import base numbers list gmap strings sets.
From S2P Require Import Prelude CppLib Parser Response FileSystem StaticFileHandler Router.
From S2P Require Import FsTree Fd Connection ConnectionSpec ConnectionStep ConnectionFacts.
From S2P Require Import ConnectionExample BoundedQueue WorkerPool WorkerPoolFacts.
From S2P Require Import WorkerPoolExample Listener Server.

(** ** Construction *)

(** Two stores with the same contents. *)
Definition same_heap (h h' : heap) : Prop :=
  objects h = objects h' /\ open_fds h = open_fds h' /\ bad_closes h = bad_closes h'.

(** An object that takes a fresh open descriptor and is destroyed leaves no trace. *)
Lemma ctor_dtor x fd h :
  objects h !! x = None -> (0 <= fd)%Z -> fd ∉ open_fds h ->
  same_heap (fd_dtor x (fd_ctor x fd {| objects := objects h; open_fds := {[fd]} ∪ open_fds h;
                                        bad_closes := bad_closes h |})) h.
Proof.
  intros Hx Hfd Hn. unfold fd_dtor, fd_reset, fd_ctor, fd_of, set_fd, sys_close. simpl.
  rewrite lookup_insert_eq. simpl. rewrite (proj2 (Z.leb_le 0 fd)) by done.
  rewrite bool_decide_eq_false_2 by lia. simpl.
  rewrite bool_decide_eq_true_2 by set_solver.
  repeat split; simpl; [|set_solver].
  rewrite insert_insert_eq, delete_insert_eq. by rewrite delete_id.
Qed.

Section Server.
Context `{MapOrder} `{FileSystem}.
Context (cfg : ConnectionConfig) (h : StaticFileHandler).

Notation server_step := (server_step cfg h).

(** ** The invariant of the accept loop *)

Definition holds_client (a : acceptor) : nat := match a with Dispatching _ => 1 | _ => 0 end.

Record server_inv (W Q : nat) (s : Server) : Prop := {
  si_pool : pool_inv W Q (pool s);
  si_closed : closed_ (pool_queue (pool s)) = true -> shutdown_requested_ s = true;
  si_stoppers : stoppers s <> [] -> shutdown_requested_ s = true;
  si_refused : main s = Refused -> closed_ (pool_queue (pool s)) = true;
  si_joining : main s = Joining \/ main s = Returned -> closed_ (pool_queue (pool s)) = true;
  si_returned : main s = Returned -> Forall (fun w => w = Exited) (workers_ (pool s));
  si_thrown : main s <> Thrown PoolClosed;
  si_accepted : accepted_connections_ s = word (N.of_nat (accepts s));
  si_accepts : exists r, counters (pool s) rejected_dispatches_ = word (N.of_nat r) /\
    (accepts s = length (entered (pool s)) + r + unrejected (pool s) + holds_client (main s))%nat
}.

Lemma make_server_inv W Q s : make_server W Q = Some s -> server_inv W Q s.
Proof.
  unfold make_server. destruct (make_worker_pool W Q) as [p|] eqn:E; [|done]. intros Hs.
  injection Hs as <-. pose proof (make_pool_inv _ _ _ E) as Hp.
  unfold make_worker_pool, make_queue in E. destruct (Q =? 0)%nat; [done|].
  destruct (W =? 0)%nat; [done|]. injection E as <-.
  split; simpl; try done; try (by intros [?|?]). by exists 0.
Qed.

Lemma make_server_workers W Q s : make_server W Q = Some s -> W <> 0.
Proof.
  unfold make_server. destruct (make_worker_pool W Q) eqn:E; [|done]. intros _. by eapply make_pool_workers.
Qed.

(** A step that changes neither the pool nor the counts. *)
Lemma set_main_inv W Q s a :
  server_inv W Q s -> holds_client a = holds_client (main s) -> a <> Refused ->
  a <> Thrown PoolClosed -> a <> Joining ->
  (a = Returned -> main s = Joining /\ Forall (fun w => w = Exited) (workers_ (pool s))) ->
  server_inv W Q (set_main a s).
Proof.
  intros [] Hh H1' H2' H3' H4'. split; simpl; try done.
  - intros [?|[Hj _]%H4']; [done|]. apply si_joining0. by left.
  - by intros [_ ?]%H4'.
  - by rewrite Hh.
Qed.

(** Closing the queue on the way to [Joining]. *)
Lemma join_inv W Q s :
  server_inv W Q s -> shutdown_requested_ s = true -> holds_client (main s) = 0 ->
  server_inv W Q (set_main Joining (set_pool (request_shutdown (pool s)) s)).
Proof.
  intros [] Hr Hh. split; simpl; try done.
  - eapply (pool_step_inv cfg h); [|done]. apply p_close.
  - rewrite Hh in si_accepts0. done.
Qed.

Lemma requested_inv W Q s room :
  server_inv W Q s -> server_inv W Q (request_shutdown_now room s).
Proof.
  intros Hi. unfold request_shutdown_now. destruct (shutdown_requested_ s) eqn:E; [done|].
  destruct Hi. split; simpl; try done. eapply (pool_step_inv cfg h); [|done]. apply p_close.
Qed.

Lemma main_step_inv W Q s s' : main_step s s' -> server_inv W Q s -> server_inv W Q s'.
Proof.
  intros Hs Hi. pose proof Hi as []. destruct Hs as [s Hm|s Hm Hr|s Hm|s Hm|s room Hm Hb Hw s1|s Hm|
    s answers client Hm|s answers e Hm|s client q Hm Hq|s client Hm Hq|s Hm|s Hm Hr|s Hm Hall];
    try (apply set_main_inv; [done|by rewrite Hm|done..]).
  - apply join_inv; [done|done|by rewrite Hm].
  - assert (Hm1 : main s1 = Polling) by (unfold s1, request_shutdown_now; by destruct (shutdown_requested_ s)).
    apply join_inv; [by apply requested_inv| |by rewrite Hm1].
    unfold s1, request_shutdown_now. by destruct (shutdown_requested_ s) eqn:E.
  - split; simpl; try done; try (by intros [?|?]).
    + rewrite si_accepted0, sz_add_word. f_equal. lia.
    + destruct si_accepts0 as (r & Hr & Ha). exists r. split; [done|]. rewrite Hm in Ha. simpl in Ha. lia.
  - destruct (push_cases client (pool_queue (pool s)))
      as [(_ & E)|[(_ & _ & E)|(Hc & _ & q' & E & Hq' & _ & Hcl & _)]]; rewrite E in Hq; simplify_eq.
    split; simpl; try done; try congruence; try (by intros [?|?]).
    + eapply (pool_step_inv cfg h); [|done]. by eapply p_push.
    + destruct si_accepts0 as (r & Hr & Ha). exists r. split; [done|]. rewrite Hm in Ha.
      unfold entered in *. simpl in *. rewrite Hq', !length_app in *. simpl. lia.
  - destruct (push_cases client (pool_queue (pool s)))
      as [(Hc & E)|[(_ & _ & E)|(_ & _ & q' & E & _)]]; rewrite E in Hq; simplify_eq.
    split; simpl; try done; try (by intros [?|?]).
    + eapply (pool_step_inv cfg h); [|done]. by eapply p_refuse.
    + destruct si_accepts0 as (r & Hr & Ha). exists r. split; [done|]. rewrite Hm in Ha.
      unfold entered in *. simpl in *. lia.
  - specialize (si_closed0 (si_refused0 Hm)). congruence.
Qed.

(** What a worker's step leaves alone. *)
Lemma worker_step_keeps p p' :
  worker_step cfg h p p' ->
  closed_ (pool_queue p') = closed_ (pool_queue p) /\ entered p' = entered p /\
  unrejected p' = unrejected p /\ counters p' rejected_dispatches_ = counters p rejected_dispatches_ /\
  ~ Forall (fun w => w = Exited) (workers_ p).
Proof.
  intros Hs. split; [|split; [|split; [|split]]].
  - destruct Hs; try done. destruct (pop_cases (pool_queue p)) as [(_ & _ & E)|[(_ & _ & E)|(x & xs & _ & E)]];
      rewrite E in *; by simplify_eq.
  - destruct Hs; try done. destruct (pop_cases (pool_queue p)) as [(_ & _ & E)|[(_ & _ & E)|(x & xs & Hq & E)]];
      rewrite E in *; simplify_eq. unfold entered. simpl. by rewrite Hq, <- (assoc_L (++)).
  - by destruct Hs.
  - destruct Hs; try done. simpl. unfold record_result, fetch_add. by destruct (reason r).
  - intros Hall. destruct Hs; match goal with Hw : workers_ _ !! _ = Some _ |- _ =>
      by eapply Forall_lookup_1 in Hall; [|exact Hw] end.
Qed.

Lemma server_step_inv W Q s s' : server_step s s' -> server_inv W Q s -> server_inv W Q s'.
Proof.
  intros Hs Hi. destruct Hs as [s s' Hs|s s' Hs|s s' Hs|s s' Hs|s p Hs];
    [by eapply main_step_inv|..]; pose proof Hi as [].
  - destruct Hs; split; simpl; try done; try (eapply (pool_step_inv cfg h); [by constructor|done]).
    destruct si_accepts0 as (r & Hr & Ha). exists (S r). split.
    + unfold fetch_add. rewrite bool_decide_eq_true_2, Hr, sz_add_word by done. f_equal. lia.
    + unfold entered in *. simpl. lia.
  - destruct Hs as [s Hr|s l r Hl|s l r room Hl Hw]; split; simpl; try done.
    + eapply (pool_step_inv cfg h); [|done]. apply p_close.
    + intros _. apply si_stoppers0. rewrite Hl. by destruct l.
    + intros _. apply si_stoppers0. rewrite Hl. by destruct l.
    + intros Hne. apply si_stoppers0. rewrite Hl. by destruct l.
  - by destruct Hs.
  - destruct (worker_step_keeps _ _ Hs) as (Hc & He & Hu & Hr & Hx).
    split; simpl; rewrite ?Hc, ?He, ?Hu, ?Hr; try done.
    + by eapply worker_step_inv.
    + intros Hm. by destruct Hx; auto.
Qed.

Lemma server_run_inv W Q s s' : rtc server_step s s' -> server_inv W Q s -> server_inv W Q s'.
Proof. induction 1; eauto using server_step_inv. Qed.

(** ** Notification *)

Definition may_accept (a : acceptor) : nat := match a with Accepting => 1 | _ => 0 end.

Lemma notified_step s s' :
  server_step s s' -> (0 < pipe_bytes s)%nat ->
  (0 < pipe_bytes s')%nat /\ (accepts s' + may_accept (main s') <= accepts s + may_accept (main s))%nat.
Proof.
  intros Hs Hb. destruct Hs as [s s' Hs|s s' Hs|s s' Hs|s s' Hs|s p Hs].
  - destruct Hs as [s Hm|s Hm Hr|s Hm|s Hm|s room Hm _ Hw s1|s Hm|
      s answers client Hm|s answers e Hm|s client q Hm Hq|s client Hm Hq|s Hm|s Hm Hr|s Hm Hall];
      simpl; rewrite ?Hm; simpl; try lia.
    unfold s1, request_shutdown_now. destruct (shutdown_requested_ s); simpl; [lia|].
    destruct room; lia.
  - by destruct Hs.
  - destruct Hs as [s Hr|s l r Hl|s l r room Hl Hw]; simpl; try lia. destruct room; lia.
  - destruct Hs as [s room Hw]. simpl. destruct room; lia.
  - simpl. lia.
Qed.

Lemma notified_run s s' :
  rtc server_step s s' -> (0 < pipe_bytes s)%nat ->
  (accepts s' + may_accept (main s') <= accepts s + may_accept (main s))%nat.
Proof.
  induction 1 as [|s s1 s' Hs _ IH]; [lia|]. intros Hb.
  destruct (notified_step _ _ Hs Hb). specialize (IH ltac:(done)). lia.
Qed.
End Server.

(** ** Properties *)

(** A move leaves the other object without a descriptor, and destroying that one closes none. *)
Lemma fd_move_ctor_spec y x h fd :
  objects h !! x = Some fd ->
  fd_move_ctor y x h = {| objects := <[y := fd]> (<[x := (-1)%Z]> (objects h)); open_fds := open_fds h; bad_closes := bad_closes h |}.
Proof. intros Hx. unfold fd_move_ctor, fd_release, fd_of. by rewrite Hx. Qed.

Lemma fd_dtor_moved x h :
  objects h !! x = Some (-1)%Z ->
  fd_dtor x h = {| objects := delete x (objects h); open_fds := open_fds h; bad_closes := bad_closes h |}.
Proof. intros Hx. unfold fd_dtor, fd_reset, fd_of, set_fd. rewrite Hx. cbn. by rewrite delete_insert_eq. Qed.

Lemma bind_ipv4_owns `{ErrorTexts} k port backlog address x y z h :
  objects h !! x = None -> objects h !! y = None -> objects h !! z = None ->
  x <> y -> x <> z -> y <> z ->
  (forall fd, sys_socket k = Ok fd -> (0 <= fd)%Z /\ fd ∉ open_fds h) ->
  match bind_ipv4 k port backlog address x y z h with
  | (Err _, h') => same_heap h' h
  | (Ok _, h') => exists fd, sys_socket k = Ok fd /\ open_fds h' = {[fd]} ∪ open_fds h /\
                             objects h' = <[y := fd]> (objects h) /\ bad_closes h' = bad_closes h
  end.
Proof.
  intros Hx Hy Hz Hxy Hxz Hyz Hk. unfold bind_ipv4. destruct (sys_socket k) as [fd|e].
  - destruct (Hk fd eq_refl) as [Hfd Hn]. simpl.
    replace (fd_valid x _) with true
      by (unfold fd_valid, valid_fd, fd_ctor, fd_of; simpl; rewrite lookup_insert_eq; simpl;
          symmetry; by apply Z.leb_le). simpl.
    destruct (bind_calls k port backlog address) as [bound|e]; [|by apply ctor_dtor].
    exists fd. split; [done|]. unfold make_listener. rewrite (fd_move_ctor_spec z x _ fd) by apply lookup_insert_eq.
    rewrite (fd_move_ctor_spec y z _ fd) by apply lookup_insert_eq. cbn [objects open_fds bad_closes fd_ctor set_fd].
    rewrite (fd_dtor_moved z), (fd_dtor_moved x) by (cbn [objects]; by simplify_map_eq). cbn [objects open_fds bad_closes]. split; [done|]. split; [|done].
    apply map_eq. intros i.
    destruct (decide (i = x)), (decide (i = y)), (decide (i = z)); subst; by simplify_map_eq.
  - simpl. unfold fd_valid, valid_fd, fd_ctor, fd_of. simpl. rewrite lookup_insert_eq. simpl.
    unfold fd_dtor, fd_reset, fd_of, set_fd. simpl. rewrite lookup_insert_eq. simpl.
    repeat split; simpl. rewrite !delete_insert_eq. by rewrite delete_id.
Qed.

(** The shutdown pipe and its two ends. *)
Lemma make_shutdown_pipe_owns `{ErrorTexts} k x y h d0 d1 :
  objects h !! x = None -> objects h !! y = None -> x <> y ->
  sys_pipe k = Ok (d0, d1) -> (0 <= d0)%Z -> (0 <= d1)%Z -> d0 <> d1 ->
  d0 ∉ open_fds h -> d1 ∉ open_fds h ->
  match make_shutdown_pipe k x y h with
  | (Err _, h') => same_heap h' h
  | (Ok _, h') => open_fds h' = {[d0]} ∪ ({[d1]} ∪ open_fds h) /\ bad_closes h' = bad_closes h /\
                  objects h' = <[y := d1]> (<[x := d0]> (objects h))
  end.
Proof.
  intros Hx Hy Hxy Hk H0 H1 Hd N0 N1. unfold make_shutdown_pipe. rewrite Hk. simpl.
  destruct (pipe_calls k _ _) as [u|e]; [done|].
  unfold fd_ctor, fd_dtor, fd_reset, fd_of, set_fd, sys_close. simpl.
  rewrite lookup_insert_eq. simpl. rewrite (proj2 (Z.leb_le 0 d1)) by done.
  rewrite (bool_decide_eq_false_2 (d1 = _)) by lia. simpl.
  rewrite (bool_decide_eq_true_2 (d1 ∈ _)) by set_solver.
  assert (Hdel : delete y (<[y := (-1)%Z]> (<[y := d1]> (<[x := d0]> (objects h))))
                 = <[x := d0]> (objects h)).
  { rewrite !delete_insert_eq. apply delete_id. by rewrite lookup_insert_ne. }
  rewrite Hdel.
  rewrite lookup_insert_eq. simpl. rewrite (proj2 (Z.leb_le 0 d0)) by done.
  rewrite (bool_decide_eq_false_2 (d0 = _)) by lia. simpl.
  rewrite (bool_decide_eq_true_2 (d0 ∈ _)) by set_solver.
  repeat split; simpl; [|set_solver]. rewrite !delete_insert_eq. by apply delete_id.
Qed.

(** The destruction of the listener's member. *)
Lemma dtor_owned y fd h h1 :
  objects h !! y = None -> (0 <= fd)%Z -> fd ∉ open_fds h ->
  open_fds h1 = {[fd]} ∪ open_fds h -> objects h1 = <[y := fd]> (objects h) ->
  bad_closes h1 = bad_closes h -> same_heap (fd_dtor y h1) h.
Proof.
  intros Hy Hfd Hn E1 E2 E3. pose proof (ctor_dtor y fd h Hy Hfd Hn) as Hc.
  destruct h1 as [o f b]. simpl in *. subst. exact Hc.
Qed.

(** What a construction leaves, on every path. *)
Lemma construct_server_leaves `{ErrorTexts} `{FileSystem} kl threads kp root port backlog address workers capacity h :
  (forall i, i < 5 -> objects h !! i = None)%nat ->
  (forall fd, sys_socket kl = Ok fd -> (0 <= fd)%Z /\ fd ∉ open_fds h) ->
  (forall d0 d1, sys_pipe kp = Ok (d0, d1) ->
     (0 <= d0)%Z /\ (0 <= d1)%Z /\ d0 <> d1 /\ d0 ∉ open_fds h /\ d1 ∉ open_fds h /\
     sys_socket kl <> Ok d0 /\ sys_socket kl <> Ok d1) ->
  match construct_server kl threads kp root port backlog address workers capacity h with
  | (Err _, h') => same_heap h' h
  | (Ok _, h') => exists fd d0 d1, sys_socket kl = Ok fd /\ sys_pipe kp = Ok (d0, d1) /\
      open_fds h' = {[fd; d0; d1]} ∪ open_fds h /\ bad_closes h' = bad_closes h /\
      objects h' = <[4 := d1]> (<[3 := d0]> (<[1 := fd]> (objects h)))
  end.
Proof.
  intros Hobj Hk Hp. unfold construct_server. destruct (make_static_file_handler _ _); [|done].
  pose proof (bind_ipv4_owns kl port backlog address 0 1 2 h (Hobj 0 ltac:(lia)) (Hobj 1 ltac:(lia))
    (Hobj 2 ltac:(lia)) ltac:(lia) ltac:(lia) ltac:(lia) Hk) as Hb.
  destruct (bind_ipv4 _ _ _ _ _ _ _ _) as [[bound|e] h1]; [|done].
  destruct Hb as (fd & Hfd & Ho & Hob & Hbad). destruct (Hk _ Hfd) as [Hnn Hnew].
  assert (Hclean : same_heap (fd_dtor 1 h1) h)
    by (by apply (dtor_owned 1 fd); [apply Hobj; lia|..]).
  destruct (make_server workers capacity) as [s|]; [|done].
  destruct threads as [_|e]; [|done].
  destruct (sys_pipe kp) as [[d0 d1]|e] eqn:Epipe.
  - destruct (Hp _ _ eq_refl) as (P1 & P2 & P3 & P4 & P5 & P6 & P7). rewrite Hfd in P6, P7.
    pose proof (make_shutdown_pipe_owns kp 3 4 h1 d0 d1) as Hpipe. rewrite Hob, Ho in Hpipe.
    rewrite !lookup_insert_ne in Hpipe by done.
    specialize (Hpipe (Hobj 3 ltac:(lia)) (Hobj 4 ltac:(lia)) ltac:(lia) Epipe P1 P2 P3
      ltac:(set_solver) ltac:(set_solver)).
    destruct (make_shutdown_pipe _ _ _ _) as [[u|e] h2].
    + destruct Hpipe as (Q1 & Q2 & Q3). exists fd, d0, d1.
      repeat (split; [done|]). split; [rewrite Q1; set_solver|]. split; [congruence|done].
    + destruct Hpipe as (Q1 & Q2 & Q3).
      apply (dtor_owned 1 fd); try done; [apply Hobj; lia|..]; congruence.
  - unfold make_shutdown_pipe. by rewrite Epipe.
Qed.

(** The values of a construction that succeeds. *)
Lemma construct_server_values `{ErrorTexts} `{FileSystem} kl threads kp root port backlog address workers capacity h
    fh p s h' :
  construct_server kl threads kp root port backlog address workers capacity h = (Ok (fh, p, s), h') ->
  make_static_file_handler root default_max_file_bytes = Ok fh /\
  bind_calls kl port backlog address = Ok p /\ make_server workers capacity = Some s.
Proof.
  unfold construct_server, bind_ipv4. destruct (make_static_file_handler _ _); [|done].
  destruct (negb _); [done|]. destruct (bind_calls _ _ _ _); [|done]. destruct (make_server _ _); [|done].
  destruct threads; [|done]. destruct (make_shutdown_pipe _ _ _ _) as [[|] ?]; [|done]. intros. by simplify_eq.
Qed.

(** Construction leaks nothing. Whatever the file system and the system calls of the
    listener and of the pipe answer, whatever sizes are asked for and whether or not the
    worker threads can be started, a constructor that
    throws leaves the open descriptors and the objects as they were and closes nothing
    twice; one that succeeds leaves exactly the socket and the two ends of the pipe open,
    each owned by one member. *)
Theorem construct_server_owns `{ErrorTexts} `{FileSystem} kl threads kp root port backlog address workers capacity h :
  (forall i, i < 5 -> objects h !! i = None)%nat ->
  (forall fd, sys_socket kl = Ok fd -> (0 <= fd)%Z /\ fd ∉ open_fds h) ->
  (forall d0 d1, sys_pipe kp = Ok (d0, d1) ->
     (0 <= d0)%Z /\ (0 <= d1)%Z /\ d0 <> d1 /\ d0 ∉ open_fds h /\ d1 ∉ open_fds h /\
     sys_socket kl <> Ok d0 /\ sys_socket kl <> Ok d1) ->
  match construct_server kl threads kp root port backlog address workers capacity h with
  | (Err _, h') => same_heap h' h
  | (Ok _, h') => exists fd d0 d1, sys_socket kl = Ok fd /\ sys_pipe kp = Ok (d0, d1) /\
      open_fds h' = {[fd; d0; d1]} ∪ open_fds h /\ bad_closes h' = bad_closes h /\
      objects h' = <[4 := d1]> (<[3 := d0]> (<[1 := fd]> (objects h)))
  end.
Proof. apply construct_server_leaves. Qed.

Section Properties.
Context `{MapOrder} `{FileSystem}.

(** C9. Graceful shutdown. When [serve_forever] returns, under any interleaving of the accept
    loop, the workers, calls of [request_shutdown] and signals, every worker has
    returned, the queue is closed and empty, and each connection that was ever dispatched
    has been served to its end; the accepted connections are those and the refused
    ones. *)
Theorem serve_forever_drains cfg h W Q s0 s :
  make_server W Q = Some s0 -> rtc (server_step cfg h) s0 s -> main s = Returned ->
  Forall (fun w => w = Exited) (workers_ (pool s)) /\
  closed_ (pool_queue (pool s)) = true /\ queue_ (pool_queue (pool s)) = [] /\
  Permutation (entered (pool s)) (ended (pool s)) /\
  exists refused, accepts s = (length (ended (pool s)) + refused + unrejected (pool s))%nat /\
    counters (pool s) rejected_dispatches_ = word (N.of_nat refused) /\
    accepted_connections_ s = word (N.of_nat (accepts s)).
Proof.
  intros Hm Hr Hret. pose proof (server_run_inv _ _ _ _ _ _ Hr (make_server_inv _ _ _ Hm)) as [].
  specialize (si_returned0 Hret).
  destruct (all_exited_drained W Q (pool s)) as (Hc & Hq & He & _); [done|by eapply make_server_workers|done|].
  repeat (split; [done|]). destruct si_accepts0 as (r & Hr1 & Ha). exists r.
  rewrite Hret in Ha. simpl in Ha. rewrite Nat.add_0_r, (Permutation_length He) in Ha. done.
Qed.

(** C22. The accept loop never ends with the exception for a closed pool, and the descriptors
    the program holds are bounded as documented: at most one per worker, the queue's
    capacity, and the one the acceptor holds while it waits for a place. *)
Theorem server_holds_bounded cfg h W Q s0 s :
  make_server W Q = Some s0 -> rtc (server_step cfg h) s0 s ->
  main s <> Thrown PoolClosed /\
  (length (in_service (pool s)) + pending (pool s) + holds_client (main s) <= W + Q + 1)%nat.
Proof.
  intros Hm Hr. pose proof (server_run_inv _ _ _ _ _ _ Hr (make_server_inv _ _ _ Hm)) as [].
  pose proof si_pool0 as []. split; [done|].
  pose proof (length_omap_le client_of (workers_ (pool s))). unfold in_service, pending.
  destruct (main s); simpl; lia.
Qed.

(** Once a byte is in the shutdown pipe, from a signal or from [request_shutdown], the
    accept loop accepts at most one more connection: the one whose [accept] it had already
    entered. *)
Theorem notified_stops_accepting cfg h s s' :
  rtc (server_step cfg h) s s' -> (0 < pipe_bytes s)%nat ->
  (accepts s' <= accepts s + may_accept (main s))%nat.
Proof. intros Hr Hb. pose proof (notified_run _ _ _ _ Hr Hb). lia. Qed.

(** A signal does not reach an acceptor that waits for a place in the queue: the handler
    only writes to the pipe, which that thread is not polling, so that whatever the main
    thread and further signals do, the queue stays open and the acceptor stays blocked
    until a worker takes a descriptor from the queue. *)
Theorem signal_waits_for_queue s s' client :
  main s = Dispatching client -> push client (pool_queue (pool s)) = PushWait ->
  rtc (fun a b => main_step a b \/ signal_step a b \/ count_step a b) s s' ->
  main s' = Dispatching client /\ pool_queue (pool s') = pool_queue (pool s) /\
  closed_ (pool_queue (pool s')) = false /\ shutdown_requested_ s' = shutdown_requested_ s.
Proof.
  intros Hm Hp Hr.
  assert (Hinv : main s' = Dispatching client /\ pool_queue (pool s') = pool_queue (pool s) /\
                 shutdown_requested_ s' = shutdown_requested_ s).
  { clear -Hm Hp Hr. induction Hr as [s|s s1 s' Hs _ IH]; [done|].
    assert (H1 : main s1 = Dispatching client /\ pool_queue (pool s1) = pool_queue (pool s) /\
                 shutdown_requested_ s1 = shutdown_requested_ s).
    { destruct Hs as [Hs|[Hs|Hs]]; [|by destruct Hs|by destruct Hs].
      destruct Hs; rewrite Hm in *; simplify_eq; rewrite Hp in *; done. }
    destruct H1 as (H1 & H2 & H3). rewrite H2, H3 in IH. by apply IH. }
  destruct Hinv as (H1 & H2 & H3). repeat (split; [done|]). split; [|done]. rewrite H2.
  destruct (push_cases client (pool_queue (pool s))) as [(_ & E)|[(Hc & _ & _)|(_ & _ & q & E & _)]];
    [rewrite E in Hp; done|done|rewrite E in Hp; done].
Qed.
End Properties.

(** ** Examples *)

#[local] Existing Instance map_to_list_order.
#[local] Instance server_fs : FileSystem := tree_fs site.

Definition empty_heap : heap := {| objects := ∅; open_fds := {[0; 1; 2]}%Z; bad_closes := 0 |}.

(** The names of the errors are numbers here. [inet_pton] knows two addresses. *)
#[local] Instance numbered_errors : ErrorTexts :=
  {| strerror e := lit "error " ++ print_Z e; canonical_what _ := lit "cannot make canonical path" |}.

Definition pton (text : bytes) : option bytes :=
  if bool_decide (text = lit "127.0.0.1") then Some ["127"; "000"; "000"; "001"]%char
  else if bool_decide (text = lit "0.0.0.0") then Some ["000"; "000"; "000"; "000"]%char
  else None.

Definition good_port : ListenerCalls :=
  {| sys_socket := Ok 5%Z; sys_reuseaddr := Ok tt; sys_inet_pton := pton; sys_bind := fun _ => Ok tt;
     sys_listen := fun _ _ => Ok tt; sys_getsockname := fun a => Ok a |}.

Definition no_fcntl : PipeCalls :=
  {| sys_pipe := Ok (3, 4)%Z; sys_cloexec := fun d => if bool_decide (d = 3%Z) then Ok tt else Err 9%Z;
     sys_getfl := fun _ => Ok 1%N; sys_setfl := fun _ _ => Ok tt |}.

(** The last step of the construction fails: the socket and both ends are closed. *)
Lemma construct_server_owns_witness :
  same_heap (construct_server good_port (Ok tt) no_fcntl (path_of (lit "/srv/www")) 8080 128 (lit "127.0.0.1") 4 128
               empty_heap).2 empty_heap.
Proof.
  refine (construct_server_owns good_port (Ok tt) no_fcntl (path_of (lit "/srv/www")) 8080 128 (lit "127.0.0.1") 4 128
    empty_heap _ _ _).
  - intros i _. reflexivity.
  - intros fd Hfd. injection Hfd as <-. split; [lia|set_solver].
  - intros d0 d1 Hd. injection Hd as <- <-. repeat split; try lia; try set_solver; discriminate.
Defined.

(** One worker, one place; the signal arrives before anything else. *)
Definition server_0 : Server :=
  {| pool := pool_0; shutdown_requested_ := false; pipe_bytes := 0; accepted_connections_ := 0;
     main := LoopTest; stoppers := []; accepts := 0 |}.

Definition server_notified : Server := set_main Polling (write_notification true server_0).

Definition server_returned : Server :=
  let s := request_shutdown_now true server_notified in
  let s := set_main Joining (set_pool (request_shutdown (pool s)) s) in
  set_main Returned (set_pool (worker_exits 0 (pool s)) s).

Lemma server_notified_reached : rtc (server_step default_config site_handler) server_0 server_notified.
Proof.
  eapply rtc_l; [by apply v_signal, (g_signal server_0 true)|].
  apply rtc_once, v_main. by apply s_loop.
Qed.

Lemma server_returns : rtc (server_step default_config site_handler) server_notified server_returned.
Proof.
  eapply rtc_l; [apply v_main, (s_poll_pipe server_notified true); [done|simpl; lia|done]|].
  eapply rtc_l; [apply v_worker; by apply (w_exit _ _ _ 0)|].
  apply rtc_once, v_main, s_joined; [done|]. by apply Forall_singleton.
Qed.

Lemma serve_forever_drains_witness :
  queue_ (pool_queue (pool server_returned)) = [] /\
  Permutation (entered (pool server_returned)) (ended (pool server_returned)).
Proof.
  destruct (serve_forever_drains default_config site_handler 1 1 server_0 server_returned eq_refl
    ltac:(etransitivity; [exact server_notified_reached|exact server_returns]) eq_refl)
    as (_ & _ & H1 & H2 & _).
  split; [exact H1|exact H2].
Defined.

Lemma server_holds_bounded_witness : main server_returned <> Thrown PoolClosed.
Proof.
  exact (proj1 (server_holds_bounded default_config site_handler 1 1 server_0 server_returned eq_refl
    ltac:(etransitivity; [exact server_notified_reached|exact server_returns]))).
Defined.

Lemma notified_stops_accepting_witness : (accepts server_returned <= 0)%nat.
Proof.
  exact (notified_stops_accepting default_config site_handler server_notified server_returned
    server_returns ltac:(simpl; lia)).
Defined.

(** The acceptor holds descriptor 9 and the only place is taken. *)
Definition server_blocked : Server :=
  {| pool := dispatch_pushed (queue_of [4%Z] 1 false) pool_0; shutdown_requested_ := false;
     pipe_bytes := 0; accepted_connections_ := 2; main := Dispatching 9; stoppers := [];
     accepts := 2 |}.

Lemma signal_waits_for_queue_witness :
  closed_ (pool_queue (pool (write_notification true server_blocked))) = false.
Proof.
  refine (proj1 (proj2 (proj2 (signal_waits_for_queue server_blocked
    (write_notification true server_blocked) 9 eq_refl eq_refl _)))).
  apply rtc_once. right. left. by apply g_signal.
Defined.
