(* ===== verification/ServerLiveness.v ===== *)
(** * A notified server stops

    Once a byte is in the shutdown pipe, [serve_forever] is a bounded number of steps of its
    own and of its workers from its end, whatever signals and calls of [request_shutdown]
    come in between, and some thread always has such a step. *)

From Stdlib Require Import Ascii String.
From stdpp Require Import base numbers list gmap strings sets.
From S2P Require Import Prelude CppLib Parser Response FileSystem StaticFileHandler Router.
From S2P Require Import FsTree Fd Connection ConnectionExample BoundedQueue WorkerPool WorkerPoolFacts.
From S2P Require Import WorkerPoolExample Listener Server ServerFacts.

(** The accept loop goes round: the test of the loop, and an interrupted [poll]. *)
Definition goes_round (a b : acceptor) : bool :=
  match a, b with LoopTest, Polling | Polling, LoopTest => true | _, _ => false end.

(** [serve_forever] has returned or thrown. *)
Definition is_over (a : acceptor) : bool := match a with Returned | Thrown _ => true | _ => false end.

(** The steps of the acceptor before its end, with those that a connection it may still
    dispatch causes. *)
Definition acceptor_left (a : acceptor) : nat :=
  match a with
  | Returned | Thrown _ => 0
  | Joining => 1
  | LoopTest | Polling => 2
  | Refused => 3
  | Dispatching _ => 8
  | Accepting => 9
  end.

Definition steps_left (s : Server) : nat :=
  work_left (pool s) + uncounted (pool s) + unrejected (pool s) + acceptor_left (main s).

Section Liveness.
Context `{MapOrder} `{FileSystem}.
Context (cfg : ConnectionConfig) (h : StaticFileHandler).

(** The steps that get the server on, and the others: going round, signals and calls of
    [request_shutdown]. *)
Inductive forward_step : Server -> Server -> Prop :=
| f_main s s' : main_step s s' -> goes_round (main s) (main s') = false -> forward_step s s'
| f_count s s' : count_step s s' -> forward_step s s'
| f_worker s p : worker_step cfg h (pool s) p -> forward_step s (set_pool p s).

Inductive aside_step : Server -> Server -> Prop :=
| a_round s s' : main_step s s' -> goes_round (main s) (main s') = true -> aside_step s s'
| a_stop s s' : stop_step s s' -> aside_step s s'
| a_signal s s' : signal_step s s' -> aside_step s s'.

(** A run with a number of forward steps in it. *)
Inductive forward_run : nat -> Server -> Server -> Prop :=
| fr_refl s : forward_run 0 s s
| fr_forward n s s1 s' : forward_step s s1 -> forward_run n s1 s' -> forward_run (S n) s s'
| fr_aside n s s1 s' : aside_step s s1 -> forward_run n s1 s' -> forward_run n s s'.

Lemma forward_server s s' : forward_step s s' -> server_step cfg h s s'.
Proof. intros [? ? Hs _|? ? Hs|? ? Hs]; [by apply v_main|by apply v_count|by apply v_worker]. Qed.

Lemma aside_server s s' : aside_step s s' -> server_step cfg h s s'.
Proof. intros [? ? Hs _|? ? Hs|? ? Hs]; [by apply v_main|by apply v_stop|by apply v_signal]. Qed.

(** Every step of the server is of one of the two kinds. *)
Lemma server_step_kind s s' : server_step cfg h s s' -> forward_step s s' \/ aside_step s s'.
Proof.
  intros Hst. destruct Hst as [s s' Hs|s s' Hs|s s' Hs|s s' Hs|s p Hs].
  - destruct (goes_round (main s) (main s')) eqn:E; [right; by apply a_round|left; by apply f_main].
  - left. by apply f_count.
  - right. by apply a_stop.
  - right. by apply a_signal.
  - left. by apply f_worker.
Qed.

Lemma forward_run_server n s s' : forward_run n s s' -> rtc (server_step cfg h) s s'.
Proof.
  induction 1 as [|n s s1 s' Hs _ IH|n s s1 s' Hs _ IH]; [constructor|..];
    (eapply rtc_l; [|exact IH]); [by apply forward_server|by apply aside_server].
Qed.

(** So every run of the server is a run with some number of forward steps. *)
Lemma server_run_forward s s' : rtc (server_step cfg h) s s' -> exists n, forward_run n s s'.
Proof.
  induction 1 as [s|s s1 s' Hs _ [n IH]]; [exists 0; constructor|].
  destruct (server_step_kind _ _ Hs); [exists (S n); by eapply fr_forward|exists n; by eapply fr_aside].
Qed.

Lemma work_left_close p : work_left (request_shutdown p) = work_left p.
Proof. done. Qed.

Lemma steps_left_requested room s : steps_left (request_shutdown_now room s) = steps_left s.
Proof. unfold request_shutdown_now. by destruct (shutdown_requested_ s). Qed.

Lemma forward_decreases s s' :
  forward_step s s' -> (0 < pipe_bytes s)%nat -> (steps_left s' < steps_left s)%nat.
Proof.
  intros Hs Hb. destruct Hs as [s s' Hs Hg|s s' Hs|s p Hs].
  - destruct Hs as [s Hm|s Hm Hr|s Hm|s Hm|s room Hm _ Hw s1|s Hm|
      s answers client Hm|s answers e Hm|s client q Hm Hq|s client Hm Hq|s Hm|s Hm Hr|s Hm Hall];
      unfold steps_left; simpl; rewrite ?Hm in *; simpl in *; try done; try lia.
    + rewrite work_left_close. lia.
    + pose proof (steps_left_requested room s) as E. unfold steps_left in E.
      assert (Hm1 : main s1 = Polling) by (unfold s1, request_shutdown_now; by destruct (shutdown_requested_ s)).
      fold s1 in E. rewrite Hm1, Hm in E. simpl in E. rewrite work_left_close. lia.
    + destruct (push_cases client (pool_queue (pool s)))
        as [(_ & E)|[(_ & _ & E)|(_ & _ & q' & E & Hq' & _)]]; rewrite E in Hq; simplify_eq.
      unfold work_left, size. simpl. rewrite Hq', length_app. simpl. lia.
    + unfold work_left. simpl. lia.
  - destruct Hs as [s n Hn|s n Hn]; unfold steps_left, work_left; simpl; lia.
  - unfold steps_left. simpl. pose proof (worker_step_work _ _ _ _ Hs).
    assert (uncounted p = uncounted (pool s) /\ unrejected p = unrejected (pool s)) as [-> ->] by (by destruct Hs).
    lia.
Qed.

Lemma aside_keeps s s' : aside_step s s' -> steps_left s' = steps_left s.
Proof.
  intros Ha. destruct Ha as [s s' Hs Hg|s s' Hs|s s' Hs].
  - destruct Hs as [s Hm|s Hm Hr|s Hm|s Hm|s room Hm _ Hw s1|s Hm|
      s answers client Hm|s answers e Hm|s client q Hm Hq|s client Hm Hq|s Hm|s Hm Hr|s Hm Hall];
      unfold steps_left; simpl in *; rewrite ?Hm in *; simpl in *; done.
  - by destruct Hs.
  - by destruct Hs.
Qed.

(** Some thread can go forward, after the accept loop has gone round once if need be. *)
Lemma forward_progress W Q s :
  server_inv W Q s -> W <> 0 -> (0 < Q)%nat -> (0 < pipe_bytes s)%nat -> is_over (main s) = false ->
  exists s1 s2, rtc aside_step s s1 /\ forward_step s1 s2.
Proof.
  intros Hi HW HQ Hb Ho.
  assert (Hnow : forall s2, forward_step s s2 -> exists s1 s2, rtc aside_step s s1 /\ forward_step s1 s2)
    by (intros s2 Hs; exists s, s2; by split; [constructor|]).
  assert (Hworker : forall w, w ∈ workers_ (pool s) -> w <> Exited ->
    (w = Popping -> exists c q, pop (pool_queue (pool s)) = PopItem c q \/ pop (pool_queue (pool s)) = PopNone) ->
    exists s1 s2, rtc aside_step s s1 /\ forward_step s1 s2).
  { intros w [i Hw]%list_elem_of_lookup Hx Hp. assert (exists p, worker_step cfg h (pool s) p) as [p Hs].
    { destruct w as [|c|c| |]; [|eexists; by econstructor..|done].
      destruct (Hp eq_refl) as (c & q & [E|E]); eexists; [by eapply w_pop|by eapply w_exit]. }
    apply (Hnow (set_pool p s)). by apply f_worker. }
  destruct (main s) as [| | |client| | | |] eqn:Hm; try done.
  - destruct (shutdown_requested_ s) eqn:Hr.
    + eapply Hnow, f_main; [by apply s_leave|by rewrite Hm].
    + exists (set_main Polling s). eexists. split.
      * apply rtc_once, a_round; [by apply s_loop|by rewrite Hm].
      * eapply f_main; [by apply (s_poll_pipe _ true)|done].
  - eapply Hnow, f_main; [by apply (s_poll_pipe _ true)|by rewrite Hm].
  - eapply Hnow, f_main; [by apply (s_accept _ [Ok 0%Z] 0%Z)|by rewrite Hm].
  - destruct (push_cases client (pool_queue (pool s))) as [(_ & E)|[(Hc & Hfull & _)|(_ & _ & q & E & _)]].
    + eapply Hnow, f_main; [by eapply s_refused|by rewrite Hm].
    + pose proof (si_pool _ _ _ Hi) as Hp. destruct (workers_ (pool s)) as [|w ws] eqn:Ew.
      { pose proof (pi_workers _ _ _ Hp) as Hl. rewrite Ew in Hl. simpl in Hl. lia. }
      apply (Hworker w); [by left| |].
      * intros ->. destruct (pi_exited _ _ _ Hp) as [Hcl _]; [rewrite Ew; by left|congruence].
      * intros _. destruct (pop_cases (pool_queue (pool s))) as [(Hq & _)|[(_ & Hcl & _)|(x & xs & _ & E)]];
          [|congruence|eauto]. rewrite (pi_capacity _ _ _ Hp) in Hfull. unfold size in Hfull. rewrite Hq in Hfull.
        simpl in Hfull. lia.
    + eapply Hnow, f_main; [by eapply s_dispatch|by rewrite Hm].
  - destruct (shutdown_requested_ s) eqn:Hr;
      (eapply Hnow, f_main; [first [by apply s_refused_ok|by apply s_refused_throw]|by rewrite Hm]).
  - destruct (decide (Forall (fun w => w = Exited) (workers_ (pool s)))) as [Hall|Hsome];
      [eapply Hnow, f_main; [by apply s_joined|by rewrite Hm]|].
    apply not_Forall_Exists, Exists_exists in Hsome as (w & Hin & Hx); [|apply _].
    apply (Hworker w); [done|done|]. intros _.
    destruct (pop_cases (pool_queue (pool s))) as [(_ & E & _)|[(_ & _ & E)|(x & xs & _ & E)]];
      [|by exists 0%Z, (pool_queue (pool s)); right|eauto].
    rewrite (si_joining _ _ _ Hi) in E; [done|by left].
Qed.

(** C13. A server that has been told to stop stops. From the moment a byte is in the shutdown pipe,
    every run has at most [steps_left] steps other than the loop going round, signals and
    further requests; and until [serve_forever] has returned or thrown, one of its threads
    can take such a step. So it ends as soon as the threads are scheduled, the connections in
    service end and an [accept] that was entered returns. *)
Theorem notified_server_stops W Q s0 s s' n :
  make_server W Q = Some s0 -> rtc (server_step cfg h) s0 s -> (0 < pipe_bytes s)%nat ->
  forward_run n s s' ->
  (n + steps_left s' <= steps_left s)%nat /\
  (is_over (main s') = false -> exists s1 s2, rtc aside_step s' s1 /\ forward_step s1 s2).
Proof.
  intros Hm Hr Hb Hn.
  assert (HQ : (0 < Q)%nat).
  { unfold make_server, make_worker_pool, make_queue in Hm. destruct (Nat.eqb_spec Q 0); [done|lia]. }
  assert (Hleft : (n + steps_left s' <= steps_left s)%nat /\ (0 < pipe_bytes s')%nat).
  { clear Hr. induction Hn as [s|n s s1 s' Hs _ IH|n s s1 s' Hs _ IH]; [by split; [lia|]|..].
    - pose proof (forward_decreases _ _ Hs Hb). destruct (notified_step _ _ _ _ (forward_server _ _ Hs) Hb) as [Hb1 _].
      destruct (IH Hb1). split; [lia|done].
    - pose proof (aside_keeps _ _ Hs). destruct (notified_step _ _ _ _ (aside_server _ _ Hs) Hb) as [Hb1 _].
      destruct (IH Hb1). split; [lia|done]. }
  destruct Hleft as [Hleft Hb']. split; [done|]. intros Ho.
  eapply (forward_progress W Q); [|by eapply make_server_workers|done|done|done].
  eapply server_run_inv; [|by apply make_server_inv]. etransitivity; [exact Hr|by eapply forward_run_server].
Qed.
End Liveness.

(** ** An example *)

#[local] Existing Instance map_to_list_order.
#[local] Existing Instance server_fs.

Lemma notified_forward : forward_run default_config site_handler 3 server_notified server_returned.
Proof.
  eapply fr_forward; [apply f_main; [by apply (s_poll_pipe server_notified true); [done|simpl; lia|done]|done]|].
  eapply fr_forward; [apply f_worker; by apply (w_exit _ _ _ 0)|].
  eapply fr_forward; [|constructor]. apply f_main; [|done]. apply s_joined; [done|]. by apply Forall_singleton.
Qed.

Lemma notified_server_stops_witness : (3 + steps_left server_returned <= steps_left server_notified)%nat.
Proof.
  exact (proj1 (notified_server_stops default_config site_handler 1 1 server_0 server_notified server_returned 3
    eq_refl server_notified_reached ltac:(simpl; lia) notified_forward)).
Defined.
