(* ===== verification/Main.v ===== *)
(** * The command line and the shutdown report

    Models the argument handling of [src/main.cpp] and [src/metrics.cpp] with
    [include/http/metrics.hpp]. The process around them is in [Launch] and
    [Program]. *)

From Stdlib Require Import Ascii String.
From stdpp Require Import base numbers list gmap strings.
From S2P Require Import Prelude CppLib Parser ParserLemmas Connection BoundedQueue WorkerPool.
From S2P Require Import Server.

(** ** Arguments *)

(** [parse_port]: [unsigned int] is 32 bits wide; [Err] is the exception's text. *)
Definition parse_port (input : bytes) : result bytes N :=
  let result := from_chars UINT_MAX input 0 in
  let port := fc_value result in
  let failed := match fc_ec result with no_error => false | _ => true end in
  if failed || negb (fc_ptr result =? length input)%nat || (port =? 0)%N || (65535 <? port)%N
  then Err (lit "port must be an integer from 1 to 65535")
  else Ok (port mod 2 ^ 16)%N.

Definition parse_positive_size (input name : bytes) : result bytes N :=
  let result := from_chars SIZE_MAX input 0 in
  let value := fc_value result in
  let failed := match fc_ec result with no_error => false | _ => true end in
  if failed || negb (fc_ptr result =? length input)%nat || (value =? 0)%N
  then Err (name ++ lit " must be a positive integer")
  else Ok value.

Record ServerArguments := {
  arg_port : N;
  arg_document_root : bytes;
  arg_bind_address : bytes;
  arg_worker_count : N;
  arg_queue_capacity : N
}.

(** How [main] goes on: the usage message and status 2, an exception's text and status
    1, or the construction of the server. *)
Inductive main_outcome := Usage | Failed (message : bytes) | Start (a : ServerArguments).

(** An argument that is present, or its default. *)
Definition argument {E A} (argv : list bytes) (i : nat) (parse : bytes -> result E A) (d : A) :
    result E A :=
  match argv !! i with Some a => parse a | None => Ok d end.

Definition main_arguments (argv : list bytes) : main_outcome :=
  if (6 <? length argv)%nat then Usage
  else
    let parsed :=
      let! port := argument argv 1 parse_port 8080%N in
      let! document_root := argument argv 2 Ok (lit "www") in
      let! bind_address := argument argv 3 Ok (lit "127.0.0.1") in
      let! worker_count :=
        argument argv 4 (fun a => parse_positive_size a (lit "worker count")) 4%N in
      let! queue_capacity :=
        argument argv 5 (fun a => parse_positive_size a (lit "queue capacity")) 128%N in
      Ok {| arg_port := port; arg_document_root := document_root;
            arg_bind_address := bind_address; arg_worker_count := worker_count;
            arg_queue_capacity := queue_capacity |} in
    match parsed with Ok a => Start a | Err message => Failed message end.

(** ** The report *)

Record HttpServerStats := { accepted_connections : N; workers : WorkerPoolStats }.

Definition server_stats (s : Server) : HttpServerStats :=
  {| accepted_connections := accepted_connections_ s; workers := stats (pool s) |}.

Definition QUOTE : ascii := "034"%char.
Definition quoted (s : bytes) : bytes := QUOTE :: s ++ [QUOTE].

(** The stream insertions, in order. *)
Definition format_shutdown_metrics (s : HttpServerStats) (uptime : Z) : bytes :=
  let w := workers s in
  lit "{" ++ quoted (lit "event") ++ lit ":" ++ quoted (lit "server_shutdown") ++
  lit "," ++ quoted (lit "uptime_ms") ++ lit ":" ++ print_Z uptime ++
  lit "," ++ quoted (lit "accepted_connections") ++ lit ":" ++ print_N (accepted_connections s) ++
  lit "," ++ quoted (lit "dispatched_connections") ++ lit ":" ++ print_N (dispatched_connections w) ++
  lit "," ++ quoted (lit "rejected_dispatches") ++ lit ":" ++ print_N (rejected_dispatches w) ++
  lit "," ++ quoted (lit "active_connections") ++ lit ":" ++ print_N (active_connections w) ++
  lit "," ++ quoted (lit "queued_connections") ++ lit ":" ++ print_N (queued_connections w) ++
  lit "," ++ quoted (lit "queue_high_water") ++ lit ":" ++ print_N (queue_high_water w) ++
  lit "," ++ quoted (lit "completed_connections") ++ lit ":" ++ print_N (completed_connections w) ++
  lit "," ++ quoted (lit "requests_served") ++ lit ":" ++ print_N (total_requests_served w) ++
  lit "," ++ quoted (lit "bytes_read") ++ lit ":" ++ print_N (total_bytes_read w) ++
  lit "," ++ quoted (lit "bytes_written") ++ lit ":" ++ print_N (total_bytes_written w) ++
  lit "," ++ quoted (lit "peer_closes") ++ lit ":" ++ print_N (peer_closes w) ++
  lit "," ++ quoted (lit "explicit_closes") ++ lit ":" ++ print_N (explicit_closes w) ++
  lit "," ++ quoted (lit "request_limit_closes") ++ lit ":" ++ print_N (request_limit_closes w) ++
  lit "," ++ quoted (lit "parse_errors") ++ lit ":" ++ print_N (parse_errors w) ++
  lit "," ++ quoted (lit "read_timeouts") ++ lit ":" ++ print_N (read_timeouts w) ++
  lit "," ++ quoted (lit "keep_alive_timeouts") ++ lit ":" ++ print_N (keep_alive_timeouts w) ++
  lit "," ++ quoted (lit "write_timeouts") ++ lit ":" ++ print_N (write_timeouts w) ++
  lit "," ++ quoted (lit "read_errors") ++ lit ":" ++ print_N (read_errors w) ++
  lit "," ++ quoted (lit "write_errors") ++ lit ":" ++ print_N (write_errors w) ++
  lit "," ++ quoted (lit "worker_errors") ++ lit ":" ++ print_N (worker_errors w) ++ lit "}".

(** ** Reading the report back *)

Inductive json := JString (s : bytes) | JInt (z : Z).

(** A flat JSON object of strings without escapes and integers. *)
Definition read_string (s : bytes) : option (bytes * bytes) :=
  match s with
  | c :: s' =>
      if bool_decide (c = QUOTE) then
        match search [QUOTE] s' with
        | Some i => Some (take i s', drop (i + 1) s')
        | None => None
        end
      else None
  | [] => None
  end.

Definition read_digits (s : bytes) : option (N * bytes) :=
  match digit_run s with
  | 0 => None
  | k => Some (decimal_value (take k s), drop k s)
  end.

Definition read_value (s : bytes) : option (json * bytes) :=
  match s with
  | [] => None
  | c :: s' =>
      if bool_decide (c = QUOTE) then prod_map JString id <$> read_string s
      else if bool_decide (c = "-"%char)
      then prod_map (fun n => JInt (- Z.of_N n)) id <$> read_digits s'
      else prod_map (fun n => JInt (Z.of_N n)) id <$> read_digits s
  end.

Fixpoint read_members (fuel : nat) (s : bytes) : option (list (bytes * json)) :=
  match fuel with
  | 0 => None
  | S fuel' =>
      match read_string s with
      | Some (key, ":"%char :: s1) =>
          match read_value s1 with
          | Some (v, ","%char :: s2) => cons (key, v) <$> read_members fuel' s2
          | Some (v, ["}"%char]) => Some [(key, v)]
          | _ => None
          end
      | _ => None
      end
  end.

Definition read_object (s : bytes) : option (list (bytes * json)) :=
  match s with
  | "{"%char :: s' => read_members (length s') s'
  | _ => None
  end.

(** ** Lemmas *)

Definition render_value (v : json) : bytes :=
  match v with JString s => quoted s | JInt z => print_Z z end.

Fixpoint render_members (kvs : list (bytes * json)) : bytes :=
  match kvs with
  | [] => []
  | [(k, v)] => quoted k ++ lit ":" ++ render_value v ++ lit "}"
  | (k, v) :: rest => quoted k ++ lit ":" ++ render_value v ++ lit "," ++ render_members rest
  end.

Lemma read_quoted s rest : QUOTE ∉ s -> read_string (quoted s ++ rest) = Some (s, rest).
Proof.
  intros Hs. unfold quoted. simpl. rewrite <- (assoc_L (++)). simpl.
  rewrite search_char_app by done. rewrite take_app_length. f_equal. f_equal.
  rewrite <- drop_drop, drop_app_length. done.
Qed.

Lemma digit_run_app s c rest :
  Forall (fun x => isdigit x = true) s -> isdigit c = false -> digit_run (s ++ c :: rest) = length s.
Proof. intros Hs Hc. induction Hs as [|x s Hx _ IH]; simpl; [by rewrite Hc|]. by rewrite Hx, IH. Qed.

Lemma read_printed n c rest :
  isdigit c = false -> read_digits (print_N n ++ c :: rest) = Some (n, c :: rest).
Proof.
  intros Hc. unfold read_digits. rewrite digit_run_app by (apply print_N_digits || done).
  pose proof (print_N_nonempty n) as Hn. destruct (length (print_N n)) eqn:E.
  - by apply nil_length_inv in E.
  - rewrite <- E, take_app_length, drop_app_length, decimal_value_print_N. done.
Qed.

Lemma read_rendered v c rest :
  (c = ","%char \/ c = "}"%char) -> match v with JString s => QUOTE ∉ s | JInt _ => True end ->
  read_value (render_value v ++ c :: rest) = Some (v, c :: rest).
Proof.
  intros Hc Hv. assert (Hd : isdigit c = false) by (by destruct Hc as [-> | ->]).
  destruct v as [s|z]; simpl.
  - change (prod_map JString id <$> read_string (quoted s ++ c :: rest) = Some (JString s, c :: rest)).
    by rewrite read_quoted.
  - unfold print_Z. destruct (Z.ltb_spec z 0).
    + simpl. rewrite read_printed by done. simpl. f_equal. f_equal. f_equal. lia.
    + pose proof (print_N_nonempty (Z.to_N z)) as Hn. pose proof (print_N_digits (Z.to_N z)) as Hp.
      destruct (print_N (Z.to_N z)) as [|d ds] eqn:E; [done|].
      unfold read_value. simpl app. apply Forall_cons in Hp as [Hd0 _].
      rewrite !bool_decide_eq_false_2 by (intros ->; vm_compute in Hd0; done).
      change (d :: ds ++ c :: rest) with ((d :: ds) ++ c :: rest). rewrite <- E, read_printed by done.
      simpl. f_equal. f_equal. f_equal. lia.
Qed.

Definition plain_member (kv : bytes * json) : Prop :=
  QUOTE ∉ kv.1 /\ match kv.2 with JString s => QUOTE ∉ s | JInt _ => True end.

Lemma read_members_spec kvs fuel :
  kvs <> [] -> Forall plain_member kvs -> (length kvs <= fuel)%nat ->
  read_members fuel (render_members kvs) = Some kvs.
Proof.
  revert fuel; induction kvs as [|[k v] kvs IH]; intros fuel Hne Hf Hl; [done|].
  destruct fuel as [|fuel]; [simpl in Hl; lia|]. apply Forall_cons in Hf as [[Hk Hv] Hf].
  simpl in Hk, Hv, Hl. cbn [read_members]. destruct kvs as [|kv kvs].
  - cbn [render_members]. rewrite read_quoted by done.
    change (lit ":" ++ render_value v ++ lit "}") with (":"%char :: render_value v ++ "}"%char :: []).
    cbv iota. rewrite read_rendered by auto. done.
  - change (render_members ((k, v) :: kv :: kvs))
      with (quoted k ++ ":"%char :: render_value v ++ ","%char :: render_members (kv :: kvs)).
    rewrite read_quoted by done. cbv iota. rewrite read_rendered by auto. cbv iota.
    rewrite IH by (done || lia). done.
Qed.

Lemma render_members_length kvs : (length kvs <= length (render_members kvs))%nat.
Proof.
  induction kvs as [|[k v] [|kv kvs] IH]; [done| |].
  - cbn [render_members]. rewrite length_app. simpl. lia.
  - change (render_members ((k, v) :: kv :: kvs))
      with (quoted k ++ lit ":" ++ render_value v ++ lit "," ++ render_members (kv :: kvs)).
    rewrite !length_app. simpl in *. lia.
Qed.

(** The members of the report. *)
Definition report (s : HttpServerStats) (uptime : Z) : list (bytes * json) :=
  let w := workers s in
  let count n := JInt (Z.of_N n) in
  [(lit "event", JString (lit "server_shutdown")); (lit "uptime_ms", JInt uptime);
   (lit "accepted_connections", count (accepted_connections s));
   (lit "dispatched_connections", count (dispatched_connections w));
   (lit "rejected_dispatches", count (rejected_dispatches w));
   (lit "active_connections", count (active_connections w));
   (lit "queued_connections", count (queued_connections w));
   (lit "queue_high_water", count (queue_high_water w));
   (lit "completed_connections", count (completed_connections w));
   (lit "requests_served", count (total_requests_served w));
   (lit "bytes_read", count (total_bytes_read w));
   (lit "bytes_written", count (total_bytes_written w));
   (lit "peer_closes", count (peer_closes w)); (lit "explicit_closes", count (explicit_closes w));
   (lit "request_limit_closes", count (request_limit_closes w));
   (lit "parse_errors", count (parse_errors w)); (lit "read_timeouts", count (read_timeouts w));
   (lit "keep_alive_timeouts", count (keep_alive_timeouts w));
   (lit "write_timeouts", count (write_timeouts w)); (lit "read_errors", count (read_errors w));
   (lit "write_errors", count (write_errors w)); (lit "worker_errors", count (worker_errors w))].

Lemma print_Z_of_N n : print_Z (Z.of_N n) = print_N n.
Proof.
  unfold print_Z. rewrite (proj2 (Z.ltb_ge _ _)) by lia. by rewrite N2Z.id.
Qed.

Lemma format_render s uptime :
  format_shutdown_metrics s uptime = "{"%char :: render_members (report s uptime).
Proof.
  unfold format_shutdown_metrics, report. cbn [render_members render_value].
  rewrite !print_Z_of_N. reflexivity.
Qed.

Lemma report_plain s uptime : Forall plain_member (report s uptime).
Proof.
  unfold report. repeat (apply Forall_cons; split; [|]); [..|apply Forall_nil; done].
  all: (split; [apply (bool_decide_unpack _); vm_compute; exact I|]); simpl; try done.
  apply (bool_decide_unpack _); vm_compute; exact I.
Qed.

Lemma whole_number max s (ok : N -> bool) :
  let r := from_chars max s 0 in
  (match fc_ec r with no_error => false | _ => true end
   || negb (fc_ptr r =? length s)%nat || ok (fc_value r)) = false <->
  s <> [] /\ Forall (fun c => isdigit c = true) s /\ (decimal_value s <= max)%N /\
  ok (decimal_value s) = false /\ fc_value r = decimal_value s.
Proof.
  simpl. pose proof (from_chars_all max s 0) as Ha. pose proof (from_chars_value max s 0) as Hv.
  rewrite !orb_false_iff, negb_false_iff, Nat.eqb_eq. split.
  - intros [[Hec Hp] Hok]. assert (He : fc_ec (from_chars max s 0) = no_error)
      by (by destruct (fc_ec (from_chars max s 0))).
    specialize (Hv He Hp). rewrite Hv in Hok. destruct (proj1 Ha (conj He Hp)) as (H1 & H2 & H3). done.
  - intros (H1 & H2 & H3 & Hok & Hval). destruct (proj2 Ha) as [He Hp]; [done|].
    rewrite He, Hval. done.
Qed.

(** ** Properties *)

(** A port argument is accepted exactly when it is a decimal numeral from 1 to 65535,
    with no sign, space or other character around it, and stands for its value: the
    conversion to 16 bits loses nothing. *)
Theorem parse_port_exact input n :
  parse_port input = Ok n <->
  input <> [] /\ Forall (fun c => isdigit c = true) input /\ decimal_value input = n /\
  (1 <= n <= 65535)%N.
Proof.
  unfold parse_port.
  pose proof (whole_number UINT_MAX input (fun v => (v =? 0) || (65535 <? v))%N) as Hw. simpl in Hw.
  rewrite orb_assoc in Hw. destruct (_ || _ || _ || _) eqn:E.
  - split; [done|]. intros (H1 & H2 & <- & H3). exfalso. enough (true = false) by done. apply Hw.
    assert (Hm : (decimal_value input <= UINT_MAX)%N) by (unfold UINT_MAX; lia).
    repeat (split; [done|]).
    split; [by destruct (N.eqb_spec (decimal_value input) 0), (N.ltb_spec 65535 (decimal_value input)); lia || done|].
    apply from_chars_value; by apply from_chars_all.
  - destruct (proj1 Hw eq_refl) as (H1 & H2 & H3 & H4 & H5). rewrite H5.
    apply orb_false_iff in H4 as [H4%N.eqb_neq H4'%N.ltb_ge].
    rewrite N.mod_small by lia. split.
    + intros Hn. injection Hn as <-. repeat (split; [done|]). lia.
    + by intros (_ & _ & <- & _).
Qed.

(** A size argument is accepted exactly when it is a decimal numeral from 1 to the
    greatest [std::size_t], and the server it asks for can be constructed: neither the
    queue nor the pool refuses what the command line let through. *)
Theorem arguments_construct argv a :
  main_arguments argv = Start a ->
  (forall input, argv !! 4 = Some input ->
     Forall (fun c => isdigit c = true) input /\ decimal_value input = arg_worker_count a) /\
  (1 <= arg_port a <= 65535)%N /\ (1 <= arg_worker_count a < 2 ^ 64)%N /\
  (1 <= arg_queue_capacity a < 2 ^ 64)%N /\
  is_Some (make_server (N.to_nat (arg_worker_count a)) (N.to_nat (arg_queue_capacity a))).
Proof.
  assert (Hsize : forall i name d n, (1 <= d < 2 ^ 64)%N ->
    argument argv i (fun x => parse_positive_size x name) d = Ok n ->
    (1 <= n < 2 ^ 64)%N /\ forall input, argv !! i = Some input ->
      Forall (fun c => isdigit c = true) input /\ decimal_value input = n).
  { intros i name d n Hd. unfold argument. destruct (argv !! i) as [input|]; [|naive_solver].
    unfold parse_positive_size. pose proof (whole_number SIZE_MAX input (fun v => v =? 0)%N) as Hw.
    simpl in Hw. destruct (_ || _ || _); [done|]. intros Hn. injection Hn as <-.
    destruct (proj1 Hw eq_refl) as (_ & H2 & H3 & H4%N.eqb_neq & ->).
    unfold SIZE_MAX in H3. split; [lia|]. intros ? Hi. by injection Hi as <-. }
  unfold main_arguments. destruct (_ <? _)%nat; [done|].
  destruct (argument argv 1 parse_port 8080%N) as [port|] eqn:Ep; [|done].
  destruct (argument argv 2 Ok _) as [root|]; [|done].
  destruct (argument argv 3 Ok _) as [address|]; [|done]. simpl.
  destruct (argument argv 4 _ _) as [ws|] eqn:Ew; [|done]. simpl.
  destruct (argument argv 5 _ _) as [cap|] eqn:Ec; [|done]. simpl. intros Ha. injection Ha as <-.
  apply Hsize in Ew as [Hws Hin]; [|lia]. apply Hsize in Ec as [Hcap _]; [|lia]. simpl.
  assert (Hp : (1 <= port <= 65535)%N).
  { unfold argument in Ep. destruct (argv !! 1) as [x|]; [|injection Ep as <-; lia].
    unfold parse_port in Ep.
    pose proof (whole_number UINT_MAX x (fun v => (v =? 0) || (65535 <? v))%N) as Hw. simpl in Hw.
    rewrite orb_assoc in Hw. destruct (_ || _ || _ || _); [done|]. injection Ep as <-.
    destruct (proj1 Hw eq_refl) as (_ & _ & _ & H4 & ->).
    apply orb_false_iff in H4 as [H4%N.eqb_neq H4'%N.ltb_ge]. rewrite N.mod_small; lia. }
  repeat (split; [done|]). unfold make_server, make_worker_pool, make_queue.
  destruct (Nat.eqb_spec (N.to_nat cap) 0); [lia|].
  destruct (Nat.eqb_spec (N.to_nat ws) 0); [lia|]. by eexists.
Qed.

Lemma arguments_construct_witness :
  is_Some (make_server 8 64).
Proof.
  destruct (arguments_construct [lit "http_server"; lit "80"; lit "site"; lit "0.0.0.0"; lit "8"; lit "64"]
    {| arg_port := 80; arg_document_root := lit "site"; arg_bind_address := lit "0.0.0.0";
       arg_worker_count := 8; arg_queue_capacity := 64 |}) as (_ & _ & _ & _ & H);
    [vm_compute; reflexivity|]. exact H.
Defined.

(** C24. The report is a well-formed flat JSON object, and a reader finds every counter of the
    server in it under its name, with its value. *)
Theorem metrics_roundtrip s uptime :
  read_object (format_shutdown_metrics s uptime) = Some (report s uptime).
Proof.
  rewrite format_render. unfold read_object.
  apply read_members_spec; [done|apply report_plain|apply render_members_length].
Qed.
