(* ===== verification/Program.v ===== *)
(** * The program

    Models [main] of [src/main.cpp] from the constructed server to the exit status: the
    installation of the signal handlers, [serve_forever], the report, and the destructors
    of [HttpServer] and [WorkerPool] ([src/server.cpp], [src/worker_pool.cpp]), which run
    on the way out of an exception too. The steps interleave with the workers and with
    signals; the handler writes to the descriptor number in [shutdown_notification_fd],
    which may or may not be open at that moment. *)

From Stdlib Require Import Ascii String.
From stdpp Require Import base numbers list gmap strings sets.
From S2P Require Import Prelude CppLib Parser Response FileSystem StaticFileHandler Router.
From S2P Require Import FsTree Fd Connection ConnectionExample BoundedQueue WorkerPool.
From S2P Require Import WorkerPoolFacts WorkerPoolExample Server ServerFacts Main.

(** Where [main] is: in [install_shutdown_handler] before the assignment and before each
    [sigaction]; before the banner, whose [canonical] may throw; in [serve_forever];
    before the report; in the destructor of the server before [request_shutdown], before
    the workers are joined and before the members are destroyed; ended. The numbers are
    the exit status the program is going to have. *)
Inductive phase :=
| Assigning | InstallingInt | InstallingTerm | Announcing | InServe | Reporting
| Destructing (code : Z) | JoiningAll (code : Z) | Freeing (code : Z) | Ended (code : Z).

(** [sigint] and [sigterm] are the installed handlers. [bad_writes] is not in the program:
    the calls of [write] by the handler on a number that is not open. *)
Record Program := {
  server : Server;
  fds : heap;
  shutdown_notification_fd : Z;
  sigint : bool;
  sigterm : bool;
  where_ : phase;
  report_line : option bytes;
  bad_writes : nat
}.

Definition at_phase (ph : phase) (p : Program) : Program :=
  {| server := server p; fds := fds p; shutdown_notification_fd := shutdown_notification_fd p;
     sigint := sigint p; sigterm := sigterm p; where_ := ph; report_line := report_line p;
     bad_writes := bad_writes p |}.
Definition with_server (s : Server) (p : Program) : Program :=
  {| server := s; fds := fds p; shutdown_notification_fd := shutdown_notification_fd p;
     sigint := sigint p; sigterm := sigterm p; where_ := where_ p; report_line := report_line p;
     bad_writes := bad_writes p |}.
Definition notify_fd (fd : Z) (p : Program) : Program :=
  {| server := server p; fds := fds p; shutdown_notification_fd := fd; sigint := sigint p;
     sigterm := sigterm p; where_ := where_ p; report_line := report_line p;
     bad_writes := bad_writes p |}.
Definition handlers (i t : bool) (p : Program) : Program :=
  {| server := server p; fds := fds p; shutdown_notification_fd := shutdown_notification_fd p;
     sigint := i; sigterm := t; where_ := where_ p; report_line := report_line p;
     bad_writes := bad_writes p |}.

(** [main] with its server constructed; the second end of the pipe is object 4. *)
Definition start_program (s : Server) (h : heap) : Program :=
  {| server := s; fds := h; shutdown_notification_fd := (-1)%Z; sigint := false; sigterm := false;
     where_ := Assigning; report_line := None; bad_writes := 0 |}.

(** [HttpServer::shutdown_notification_fd] *)
Definition pipe_write_end (p : Program) : Z := fd_get 4 (fds p).

(** The body of [~HttpServer] up to the joins: [request_shutdown], then
    [WorkerPool::shutdown], which closes the queue whoever requested the shutdown. *)
Definition stop_server (room : bool) (s : Server) : Server :=
  let s := request_shutdown_now room s in set_pool (request_shutdown (pool s)) s.

(** The members in reverse order: the ends of the pipe, the pool, whose destructor finds
    the queue closed and nothing to join, the listener. *)
Definition destroy_members (p : Program) : Program :=
  {| server := set_pool (request_shutdown (pool (server p))) (server p);
     fds := fd_dtor 1 (fd_dtor 3 (fd_dtor 4 (fds p)));
     shutdown_notification_fd := shutdown_notification_fd p; sigint := sigint p;
     sigterm := sigterm p; where_ := where_ p; report_line := report_line p;
     bad_writes := bad_writes p |}.

Definition print_report (uptime : Z) (p : Program) : Program :=
  {| server := server p; fds := fds p; shutdown_notification_fd := shutdown_notification_fd p;
     sigint := sigint p; sigterm := sigterm p; where_ := where_ p;
     report_line := Some (format_shutdown_metrics (server_stats (server p)) uptime);
     bad_writes := bad_writes p |}.

(** [handle_shutdown_signal]: a [write] on a number that is not open fails. *)
Definition handle_shutdown_signal (room : bool) (p : Program) : Program :=
  let fd := shutdown_notification_fd p in
  if (0 <=? fd)%Z then
    if bool_decide (fd ∈ open_fds (fds p)) then with_server (write_notification room (server p)) p
    else {| server := server p; fds := fds p;
            shutdown_notification_fd := shutdown_notification_fd p; sigint := sigint p;
            sigterm := sigterm p; where_ := where_ p; report_line := report_line p;
            bad_writes := S (bad_writes p) |}
  else p.

Section Steps.
Context `{MapOrder} `{FileSystem}.
Context (cfg : ConnectionConfig) (h : StaticFileHandler).

(** The main thread. The counters of [dispatch] are updated before [serve_forever] goes on,
    so none is pending when it has returned or thrown. *)
Inductive thread_step : Program -> Program -> Prop :=
| m_assign p :
    where_ p = Assigning -> thread_step p (at_phase InstallingInt (notify_fd (pipe_write_end p) p))
| m_sigint p :
    where_ p = InstallingInt -> thread_step p (at_phase InstallingTerm (handlers true false p))
| m_sigterm p :
    where_ p = InstallingTerm -> thread_step p (at_phase Announcing (handlers true true p))
| m_install_fails p :
    where_ p = InstallingInt \/ where_ p = InstallingTerm ->
    thread_step p (at_phase (Destructing 1) (notify_fd (-1) p))
| m_announce p : where_ p = Announcing -> thread_step p (at_phase InServe p)
| m_canonical_fails p : where_ p = Announcing -> thread_step p (at_phase (Destructing 1) p)
| m_serve p s :
    where_ p = InServe -> main_step (server p) s -> thread_step p (with_server s p)
| m_count p s :
    where_ p = InServe -> count_step (server p) s -> thread_step p (with_server s p)
| m_returned p :
    where_ p = InServe -> main (server p) = Returned ->
    uncounted (pool (server p)) = 0 -> unrejected (pool (server p)) = 0 ->
    thread_step p (at_phase Reporting (notify_fd (-1) p))
| m_thrown p f :
    where_ p = InServe -> main (server p) = Thrown f ->
    uncounted (pool (server p)) = 0 -> unrejected (pool (server p)) = 0 ->
    thread_step p (at_phase (Destructing 1) p)
| m_report p uptime :
    where_ p = Reporting -> thread_step p (at_phase (Destructing 0) (print_report uptime p))
| m_stop p code room :
    where_ p = Destructing code -> can_write room (server p) ->
    thread_step p (at_phase (JoiningAll code) (with_server (stop_server room (server p)) p))
| m_joined p code :
    where_ p = JoiningAll code -> Forall (fun w => w = Exited) (workers_ (pool (server p))) ->
    thread_step p (at_phase (Freeing code) p)
| m_free p code :
    where_ p = Freeing code -> thread_step p (at_phase (Ended code) (destroy_members p)).

Inductive own_step : Program -> Program -> Prop :=
| o_main p p' : thread_step p p' -> own_step p p'
| o_worker p q :
    worker_step cfg h (pool (server p)) q -> own_step p (with_server (set_pool q (server p)) p).

Inductive program_step : Program -> Program -> Prop :=
| g_own p p' : own_step p p' -> program_step p p'
| g_signalled p room :
    sigint p || sigterm p = true -> can_write room (server p) ->
    program_step p (handle_shutdown_signal room p).
End Steps.
