(* ===== verification/ProgramFacts.v ===== *)
(** * Properties of the program

    Every way out of [main] after the server is constructed, the exceptions included, stops
    and joins the workers, closes the three descriptors once and serves what was
    dispatched; the report of a normal end balances; the signal handler writes to a
    descriptor that is open, except after an exception. *)

From Stdlib Require Import Ascii String.
From stdpp Require Import base numbers list gmap strings sets.
From S2P Require Import Prelude CppLib Parser Response FileSystem StaticFileHandler Router.
From S2P Require Import FsTree Fd Connection ConnectionExample BoundedQueue WorkerPool.
From S2P Require Import WorkerPoolFacts WorkerPoolExample Server ServerFacts Main Program.

(** ** The descriptors of the server *)

(** The store a successful constructor leaves ([ServerFacts.construct_server_owns]). *)
Definition constructed (h0 : heap) (fd d0 d1 : Z) : heap :=
  {| objects := <[4 := d1]> (<[3 := d0]> (<[1 := fd]> (objects h0)));
     open_fds := {[fd; d0; d1]} ∪ open_fds h0; bad_closes := bad_closes h0 |}.

(** The three numbers are new and different. *)
Definition fresh_fds (h0 : heap) (fd d0 d1 : Z) : Prop :=
  (0 <= fd /\ 0 <= d0 /\ 0 <= d1)%Z /\ fd <> d0 /\ fd <> d1 /\ d0 <> d1 /\
  fd ∉ open_fds h0 /\ d0 ∉ open_fds h0 /\ d1 ∉ open_fds h0 /\
  objects h0 !! 1 = None /\ objects h0 !! 3 = None /\ objects h0 !! 4 = None.

Lemma same_heap_eq a b : same_heap a b -> a = b.
Proof. destruct a, b. unfold same_heap. simpl. intros (-> & -> & ->). done. Qed.

Lemma members_destroyed h0 fd d0 d1 :
  fresh_fds h0 fd d0 d1 -> fd_dtor 1 (fd_dtor 3 (fd_dtor 4 (constructed h0 fd d0 d1))) = h0.
Proof.
  intros ((F1 & F2 & F3) & N1 & N2 & N3 & O1 & O2 & O3 & K1 & K3 & K4).
  set (hA := {| objects := <[1 := fd]> (objects h0); open_fds := {[fd]} ∪ open_fds h0;
                bad_closes := bad_closes h0 |}).
  set (hB := {| objects := <[3 := d0]> (objects hA); open_fds := {[d0]} ∪ open_fds hA;
                bad_closes := bad_closes h0 |}).
  assert (H4 : fd_dtor 4 (constructed h0 fd d0 d1) = hB).
  { apply same_heap_eq, (dtor_owned 4 d1); simpl; try done.
    - by rewrite !lookup_insert_ne.
    - set_solver.
    - set_solver. }
  assert (H3 : fd_dtor 3 hB = hA).
  { apply same_heap_eq, (dtor_owned 3 d0); simpl; try done; [by rewrite lookup_insert_ne|set_solver]. }
  rewrite H4, H3. by apply same_heap_eq, (dtor_owned 1 fd).
Qed.

(** ** The report *)

(** What a reader expects of the counters once everything has ended. *)
Definition balanced (st : HttpServerStats) : Prop :=
  let w := workers st in
  accepted_connections st = sz_add (dispatched_connections w) (rejected_dispatches w) /\
  dispatched_connections w = sz_add (completed_connections w) (worker_errors w) /\
  active_connections w = 0%N /\ queued_connections w = 0%N.

Lemma returned_balanced W Q s :
  server_inv W Q s -> W <> 0 -> main s = Returned -> uncounted (pool s) = 0 -> unrejected (pool s) = 0 ->
  balanced (server_stats s).
Proof.
  intros [] HW Hm Hu Hr. destruct (all_exited_drained W Q (pool s)) as (_ & Hq & He & Ha); [done..|by auto|].
  destruct si_accepts as (r & Hrej & Hacc). pose proof si_pool as []. destruct pi_dispatched as (d & Hd & Hd').
  unfold balanced, server_stats, stats. simpl. rewrite Hrej, Hd, si_accepted, pi_completed, pi_errors.
  rewrite Hm in Hacc. simpl in Hacc. pose proof (Permutation_length He) as Hlen.
  assert (Hword : forall a b, sz_add (word a) (word b) = word (a + b)).
  { intros a b. rewrite sz_add_word. unfold word. by rewrite N.Div0.add_mod_idemp_r. }
  rewrite !Hword, pi_active, Ha. unfold size, len. rewrite Hq.
  split; [f_equal; lia|]. split; [f_equal; lia|]. done.
Qed.

(** ** The invariant *)

Definition status (ph : phase) : option Z :=
  match ph with
  | Destructing c | JoiningAll c | Freeing c | Ended c => Some c
  | _ => None
  end.

Definition is_ended (ph : phase) : bool := match ph with Ended _ => true | _ => false end.
Definition joined (ph : phase) : bool := match ph with Freeing _ | Ended _ => true | _ => false end.

Section Program.
Context `{MapOrder} `{FileSystem}.
Context (cfg : ConnectionConfig) (h : StaticFileHandler).
Context (W Q : nat) (h0 : heap) (fd d0 d1 : Z).
Context (HW : W <> 0) (Hfresh : fresh_fds h0 fd d0 d1).

Notation program_step := (program_step cfg h).
Notation own_step := (own_step cfg h).

Record program_inv (p : Program) : Prop := {
  pg_server : server_inv W Q (server p);
  pg_fds : fds p = if is_ended (where_ p) then h0 else constructed h0 fd d0 d1;
  pg_notify : shutdown_notification_fd p = (-1)%Z \/ shutdown_notification_fd p = d1;
  pg_normal : where_ p = Reporting \/ status (where_ p) = Some 0%Z ->
    shutdown_notification_fd p = (-1)%Z /\ main (server p) = Returned;
  pg_status c : status (where_ p) = Some c -> (c = 0 \/ c = 1)%Z;
  pg_counted : where_ p = Reporting ->
    uncounted (pool (server p)) = 0 /\ unrejected (pool (server p)) = 0;
  pg_report : status (where_ p) = Some 0%Z ->
    balanced (server_stats (server p)) /\
    exists uptime, report_line p = Some (format_shutdown_metrics (server_stats (server p)) uptime);
  pg_silent : status (where_ p) <> Some 0%Z -> report_line p = None;
  pg_bad : (0 < bad_writes p)%nat -> where_ p = Ended 1;
  pg_closed c : where_ p = JoiningAll c -> closed_ (pool_queue (pool (server p))) = true;
  pg_joined : joined (where_ p) = true -> Forall (fun w => w = Exited) (workers_ (pool (server p)))
}.

Lemma write_end_d1 p : fds p = constructed h0 fd d0 d1 -> pipe_write_end p = d1.
Proof. intros Hf. unfold pipe_write_end, fd_get, fd_of. rewrite Hf. simpl. by rewrite lookup_insert_eq. Qed.

(** Closing the queue once more changes nothing that matters. *)
Lemma close_pool_inv s :
  server_inv W Q s -> shutdown_requested_ s = true ->
  server_inv W Q (set_pool (request_shutdown (pool s)) s).
Proof.
  intros [] Hr. split; simpl; try done. eapply (pool_step_inv cfg h); [|done]. apply p_close.
Qed.

Lemma requested_now room s : shutdown_requested_ (request_shutdown_now room s) = true.
Proof. unfold request_shutdown_now. by destruct (shutdown_requested_ s) eqn:E. Qed.

Lemma stop_server_inv room s :
  server_inv W Q s -> server_inv W Q (stop_server room s) /\ main (stop_server room s) = main s.
Proof.
  intros Hs. split.
  - apply close_pool_inv; [by apply (requested_inv cfg h)|apply requested_now].
  - unfold stop_server, request_shutdown_now. by destruct (shutdown_requested_ s).
Qed.

(** Stopping changes no number of the report. *)
Lemma stop_server_stats room s : server_stats (stop_server room s) = server_stats s.
Proof. unfold stop_server, request_shutdown_now. by destruct (shutdown_requested_ s). Qed.

(** The queue was closed by [serve_forever] or by the destructor, which had been
    asked to. *)
Lemma joined_requested p :
  program_inv p -> joined (where_ p) = true -> shutdown_requested_ (server p) = true.
Proof.
  intros [] Hj. apply (si_closed _ _ _ pg_server0).
  by apply (all_exited_drained W Q); [apply si_pool| |apply pg_joined0].
Qed.

(** The clauses a step does not touch. *)
Ltac keeps := first [done | by auto | by intros [?|?] | by eauto | by intros ? [= <-]; auto
  | by intros ? [= <-]; eauto
  | match goal with Hb : (0 < bad_writes _)%nat -> _ |- _ => by intros ?%Hb end
  | match goal with Hn : _ \/ _ -> _ |- _ \/ _ -> _ => by intros [?|?]; [|apply Hn; by right] end ].

Lemma thread_step_inv p p' : thread_step p p' -> program_inv p -> program_inv p'.
Proof.
  intros Hs Hp. pose proof Hp as []. destruct Hs as
    [p Hw|p Hw|p Hw|p Hw|p Hw|p Hw|p s Hw Hs|p s Hw Hs|p Hw Hm Hu Hr|p f Hw Hm Hu Hr|p up Hw|p c room Hw Hc|
     p c Hw Hall|p c Hw].
  all: try (rewrite Hw in *; simpl in *; by split; simpl; try keeps).
  - rewrite Hw in *. split; simpl; try keeps. right. by apply write_end_d1.
  - destruct Hw as [Hw|Hw]; rewrite Hw in *; split; simpl; keeps.
  - rewrite Hw in *. split; simpl; rewrite ?Hw; simpl; try keeps. by eapply (main_step_inv cfg h).
  - rewrite Hw in *. split; simpl; rewrite ?Hw; simpl; try keeps.
    eapply (server_step_inv cfg h); [by apply v_count|done].
  - rewrite Hw in *. split; simpl; try keeps. intros _. split; [|by eexists].
    destruct (pg_counted0 eq_refl). apply (returned_balanced W Q); try done; apply pg_normal0; by left.
  - destruct (stop_server_inv room (server p)) as [Hi Hm]; [done|].
    rewrite Hw in *. split; simpl; try keeps.
    + intros [?|Hc0]; [done|]. destruct pg_normal0; [by right|]. split; [done|]. by etransitivity; [exact Hm|].
    + rewrite stop_server_stats. exact pg_report0.
  - rewrite Hw in *. split; simpl; try keeps.
    + apply close_pool_inv; [done|]. apply joined_requested; [done|by rewrite Hw].
    + rewrite pg_fds0. simpl. by apply members_destroyed.
Qed.

Lemma own_step_inv p p' : own_step p p' -> program_inv p -> program_inv p'.
Proof.
  intros Hs Hp. destruct Hs as [p p' Hs|p q Hs]; [by eapply thread_step_inv|].
  pose proof Hp as []. destruct (worker_step_keeps cfg h _ _ Hs) as (Hc & He & Hu & Hr & Hx).
  assert (Hn : joined (where_ p) <> true) by (intros Hj; by apply Hx, pg_joined0).
  split; simpl; try keeps; try congruence.
  - eapply (server_step_inv cfg h); [by apply v_worker|done].
  - intros Hw. exfalso. apply Hx. apply (si_returned _ _ _ pg_server0), pg_normal0. by left.
  - intros Hw. exfalso. apply Hx. apply (si_returned _ _ _ pg_server0), pg_normal0. by right.
Qed.

Lemma program_step_inv p p' : program_step p p' -> program_inv p -> program_inv p'.
Proof.
  intros Hs Hp. destruct Hs as [p p' Hs|p room Hh Hw]; [by eapply own_step_inv|].
  pose proof Hp as []. unfold handle_shutdown_signal.
  destruct (Z.leb_spec 0 (shutdown_notification_fd p)) as [Hle|]; [|done].
  assert (Hd : shutdown_notification_fd p = d1) by (destruct pg_notify0; [lia|done]).
  case_bool_decide as Ho.
  - split; simpl; try keeps. eapply (server_step_inv cfg h); [|done]. apply v_signal. by constructor.
  - assert (He : is_ended (where_ p) = true).
    { destruct (is_ended (where_ p)); [done|]. destruct Ho. rewrite pg_fds0, Hd. simpl. set_solver. }
    split; simpl; try keeps. intros _. destruct (where_ p) as [| | | | | | | | |c] eqn:Ew; try done.
    destruct (pg_status0 c eq_refl) as [->| ->]; [|done].
    destruct pg_normal0; [by right|]. lia.
Qed.

Lemma program_run_inv p p' : rtc program_step p p' -> program_inv p -> program_inv p'.
Proof. induction 1; eauto using program_step_inv. Qed.

Lemma start_program_inv s :
  make_server W Q = Some s -> program_inv (start_program s (constructed h0 fd d0 d1)).
Proof.
  intros Hs. pose proof (make_server_inv W Q s Hs).
  split; simpl; try done; try keeps. lia.
Qed.
End Program.

(** ** Properties *)

(** A run of the program after a successful construction. *)
Definition runs `{MapOrder} `{FileSystem} (cfg : ConnectionConfig) (h : StaticFileHandler)
    (W Q : nat) (h0 : heap) (fd d0 d1 : Z) (p : Program) : Prop :=
  fresh_fds h0 fd d0 d1 /\
  exists s, make_server W Q = Some s /\
    rtc (program_step cfg h) (start_program s (constructed h0 fd d0 d1)) p.

Section Properties.
Context `{MapOrder} `{FileSystem}.
Context (cfg : ConnectionConfig) (h : StaticFileHandler).

Lemma runs_inv W Q h0 fd d0 d1 p :
  runs cfg h W Q h0 fd d0 d1 p -> W <> 0 /\ program_inv W Q h0 fd d0 d1 p.
Proof.
  intros (Hf & s & Hs & Hr). assert (HW : W <> 0) by (by eapply make_server_workers). split; [done|].
  eapply program_run_inv; [exact HW|exact Hf|exact Hr|by apply start_program_inv].
Qed.

(** The state in which the program leaves everything. *)
Record clean_end (h0 : heap) (p : Program) : Prop := {
  ce_joined : Forall (fun w => w = Exited) (workers_ (pool (server p)));
  ce_queue : queue_ (pool_queue (pool (server p))) = [];
  ce_served : Permutation (entered (pool (server p))) (ended (pool (server p)));
  ce_fds : fds p = h0
}.

Lemma ended_clean W Q h0 fd d0 d1 p code :
  runs cfg h W Q h0 fd d0 d1 p -> where_ p = Ended code -> clean_end h0 p /\ (code = 0 \/ code = 1)%Z.
Proof.
  intros Hr Hw. destruct (runs_inv _ _ _ _ _ _ _ Hr) as [HW []]. rewrite Hw in *. simpl in *.
  assert (Hall := pg_joined0 eq_refl).
  destruct (all_exited_drained W Q (pool (server p))) as (_ & Hq & He & _); [by apply si_pool|done|done|].
  split; [by split|by auto].
Qed.

(** ** The way out *)

(** The exit status the program is on its way to, once [serve_forever] is over or an exception
    has left the block. *)
Definition leads_to (p : Program) : option Z :=
  match where_ p with
  | InServe => match main (server p) with Returned => Some 0%Z | Thrown _ => Some 1%Z | _ => None end
  | Reporting => Some 0%Z
  | ph => status ph
  end.

(** The steps left: those of the workers, of the counters and of [main]. *)
Definition steps_to_exit (p : Program) : nat :=
  work_left (pool (server p)) + uncounted (pool (server p)) + unrejected (pool (server p)) +
  match where_ p with
  | InServe => 5 | Reporting => 4 | Destructing _ => 3 | JoiningAll _ => 2 | Freeing _ => 1 | _ => 0
  end.

(** A run with a number of steps of the program's own threads in it, and signals. *)
Inductive own_run : nat -> Program -> Program -> Prop :=
| or_refl p : own_run 0 p p
| or_own n p p1 p' : own_step cfg h p p1 -> own_run n p1 p' -> own_run (S n) p p'
| or_signal n p p' room :
    sigint p || sigterm p = true -> can_write room (server p) ->
    own_run n (handle_shutdown_signal room p) p' -> own_run n p p'.

Lemma own_run_program n p p' : own_run n p p' -> rtc (program_step cfg h) p p'.
Proof.
  induction 1 as [|n p p1 p' Hs _ IH|n p p' room Hh Hw _ IH]; [constructor|..]; (eapply rtc_l; [|exact IH]).
  - by apply g_own.
  - by apply g_signalled.
Qed.

Lemma main_over_stays s s' : main_step s s' -> main s <> Returned /\ forall f, main s <> Thrown f.
Proof. intros Hs. destruct Hs; split; congruence. Qed.

Lemma leads_step p p' c :
  leads_to p = Some c -> own_step cfg h p p' -> leads_to p' = Some c /\ (steps_to_exit p' < steps_to_exit p)%nat.
Proof.
  intros Hc Hs. unfold leads_to, steps_to_exit in *. destruct Hs as [p p' Hs|p q Hs].
  - destruct Hs as [p Hw|p Hw|p Hw|p Hw|p Hw|p Hw|p s Hw Hs|p s Hw Hs|p Hw Hm Hu Hr|p f Hw Hm Hu Hr|p up Hw|
      p c' room Hw Hroom|p c' Hw Hall|p c' Hw]; try (rewrite Hw in Hc; done);
      [by destruct Hw as [Hw|Hw]; rewrite Hw in Hc|..]; cbn [where_ at_phase with_server notify_fd server print_report destroy_members] in *; rewrite ?Hw in *.
    + exfalso. destruct (main_over_stays _ _ Hs) as [H1 H2]. destruct (main (server p)) eqn:E; try done. by apply (H2 f).
    + destruct Hs as [s n Hn|s n Hn]; simpl in *; (split; [done|]); unfold work_left; simpl; lia.
    + rewrite Hm in Hc. split; [done|lia].
    + rewrite Hm in Hc. split; [done|lia].
    + split; [done|lia].
    + split; [done|]. unfold stop_server, request_shutdown_now, work_left, size. destruct (shutdown_requested_ (server p)); simpl; lia.
    + split; [done|lia].
    + split; [done|]. unfold work_left, size. simpl. lia.
  - cbn [where_ with_server server pool set_pool main]. split; [done|]. pose proof (worker_step_work _ _ _ _ Hs).
    assert (uncounted q = uncounted (pool (server p)) /\ unrejected q = unrejected (pool (server p))) as [-> ->] by (by destruct Hs).
    destruct (where_ p); lia.
Qed.

Lemma leads_signal p room :
  leads_to (handle_shutdown_signal room p) = leads_to p /\ steps_to_exit (handle_shutdown_signal room p) = steps_to_exit p.
Proof. unfold handle_shutdown_signal. destruct (0 <=? _)%Z; [|done]. by destruct (bool_decide _). Qed.

Lemma leads_run n p p' c :
  own_run n p p' -> leads_to p = Some c -> leads_to p' = Some c /\ (n + steps_to_exit p' <= steps_to_exit p)%nat.
Proof.
  induction 1 as [|n p p1 p' Hs _ IH|n p p' room Hh Hw _ IH]; intros Hc; [by split; [|lia]|..].
  - destruct (leads_step _ _ _ Hc Hs) as [Hc1 Hlt]. destruct (IH Hc1). split; [done|lia].
  - destruct (leads_signal p room) as [E1 E2]. rewrite E1, E2 in IH. by apply IH.
Qed.

(** Until the end some thread can go on. *)
Lemma leads_progress W Q h0 fd d0 d1 p c :
  runs cfg h W Q h0 fd d0 d1 p -> leads_to p = Some c -> where_ p = Ended c \/ exists p', own_step cfg h p p'.
Proof.
  intros Hr Hc. destruct (runs_inv _ _ _ _ _ _ _ Hr) as [HW []]. unfold leads_to in Hc.
  destruct (where_ p) as [| | | | | |c'|c'|c'|c'] eqn:Ew; simplify_eq/=; [right..|by left].
  - destruct (uncounted (pool (server p))) as [|k] eqn:Eu; [|eexists; apply o_main, m_count; [done|by apply c_count]].
    destruct (unrejected (pool (server p))) as [|k] eqn:Er; [|eexists; apply o_main, m_count; [done|by apply c_reject]].
    destruct (main (server p)) eqn:Em; simplify_eq/=; eexists; apply o_main; [by apply m_returned|by eapply m_thrown].
  - eexists. apply o_main. by apply (m_report p 0%Z).
  - eexists. apply o_main. by apply (m_stop p c true).
  - destruct (decide (Forall (fun w => w = Exited) (workers_ (pool (server p))))) as [Hall|Hsome].
    + eexists. apply o_main. by eapply m_joined.
    + apply not_Forall_Exists, Exists_exists in Hsome as (w & Hin & Hx); [|apply _].
      apply list_elem_of_lookup in Hin as [i Hi].
      destruct (worker_progress cfg h (pool (server p)) i w) as [q Hq]; [by eapply pg_closed0|done|done|].
      eexists. by apply o_worker.
  - eexists. apply o_main. by apply (m_free p c).
Qed.

Lemma runs_own W Q h0 fd d0 d1 p p' n :
  runs cfg h W Q h0 fd d0 d1 p -> own_run n p p' -> runs cfg h W Q h0 fd d0 d1 p'.
Proof.
  intros (Hf & s & Hs & Hr) Hn. split; [done|]. exists s. split; [done|]. etransitivity; [exact Hr|by eapply own_run_program].
Qed.

(** C26. A normal end. Once [serve_forever] has returned, the program takes at most
    [steps_to_exit] further steps, signals not counted, and has one until it has ended. It ends
    with status 0, all workers joined, nothing queued, every connection that was dispatched
    served to its end, the descriptors as before the construction of the server, none closed
    twice; and the report it has printed has the final counters, which balance: accepted
    connections are the dispatched and the rejected ones, dispatched ones ended with a result
    or an error, and none is active or queued. *)
Theorem program_ends_clean W Q h0 fd d0 d1 p p' n :
  runs cfg h W Q h0 fd d0 d1 p -> where_ p = InServe -> main (server p) = Returned -> own_run n p p' ->
  (n + steps_to_exit p' <= steps_to_exit p)%nat /\
  (where_ p' = Ended 0 \/ exists p'', own_step cfg h p' p'') /\
  forall code, where_ p' = Ended code ->
    code = 0%Z /\ clean_end h0 p' /\ balanced (server_stats (server p')) /\
    exists uptime, report_line p' = Some (format_shutdown_metrics (server_stats (server p')) uptime).
Proof.
  intros Hr Hw Hm Hn. assert (Hc : leads_to p = Some 0%Z) by (unfold leads_to; by rewrite Hw, Hm).
  destruct (leads_run _ _ _ _ Hn Hc) as [Hc' Hle]. pose proof (runs_own _ _ _ _ _ _ _ _ _ Hr Hn) as Hr'.
  split; [done|]. split; [by eapply leads_progress|]. intros code He. assert (code = 0%Z) as -> by (unfold leads_to in Hc'; rewrite He in Hc'; by injection Hc').
  split; [done|]. split; [by eapply ended_clean|]. destruct (runs_inv _ _ _ _ _ _ _ Hr') as [_ []].
  apply pg_report0. by rewrite He.
Qed.

(** C28. The way out of an exception. Whether the installation of the handlers, the banner or
    [serve_forever] throws, from then on the program takes at most [steps_to_exit] further
    steps, signals not counted, and has one until it has ended. It ends with status 1, all
    workers joined, nothing queued, every connection that was dispatched served to its end,
    and the descriptors as before the construction of the server, none closed twice; no report
    is printed. *)
Theorem program_unwinds W Q h0 fd d0 d1 p p1 p' n :
  runs cfg h W Q h0 fd d0 d1 p -> thread_step p p1 -> where_ p1 = Destructing 1 -> own_run n p1 p' ->
  (n + steps_to_exit p' <= steps_to_exit p1)%nat /\
  (where_ p' = Ended 1 \/ exists p'', own_step cfg h p' p'') /\
  forall code, where_ p' = Ended code -> code = 1%Z /\ clean_end h0 p' /\ report_line p' = None.
Proof.
  intros Hr Hs Hw Hn. assert (Hc : leads_to p1 = Some 1%Z) by (unfold leads_to; by rewrite Hw).
  assert (Hr1 : runs cfg h W Q h0 fd d0 d1 p1) by (eapply (runs_own _ _ _ _ _ _ p p1 1); [done|]; eapply or_own; [by apply o_main|constructor]).
  destruct (leads_run _ _ _ _ Hn Hc) as [Hc' Hle]. pose proof (runs_own _ _ _ _ _ _ _ _ _ Hr1 Hn) as Hr'.
  split; [done|]. split; [by eapply leads_progress|]. intros code He. assert (code = 1%Z) as -> by (unfold leads_to in Hc'; rewrite He in Hc'; by injection Hc').
  split; [done|]. split; [by eapply ended_clean|]. destruct (runs_inv _ _ _ _ _ _ _ Hr') as [_ []].
  apply pg_silent0. by rewrite He.
Qed.

(** The signal handler never writes to a descriptor that is not open while the server
    exists, nor after a normal return: a failed write implies that the program has left
    [main]'s block by an exception and is past the destructor. *)
Theorem signal_writes_open W Q h0 fd d0 d1 p :
  runs cfg h W Q h0 fd d0 d1 p -> (0 < bad_writes p)%nat -> where_ p = Ended 1.
Proof. intros Hr. destruct (runs_inv _ _ _ _ _ _ _ Hr) as [_ []]. done. Qed.
End Properties.

(** ** Examples *)

#[local] Existing Instance map_to_list_order.
#[local] Instance program_fs : FileSystem := tree_fs site.

(** Descriptor 5 is the socket, 3 and 4 are the pipe. *)
Definition program_0 : Program := start_program server_0 (constructed empty_heap 5 3 4).

Lemma example_fresh : fresh_fds empty_heap 5 3 4.
Proof. repeat split; try lia; try set_solver. Qed.

Definition after_assign : Program := at_phase InstallingInt (notify_fd 4 program_0).
Definition in_serve : Program :=
  at_phase InServe (at_phase Announcing (handlers true true
    (at_phase InstallingTerm (handlers true false after_assign)))).

Lemma in_serve_reached : rtc (program_step default_config site_handler) program_0 in_serve.
Proof.
  eapply rtc_l; [apply g_own, o_main, m_assign; reflexivity|].
  eapply rtc_l; [apply g_own, o_main, m_sigint; reflexivity|].
  eapply rtc_l; [apply g_own, o_main, m_sigterm; reflexivity|].
  apply rtc_once, g_own, o_main, m_announce. reflexivity.
Qed.

(** [poll] fails; the destructor stops the idle worker and frees the members. *)
Definition poll_throws : Program :=
  with_server (set_main (Thrown PollFailed) (set_main Polling server_0)) in_serve.
Definition poll_failed : Program := at_phase (Destructing 1) poll_throws.
Definition stopping : Program :=
  at_phase (JoiningAll 1) (with_server (stop_server true (server poll_failed)) poll_failed).
Definition failed_end : Program :=
  at_phase (Ended 1) (destroy_members (at_phase (Freeing 1)
    (with_server (set_pool (worker_exits 0 (pool (server stopping))) (server stopping)) stopping))).

Lemma poll_throws_reached : rtc (program_step default_config site_handler) program_0 poll_throws.
Proof.
  etransitivity; [exact in_serve_reached|].
  eapply rtc_l; [apply g_own, o_main, (m_serve in_serve); [reflexivity|by apply s_loop]|].
  eapply rtc_l; [apply g_own, o_main; eapply m_serve; [reflexivity|by apply s_poll_failed]|]. apply rtc_refl.
Qed.

Lemma poll_failed_step : thread_step poll_throws poll_failed.
Proof. by eapply m_thrown. Qed.

Lemma failure_unwinds : own_run default_config site_handler 4 poll_failed failed_end.
Proof.
  eapply or_own; [apply o_main, (m_stop poll_failed 1 true); [reflexivity|done]|].
  eapply or_own; [apply o_worker, (w_exit _ _ _ 0); reflexivity|].
  eapply or_own; [apply o_main; eapply m_joined; [reflexivity|by apply Forall_singleton]|].
  eapply or_own; [apply o_main; eapply m_free; reflexivity|]. constructor.
Qed.

Lemma failed_end_reached : rtc (program_step default_config site_handler) program_0 failed_end.
Proof.
  etransitivity; [exact poll_throws_reached|]. eapply rtc_l; [apply g_own, o_main; exact poll_failed_step|].
  eapply own_run_program. exact failure_unwinds.
Qed.

Lemma example_runs p :
  rtc (program_step default_config site_handler) program_0 p ->
  runs default_config site_handler 1 1 empty_heap 5 3 4 p.
Proof. intros Hr. split; [exact example_fresh|]. exists server_0. split; [reflexivity|exact Hr]. Qed.

Lemma program_unwinds_witness :
  (4 + steps_to_exit failed_end <= steps_to_exit poll_failed)%nat /\ clean_end empty_heap failed_end /\ report_line failed_end = None.
Proof.
  destruct (program_unwinds default_config site_handler 1 1 empty_heap 5 3 4 poll_throws poll_failed failed_end 4
    (example_runs _ poll_throws_reached) poll_failed_step eq_refl failure_unwinds) as (H1 & _ & H2).
  split; [exact H1|]. exact (proj2 (H2 1%Z eq_refl)).
Defined.

(** A signal that arrives after the failed program has freed its members. *)
Definition late_signal : Program := handle_shutdown_signal true failed_end.

Lemma late_signal_reached : rtc (program_step default_config site_handler) program_0 late_signal.
Proof.
  etransitivity; [exact failed_end_reached|]. apply rtc_once. by apply g_signalled.
Qed.

Lemma signal_writes_open_witness : where_ late_signal = Ended 1.
Proof.
  apply (signal_writes_open default_config site_handler 1 1 empty_heap 5 3 4);
    [exact (example_runs _ late_signal_reached)|vm_compute; lia].
Defined.

(** After an exception [shutdown_notification_fd] keeps the number of the closed pipe: a
    signal that arrives then makes the handler write to it, whatever that number names by
    then. On the normal way out the number is reset first. *)
Theorem signal_after_exception :
  exists p, runs default_config site_handler 1 1 empty_heap 5 3 4 p /\ where_ p = Ended 1 /\
    shutdown_notification_fd p = 4%Z /\ (4%Z ∉ open_fds (fds p)) /\ bad_writes p = 1.
Proof.
  exists late_signal. split; [exact (example_runs _ late_signal_reached)|].
  split; [reflexivity|]. split; [reflexivity|]. split; [|vm_compute; reflexivity].
  replace (fds late_signal) with empty_heap by (vm_compute; reflexivity). set_solver.
Qed.

(** ** A run with a client *)

(** Descriptor 3 is the socket, 5 and 6 are the pipe. The client of [ConnectionExample] is
    accepted on descriptor 4 and served; then a signal arrives. *)
Definition program_1 : Program := start_program server_0 (constructed empty_heap 3 5 6).

Definition ready : Program :=
  at_phase InServe (at_phase Announcing (handlers true true
    (at_phase InstallingTerm (handlers true false (at_phase InstallingInt (notify_fd 6 program_1)))))).

(** The changes of the server, one after the other. *)
Definition server_dispatched : Server :=
  let s := count_accepted 4 (set_main Accepting (set_main Polling server_0)) in
  let s := set_main LoopTest (set_pool (dispatch_pushed (queue_of [4%Z] 1 false) (pool s)) s) in
  set_pool (dispatch_counted 0 (pool s)) s.
Definition server_served : Server :=
  let s := server_dispatched in
  set_pool (worker_finishes 0 (worker_result 0 4 session_result
    (worker_starts 0 4 (worker_popped 0 4 (queue_of [] 1 false) (pool s))))) s.
Definition server_stopped : Server :=
  let s := request_shutdown_now true (set_main Polling (write_notification true server_served)) in
  let s := set_main Joining (set_pool (request_shutdown (pool s)) s) in
  set_main Returned (set_pool (worker_exits 0 (pool s)) s).

Definition returned : Program := with_server server_stopped ready.
Definition reported : Program := at_phase (Destructing 0) (print_report 7 (at_phase Reporting (notify_fd (-1) returned))).
Definition served_end : Program :=
  at_phase (Ended 0) (destroy_members (at_phase (Freeing 0)
    (at_phase (JoiningAll 0) (with_server (stop_server true (server reported)) reported)))).

Lemma ready_reached : rtc (program_step default_config site_handler) program_1 ready.
Proof.
  eapply rtc_l; [apply g_own, o_main, m_assign; reflexivity|].
  eapply rtc_l; [apply g_own, o_main, m_sigint; reflexivity|].
  eapply rtc_l; [apply g_own, o_main, m_sigterm; reflexivity|].
  apply rtc_once, g_own, o_main, m_announce. reflexivity.
Qed.

Lemma dispatched_reached : rtc (program_step default_config site_handler) ready (with_server server_dispatched ready).
Proof.
  eapply rtc_l; [apply g_own, o_main; eapply m_serve; [reflexivity|by apply s_loop]|].
  eapply rtc_l; [apply g_own, o_main; eapply m_serve; [reflexivity|by apply s_poll_client]|].
  eapply rtc_l; [apply g_own, o_main; eapply m_serve; [reflexivity|by apply (s_accept _ [Ok 4%Z] 4%Z)]|].
  eapply rtc_l; [apply g_own, o_main; eapply m_serve; [reflexivity|by apply (s_dispatch _ 4%Z (queue_of [4%Z] 1 false))]|].
  eapply rtc_l; [apply g_own, o_main; eapply m_count; [reflexivity|by apply (c_count _ 0)]|]. apply rtc_refl.
Qed.

Lemma served_reached :
  rtc (program_step default_config site_handler) (with_server server_dispatched ready) (with_server server_served ready).
Proof.
  eapply rtc_l; [apply g_own, o_worker; by apply (w_pop _ _ _ 0 4%Z (queue_of [] 1 false))|].
  eapply rtc_l; [apply g_own, o_worker; by apply (w_start _ _ _ 0 4%Z)|].
  eapply rtc_l; [apply g_own, o_worker; by apply (w_result _ _ _ 0 4%Z session_result); [|exact session_served]|].
  eapply rtc_l; [apply g_own, o_worker; by apply (w_finish _ _ _ 0)|]. apply rtc_refl.
Qed.

Lemma stopped_reached : rtc (program_step default_config site_handler) (with_server server_served ready) returned.
Proof.
  eapply rtc_l; [by apply (g_signalled _ _ _ true)|].
  eapply rtc_l; [apply g_own, o_main; eapply m_serve; [reflexivity|by apply s_loop]|].
  eapply rtc_l; [apply g_own, o_main; eapply m_serve; [reflexivity|apply (s_poll_pipe _ true); [done|vm_compute; lia|done]]|].
  eapply rtc_l; [apply g_own, o_worker; by apply (w_exit _ _ _ 0)|].
  eapply rtc_l; [apply g_own, o_main; eapply m_serve; [reflexivity|apply s_joined; [done|by apply Forall_singleton]]|].
  apply rtc_refl.
Qed.

Lemma returned_runs : runs default_config site_handler 1 1 empty_heap 3 5 6 returned.
Proof.
  split; [repeat split; try lia; set_solver|]. exists server_0. split; [reflexivity|].
  etransitivity; [exact ready_reached|]. etransitivity; [exact dispatched_reached|].
  etransitivity; [exact served_reached|exact stopped_reached].
Qed.

Lemma returned_ends : own_run default_config site_handler 5 returned served_end.
Proof.
  eapply or_own; [by apply o_main, m_returned|]. eapply or_own; [apply o_main; by apply (m_report _ 7)|].
  eapply or_own; [apply o_main; by apply (m_stop _ 0 true)|].
  eapply or_own; [apply o_main; eapply m_joined; [reflexivity|by apply Forall_singleton]|].
  eapply or_own; [apply o_main; eapply m_free; reflexivity|]. constructor.
Qed.

Lemma served_end_runs : runs default_config site_handler 1 1 empty_heap 3 5 6 served_end.
Proof. eapply runs_own; [exact returned_runs|exact returned_ends]. Qed.

Lemma program_ends_clean_witness :
  clean_end empty_heap served_end /\ entered (pool (server served_end)) = [4%Z] /\
  exists uptime, report_line served_end = Some (format_shutdown_metrics (server_stats (server served_end)) uptime).
Proof.
  destruct (program_ends_clean default_config site_handler 1 1 empty_heap 3 5 6 returned served_end 5
    returned_runs eq_refl eq_refl returned_ends) as (_ & _ & H).
  destruct (H 0%Z eq_refl) as (_ & H1 & _ & H2). split; [exact H1|]. split; [reflexivity|exact H2].
Defined.
