(* ===== verification/Launch.v ===== *)
(** * From the command line to the running server

    Models [main] of [src/main.cpp] as a whole: the arguments, the construction of the server
    they ask for, the message and status of every way out before it runs, and the line it
    prints when it does. [Program] has the rest. *)

From Stdlib Require Import Ascii String.
From stdpp Require Import base numbers list gmap strings sets.
From S2P Require Import Prelude CppLib Parser Response FileSystem StaticFileHandler Router.
From S2P Require Import FsTree Fd Connection ConnectionExample BoundedQueue WorkerPool Listener.
From S2P Require Import WorkerPoolFacts WorkerPoolExample Server ServerFacts Main Program ProgramFacts.

(** ** Texts *)

(** [print_usage] *)
Definition usage_text (program : bytes) : bytes :=
  lit "usage: " ++ program ++ lit " [port] [document-root] [bind-address] [workers] [queue-capacity]" ++ [LF].

(** The handler of the exceptions that reach [main]. *)
Definition error_line (what : bytes) : bytes := lit "http_server: " ++ what ++ [LF].

(** The text of a path. *)
Fixpoint join_slash (p : list bytes) : bytes :=
  match p with [] => [] | [e] => e | e :: p' => e ++ "/"%char :: join_slash p' end.
Definition path_text (p : FileSystem.path) : bytes :=
  match p with
  | e :: p' => if bool_decide (e = ROOT_DIR) then "/"%char :: join_slash p' else join_slash p
  | [] => []
  end.

(** The output of a path is that of [std::quoted]. *)
Definition ESCAPE : ascii := "\"%char.
Definition escaped (c : ascii) : bytes :=
  if bool_decide (c = QUOTE) || bool_decide (c = ESCAPE) then [ESCAPE; c] else [c].
Definition path_output (p : FileSystem.path) : bytes := quoted (concat (map escaped (path_text p))).

Definition banner (address : bytes) (port : N) (root : FileSystem.path) (workers capacity : N) : bytes :=
  lit "listening on http://" ++ address ++ lit ":" ++ print_N port ++ lit " serving " ++ path_output root ++
  lit " with " ++ print_N workers ++ lit " workers and queue capacity " ++ print_N capacity ++ [LF].

(** ** The program *)

(** The program has ended with a status and what it wrote to the error stream, or the server is
    constructed: its file handler, its port and the state [main] goes on with. *)
Inductive launched :=
| Stopped (code : Z) (err : bytes)
| Running (a : ServerArguments) (fh : StaticFileHandler) (port : N) (p : Program).

Definition BACKLOG : Z := 128.

Section Launch.
Context `{ErrorTexts} `{FileSystem}.

Definition launch (argv : list bytes) (kl : ListenerCalls) (threads : result bytes unit) (kp : PipeCalls) (h0 : heap) :
    launched * heap :=
  match main_arguments argv with
  | Usage => (Stopped 2 (usage_text (default [] (argv !! 0))), h0)
  | Failed message => (Stopped 1 (error_line message), h0)
  | Start a =>
      match construct_server kl threads kp (path_of (arg_document_root a)) (arg_port a) BACKLOG (arg_bind_address a)
              (N.to_nat (arg_worker_count a)) (N.to_nat (arg_queue_capacity a)) h0 with
      | (Err what, h) => (Stopped 1 (error_line what), h)
      | (Ok (fh, port, s), h) => (Running a fh port (start_program s h), h)
      end
  end.

(** The line printed before [serve_forever]; the root is made canonical once more for it, which
    may throw. *)
Definition announcement (a : ServerArguments) (port : N) : result unit bytes :=
  let! root := canonical (path_of (arg_document_root a)) in
  Ok (banner (arg_bind_address a) port root (arg_worker_count a) (arg_queue_capacity a)).
End Launch.

(** ** Properties *)

(** What the kernel promises about the descriptors it makes: they are new. *)
Definition new_descriptors (kl : ListenerCalls) (kp : PipeCalls) (h0 : heap) : Prop :=
  (forall fd, sys_socket kl = Ok fd -> (0 <= fd)%Z /\ fd ∉ open_fds h0) /\
  (forall d0 d1, sys_pipe kp = Ok (d0, d1) ->
     (0 <= d0)%Z /\ (0 <= d1)%Z /\ d0 <> d1 /\ d0 ∉ open_fds h0 /\ d1 ∉ open_fds h0 /\
     sys_socket kl <> Ok d0 /\ sys_socket kl <> Ok d1).

(** The objects of the server do not exist before [main]. *)
Definition no_objects (h0 : heap) : Prop := forall i, (i < 5)%nat -> objects h0 !! i = None.

Lemma main_arguments_port argv a : main_arguments argv = Start a -> (0 < arg_port a < 2 ^ 16)%N.
Proof.
  intros Ha. assert (H : exists n, argument argv 1 parse_port 8080%N = Ok n /\ arg_port a = n).
  { unfold main_arguments in Ha. destruct (_ <? _)%nat; [done|].
    destruct (argument argv 1 parse_port 8080%N) as [n|]; [|done]. exists n. split; [done|].
    destruct (argument argv 2 Ok _); [|done]. destruct (argument argv 3 Ok _); [|done]. simpl in Ha.
    destruct (argument argv 4 _ _); [|done]. simpl in Ha. destruct (argument argv 5 _ _); [|done]. by injection Ha as <-. }
  destruct H as (n & Hn & ->). unfold argument in Hn. destruct (argv !! 1) as [x|]; [|injection Hn as <-; lia].
  apply parse_port_exact in Hn as (_ & _ & _ & Hn). lia.
Qed.

Section Properties.
Context `{ErrorTexts} `{MapOrder} `{FileSystem}.

(** A server that is launched, in the terms of [ProgramFacts]. *)
Lemma launch_runs argv kl threads kp h0 a fh port p h :
  no_objects h0 -> new_descriptors kl kp h0 ->
  launch argv kl threads kp h0 = (Running a fh port p, h) ->
  exists fd d0 d1, sys_socket kl = Ok fd /\ sys_pipe kp = Ok (d0, d1) /\
    runs default_config fh (N.to_nat (arg_worker_count a)) (N.to_nat (arg_queue_capacity a)) h0 fd d0 d1 p.
Proof.
  intros Hobj [Hk Hp] Hl. unfold launch in Hl. destruct (main_arguments argv) as [| |a'] eqn:Ea; [done..|].
  pose proof (construct_server_leaves kl threads kp (path_of (arg_document_root a')) (arg_port a') BACKLOG
    (arg_bind_address a') (N.to_nat (arg_worker_count a')) (N.to_nat (arg_queue_capacity a')) h0 Hobj Hk Hp) as Hc.
  destruct (construct_server _ _ _ _ _ _ _ _ _ _) as [[[[fh' port'] s]|e] h1] eqn:Es; [|done].
  apply construct_server_values in Es as (_ & _ & Hs). injection Hl as -> -> -> <- ->.
  destruct Hc as (fd & d0 & d1 & Hfd & Hpipe & Ho & Hb & Hobjs). exists fd, d0, d1. repeat (split; [done|]).
  destruct (Hk _ Hfd) as [K1 K2]. destruct (Hp _ _ Hpipe) as (P1 & P2 & P3 & P4 & P5 & P6 & P7).
  assert (Hfresh : fresh_fds h0 fd d0 d1).
  { rewrite Hfd in P6, P7. repeat split; try done; try congruence; apply Hobj; lia. }
  split; [done|]. exists s. split; [done|].
  replace h with (constructed h0 fd d0 d1); [constructor|]. destruct h. simpl in *. by subst.
Qed.

(** C27. The whole of [main]. Any command line has one of three outcomes. With more than five
    arguments the usage is written and the status is 2. With an argument that is not valid,
    or a server that cannot be constructed, one line with the reason is written, the status is
    1 and the descriptors are as before. Otherwise the server listens on the address given and
    its [port()] is the port given; and however it ends, its workers have returned, the
    connections it dispatched have been served, its descriptors are closed, and the status is
    0 or 1. *)
Theorem command_line_served argv kl threads kp h0 :
  no_objects h0 -> new_descriptors kl kp h0 -> reports_bound kl ->
  match launch argv kl threads kp h0 with
  | (Stopped code err, h) =>
      same_heap h h0 /\
      if (6 <? length argv)%nat then code = 2%Z /\ err = usage_text (default [] (argv !! 0))
      else code = 1%Z /\ exists what, err = error_line what
  | (Running a fh port p, h) =>
      main_arguments argv = Start a /\ port = arg_port a /\
      make_static_file_handler (path_of (arg_document_root a)) default_max_file_bytes = Ok fh /\
      (exists ip, sys_inet_pton kl (c_text (arg_bind_address a)) = Some ip /\
         let bound := {| sin_family := AF_INET; sin_port := htons (arg_port a); sin_addr := ip |} in
         sys_bind kl bound = Ok tt /\ sys_listen kl bound BACKLOG = Ok tt) /\
      forall p' code, rtc (program_step default_config fh) p p' -> where_ p' = Ended code ->
        fds p' = h0 /\ (code = 0 \/ code = 1)%Z /\
        Forall (fun w => w = WorkerPool.Exited) (workers_ (pool (server p'))) /\
        Permutation (entered (pool (server p'))) (ended (pool (server p')))
  end.
Proof.
  intros Hobj Hnew Hrep. destruct (launch argv kl threads kp h0) as [[code err|a fh port p] h] eqn:El.
  - pose proof El as El'. unfold launch in El. assert (Hu : main_arguments argv = Usage <-> (6 <? length argv)%nat = true).
    { unfold main_arguments. destruct (6 <? length argv)%nat; [done|]. split; [|done].
      by destruct (let! port := argument argv 1 parse_port 8080%N in _). }
    destruct (main_arguments argv) as [|m|a] eqn:Ea.
    + simplify_eq. rewrite (proj1 Hu eq_refl). by split.
    + simplify_eq. destruct (_ <? _)%nat; [by discriminate (proj2 Hu eq_refl)|]. split; [done|]. eauto.
    + destruct (_ <? _)%nat; [by discriminate (proj2 Hu eq_refl)|]. destruct Hnew as [Hk Hp].
      pose proof (construct_server_leaves kl threads kp (path_of (arg_document_root a)) (arg_port a) BACKLOG
        (arg_bind_address a) (N.to_nat (arg_worker_count a)) (N.to_nat (arg_queue_capacity a)) h0 Hobj Hk Hp) as Hc.
      destruct (construct_server _ _ _ _ _ _ _ _ _ _) as [[[[? ?] ?]|e] h1]; [done|]. simplify_eq. split; [done|]. eauto.
  - destruct (launch_runs _ _ _ _ _ _ _ _ _ _ Hobj Hnew El) as (fd & d0 & d1 & _ & _ & Hfresh & s & Hs & Hr).
    unfold launch in El. destruct (main_arguments argv) as [| |a'] eqn:Ea; [done..|].
    destruct (construct_server _ _ _ _ _ _ _ _ _ _) as [[[[fh' port'] s']|e] h1] eqn:Es; [|done]. simplify_eq.
    apply construct_server_values in Es as (Hfh & Hb & _).
    destruct (bind_calls_bound _ _ _ _ _ Hb Hrep (main_arguments_port _ _ Ea)) as [-> Hbound].
    repeat (split; [done|]). intros p' code Hp' Hend.
    assert (Hruns : runs default_config fh (N.to_nat (arg_worker_count a)) (N.to_nat (arg_queue_capacity a)) h0 fd d0 d1 p').
    { split; [done|]. exists s. split; [done|]. by etransitivity. }
    destruct (ended_clean _ _ _ _ _ _ _ _ _ _ Hruns Hend) as [[] Hcode]. done.
Qed.
End Properties.

(** ** Examples *)

#[local] Existing Instance map_to_list_order.
#[local] Existing Instance numbered_errors.
#[local] Instance launch_fs : FileSystem := tree_fs site.

Definition good_pipe : PipeCalls :=
  {| sys_pipe := Ok (3, 4)%Z; sys_cloexec := fun _ => Ok tt; sys_getfl := fun _ => Ok 1%N;
     sys_setfl := fun _ _ => Ok tt |}.

Definition example_argv : list bytes :=
  [lit "http_server"; lit "8080"; lit "/srv/www"; lit "127.0.0.1"; lit "2"; lit "8"].

Lemma example_no_objects : no_objects empty_heap.
Proof. done. Qed.

Lemma example_new kp : sys_pipe kp = Ok (3, 4)%Z -> new_descriptors good_port kp empty_heap.
Proof.
  intros Hp. split.
  - intros fd Hfd. injection Hfd as <-. split; [lia|set_solver].
  - intros d0 d1 Hd. rewrite Hp in Hd. injection Hd as <- <-. repeat split; try lia; try set_solver; discriminate.
Qed.

Lemma good_port_reports : reports_bound good_port.
Proof. intros a a' Ha. by injection Ha as <-. Qed.

(** The messages of two command lines that fail, the banner of one that does not. *)
Example bad_port :
  (launch [lit "http_server"; lit "65536"] good_port (Ok tt) good_pipe empty_heap).1 =
  Stopped 1 (lit "http_server: port must be an integer from 1 to 65535" ++ [LF]).
Proof. vm_compute. reflexivity. Qed.

Example no_cloexec :
  (launch example_argv good_port (Ok tt) no_fcntl empty_heap).1 =
  Stopped 1 (lit "http_server: fcntl(FD_CLOEXEC): error 9" ++ [LF]).
Proof. vm_compute. reflexivity. Qed.

Example example_banner :
  announcement {| arg_port := 8080; arg_document_root := lit "/srv/www"; arg_bind_address := lit "127.0.0.1";
                  arg_worker_count := 2; arg_queue_capacity := 8 |} 8080 =
  Ok (lit "listening on http://127.0.0.1:8080 serving " ++ quoted (lit "/srv/www") ++
      lit " with 2 workers and queue capacity 8" ++ [LF]).
Proof. vm_compute. reflexivity. Qed.

Lemma command_line_served_witness :
  exists a fh p h, launch example_argv good_port (Ok tt) good_pipe empty_heap = (Running a fh 8080 p, h) /\
    sys_bind good_port {| sin_family := AF_INET; sin_port := htons 8080;
                          sin_addr := ["127"; "000"; "000"; "001"]%char |} = Ok tt.
Proof.
  pose proof (command_line_served example_argv good_port (Ok tt) good_pipe empty_heap example_no_objects
    (example_new good_pipe eq_refl) good_port_reports) as H.
  destruct (launch example_argv good_port (Ok tt) good_pipe empty_heap) as [[code err|a fh port p] h] eqn:El.
  - vm_compute in El. discriminate.
  - destruct H as (Ha & -> & _ & (ip & Hip & Hb & _) & _). vm_compute in Ha. injection Ha as <-.
    vm_compute in Hip. injection Hip as <-. eauto 10.
Defined.
