(* ===== verification/EndToEnd.v ===== *)
(** * From the listening socket to the responses

    Puts the components together: every connection the accept loop dispatched during a run
    of the program goes through the queue to one worker, and is answered as the
    specification of the connection says ([ConnectionSpec]), with the counters of the
    shutdown report adding up what the connections did. *)

From Stdlib Require Import Ascii String.
From stdpp Require Import base numbers list gmap strings sets.
From S2P Require Import Prelude CppLib Parser Response FileSystem StaticFileHandler Router.
From S2P Require Import FsTree Fd Connection ConnectionSpec ConnectionStep ConnectionFacts.
From S2P Require Import ConnectionExample BoundedQueue WorkerPool WorkerPoolFacts.
From S2P Require Import WorkerPoolExample Server ServerFacts Main Program ProgramFacts.

Section EndToEnd.
Context `{MapOrder} `{FileSystem}.
Context (cfg : ConnectionConfig) (h : StaticFileHandler).

(** The connection on descriptor [client] was served with result [r]: for some behaviour of
    the kernel, what it sent is the conversation about what it received, and the result
    counts it. *)
Definition answered (client : Z) (r : ConnectionResult) : Prop :=
  exists (K : Kernel) w w' fuel cv,
    make_connection client cfg [] = Ok w /\ serve fuel h w = Some (r, w') /\
    parsed (feed default_parser (received (hist w'))) (asked cv) (parser_ (self w')) /\
    ends cfg h cv (parser_ (self w')) (sent (hist w')) (reason r) /\
    requests_served r = len (asked cv) /\
    bytes_read r = (len (received (hist w')) mod 2 ^ 64)%N /\
    bytes_written r = (len (sent (hist w')) mod 2 ^ 64)%N.

Lemma served_answered client r :
  (max_requests (limits cfg) < 2 ^ 64)%N -> served cfg h client r -> answered client r.
Proof.
  intros Hmax (K & w & fuel & w' & Hm & Hs).
  destruct (serve_follows cfg h client w fuel r w' Hm Hmax Hs) as (cv & Hf & He & ->).
  exists K, w, w', fuel, cv. repeat (split; [done|]). split; [apply Hf|]. split; [done|].
  split; [apply Hf|]. split; apply Hf.
Qed.

(** ** The outcome of every service, in the order in which they ended *)

Definition outcome : Type := Z * option ConnectionResult.

Definition failed (o : outcome) : bool := match o.2 with None => true | Some _ => false end.

Record outcomes (p : WorkerPool) (os : list outcome) : Prop := {
  oc_ended : os.*1 = ended p;
  oc_results : omap snd os = results p;
  oc_errors : length (filter (fun o => failed o = true) os) = errors p;
  oc_served : Forall (fun o => forall r, o.2 = Some r -> served cfg h o.1 r) os
}.

Lemma outcomes_worker p p' os :
  worker_step cfg h p p' -> outcomes p os -> exists os', outcomes p' os'.
Proof.
  intros Hs [O1 O2 O3 O4].
  destruct Hs as [p i client q _ _|p i client _|p i client r _ Hr|p i client _|p i _|p i _ _];
    try (by exists os).
  - exists (os ++ [(client, Some r)]). split; simpl.
    + by rewrite fmap_app, O1.
    + by rewrite omap_app, O2.
    + rewrite filter_app, filter_cons_False, app_nil_r; done.
    + apply Forall_app. split; [done|]. apply Forall_singleton. simpl. by intros ? [= <-].
  - exists (os ++ [(client, None)]). split; simpl.
    + by rewrite fmap_app, O1.
    + by rewrite omap_app, O2, app_nil_r.
    + rewrite filter_app, filter_cons_True, length_app, O3 by done. simpl. lia.
    + apply Forall_app. split; [done|]. by apply Forall_singleton.
Qed.

(** What is recorded about ended services, which only workers change. *)
Definition recorded (p : WorkerPool) : list Z * list ConnectionResult * nat :=
  (ended p, results p, errors p).

Lemma outcomes_recorded p p' os : recorded p' = recorded p -> outcomes p os -> outcomes p' os.
Proof. intros Hr [O1 O2 O3 O4]. injection Hr as E1 E2 E3. split; by rewrite ?E1, ?E2, ?E3. Qed.

Lemma stop_recorded room s : recorded (pool (request_shutdown_now room s)) = recorded (pool s).
Proof. unfold request_shutdown_now. by destruct (shutdown_requested_ s). Qed.

Lemma main_recorded s s' : main_step s s' -> recorded (pool s') = recorded (pool s).
Proof.
  intros Hs. destruct Hs as [s Hm|s Hm Hr|s Hm|s Hm|s room Hm Hb Hw s1|s Hm|
    s answers client Hm|s answers e Hm|s client q Hm Hq|s client Hm Hq|s Hm|s Hm Hr|s Hm Hall]; try done.
  etransitivity; [|exact (stop_recorded room s)]. done.
Qed.

Lemma thread_recorded p p' :
  thread_step p p' -> recorded (pool (server p')) = recorded (pool (server p)).
Proof.
  intros Hs. destruct Hs as [p Hw|p Hw|p Hw|p Hw|p Hw|p Hw|p s Hw Hs|p s Hw Hs|p Hw Hm|p f Hw Hm|p up Hw|
    p c room Hw Hc|p c Hw Hall|p c Hw]; try done.
  - by apply main_recorded.
  - by destruct Hs.
  - etransitivity; [|exact (stop_recorded room (server p))]. done.
Qed.

Lemma outcomes_step p p' os :
  program_step cfg h p p' -> outcomes (pool (server p)) os -> exists os', outcomes (pool (server p')) os'.
Proof.
  intros Hs Ho. destruct Hs as [p p' [p1 p1' Hs|p1 q Hs]|p room _ _].
  - exists os. eapply outcomes_recorded; [|exact Ho]. by apply thread_recorded.
  - by eapply outcomes_worker.
  - exists os. eapply outcomes_recorded; [|exact Ho]. unfold handle_shutdown_signal.
    destruct (0 <=? shutdown_notification_fd p)%Z; [|done]. by destruct (bool_decide _).
Qed.

Lemma outcomes_run p p' os :
  rtc (program_step cfg h) p p' -> outcomes (pool (server p)) os ->
  exists os', outcomes (pool (server p')) os'.
Proof.
  intros Hr. revert os. induction Hr as [|p p1 p' Hs _ IH]; intros os Ho; [by exists os|].
  destruct (outcomes_step _ _ _ Hs Ho) as [os1 Ho1]. by apply (IH os1).
Qed.

Lemma no_failures (P : outcome -> Prop) (os : list outcome) :
  length (filter (fun o => failed o = true) os) = 0%nat ->
  Forall (fun o => o.2 = None \/ P o) os -> Forall P os.
Proof.
  intros Hn%nil_length_inv. induction 1 as [|[c [r|]] os Ho _ IH]; [done| |].
  - constructor; [by destruct Ho|]. by apply IH; rewrite filter_cons_False in Hn.
  - by rewrite filter_cons_True in Hn.
Qed.

(** C25. End to end. When the program has ended, in whatever way after its server was
    constructed, each connection that was ever dispatched has exactly one outcome: it was
    answered, which means that what it sent are the responses to the requests found in what
    it received, as its end reason says, or it ended with an exception, which its worker
    counted. If the workers counted no exception, every dispatched connection was answered.
    The request, byte and error counters are the sums over these outcomes, modulo the word
    size. *)
Theorem dispatched_answered W Q h0 fd d0 d1 p code :
  runs cfg h W Q h0 fd d0 d1 p -> where_ p = Ended code -> (max_requests (limits cfg) < 2 ^ 64)%N ->
  exists os : list outcome,
    Permutation (os.*1) (entered (pool (server p))) /\
    Forall (fun o => o.2 = None \/ exists r, o.2 = Some r /\ answered o.1 r) os /\
    (errors (pool (server p)) = 0%nat -> Forall (fun o => exists r, o.2 = Some r /\ answered o.1 r) os) /\
    let c := counters (pool (server p)) in
    c requests_served_ = word (total requests_served (omap snd os)) /\
    c bytes_read_ = word (total bytes_read (omap snd os)) /\
    c bytes_written_ = word (total bytes_written (omap snd os)) /\
    c worker_errors_ = word (N.of_nat (length (filter (fun o => failed o = true) os))).
Proof.
  intros Hr Hw Hmax. destruct (runs_inv _ _ _ _ _ _ _ _ _ Hr) as [HW [Hs _ _ _ _ _ _ _ _ _ Hj]].
  rewrite Hw in Hj. specialize (Hj eq_refl). pose proof (si_pool _ _ _ Hs) as Hp.
  destruct Hr as (_ & s & Hmk & Hr). destruct (outcomes_run _ _ [] Hr) as [os [O1 O2 O3 O4]].
  { unfold make_server, make_worker_pool in Hmk. destruct (make_queue Q); [|done].
    destruct (W =? 0)%nat; [done|]. injection Hmk as <-. by split. }
  exists os. destruct (all_exited_drained W Q _ Hp HW Hj) as (_ & _ & He & _).
  assert (Ha : Forall (fun o => o.2 = None \/ exists r, o.2 = Some r /\ answered o.1 r) os).
  { eapply Forall_impl; [exact O4|]. intros [c [r|]] Ho; [|by left]. right. exists r. split; [done|].
    by apply served_answered, Ho. }
  split; [by rewrite O1, He|]. split; [done|]. split.
  - intros Hz. by apply no_failures; [rewrite O3|].
  - rewrite O2, O3. by destruct Hp.
Qed.
End EndToEnd.

(** ** An example *)

#[local] Existing Instance map_to_list_order.
#[local] Instance end_fs : FileSystem := tree_fs site.

(** The run of [ProgramFacts] in which one client is accepted on descriptor 4 and served. *)
Lemma dispatched_answered_witness :
  entered (pool (server served_end)) = [4%Z] /\
  exists r, answered default_config site_handler 4 r /\
    counters (pool (server served_end)) bytes_written_ = word (bytes_written r).
Proof.
  split; [reflexivity|].
  destruct (dispatched_answered default_config site_handler 1 1 empty_heap 3 5 6 served_end 0
    served_end_runs eq_refl ltac:(vm_compute; reflexivity)) as (os & Hp & _ & Ha & _ & _ & Hb & _).
  specialize (Ha eq_refl). change (entered (pool (server served_end))) with [4%Z] in Hp.
  apply Permutation_singleton_r in Hp. destruct os as [|[c o] [|]]; try discriminate Hp. injection Hp as ->.
  apply Forall_singleton in Ha as (r & Ho & Hr). simpl in Ho. subst o. exists r. split; [exact Hr|].
  rewrite Hb. simpl. by rewrite N.add_0_r.
Defined.
