(* ===== verification/CMem.v ===== *)
(** * C strings, arrays and streams

    The programs under [legacy/http-root-dir/cgi-src] are C: they change character arrays
    in place and rely on the terminating NUL. An array is the list of its bytes; a read or
    a write outside it is undefined behaviour, [None], which every operation passes on.
    The rest is what the programs use of the C library: [strlen], [strcpy], [strcat],
    [strcmp], [strchr], [atoi], [isspace], [malloc] and the stream functions. *)

From Stdlib Require Import Ascii String.
From stdpp Require Import base numbers list gmap strings option.
From S2P Require Import Prelude CppLib.

(** ** Arrays *)

Definition rd (b : bytes) (i : nat) : option ascii := b !! i.

Definition wr (b : bytes) (i : nat) (c : ascii) : option bytes :=
  if decide (i < length b)%nat then Some (<[i := c]> b) else None.

(** The array holds the string [s]: its bytes and a NUL, then anything. *)
Definition cstr (b s : bytes) : Prop := NUL ∉ s /\ exists t, b = s ++ NUL :: t.

(** What is left of the array [b] when the string [s] is stored at its beginning. *)
Definition stored (b s : bytes) : bytes := s ++ NUL :: drop (S (length s)) b.

(** The string in an array; [None] when there is no NUL in it. *)
Fixpoint c_string (b : bytes) : option bytes :=
  match b with
  | [] => None
  | c :: b' => if decide (c = NUL) then Some [] else cons c <$> c_string b'
  end.

Definition strlen (b : bytes) : option nat := length <$> c_string b.

(** [strcpy(dst + at, src)] on the string of [src]; [strcpy] has [at] zero and [strcat] the
    length of the string in the destination. *)
Fixpoint put_string (dst : bytes) (at_ : nat) (s : bytes) : option bytes :=
  match s with
  | [] => wr dst at_ NUL
  | c :: s' => dst ← wr dst at_ c; put_string dst (S at_) s'
  end.

Definition strcpy (dst src : bytes) : option bytes := s ← c_string src; put_string dst 0 s.

Definition strcat (dst src : bytes) : option bytes :=
  n ← strlen dst; s ← c_string src; put_string dst n s.

(** [!strcmp(a, b)] *)
Definition streq (a b : bytes) : option bool :=
  s ← c_string a; t ← c_string b; Some (bool_decide (s = t)).

(** ** Characters and numbers *)

(** [char] is signed and 8 bits wide; conversion to it keeps the low bits. *)
Definition schar (c : ascii) : Z :=
  let n := Z.of_N (code c) in if (n <? 128)%Z then n else (n - 256)%Z.
Definition to_char (z : Z) : ascii := ascii_of_N (Z.to_N (z mod 256)).

(** "C" locale. *)
Definition isspace (c : ascii) : bool := bool_decide (c = SP) || in_range "009" "013" c.

Definition INT_MAX : Z := 2 ^ 31 - 1.
Definition INT_MIN : Z := - 2 ^ 31.
Definition in_int (z : Z) : bool := (INT_MIN <=? z)%Z && (z <=? INT_MAX)%Z.

Fixpoint skip_space (s : bytes) : bytes :=
  match s with c :: s' => if isspace c then skip_space s' else s | [] => [] end.

Definition int_prefix (s : bytes) : Z := Z.of_N (decimal_value (take (digit_run s) s)).

(** [atoi] on a string: white space, a sign, digits; a value that is not an [int] is
    undefined behaviour. *)
Definition atoi (s : bytes) : option Z :=
  let s := skip_space s in
  let z := match s with
           | "-"%char :: s' => (- int_prefix s')%Z
           | "+"%char :: s' => int_prefix s'
           | _ => int_prefix s
           end in
  if in_int z then Some z else None.

(** ** Streams *)

(** An input stream: the bytes not read yet and the end-of-file indicator. *)
Record FILE := { input : bytes; at_eof : bool }.
Definition fopen_bytes (s : bytes) : FILE := {| input := s; at_eof := false |}.

(** [(char) fgetc(f)]: [EOF] is -1, which becomes the character 255. *)
Definition EOF_CHAR : ascii := "255"%char.
Definition fgetc (f : FILE) : ascii * FILE :=
  match input f with
  | [] => (EOF_CHAR, {| input := []; at_eof := true |})
  | c :: s => (c, {| input := s; at_eof := at_eof f |})
  end.

(** A new object of [n] bytes, allocated or automatic, has any contents; failure to allocate
    is not modelled. *)
Class Memory := {
  fresh : nat -> bytes;
  fresh_length n : length (fresh n) = n
}.

(** ** Lemmas on arrays *)

(** Go on after a step that has given a result, and compute nothing else. *)
Ltac run_bind := cbn [mbind option_bind].

Lemma wr_Some b i c : (i < length b)%nat -> wr b i c = Some (<[i := c]> b).
Proof. intros Hi. unfold wr. by rewrite decide_True. Qed.

Lemma wr_None b i c : (length b <= i)%nat -> wr b i c = None.
Proof. intros Hi. unfold wr. rewrite decide_False; [done|lia]. Qed.

Lemma rd_drop b i c t : drop i b = c :: t -> rd b i = Some c.
Proof. intros Hd. unfold rd. rewrite <- (Nat.add_0_r i), <- lookup_drop, Hd. done. Qed.

Lemma drop_next {A} (b : list A) i c t : drop i b = c :: t -> drop (S i) b = t /\ (i < length b)%nat.
Proof.
  intros Hd. split.
  - rewrite <- Nat.add_1_r, <- drop_drop, Hd. done.
  - apply (f_equal length) in Hd. rewrite length_drop in Hd. simpl in Hd. lia.
Qed.

Lemma take_insert_next {A} (b : list A) i c :
  (i < length b)%nat -> take (S i) (<[i := c]> b) = take i b ++ [c].
Proof.
  intros Hi. rewrite insert_take_drop by done.
  rewrite <- Nat.add_1_r. rewrite take_app_add'; [done|]. rewrite length_take. lia.
Qed.

Lemma c_string_app s t : NUL ∉ s -> c_string (s ++ NUL :: t) = Some s.
Proof.
  induction s as [|c s IH]; intros Hs; cbn [c_string app]; [by rewrite decide_True|].
  apply not_elem_of_cons in Hs as [Hc Hs]. rewrite decide_False by congruence. by rewrite IH.
Qed.

Lemma c_string_cstr b s : c_string b = Some s <-> cstr b s.
Proof.
  split.
  - revert s. induction b as [|c b IH]; intros s; simpl; [done|]. case_decide as Hc.
    + intros Hs. injection Hs as <-. subst. split; [apply not_elem_of_nil|]. by exists b.
    + intros (s' & Hs & ->)%fmap_Some. apply IH in Hs as [Hn [t ->]].
      split; [apply not_elem_of_cons; split; [congruence|done]|]. by exists t.
  - intros [Hn [t ->]]. by apply c_string_app.
Qed.

Lemma cstr_stored b s : NUL ∉ s -> cstr (stored b s) s.
Proof. intros Hs. split; [done|]. by exists (drop (S (length s)) b). Qed.

Lemma length_stored b s : (length s < length b)%nat -> length (stored b s) = length b.
Proof. intros Hl. unfold stored. rewrite length_app. cbn [length]. rewrite length_drop. lia. Qed.

Lemma stored_stored b s t :
  (length s < length b)%nat -> (length s <= length t)%nat -> stored (stored b s) t = stored b t.
Proof.
  intros Hs Ht. unfold stored at 1 3. f_equal. f_equal. unfold stored.
  rewrite drop_app_ge by lia. destruct (S (length t) - length s)%nat as [|k] eqn:E; [lia|].
  simpl. rewrite drop_drop. f_equal. lia.
Qed.

(** Storing a string from position [at_] on. *)
Lemma put_string_spec dst at_ s :
  (at_ <= length dst)%nat ->
  put_string dst at_ s =
    if (at_ + length s <? length dst)%nat
    then Some (take at_ dst ++ s ++ NUL :: drop (S (at_ + length s)) dst) else None.
Proof.
  revert dst at_. induction s as [|c s IH]; intros dst at_ Ha; cbn [put_string length].
  - rewrite Nat.add_0_r. destruct (Nat.ltb_spec at_ (length dst)) as [Hl|Hl].
    + rewrite wr_Some by done. f_equal. by rewrite insert_take_drop.
    + by apply wr_None.
  - destruct (Nat.ltb_spec at_ (length dst)) as [Hl|Hl].
    + rewrite wr_Some by done. simpl. rewrite IH by (rewrite length_insert; lia). rewrite length_insert.
      replace (at_ + S (length s))%nat with (S at_ + length s)%nat by lia.
      destruct (_ <? _)%nat; [|done]. f_equal. rewrite take_insert_next by done.
      rewrite drop_insert_lt by lia. by rewrite <- (assoc_L (++)).
    + rewrite wr_None by done. simpl. destruct (Nat.ltb_spec (at_ + S (length s)) (length dst)); [lia|done].
Qed.

Lemma strcpy_spec dst src s :
  cstr src s -> strcpy dst src = if (length s <? length dst)%nat then Some (stored dst s) else None.
Proof. intros Hs%c_string_cstr. unfold strcpy. rewrite Hs. simpl. by rewrite put_string_spec by lia. Qed.

Lemma strcat_spec dst src d s :
  cstr dst d -> cstr src s ->
  strcat dst src = if (length d + length s <? length dst)%nat then Some (stored dst (d ++ s)) else None.
Proof.
  intros Hd Hs. pose proof Hd as [_ [t ->]]. apply c_string_cstr in Hd, Hs. unfold strcat, strlen.
  rewrite Hd, Hs. simpl. rewrite put_string_spec by (rewrite length_app; lia).
  destruct (_ <? _)%nat; [|done]. f_equal. unfold stored. rewrite take_app_length.
  by rewrite length_app, <- (assoc_L (++)).
Qed.

Lemma streq_spec a b s t : cstr a s -> cstr b t -> streq a b = Some (bool_decide (s = t)).
Proof. intros Ha%c_string_cstr Hb%c_string_cstr. unfold streq. by rewrite Ha, Hb. Qed.

(** A literal of the program. *)
Definition c_lit (s : string) : bytes := lit s ++ [NUL].

Lemma cstr_lit s : bool_decide (NUL ∉ lit s) = true -> cstr (c_lit s) (lit s).
Proof. intros Hs%bool_decide_eq_true. split; [done|]. by exists []. Qed.

Lemma streq_lit v s :
  NUL ∉ v -> bool_decide (NUL ∉ lit s) = true ->
  streq (v ++ [NUL]) (c_lit s) = Some (bool_decide (v = lit s)).
Proof. intros Hv Hs. apply streq_spec; [|by apply cstr_lit]. split; [done|]. by exists []. Qed.

(** A number that was printed is read back. *)
Lemma isdigit_cases c :
  isdigit c = true -> isspace c = false /\ c <> "-"%char /\ c <> "+"%char.
Proof. ascii_cases c. Qed.

Lemma atoi_print_N n : (Z.of_N n <= INT_MAX)%Z -> atoi (print_N n) = Some (Z.of_N n).
Proof.
  intros Hn. pose proof (print_N_digits n) as Hd. pose proof (print_N_nonempty n) as Hne.
  assert (Hp : int_prefix (print_N n) = Z.of_N n).
  { unfold int_prefix. rewrite digit_run_all, take_ge by (done || lia). by rewrite decimal_value_print_N. }
  unfold atoi. destruct (print_N n) as [|c s]; [done|]. apply Forall_cons_1 in Hd as [Hc _].
  destruct (isdigit_cases c Hc) as (Hs & H1 & H2). cbn [skip_space]. rewrite Hs.
  assert (Hz : match c :: s with
               | "-"%char :: s' => (- int_prefix s')%Z
               | "+"%char :: s' => int_prefix s'
               | _ => int_prefix (c :: s)
               end = Z.of_N n).
  { rewrite <- Hp. revert H1 H2. clear. destruct c as [[] [] [] [] [] [] [] []]; done. }
  rewrite Hz. unfold in_int, INT_MIN.
  destruct (Z.leb_spec (- 2 ^ 31) (Z.of_N n)), (Z.leb_spec (Z.of_N n) INT_MAX); simpl; (done || lia).
Qed.
