(* ===== verification/CgiUtil.v ===== *)
(** * The string functions of the CGI programs

    Models [legacy/http-root-dir/cgi-src/util.c]: splitting at a separator, decoding of
    form data, reading lines and quoting for the shell, as loops over arrays that are
    changed in place. Each loop takes as fuel one more than the array it scans or, for
    streams, than the bytes it can read; the theorems give the result, so that the fuel is
    enough. [CgiUtilFacts] relates each function to a definition on strings and says
    exactly when it stays inside its arrays. *)

From Stdlib Require Import Ascii String.
From stdpp Require Import base numbers list gmap strings option.
From S2P Require Import Prelude CppLib StaticFileHandler CMem.

(** ** The functions *)

(** [for(x=0; line[x] && (line[x] != stop); x++) word[x] = line[x];] *)
Fixpoint copy_word (fuel x : nat) (stop : ascii) (word line : bytes) : option (nat * bytes) :=
  match fuel with
  | 0 => None
  | S fuel' =>
      c ← rd line x;
      if negb (bool_decide (c = NUL)) && negb (bool_decide (c = stop)) then
        word ← wr word x c; copy_word fuel' (S x) stop word line
      else Some (x, word)
  end.

(** [while(line[y++] = line[x++]);] *)
Fixpoint shift_left (fuel y x : nat) (line : bytes) : option bytes :=
  match fuel with
  | 0 => None
  | S fuel' =>
      c ← rd line x;
      line ← wr line y c;
      if bool_decide (c = NUL) then Some line else shift_left fuel' (S y) (S x) line
  end.

Definition getword (word line : bytes) (stop : ascii) : option (bytes * bytes) :=
  let n := S (length line) in
  '(x, word) ← copy_word n 0 stop word line;
  word ← wr word x NUL;
  c ← rd line x;
  let x := if negb (bool_decide (c = NUL)) then S x else x in
  line ← shift_left n 0 x line;
  Some (word, line).

(** [makeword] returns a fresh array, then the line. *)
Definition makeword `{Memory} (line : bytes) (stop : ascii) : option (bytes * bytes) :=
  n ← strlen line;
  getword (fresh (S n)) line stop.

(** [fmakeword]: [word] is what has been stored so far, its length is [ll]; the array has
    [wsize + 1] places. The result is the array after the last [realloc]. *)
Definition WSIZE : N := 102400.

Fixpoint fmakeword_loop (fuel : nat) (stop : ascii) (word : bytes) (wsize : N) (cl : Z) (f : FILE) :
    option (bytes * Z * FILE) :=
  match fuel with
  | 0 => None
  | S fuel' =>
      let ll := len word in
      let '(c, f) := fgetc f in
      if negb (ll <? wsize + 1)%N then None
      else if (ll =? wsize)%N && negb (ll + 1 <? wsize + 1)%N then None
      else
        let wsize := if (ll =? wsize)%N then (wsize + WSIZE)%N else wsize in
        if (cl =? INT_MIN)%Z then None
        else
          let cl := (cl - 1)%Z in
          if bool_decide (c = stop) || at_eof f || (cl =? 0)%Z then
            let word := if negb (bool_decide (c = stop)) then word ++ [c] else word in
            if negb (len word <? wsize + 1)%N then None else Some (word ++ [NUL], cl, f)
          else fmakeword_loop fuel' stop (word ++ [c]) wsize cl f
  end.

Definition fmakeword (f : FILE) (stop : ascii) (cl : Z) : option (bytes * Z * FILE) :=
  fmakeword_loop (S (length (input f))) stop [] WSIZE cl f.

(** [x2c]: [digit] is a [char]. *)
Definition hex_digit (c : ascii) : Z :=
  if (schar "A" <=? schar c)%Z then (Z.land (schar c) 223 - schar "A" + 10)%Z
  else (schar c - schar "0")%Z.

Definition x2c (what0 what1 : ascii) : ascii :=
  let digit := schar (to_char (hex_digit what0)) in
  let digit := schar (to_char (digit * 16)) in
  to_char (digit + hex_digit what1).

Definition PERCENT : ascii := "%".

Fixpoint unescape_loop (fuel x y : nat) (url : bytes) : option bytes :=
  match fuel with
  | 0 => None
  | S fuel' =>
      c ← rd url y;
      if bool_decide (c = NUL) then wr url x NUL
      else
        url ← wr url x c;
        if bool_decide (c = PERCENT) then
          what0 ← rd url (y + 1);
          what1 ← rd url (y + 2);
          url ← wr url x (x2c what0 what1);
          unescape_loop fuel' (S x) (y + 3) url
        else unescape_loop fuel' (S x) (S y) url
  end.

Definition unescape_url (url : bytes) : option bytes := unescape_loop (S (length url)) 0 0 url.

Fixpoint plustospace_loop (fuel x : nat) (str : bytes) : option bytes :=
  match fuel with
  | 0 => None
  | S fuel' =>
      c ← rd str x;
      if bool_decide (c = NUL) then Some str
      else
        str ← (if bool_decide (c = "+"%char) then wr str x SP else Some str);
        plustospace_loop fuel' (S x) str
  end.

Definition plustospace (str : bytes) : option bytes := plustospace_loop (S (length str)) 0 str.

(** [for(x = strlen(s) - 1; x != -1; x--)]: the argument is [x + 1]. *)
Fixpoint rind_loop (n : nat) (s : bytes) (c : ascii) : option Z :=
  match n with
  | 0 => Some (-1)%Z
  | S x => d ← rd s x; if bool_decide (d = c) then Some (Z.of_nat x) else rind_loop x s c
  end.

Definition rind (s : bytes) (c : ascii) : option Z := n ← strlen s; rind_loop n s c.

Fixpoint ind_loop (fuel x : nat) (s : bytes) (c : ascii) : option Z :=
  match fuel with
  | 0 => None
  | S fuel' =>
      d ← rd s x;
      if bool_decide (d = NUL) then Some (-1)%Z
      else if bool_decide (d = c) then Some (Z.of_nat x) else ind_loop fuel' (S x) s c
  end.

Definition ind (s : bytes) (c : ascii) : option Z := ind_loop (S (length s)) 0 s c.

(** [mygetline]: the result is the returned flag, the array and the stream. *)
Definition EOT : ascii := "004".

Fixpoint mygetline_loop (fuel i n : nat) (s : bytes) (f : FILE) : option (bool * bytes * FILE) :=
  match fuel with
  | 0 => None
  | S fuel' =>
      let '(c, f) := fgetc f in
      let '(c, f) := if bool_decide (c = CR) then fgetc f else (c, f) in
      s ← wr s i c;
      if bool_decide (c = EOT) || bool_decide (c = LF) || (i =? n - 1)%nat then
        s ← wr s i NUL; Some (at_eof f, s, f)
      else mygetline_loop fuel' (S i) n s f
  end.

Definition mygetline (s : bytes) (n : nat) (f : FILE) : option (bool * bytes * FILE) :=
  mygetline_loop (S n) 0 n s f.

(** [send_fd]: what is put on the output stream. *)
Fixpoint send_loop (fuel : nat) (f : FILE) (out : bytes) : option bytes :=
  match fuel with
  | 0 => None
  | S fuel' =>
      let '(c, f) := fgetc f in
      if at_eof f then Some out else send_loop fuel' f (out ++ [c])
  end.

Definition send_fd (f : FILE) : option bytes := send_loop (S (length (input f))) f [].

(** The characters [escape_shell_cmd] quotes. *)
Definition META : bytes := lit "&;`'" ++ ["034"%char] ++ lit "|*?~<>^()[]{}$\" ++ [LF].
Definition BACKSLASH : ascii := "\".

(** [for(y = l+1; y > x; y--) cmd[y] = cmd[y-1];] with [y = x + k]. *)
Fixpoint shift_right (k x : nat) (cmd : bytes) : option bytes :=
  match k with
  | 0 => Some cmd
  | S k' => c ← rd cmd (x + k'); cmd ← wr cmd (x + S k') c; shift_right k' x cmd
  end.

Fixpoint escape_loop (fuel x l : nat) (cmd : bytes) : option bytes :=
  match fuel with
  | 0 => None
  | S fuel' =>
      c ← rd cmd x;
      if bool_decide (c = NUL) then Some cmd
      else
        i ← ind (META ++ [NUL]) c;
        if negb (i =? -1)%Z then
          cmd ← shift_right (l + 1 - x) x cmd;
          cmd ← wr cmd x BACKSLASH;
          escape_loop fuel' (S (S x)) (S l) cmd
        else escape_loop fuel' (S x) l cmd
  end.

Definition escape_shell_cmd (cmd : bytes) : option bytes :=
  l ← strlen cmd; escape_loop (S (length cmd)) 0 l cmd.
