(* ===== verification/CgiUtilFacts.v ===== *)
(** * The string functions of the CGI programs on strings

    For each function of [CgiUtil] the string it leaves in its arrays, when the arrays hold
    strings and are large enough, and what happens otherwise. *)

From Stdlib Require Import Ascii String.
From stdpp Require Import base numbers list gmap strings option.
From S2P Require Import Prelude CppLib StaticFileHandler CMem CgiUtil.

(** ** Splitting at a separator *)

(** The word up to [stop] and what follows it. *)
Fixpoint cut (stop : ascii) (s : bytes) : bytes * bytes :=
  match s with
  | [] => ([], [])
  | c :: s' => if bool_decide (c = stop) then ([], s') else let '(w, r) := cut stop s' in (c :: w, r)
  end.

Lemma cut_spec stop s w r :
  cut stop s = (w, r) -> stop ∉ w /\ (s = w ++ stop :: r \/ s = w /\ r = []).
Proof.
  revert w. induction s as [|c s IH]; intros w; simpl.
  - intros Hc. injection Hc as <- <-. split; [apply not_elem_of_nil|by right].
  - case_bool_decide as Hs.
    + intros Hc. injection Hc as <- <-. subst. split; [apply not_elem_of_nil|by left].
    + destruct (cut stop s) as [w' r'] eqn:E. intros Hc. injection Hc as <- ->.
      destruct (IH w' eq_refl) as [Hn Hr]. split; [apply not_elem_of_cons; split; [congruence|done]|].
      destruct Hr as [->|[-> ->]]; [by left|by right].
Qed.

Lemma copy_word_spec stop w fuel x word line t c :
  drop x line = w ++ c :: t -> NUL ∉ w -> stop ∉ w -> (c = NUL \/ c = stop) -> (length w < fuel)%nat ->
  (x <= length word)%nat ->
  copy_word fuel x stop word line =
    if (x + length w <=? length word)%nat
    then Some ((x + length w)%nat, take x word ++ w ++ drop (x + length w) word) else None.
Proof.
  revert fuel x word. induction w as [|a w IH]; intros fuel x word Hd Hn Hs Hc Hf Hx;
    (destruct fuel as [|fuel]; [simpl in Hf; lia|]); cbn [copy_word].
  - simpl app in Hd. rewrite (rd_drop _ _ _ _ Hd). run_bind. cbn [length].
    assert (negb (bool_decide (c = NUL)) && negb (bool_decide (c = stop)) = false) as ->.
    { destruct Hc as [->| ->]; [done|]. by rewrite (bool_decide_eq_true_2 (stop = stop)), andb_false_r. }
    rewrite Nat.add_0_r. destruct (Nat.leb_spec x (length word)); [|lia]. simpl. by rewrite take_drop.
  - simpl app in Hd. rewrite (rd_drop _ _ _ _ Hd). run_bind.
    apply not_elem_of_cons in Hn as [Hn1 Hn], Hs as [Hs1 Hs].
    rewrite !bool_decide_eq_false_2 by congruence. simpl. apply drop_next in Hd as [Hd _].
    destruct (Nat.ltb_spec x (length word)) as [Hl|Hl].
    + rewrite wr_Some by done. simpl. simpl in Hf. rewrite IH; try done; [|lia|rewrite length_insert; lia].
      rewrite length_insert. replace (x + S (length w))%nat with (S x + length w)%nat by lia.
      destruct (_ <=? _)%nat; [|done]. f_equal. f_equal. rewrite take_insert_next by done.
      rewrite drop_insert_lt by lia. by rewrite <- (assoc_L (++)).
    + rewrite wr_None by done. simpl. by destruct (Nat.leb_spec (x + S (length w)) (length word)); [lia|].
Qed.

Lemma shift_left_spec r fuel y x line t :
  drop x line = r ++ NUL :: t -> NUL ∉ r -> (length r < fuel)%nat -> (y <= x)%nat ->
  shift_left fuel y x line = Some (take y line ++ r ++ NUL :: drop (S (y + length r)) line).
Proof.
  revert fuel y x line. induction r as [|c r IH]; intros fuel y x line Hd Hn Hf Hy;
    (destruct fuel as [|fuel]; [simpl in Hf; lia|]); cbn [shift_left]; simpl app in Hd;
    rewrite (rd_drop _ _ _ _ Hd); run_bind; apply drop_next in Hd as [Hd Hx].
  - rewrite wr_Some by lia. simpl. rewrite insert_take_drop by lia. by rewrite Nat.add_0_r.
  - apply not_elem_of_cons in Hn as [Hn1 Hn]. rewrite wr_Some by lia. run_bind.
    rewrite bool_decide_eq_false_2 by congruence. simpl in Hf.
    rewrite IH; [|rewrite drop_insert_lt by lia; done|done|lia|lia].
    rewrite take_insert_next, drop_insert_lt by lia. cbn [length]. rewrite <- (assoc_L (++)).
    by rewrite Nat.add_succ_r.
Qed.

Lemma cut_NUL stop s w r : NUL ∉ s -> cut stop s = (w, r) -> NUL ∉ w /\ NUL ∉ r.
Proof.
  intros Hn Hc. destruct (cut_spec _ _ _ _ Hc) as [_ [->|[-> ->]]]; [|split; [done|apply not_elem_of_nil]].
  rewrite elem_of_app, elem_of_cons in Hn. tauto.
Qed.

(** The word is stored with its NUL and the line moves up, or the word does not fit. *)
Lemma getword_spec word line stop s w r :
  cstr line s -> cut stop s = (w, r) ->
  getword word line stop =
    if (length w <? length word)%nat then Some (stored word w, stored line r) else None.
Proof.
  intros [Hn [t Ht]] Hc. destruct (cut_NUL _ _ _ _ Hn Hc) as [Hw Hr].
  destruct (cut_spec _ _ _ _ Hc) as [Hs Hcases].
  assert (Hline : exists c u, line = w ++ c :: u /\ (c = NUL \/ c = stop) /\
    exists t', drop (if negb (bool_decide (c = NUL)) then S (length w) else length w) line = r ++ NUL :: t').
  { destruct Hcases as [Hsr|[Hsw ->]].
    - exists stop, (r ++ NUL :: t). rewrite Ht, Hsr, <- (assoc_L (++)). split; [done|]. split; [by right|].
      rewrite bool_decide_eq_false_2 by (intros ->; rewrite Hsr, elem_of_app, elem_of_cons in Hn; tauto).
      exists t. simpl. rewrite drop_app_ge by lia. by rewrite Nat.sub_succ_l, Nat.sub_diag.
    - exists NUL, t. subst s. split; [done|]. split; [by left|]. exists t.
      rewrite Ht. simpl. by rewrite drop_app_length. }
  destruct Hline as (c & u & Hl & Hcs & t' & Hd). unfold getword.
  remember (S (length line)) as n eqn:Hfuel.
  rewrite (copy_word_spec stop w _ 0 word line u c); try done;
    [|rewrite Hfuel, Hl, length_app; simpl; lia|lia].
  simpl. destruct (Nat.leb_spec (length w) (length word)) as [Hle|Hle].
  - run_bind. destruct (Nat.ltb_spec (length w) (length word)) as [Hlt|Hlt].
    + rewrite wr_Some by (rewrite length_app, length_drop; lia). run_bind.
      rewrite (rd_drop line (length w) c u) by (by rewrite Hl, drop_app_length). run_bind.
      rewrite (shift_left_spec r _ 0 _ line t'); [|done|done|apply (f_equal length) in Hd;
        rewrite length_drop, length_app in Hd; simpl in Hd; lia|lia].
      simpl. f_equal. f_equal. unfold stored. rewrite insert_app_r_alt, Nat.sub_diag by lia.
      destruct (drop (length w) word) as [|x xs] eqn:E; [apply (f_equal length) in E; rewrite length_drop in E; simpl in E; lia|].
      by apply drop_next in E as [<- _].
    + rewrite wr_None by (rewrite length_app, length_drop; lia). done.
  - by destruct (Nat.ltb_spec (length w) (length word)); [lia|].
Qed.

Lemma makeword_spec `{Memory} line stop s w r :
  cstr line s -> cut stop s = (w, r) ->
  exists word, makeword line stop = Some (word, stored line r) /\ cstr word w.
Proof.
  intros Hl Hc. unfold makeword, strlen. rewrite (proj2 (c_string_cstr _ _) Hl). simpl.
  rewrite (getword_spec _ _ _ _ _ _ Hl Hc), fresh_length.
  assert (length w <= length s)%nat.
  { destruct (cut_spec _ _ _ _ Hc) as [_ [->|[-> ->]]]; [rewrite length_app; lia|lia]. }
  destruct (Nat.ltb_spec (length w) (S (length s))); [|lia]. eexists. split; [done|].
  apply cstr_stored. destruct Hl as [Hn _]. by apply (cut_NUL _ _ _ _ Hn Hc).
Qed.

(** ** Words of a form body *)

(** The word [fmakeword] reads with [n] bytes left to read: up to the separator, to the
    [n]-th byte, or to the end of the stream, where the converted [EOF] is part of the word.
    The other results are the bytes left to read and the stream. *)
Fixpoint form_word (stop : ascii) (n : nat) (s : bytes) : bytes * nat * FILE :=
  match s with
  | [] => ([EOF_CHAR], (n - 1)%nat, {| input := []; at_eof := true |})
  | c :: s' =>
      if bool_decide (c = stop) then ([], (n - 1)%nat, fopen_bytes s')
      else if (n - 1 =? 0)%nat then ([c], 0, fopen_bytes s')
      else let '(w, n', f) := form_word stop (n - 1) s' in (c :: w, n', f)
  end.

Lemma form_word_left stop n s w n' f :
  (0 < n)%nat -> form_word stop n s = (w, n', f) -> (n' < n)%nat.
Proof.
  revert n w. induction s as [|c s IH]; intros n w Hn; simpl.
  - intros Hw. injection Hw as _ <- _. lia.
  - case_bool_decide; [intros Hw; injection Hw as _ <- _; lia|].
    destruct (Nat.eqb_spec (n - 1) 0); [intros Hw; injection Hw as _ <- _; lia|].
    destruct (form_word stop (n - 1) s) as [[w' n''] f'] eqn:E. intros Hw. injection Hw as <- <- <-.
    apply IH in E; lia.
Qed.

Lemma fmakeword_loop_spec stop s fuel n word w n' f :
  stop <> EOF_CHAR -> (0 < n)%nat -> (Z.of_nat n <= INT_MAX)%Z -> (length s < fuel)%nat ->
  (len word <= WSIZE)%N -> form_word stop n s = (w, n', f) ->
  fmakeword_loop fuel stop word WSIZE (Z.of_nat n) (fopen_bytes s) =
    if (len word + N.of_nat (n - n') <=? WSIZE)%N then Some (word ++ w ++ [NUL], Z.of_nat n', f) else None.
Proof.
  intros Hstop. revert fuel n word w.
  induction s as [|c s IH]; intros fuel n word w Hn Hint Hf Hw Hword;
    (destruct fuel as [|fuel]; [simpl in Hf; lia|]); cbn [fmakeword_loop fgetc fopen_bytes input at_eof];
    pose proof (form_word_left _ _ _ _ _ _ Hn Hword) as Hlt;
    (destruct (N.ltb_spec (len word) (WSIZE + 1)) as [_|]; [|lia]); cbn [negb];
    (destruct (N.eqb_spec (len word) WSIZE) as [Hfull|Hroom]; cbn [andb]; [
       destruct (N.ltb_spec (len word + 1) (WSIZE + 1)); [lia|]; cbn [negb];
       destruct (N.leb_spec (len word + N.of_nat (n - n')) WSIZE); [lia|done]|]);
    (destruct (Z.eqb_spec (Z.of_nat n) INT_MIN) as [|_]; [unfold INT_MIN in *; lia|]);
    replace (Z.of_nat n - 1)%Z with (Z.of_nat (n - 1)) by lia; simpl in Hword.
  - injection Hword as <- <- <-. rewrite bool_decide_eq_false_2, orb_true_r by done. cbn [negb orb].
    unfold len in *. rewrite length_app. cbn [length].
    destruct (N.ltb_spec (N.of_nat (length word + 1)) (WSIZE + 1)); [|lia]. cbn [negb].
    destruct (N.leb_spec (N.of_nat (length word) + N.of_nat (n - (n - 1))) WSIZE); [|lia].
    by rewrite <- (assoc_L (++)).
  - case_bool_decide as Hc.
    + injection Hword as <- <- <-. cbn [negb orb].
      destruct (N.ltb_spec (len word) (WSIZE + 1)); [|lia]. cbn [negb].
      destruct (N.leb_spec (len word + N.of_nat (n - (n - 1))) WSIZE); [done|lia].
    + cbn [negb orb]. destruct (Nat.eqb_spec (n - 1) 0) as [E|E].
      * injection Hword as <- <- <-. rewrite E. cbn [Z.eqb Z.of_nat].
        unfold len in *. rewrite length_app. cbn [length].
        destruct (N.ltb_spec (N.of_nat (length word + 1)) (WSIZE + 1)); [|lia]. cbn [negb].
        destruct (N.leb_spec (N.of_nat (length word) + N.of_nat (n - 0)) WSIZE); [|lia].
        by rewrite <- (assoc_L (++)).
      * destruct (Z.eqb_spec (Z.of_nat (n - 1)) 0); [lia|].
        destruct (form_word stop (n - 1) s) as [[w' n''] f'] eqn:Es. injection Hword as <- <- <-.
        simpl in Hf. unfold len in *. fold (fopen_bytes s).
        rewrite (IH fuel (n - 1)%nat (word ++ [c]) w'); try done; try lia; [|rewrite length_app; simpl; lia].
        rewrite length_app. cbn [length].
        replace (N.of_nat (length word + 1) + N.of_nat (n - 1 - n''))%N
          with (N.of_nat (length word) + N.of_nat (n - n''))%N by lia.
        destruct (_ <=? _)%N; [|done]. by rewrite <- !(assoc_L (++)).
Qed.

(** [fmakeword] reads the word [form_word] says, unless more than [WSIZE] bytes are read for
    it: then the NUL that is stored before the array is enlarged is out of its bounds. *)
Lemma fmakeword_spec stop n s w n' f :
  stop <> EOF_CHAR -> (0 < n)%nat -> (Z.of_nat n <= INT_MAX)%Z -> form_word stop n s = (w, n', f) ->
  fmakeword (fopen_bytes s) stop (Z.of_nat n) =
    if (N.of_nat (n - n') <=? WSIZE)%N then Some (w ++ [NUL], Z.of_nat n', f) else None.
Proof.
  intros Hs Hn Hi Hw. unfold fmakeword. cbn [input fopen_bytes].
  erewrite (fmakeword_loop_spec stop s); [|done|done|done|lia|done|done]. done.
Qed.

(** ** Decoding *)

Definition is_hex (c : ascii) : bool := negb (hex_value c =? -1)%Z.

(** On hexadecimal digits [x2c] is the byte the static file handler decodes. *)
Lemma x2c_hex a b :
  is_hex a = true -> is_hex b = true -> x2c a b = hex_byte (hex_value a) (hex_value b).
Proof.
  assert (Hall : forall l, (forall c, is_hex c = true -> c ∈ l) ->
    forallb (fun a => forallb (fun b => bool_decide (x2c a b = hex_byte (hex_value a) (hex_value b))) l) l = true ->
    is_hex a = true -> is_hex b = true -> x2c a b = hex_byte (hex_value a) (hex_value b)).
  { intros l Hl Hf Ha%Hl%list_elem_of_In Hb%Hl%list_elem_of_In. rewrite forallb_forall in Hf.
    specialize (Hf a Ha). rewrite forallb_forall in Hf. exact (bool_decide_eq_true_1 _ (Hf b Hb)). }
  apply (Hall (lit "0123456789abcdefABCDEF")); [|vm_compute; reflexivity].
  intros c Hc. eapply (bool_decide_eq_true_1 (c ∈ _)). revert Hc. ascii_cases c.
Qed.

(** What the decoder makes of a string; [None] when a percent sign is followed by fewer than
    two characters. *)
Fixpoint unescape (s : bytes) : option bytes :=
  match s with
  | [] => Some []
  | c :: s' =>
      if bool_decide (c = PERCENT) then
        match s' with
        | a :: b :: s'' => cons (x2c a b) <$> unescape s''
        | _ => None
        end
      else cons c <$> unescape s'
  end.

Lemma list_ind_lt {A} (P : list A -> Prop) :
  (forall l, (forall k, (length k < length l)%nat -> P k) -> P l) -> forall l, P l.
Proof.
  intros Hs l. assert (Hn : forall n k, (length k < n)%nat -> P k); [|by apply (Hn (S (length l))); lia].
  induction n as [|n IH]; [lia|]. intros k Hk. apply Hs. intros j Hj. apply IH. lia.
Qed.

(** One iteration of the decoder. *)
Lemma unescape_step fuel x y url c t :
  drop y url = c :: t -> c <> NUL -> c <> PERCENT -> (x <= y)%nat ->
  unescape_loop (S fuel) x y url = unescape_loop fuel (S x) (S y) (<[x := c]> url).
Proof.
  intros Hd Hc Hp Hx. cbn [unescape_loop]. rewrite (rd_drop _ _ _ _ Hd). run_bind.
  rewrite bool_decide_eq_false_2 by done. apply drop_next in Hd as [_ Hl]. rewrite wr_Some by lia.
  run_bind. by rewrite bool_decide_eq_false_2.
Qed.

Lemma unescape_step_percent fuel x y url a b t :
  drop y url = PERCENT :: a :: b :: t -> (x <= y)%nat ->
  unescape_loop (S fuel) x y url = unescape_loop fuel (S x) (y + 3) (<[x := x2c a b]> url) /\
  drop (y + 3) url = t.
Proof.
  intros Hd Hx. cbn [unescape_loop]. rewrite (rd_drop _ _ _ _ Hd). run_bind.
  rewrite bool_decide_eq_false_2 by done.
  pose proof (drop_next _ _ _ _ Hd) as [Hd1 Hl]. pose proof (drop_next _ _ _ _ Hd1) as [Hd2 _].
  pose proof (drop_next _ _ _ _ Hd2) as [Hd3 _]. rewrite wr_Some by lia. run_bind.
  rewrite bool_decide_eq_true_2 by done.
  rewrite (rd_drop _ (y + 1) a (b :: t)) by (rewrite drop_insert_lt by lia; by rewrite Nat.add_1_r).
  run_bind. rewrite (rd_drop _ (y + 2) b t)
    by (rewrite drop_insert_lt by lia; by replace (y + 2)%nat with (S (S y)) by lia).
  run_bind. rewrite wr_Some by (rewrite length_insert; lia). run_bind.
  rewrite list_insert_insert_eq. split; [done|]. by replace (y + 3)%nat with (S (S (S y))) by lia.
Qed.

(** The cases of a decodable string. *)
Lemma unescape_cons c s u :
  unescape (c :: s) = Some u ->
  (exists a b s' u', c = PERCENT /\ s = a :: b :: s' /\ unescape s' = Some u' /\ u = x2c a b :: u') \/
  (exists u', c <> PERCENT /\ unescape s = Some u' /\ u = c :: u').
Proof.
  cbn [unescape]. case_bool_decide as Hc.
  - destruct s as [|a [|b s]]; try done. intros (u' & Hu & ->)%fmap_Some. left. by exists a, b, s, u'.
  - intros (u' & Hu & ->)%fmap_Some. right. by exists u'.
Qed.

Lemma unescape_loop_spec s : forall fuel x y url t u,
  drop y url = s ++ NUL :: t -> NUL ∉ s -> unescape s = Some u -> (length s < fuel)%nat -> (x <= y)%nat ->
  unescape_loop fuel x y url = Some (take x url ++ u ++ NUL :: drop (S (x + length u)) url).
Proof.
  induction s as [s IH] using list_ind_lt. intros fuel x y url t u Hd Hn Hu Hf Hx.
  destruct fuel as [|fuel]; [lia|]. destruct s as [|c s].
  - simpl in Hu. injection Hu as <-. simpl app in Hd. cbn [unescape_loop]. rewrite (rd_drop _ _ _ _ Hd).
    simpl. apply drop_next in Hd as [_ Hl]. rewrite wr_Some by lia. rewrite insert_take_drop by lia.
    by rewrite Nat.add_0_r.
  - assert (Hl : (y < length url)%nat) by (by apply drop_next in Hd as [_ ?]).
    apply not_elem_of_cons in Hn as [Hc Hn]. simpl in Hf.
    destruct (unescape_cons _ _ _ Hu) as [(a & b & s' & u' & -> & -> & Hu' & ->)|(u' & Hp & Hu' & ->)].
    + destruct (unescape_step_percent fuel x y url a b (s' ++ NUL :: t)) as [-> Hd']; [done..|].
      rewrite !not_elem_of_cons in Hn. simpl in Hf.
      rewrite (IH s' ltac:(simpl; lia) fuel (S x) (y + 3)%nat _ t u');
        [|by rewrite drop_insert_lt by lia|tauto|done|lia|lia].
      rewrite take_insert_next, drop_insert_lt by lia. cbn [length]. by rewrite <- (assoc_L (++)), Nat.add_succ_r.
    + rewrite (unescape_step fuel x y url c (s ++ NUL :: t)) by done. apply drop_next in Hd as [Hd _].
      rewrite (IH s ltac:(simpl; lia) fuel (S x) (S y) _ t u'); [|by rewrite drop_insert_lt by lia|done|done|lia|lia].
      rewrite take_insert_next, drop_insert_lt by lia. cbn [length]. by rewrite <- (assoc_L (++)), Nat.add_succ_r.
Qed.

(** Decoding in place. *)
Lemma unescape_url_spec url s u :
  cstr url s -> unescape s = Some u -> unescape_url url = Some (stored url u).
Proof.
  intros [Hn [t ->]] Hu. unfold unescape_url.
  by rewrite (unescape_loop_spec s _ 0 0 _ t u); [|..|rewrite length_app; simpl; lia|].
Qed.

(** A byte as an escape, and a string with some characters escaped. *)
Definition hex_char (d : N) : ascii :=
  if (d <? 10)%N then ascii_of_N (d + 48) else ascii_of_N (d + 55).
Definition escape_char (c : ascii) : bytes :=
  [PERCENT; hex_char (code c / 16); hex_char (code c mod 16)].

Lemma unescape_escape_char c s : unescape (escape_char c ++ s) = cons c <$> unescape s.
Proof.
  unfold escape_char. cbn [app unescape]. rewrite bool_decide_eq_true_2 by done.
  replace (x2c _ _) with c; [done|]. ascii_cases c.
Qed.

(** One occurrence of a form value in a query: each character as itself or escaped, the
    percent sign always escaped. *)
Inductive encodes : bytes -> bytes -> Prop :=
| enc_nil : encodes [] []
| enc_plain c s e : c <> PERCENT -> encodes s e -> encodes (c :: s) (c :: e)
| enc_escape c s e : encodes s e -> encodes (c :: s) (escape_char c ++ e).

Lemma unescape_encodes s e : encodes s e -> unescape e = Some s.
Proof.
  induction 1 as [|c s e Hc _ IH|c s e _ IH]; [done|..].
  - cbn [unescape]. by rewrite bool_decide_eq_false_2, IH by done.
  - by rewrite unescape_escape_char, IH.
Qed.

Lemma unescape_app s u t : unescape s = Some u -> unescape (s ++ t) = (fun v => u ++ v) <$> unescape t.
Proof.
  revert u. induction s as [s IH] using list_ind_lt. intros u. destruct s as [|c s].
  - intros Hu. injection Hu as <-. simpl. by destruct (unescape t).
  - cbn [unescape app]. case_bool_decide.
    + destruct s as [|a [|b s]]; try done. intros (u' & Hu & ->)%fmap_Some. cbn [app].
      rewrite (IH s ltac:(simpl; lia) u' Hu). by destruct (unescape t).
    + intros (u' & Hu & ->)%fmap_Some. rewrite (IH s ltac:(simpl; lia) u' Hu). by destruct (unescape t).
Qed.

(** A percent sign at the end of the string makes the decoder take the NUL and the byte
    after it as the digits, and go on with what lies behind: the array, not the string. *)
Lemma unescape_loop_percent s : forall fuel x y url a t u,
  drop y url = s ++ PERCENT :: NUL :: a :: t -> NUL ∉ s -> unescape s = Some u ->
  (S (length s) < fuel)%nat -> (x <= y)%nat ->
  exists fuel' x' url', (fuel <= fuel' + S (length s))%nat /\ (x' <= y + length s + 3)%nat /\
    x' = (x + length u + 1)%nat /\ take x' url' = take x url ++ u ++ [x2c NUL a] /\
    drop x' url' = drop x' url /\ length url' = length url /\
    unescape_loop fuel x y url = unescape_loop fuel' x' (y + length s + 3) url'.
Proof.
  induction s as [s IH] using list_ind_lt. intros fuel x y url a t u Hd Hn Hu Hf Hx.
  destruct fuel as [|fuel]; [lia|].
  assert (Hl : (y < length url)%nat) by (destruct s; by apply drop_next in Hd as [_ ?]). destruct s as [|c s].
  - simpl in Hu. injection Hu as <-.
    destruct (unescape_step_percent fuel x y url NUL a t) as [-> _]; [done..|].
    exists fuel, (S x), (<[x := x2c NUL a]> url). cbn [length] in *.
    rewrite take_insert_next, drop_insert_lt, length_insert, !Nat.add_0_r by lia. repeat split; lia.
  - assert (Hrec : forall y' b s' u', (length s' <= length s)%nat -> (y' + length s' = y + S (length s))%nat ->
      drop y' (<[x := b]> url) = s' ++ PERCENT :: NUL :: a :: t -> NUL ∉ s' -> unescape s' = Some u' ->
      (x < y')%nat -> u = b :: u' -> unescape_loop (S fuel) x y url = unescape_loop fuel (S x) y' (<[x := b]> url) ->
      exists fuel' x' url', (S fuel <= fuel' + S (length (c :: s)))%nat /\ (x' <= y + length (c :: s) + 3)%nat /\
        x' = (x + length u + 1)%nat /\ take x' url' = take x url ++ u ++ [x2c NUL a] /\
        drop x' url' = drop x' url /\ length url' = length url /\
        unescape_loop (S fuel) x y url = unescape_loop fuel' x' (y + length (c :: s) + 3) url').
    { intros y' b s' u' Hle Hy Hd' Hn' Hu' Hx' -> ->. simpl in Hf.
      destruct (IH s' ltac:(simpl; lia) fuel (S x) y' (<[x := b]> url) a t u')
        as (fuel' & x' & url' & F1 & F2 & F3 & F4 & F5 & F6 & F7); [done|done|done|lia|lia|].
      exists fuel', x', url'. cbn [length] in *. split; [lia|]. split; [lia|]. split; [lia|].
      rewrite F4, F5, F6, F7, take_insert_next, drop_insert_lt, length_insert by lia.
      split; [by rewrite <- (assoc_L (++))|]. repeat split. f_equal. lia. }
    apply not_elem_of_cons in Hn as [Hc Hn].
    destruct (unescape_cons _ _ _ Hu) as [(h0 & h1 & s' & u' & -> & -> & Hu' & ->)|(u' & Hp & Hu' & ->)].
    + destruct (unescape_step_percent fuel x y url h0 h1 (s' ++ PERCENT :: NUL :: a :: t)) as [He Hd']; [done..|].
      rewrite !not_elem_of_cons in Hn. simpl in Hf.
      apply (Hrec (y + 3)%nat (x2c h0 h1) s' u'); try tauto; simpl; try lia. by rewrite drop_insert_lt by lia.
    + apply (Hrec (S y) c s u'); try done; try lia.
      * apply drop_next in Hd as [Hd _]. by rewrite drop_insert_lt by lia.
      * by apply (unescape_step fuel x y url c (s ++ PERCENT :: NUL :: a :: t)).
Qed.

Lemma unescape_url_overrun s u a t t' v :
  NUL ∉ s -> unescape s = Some u -> NUL ∉ t -> unescape t = Some v ->
  let url := s ++ PERCENT :: NUL :: a :: t ++ NUL :: t' in
  unescape_url url = Some (stored url (u ++ x2c NUL a :: v)).
Proof.
  intros Hs Hu Ht Hv url. unfold unescape_url.
  destruct (unescape_loop_percent s (S (length url)) 0 0 url a (t ++ NUL :: t') u)
    as (fuel' & x' & url' & F1 & F2 & F3 & F4 & F5 & F6 & F7); try done.
  { unfold url. rewrite length_app. simpl. lia. }
  rewrite F7. assert (Hd : drop (0 + length s + 3) url = t ++ NUL :: t').
  { unfold url. replace (0 + length s + 3)%nat with (length s + 3)%nat by lia.
    rewrite <- drop_drop, drop_app_length. done. }
  assert (Hlen : length url = (length s + 3 + S (length t + length t'))%nat).
  { unfold url. rewrite length_app. simpl. rewrite length_app. simpl. lia. }
  rewrite (unescape_loop_spec t fuel' x' _ url' t' v); try done; [| |lia].
  - rewrite F4. simpl. unfold stored. rewrite length_app. cbn [length].
    replace (drop (S (x' + length v)) url') with (drop (S (length u + S (length v))) url).
    + by rewrite <- !(assoc_L (++)).
    + replace (S (x' + length v))%nat with (x' + S (length v))%nat by lia.
      rewrite <- drop_drop, F5, drop_drop. f_equal. lia.
  - rewrite <- Hd. replace (0 + length s + 3)%nat with (x' + (length s + 3 - x'))%nat by lia.
    by rewrite <- !drop_drop, F5.
Qed.

(** ** Plus signs *)

Definition plus_char (c : ascii) : ascii := if bool_decide (c = "+"%char) then SP else c.

Lemma plustospace_loop_spec s fuel x str t :
  drop x str = s ++ NUL :: t -> NUL ∉ s -> (length s < fuel)%nat ->
  plustospace_loop fuel x str = Some (take x str ++ map plus_char s ++ NUL :: t).
Proof.
  revert fuel x str. induction s as [|c s IH]; intros fuel x str Hd Hn Hf;
    (destruct fuel as [|fuel]; [simpl in Hf; lia|]); cbn [plustospace_loop]; simpl app in Hd;
    rewrite (rd_drop _ _ _ _ Hd); run_bind.
  - simpl. rewrite <- Hd. by rewrite take_drop.
  - apply not_elem_of_cons in Hn as [Hc Hn]. rewrite bool_decide_eq_false_2 by congruence.
    pose proof (drop_next _ _ _ _ Hd) as [Hd1 Hl]. simpl in Hf. cbn [map]. unfold plus_char at 1.
    case_bool_decide as Hp.
    + rewrite wr_Some by done. run_bind.
      rewrite IH; [|by rewrite drop_insert_lt by lia|done|lia].
      rewrite take_insert_next by done. by rewrite <- (assoc_L (++)).
    + run_bind. rewrite IH; [|done|done|lia]. f_equal. rewrite (take_S_r _ _ c).
      * by rewrite <- (assoc_L (++)).
      * exact (rd_drop _ _ _ _ Hd).
Qed.

Lemma plustospace_spec str s :
  cstr str s -> plustospace str = Some (stored str (map plus_char s)).
Proof.
  intros [Hn [t ->]]. unfold plustospace.
  rewrite (plustospace_loop_spec s _ 0 _ t); [|done|done|rewrite length_app; simpl; lia].
  simpl. unfold stored. rewrite length_map. do 3 f_equal.
  change (s ++ NUL :: t) with (s ++ [NUL] ++ t). rewrite (assoc_L (++)).
  replace (S (length s)) with (length (s ++ [NUL])) by (rewrite length_app; simpl; lia).
  by rewrite drop_app_length.
Qed.

Lemma map_plus_NUL s : NUL ∉ s -> NUL ∉ map plus_char s.
Proof.
  intros Hs (c & Hc & Hin)%list_elem_of_fmap. unfold plus_char in Hc. case_bool_decide; [done|]. by subst.
Qed.

(** ** Searching *)

Lemma ind_loop_spec s fuel x str t c :
  drop x str = s ++ NUL :: t -> NUL ∉ s -> (length s < fuel)%nat -> c <> NUL ->
  ind_loop fuel x str c = Some (match search [c] s with Some i => Z.of_nat (x + i) | None => (-1)%Z end).
Proof.
  revert fuel x. induction s as [|d s IH]; intros fuel x Hd Hn Hf Hc;
    (destruct fuel as [|fuel]; [simpl in Hf; lia|]); cbn [ind_loop]; simpl app in Hd;
    rewrite (rd_drop _ _ _ _ Hd); run_bind; [done|].
  apply not_elem_of_cons in Hn as [Hdn Hn]. rewrite (bool_decide_eq_false_2 (d = NUL)) by congruence.
  cbn [search starts_with]. rewrite andb_true_r. case_bool_decide as E.
  - subst. rewrite bool_decide_eq_true_2 by done. by rewrite Nat.add_0_r.
  - rewrite bool_decide_eq_false_2 by congruence. simpl in Hf. apply drop_next in Hd as [Hd _].
    rewrite IH; [|done|done|lia|done]. destruct (search [c] s); simpl; do 2 f_equal; lia.
Qed.

(** Whether a character is quoted, decided by the table. *)
Definition is_meta (c : ascii) : bool := bool_decide (c ∈ META).

Lemma ind_meta c : c <> NUL -> exists i, ind (META ++ [NUL]) c = Some i /\ negb (i =? -1)%Z = is_meta c.
Proof.
  intros Hc. unfold ind. rewrite (ind_loop_spec META _ 0 _ []); [|done| |vm_compute; lia|done].
  - eexists. split; [done|]. unfold is_meta. destruct (search [c] META) as [i|] eqn:E.
    + rewrite bool_decide_eq_true_2; [by destruct (Z.eqb_spec (Z.of_nat (0 + i)) (-1)); [lia|]|].
      destruct (decide (c ∈ META)) as [?|Hn]; [done|]. apply search_char_None in Hn. congruence.
    + apply search_char_None in E. by rewrite bool_decide_eq_false_2.
  - apply (bool_decide_eq_true_1 (NUL ∉ META)). vm_compute. reflexivity.
Qed.

(** ** Quoting for the shell *)

Definition quote_char (c : ascii) : bytes := if is_meta c then [BACKSLASH; c] else [c].
Definition quote (s : bytes) : bytes := concat (map quote_char s).

Lemma shift_right_spec k x cmd :
  (x + k < length cmd)%nat ->
  shift_right k x cmd = Some (take (S x) cmd ++ take k (drop x cmd) ++ drop (x + S k) cmd).
Proof.
  revert cmd. induction k as [|k IH]; intros cmd Hk; cbn [shift_right].
  - rewrite Nat.add_1_r. change (take 0 (drop x cmd)) with (@nil ascii). cbn [app]. by rewrite take_drop.
  - destruct (lookup_lt_is_Some_2 cmd (x + k) ltac:(lia)) as [c Hc]. unfold rd. rewrite Hc. run_bind.
    rewrite wr_Some by lia. run_bind. rewrite IH by (rewrite length_insert; lia). f_equal.
    rewrite take_insert_ge by lia. f_equal. rewrite drop_insert_ge by lia.
    rewrite take_insert_ge by lia. rewrite (take_S_r _ _ c) by (by rewrite lookup_drop).
    rewrite <- (assoc_L (++)). f_equal. rewrite drop_insert_ge, Nat.sub_diag by lia.
    destruct (drop (x + S k) cmd) as [|d r] eqn:E; [apply (f_equal length) in E; rewrite length_drop in E; simpl in E; lia|].
    apply drop_next in E as [E _]. simpl. f_equal. rewrite <- E. f_equal. lia.
Qed.

Lemma shift_right_None k x cmd : (length cmd <= x + k)%nat -> (0 < k)%nat -> shift_right k x cmd = None.
Proof.
  intros Hk H0. destruct k as [|k]; [lia|]. cbn [shift_right]. destruct (rd cmd (x + k)); [|done].
  simpl. by rewrite wr_None.
Qed.

Lemma length_quote s : (length s <= length (quote s))%nat.
Proof.
  induction s as [|c s IH]; [done|]. unfold quote. cbn [map concat]. fold (quote s). rewrite length_app.
  unfold quote_char. destruct (is_meta c); simpl; lia.
Qed.

(** The insertion of a backslash. *)
Lemma quote_step cmd x c s t :
  drop x cmd = c :: s ++ NUL :: t -> (x + S (S (length s)) < length cmd)%nat ->
  (cmd ← shift_right (S (S (length s))) x cmd; wr cmd x BACKSLASH)
  = Some (take x cmd ++ BACKSLASH :: c :: s ++ NUL :: drop (x + S (S (S (length s)))) cmd).
Proof.
  intros Hd Hfit. rewrite shift_right_spec by done. run_bind.
  assert (Hx : length (take x cmd) = x) by (rewrite length_take; lia).
  assert (E1 : take (S x) cmd = take x cmd ++ [c]) by (apply take_S_r; exact (rd_drop _ _ _ _ Hd)).
  assert (E2 : take (S (S (length s))) (drop x cmd) = c :: s ++ [NUL]).
  { rewrite Hd. cbn [take]. f_equal. rewrite take_app_ge by lia.
    by replace (S (length s) - length s)%nat with 1 by lia. }
  rewrite E1, E2, wr_Some by (rewrite !length_app, Hx; simpl; lia).
  rewrite <- (assoc_L (++)), insert_app_r_alt, Hx, Nat.sub_diag by lia. simpl.
  by rewrite <- (assoc_L (++)).
Qed.

Lemma escape_loop_spec s : forall fuel x cmd t,
  drop x cmd = s ++ NUL :: t -> NUL ∉ s -> (length s < fuel)%nat ->
  escape_loop fuel x (x + length s) cmd =
    if (x + length (quote s) <? length cmd)%nat
    then Some (take x cmd ++ quote s ++ NUL :: drop (S (x + length (quote s))) cmd) else None.
Proof.
  induction s as [|c s IH]; intros fuel x cmd t Hd Hn Hf; (destruct fuel as [|fuel]; [simpl in Hf; lia|]);
    cbn [escape_loop]; simpl app in Hd; rewrite (rd_drop _ _ _ _ Hd); run_bind;
    pose proof (drop_next _ _ _ _ Hd) as [Hd1 Hl].
  - simpl. rewrite Nat.add_0_r. destruct (Nat.ltb_spec x (length cmd)); [|lia]. f_equal.
    rewrite Hd1. rewrite <- (take_drop x cmd) at 1. by rewrite Hd.
  - apply not_elem_of_cons in Hn as [Hc Hn]. rewrite bool_decide_eq_false_2 by congruence.
    destruct (ind_meta c) as (i & -> & Hi); [congruence|]. run_bind. rewrite Hi. simpl in Hf.
    unfold quote. cbn [map concat]. fold (quote s). rewrite length_app. unfold quote_char.
    pose proof (length_quote s). destruct (is_meta c); cbn [length app].
    + replace (x + S (length s) + 1 - x)%nat with (S (S (length s))) by lia.
      destruct (Nat.ltb_spec (x + S (S (length s))) (length cmd)) as [Hfit|Hfit].
      * pose proof (quote_step _ _ _ _ _ Hd Hfit) as Hq. destruct (shift_right _ x cmd) as [cmd1|]; [|discriminate Hq].
        cbn [mbind option_bind] in *. rewrite Hq. run_bind. clear Hq.
        set (tail := drop (x + S (S (S (length s)))) cmd).
        assert (Hx : length (take x cmd) = x) by (rewrite length_take; lia).
        set (cmd2 := take x cmd ++ _).
        assert (Hd2 : drop (S (S x)) cmd2 = s ++ NUL :: tail).
        { unfold cmd2. rewrite drop_app_ge, Hx by lia. by replace (S (S x) - x)%nat with 2 by lia. }
        assert (Ht2 : take (S (S x)) cmd2 = take x cmd ++ [BACKSLASH; c]).
        { unfold cmd2. rewrite take_app_ge, Hx by lia. by replace (S (S x) - x)%nat with 2 by lia. }
        assert (Hlen : length cmd2 = length cmd).
        { unfold cmd2, tail. rewrite length_app, Hx. cbn [length]. rewrite length_app. cbn [length].
          rewrite length_drop. lia. }
        replace (S (x + S (length s))) with (S (S x) + length s)%nat by lia.
        rewrite (IH fuel (S (S x)) cmd2 tail Hd2 Hn ltac:(lia)), Hlen, Ht2.
        replace (x + (2 + length (quote s)))%nat with (S (S x) + length (quote s))%nat by lia.
        destruct (_ <? _)%nat; [|done]. rewrite <- (assoc_L (++)). cbn [app]. do 6 f_equal.
        replace (S (S (S x) + length (quote s))) with (S (S x) + S (length s) + (length (quote s) - length s))%nat by lia.
        assert (Htl : drop (S (S x) + S (length s)) cmd2 = tail).
        { rewrite <- (drop_drop cmd2 (S (length s)) (S (S x))), Hd2, drop_app_ge by lia.
          by replace (S (length s) - length s)%nat with 1 by lia. }
        rewrite <- (drop_drop cmd2 _ (S (S x) + S (length s))), Htl. unfold tail. rewrite drop_drop.
        f_equal. lia.
      * rewrite shift_right_None by lia. run_bind.
        by destruct (Nat.ltb_spec (x + (2 + length (quote s))) (length cmd)); [lia|].
    + replace (x + S (length s))%nat with (S x + length s)%nat by lia.
      rewrite (IH fuel (S x) cmd t) by (done || lia).
      replace (x + (1 + length (quote s)))%nat with (S x + length (quote s))%nat by lia.
      destruct (_ <? _)%nat; [|done]. f_equal. rewrite (take_S_r _ _ c) by (by eapply rd_drop).
      by rewrite <- (assoc_L (++)).
Qed.

(** Quoting in place, or out of the bounds of the array when the quoted string does not
    fit. *)
Lemma escape_shell_cmd_spec cmd s :
  cstr cmd s ->
  escape_shell_cmd cmd = if (length (quote s) <? length cmd)%nat then Some (stored cmd (quote s)) else None.
Proof.
  intros Hs. pose proof Hs as [Hn [t Ht]]. unfold escape_shell_cmd, strlen.
  rewrite (proj2 (c_string_cstr _ _) Hs). cbn [fmap option_fmap option_map]. run_bind.
  apply (escape_loop_spec s (S (length cmd)) 0 cmd t Ht Hn).
  apply (f_equal length) in Ht. rewrite length_app in Ht. simpl in Ht. lia.
Qed.

Lemma quote_NUL s : NUL ∉ s -> NUL ∉ quote s.
Proof.
  induction s as [|c s IH]; [done|]. rewrite not_elem_of_cons. intros [Hc Hs]. unfold quote.
  cbn [map concat]. fold (quote s). rewrite elem_of_app. unfold quote_char.
  destruct (is_meta c); rewrite !elem_of_cons, elem_of_nil; intros [Hx|Hx]; try naive_solver;
    destruct Hx as [Hx|[Hx|Hx]]; try done; congruence.
Qed.

(** ** Lines *)

(** A character that neither ends a line nor is dropped. *)
Definition plain (c : ascii) : bool :=
  negb (bool_decide (c = CR)) && negb (bool_decide (c = LF)) && negb (bool_decide (c = EOT)).

Notation plain_line s := (Forall (fun c => plain c = true) s).

(** One plain character before the last place of the array. *)
Lemma getline_step fuel i n s c r e :
  plain c = true -> i <> (n - 1)%nat -> (i < length s)%nat ->
  mygetline_loop (S fuel) i n s {| input := c :: r; at_eof := e |}
  = mygetline_loop fuel (S i) n (<[i := c]> s) {| input := r; at_eof := e |}.
Proof.
  intros Hc Hi Hl. unfold plain in Hc. bool_prop. cbn [mygetline_loop fgetc input at_eof].
  rewrite (bool_decide_eq_false_2 (c = CR)), wr_Some by done. run_bind.
  rewrite !bool_decide_eq_false_2 by done. cbn [orb]. by destruct (Nat.eqb_spec i (n - 1)).
Qed.

Lemma getline_line l : forall fuel i n s r e,
  plain_line l -> (i + length l < n)%nat -> (n <= length s)%nat -> (length l < fuel)%nat ->
  mygetline_loop fuel i n s {| input := l ++ LF :: r; at_eof := e |}
  = Some (e, take i s ++ l ++ NUL :: drop (S (i + length l)) s, {| input := r; at_eof := e |}).
Proof.
  induction l as [|c l IH]; intros fuel i n s r e Hp Hn Hs Hf; (destruct fuel as [|fuel]; [simpl in *; lia|]).
  - simpl in Hn. cbn [app mygetline_loop fgetc input at_eof]. rewrite (bool_decide_eq_false_2 (LF = CR)) by done.
    rewrite wr_Some by lia. run_bind. rewrite (bool_decide_eq_true_2 (LF = LF)), orb_true_r by done. cbn [orb].
    rewrite wr_Some by (rewrite length_insert; lia). run_bind. rewrite list_insert_insert_eq.
    rewrite insert_take_drop by lia. by rewrite Nat.add_0_r.
  - apply Forall_cons_1 in Hp as [Hc Hp]. simpl in Hn, Hf. cbn [app]. rewrite getline_step by (done || lia).
    rewrite IH by (done || (rewrite ?length_insert; lia)).
    rewrite take_insert_next, drop_insert_lt by lia. cbn [length]. rewrite <- (assoc_L (++)).
    by rewrite Nat.add_succ_r.
Qed.

(** A line with its end, that fits with its NUL into the [n] places. *)
Lemma mygetline_line l n s r :
  plain_line l -> (length l < n)%nat -> (n <= length s)%nat ->
  mygetline s n (fopen_bytes (l ++ LF :: r)) = Some (false, stored s l, fopen_bytes r).
Proof. intros Hp Hn Hs. unfold mygetline, fopen_bytes. rewrite getline_line by (done || lia). done. Qed.

(** At the end of the stream the array is filled with the converted [EOF] and the call
    reports the end, whatever had been read of an unfinished line. *)
Lemma getline_eof fuel i n s e :
  (i < n)%nat -> (n <= length s)%nat -> (n - i <= fuel)%nat ->
  exists s', mygetline_loop fuel i n s {| input := []; at_eof := e |}
             = Some (true, s', {| input := []; at_eof := true |}) /\ length s' = length s.
Proof.
  revert i s e. induction fuel as [|fuel IH]; intros i s e Hi Hs Hf; [lia|].
  cbn [mygetline_loop fgetc input at_eof]. rewrite (bool_decide_eq_false_2 (EOF_CHAR = CR)) by done.
  rewrite wr_Some by lia. run_bind. rewrite !bool_decide_eq_false_2 by done. cbn [orb].
  destruct (Nat.eqb_spec i (n - 1)).
  - rewrite wr_Some by (rewrite length_insert; lia). run_bind. eexists. split; [done|]. by rewrite !length_insert.
  - destruct (IH (S i) (<[i := EOF_CHAR]> s) true) as (s' & -> & Hl); [lia|by rewrite length_insert|lia|].
    exists s'. split; [done|]. by rewrite Hl, length_insert.
Qed.

Lemma getline_unfinished l : forall fuel i n s,
  plain_line l -> (i + length l < n)%nat -> (n <= length s)%nat -> (n - i <= fuel)%nat ->
  exists s', mygetline_loop fuel i n s (fopen_bytes l)
             = Some (true, s', {| input := []; at_eof := true |}) /\ length s' = length s.
Proof.
  induction l as [|c l IH]; intros fuel i n s Hp Hn Hs Hf; simpl in Hn.
  - apply getline_eof; lia.
  - apply Forall_cons_1 in Hp as [Hc Hp]. destruct fuel as [|fuel]; [lia|]. unfold fopen_bytes.
    rewrite getline_step by (done || lia).
    destruct (IH fuel (S i) n (<[i := c]> s)) as (s' & E & Hl); [done|lia|by rewrite length_insert|lia|].
    exists s'. split; [exact E|]. by rewrite Hl, length_insert.
Qed.

(** A longer line is cut, and the character at the cut is lost. *)
Lemma getline_cut l : forall fuel i n s c r,
  plain_line l -> plain c = true -> (i + length l = n - 1)%nat -> (0 < n)%nat -> (n <= length s)%nat ->
  (length l < fuel)%nat ->
  mygetline_loop fuel i n s (fopen_bytes (l ++ c :: r))
  = Some (false, take i s ++ l ++ NUL :: drop (S (i + length l)) s, fopen_bytes r).
Proof.
  induction l as [|d l IH]; intros fuel i n s c r Hp Hc Hn H0 Hs Hf; (destruct fuel as [|fuel]; [simpl in *; lia|]);
    simpl in Hn.
  - cbn [app mygetline_loop fgetc fopen_bytes input at_eof]. unfold plain in Hc. bool_prop.
    rewrite (bool_decide_eq_false_2 (c = CR)), wr_Some by (done || lia). run_bind.
    rewrite !bool_decide_eq_false_2 by done. cbn [orb].
    destruct (Nat.eqb_spec i (n - 1)); [|lia]. rewrite wr_Some by (rewrite length_insert; lia). run_bind.
    rewrite list_insert_insert_eq. rewrite insert_take_drop by lia. by rewrite Nat.add_0_r.
  - apply Forall_cons_1 in Hp as [Hd Hp]. simpl in Hf. unfold fopen_bytes. cbn [app].
    rewrite getline_step by (done || lia).
    rewrite (IH fuel (S i) n (<[i := d]> s) c r) by (done || lia || (rewrite length_insert; lia)).
    rewrite take_insert_next, drop_insert_lt by lia. cbn [length]. rewrite <- (assoc_L (++)).
    by rewrite Nat.add_succ_r.
Qed.

(** ** Copying a stream *)

Lemma send_loop_spec s fuel out :
  (length s < fuel)%nat -> send_loop fuel (fopen_bytes s) out = Some (out ++ s).
Proof.
  revert fuel out. induction s as [|c s IH]; intros fuel out Hf; (destruct fuel as [|fuel]; [simpl in Hf; lia|]);
    cbn [send_loop fgetc fopen_bytes input at_eof].
  - by rewrite app_nil_r.
  - simpl in Hf. fold (fopen_bytes s). rewrite IH by lia. by rewrite <- (assoc_L (++)).
Qed.

Lemma send_fd_spec s : send_fd (fopen_bytes s) = Some s.
Proof. unfold send_fd. by rewrite send_loop_spec by (simpl; lia). Qed.
