(* ===== verification/Shell.v ===== *)
(** * How a shell reads a command line

    The part of the shell command language that [popen] brings into play: blanks separate
    words, a newline ends a command, a backslash takes the meaning from the next character and
    disappears together with a newline, a number sign at the beginning of a word starts a
    comment that runs to the end of the line, where a backslash has no meaning. Every other
    character with a meaning of its own makes the reader give up. The lists of characters are
    those of the language, not those of the program that quotes. *)

From Stdlib Require Import Ascii String.
From stdpp Require Import base numbers list gmap strings option.
From S2P Require Import Prelude CppLib CMem CgiUtil CgiUtilFacts.

(** Operators, expansions, quotes, patterns and braces; the caret is a pipe to old shells. *)
Definition sh_special (c : ascii) : bool :=
  bool_decide (c ∈ lit "|&;<>()" ++ lit "$`" ++ ["034"%char; "'"%char] ++ lit "*?[]~{}^").

Definition blank (c : ascii) : bool := bool_decide (c = SP) || bool_decide (c = "009"%char).

Inductive mode := Between | Within (word : bytes) | InComment.

Definition word_of (m : mode) : bytes := match m with Within w => w | _ => [] end.
Definition ending (m : mode) (ws : list bytes) : list bytes := match m with Within w => ws ++ [w] | _ => ws end.
Definition command (ws : list bytes) (cmds : list (list bytes)) : list (list bytes) :=
  match ws with [] => cmds | _ => ws :: cmds end.

(** The commands of a text, each the list of its words; [ws] are the words of the command that
    is being read. *)
Fixpoint sh_read (s : bytes) (m : mode) (ws : list bytes) : option (list (list bytes)) :=
  match s with
  | [] => Some (command (ending m ws) [])
  | c :: s' =>
      if bool_decide (c = LF) then command (ending m ws) <$> sh_read s' Between []
      else match m with
      | InComment => sh_read s' InComment ws
      | _ =>
          if bool_decide (c = BACKSLASH) then
            match s' with
            | [] => None
            | d :: s'' =>
                if bool_decide (d = LF) then sh_read s'' m ws else sh_read s'' (Within (word_of m ++ [d])) ws
            end
          else if blank c then sh_read s' Between (ending m ws)
          else if bool_decide (c = "#"%char) && bool_decide (word_of m = []) then sh_read s' InComment ws
          else if sh_special c then None
          else sh_read s' (Within (word_of m ++ [c])) ws
      end
  end.

Definition sh_commands (s : bytes) : option (list (list bytes)) := sh_read s Between [].

(** The words of a text that means nothing to the shell: what is between blanks, newlines left
    out. *)
Fixpoint absorb (s : bytes) (m : mode) (ws : list bytes) : mode * list bytes :=
  match s with
  | [] => (m, ws)
  | c :: s' =>
      if bool_decide (c = LF) then absorb s' m ws
      else if blank c then absorb s' Between (ending m ws)
      else absorb s' (Within (word_of m ++ [c])) ws
  end.
Definition plain_words (s : bytes) : list bytes := let '(m, ws) := absorb s Between [] in ending m ws.

(** ** Quoted text *)

Lemma quote_app s t : quote (s ++ t) = quote s ++ quote t.
Proof. unfold quote. by rewrite map_app, concat_app. Qed.

Lemma quote_cons c s : quote (c :: s) = quote_char c ++ quote s.
Proof. done. Qed.

(** The program quotes every character that the language has a use for, but the blanks and the
    number sign. *)
Lemma special_quoted c : sh_special c = true -> is_meta c = true.
Proof. ascii_cases c. Qed.

Lemma meta_cases c : is_meta c = true -> blank c = false.
Proof. ascii_cases c. Qed.

Lemma plain_cases c : is_meta c = false -> c <> LF /\ c <> BACKSLASH /\ sh_special c = false.
Proof.
  intros Hc. split; [by intros ->|]. split; [by intros ->|]. destruct (sh_special c) eqn:E; [|done].
  apply special_quoted in E. congruence.
Qed.

Lemma read_quote s : forall t m ws,
  "#"%char ∉ s -> m <> InComment ->
  sh_read (quote s ++ t) m ws = let '(m', ws') := absorb s m ws in sh_read t m' ws'.
Proof.
  induction s as [|c s IH]; intros t m ws Hh Hm; [done|]. apply not_elem_of_cons in Hh as [Hc Hh].
  rewrite quote_cons. cbn [absorb]. unfold quote_char. destruct (is_meta c) eqn:Em; cbn [app sh_read].
  - rewrite (bool_decide_eq_false_2 (BACKSLASH = LF)), (bool_decide_eq_true_2 (BACKSLASH = BACKSLASH)) by done.
    rewrite (meta_cases c Em). destruct (bool_decide (c = LF)); (destruct m; [..|done]); by rewrite IH.
  - destruct (plain_cases c Em) as (H1 & H2 & H3). rewrite !(bool_decide_eq_false_2 (c = _)) by congruence. rewrite H3.
    destruct m; [..|done]; cbn [andb]; destruct (blank c); by rewrite IH.
Qed.

(** Whatever the text, nothing in it is an operator, an expansion, a quote or a pattern. *)
Lemma read_quote_some s : forall m ws, is_Some (sh_read (quote s) m ws).
Proof.
  induction s as [|c s IH]; intros m ws; [by eexists|]. rewrite quote_cons. unfold quote_char.
  destruct (is_meta c) eqn:Em; cbn [app sh_read].
  - rewrite (bool_decide_eq_false_2 (BACKSLASH = LF)), (bool_decide_eq_true_2 (BACKSLASH = BACKSLASH)) by done.
    destruct (bool_decide (c = LF)); destruct m; try apply IH.
    apply fmap_is_Some, IH.
  - destruct (plain_cases c Em) as (H1 & H2 & H3). rewrite (bool_decide_eq_false_2 (c = LF)), (bool_decide_eq_false_2 (c = BACKSLASH)), H3 by done.
    destruct m; [..|apply IH]; destruct (blank c); try apply IH; destruct (_ && _); apply IH.
Qed.

Lemma absorb_app s t : forall m ws, absorb (s ++ t) m ws = let '(m', ws') := absorb s m ws in absorb t m' ws'.
Proof.
  induction s as [|c s IH]; intros m ws; [done|]. cbn [app absorb]. destruct (bool_decide _); [apply IH|]. by destruct (blank c).
Qed.

Lemma absorb_words s : forall m ws0 ws, absorb s m (ws0 ++ ws) = let '(m', ws') := absorb s m ws in (m', ws0 ++ ws').
Proof.
  induction s as [|c s IH]; intros m ws0 ws; [done|]. cbn [absorb]. destruct (bool_decide _); [apply IH|].
  destruct (blank c); [|apply IH]. replace (ending m (ws0 ++ ws)) with (ws0 ++ ending m ws); [apply IH|].
  destruct m; cbn [ending]; [done|by rewrite (assoc_L (++))|done].
Qed.

(** Text after a blank starts a new word. *)
Lemma plain_words_app s t ws : absorb s Between [] = (Between, ws) -> plain_words (s ++ t) = ws ++ plain_words t.
Proof.
  intros Hs. unfold plain_words. rewrite absorb_app, Hs. rewrite <- (app_nil_r ws) at 1. rewrite absorb_words.
  destruct (absorb t Between []) as [m ws']. destruct m; cbn [ending]; [done|by rewrite (assoc_L (++))|done].
Qed.

(** Quoted text without a number sign is one command, whose words are those of the text. *)
Lemma commands_quote s : "#"%char ∉ s -> plain_words s <> [] -> sh_commands (quote s) = Some [plain_words s].
Proof.
  intros Hh Hw. unfold sh_commands. rewrite <- (app_nil_r (quote s)), read_quote by done. unfold plain_words in *.
  destruct (absorb s Between []) as [m ws]. cbn [sh_read]. unfold command. by destruct (ending m ws).
Qed.
