(* ===== verification/CgiForms.v ===== *)
(** * The form decoders

    Models [legacy/http-root-dir/cgi-src/query.c] and [post-query.c], which print the
    name/value pairs of a form. A program is a function of its environment variables and
    its standard input to what it prints; [None] is undefined behaviour. Objects that were
    not written yet are absent from the state, so that reading one is undefined. *)

From Stdlib Require Import Ascii String.
From stdpp Require Import base numbers list gmap strings option.
From S2P Require Import Prelude CppLib StaticFileHandler CMem CgiUtil CgiUtilFacts.

(** ** The environment *)

Definition environ : Type := bytes -> option bytes.

(** [getenv], for a call whose result is used without a test: a null pointer is undefined
    behaviour there. The array is the value and its NUL. *)
Definition getenv (env : environ) (name : string) : option bytes :=
  (fun v => v ++ [NUL]) <$> env (lit name).

(** The name and the value of a pair, with the sizes of [query.c] and [phf.c]. *)
Record entry := { name : bytes; val : bytes }.
Definition NAME_SIZE : nat := 128.

Definition FORMS_OVERVIEW : bytes :=
  lit "<A HREF=" ++ ["034"%char] ++
  lit "http://www.ncsa.uiuc.edu/SDG/Software/Mosaic/Docs/fill-out-forms/overview.html" ++
  ["034"%char] ++ lit ">forms overview</A>.".

Definition CONTENT_TYPE : bytes := lit "Content-type: text/html" ++ [LF; LF].

(** The two messages of the method check. *)
Definition wrong_method (method : string) : bytes :=
  lit "This script should be referenced with a METHOD of " ++ lit method ++ lit "." ++ [LF] ++
  lit "If you don't understand this, see this " ++ FORMS_OVERVIEW ++ [LF].

(** [printf("<li> <code>%s = %s</code>%c", ...)] *)
Definition print_entry (e : entry) : option bytes :=
  n ← c_string (name e); v ← c_string (val e);
  Some (lit "<li> <code>" ++ n ++ lit " = " ++ v ++ lit "</code>" ++ [LF]).

(** [for(x=0; x <= m; x++)] over the entries written so far: [todo] iterations from [x]. *)
Fixpoint print_entries (todo x : nat) (entries : list entry) : option bytes :=
  match todo with
  | 0 => Some []
  | S todo' =>
      e ← entries !! x; line ← print_entry e; rest ← print_entries todo' (S x) entries;
      Some (line ++ rest)
  end.

Definition print_results (m : nat) (entries : list entry) : option bytes :=
  items ← print_entries (S m) 0 entries;
  Some (lit "<H1>Query Results</H1>" ++
        lit "You submitted the following name/value pairs:<p>" ++ [LF] ++ lit "<ul>" ++ [LF] ++
        items ++ lit "</ul>" ++ [LF]).

Section Programs.
Context `{Memory}.

(** ** [query.c] *)

Definition MAX_ENTRIES : nat := N.to_nat 10000.

(** The body of the decoding loop of [query.c] and [phf.c]. *)
Definition decode_entry (cl : bytes) : option (entry * bytes) :=
  '(v, cl) ← getword (fresh NAME_SIZE) cl "&";
  v ← plustospace v;
  v ← unescape_url v;
  '(n, v) ← getword (fresh NAME_SIZE) v "=";
  Some ({| name := n; val := v |}, cl).

(** [for(x=0; cl[0] != '\0'; x++)] with [size] entries. *)
Fixpoint decode_query (fuel size x m : nat) (entries : list entry) (cl : bytes) :
    option (nat * list entry) :=
  match fuel with
  | 0 => None
  | S fuel' =>
      c ← rd cl 0;
      if bool_decide (c = NUL) then Some (m, entries)
      else if negb (x <? size)%nat then None
      else '(e, cl) ← decode_entry cl; decode_query fuel' size (S x) x (entries ++ [e]) cl
  end.

Definition query_main (env : environ) : option bytes :=
  method ← getenv env "REQUEST_METHOD";
  get ← streq method (c_lit "GET");
  if negb get then Some (CONTENT_TYPE ++ wrong_method "GET")
  else match getenv env "QUERY_STRING" with
  | None => Some (CONTENT_TYPE ++ lit "No query information to decode." ++ [LF])
  | Some cl =>
      '(m, entries) ← decode_query (length cl) MAX_ENTRIES 0 0 [] cl;
      out ← print_results m entries;
      Some (CONTENT_TYPE ++ out)
  end.

(** ** [post-query.c] *)

Definition decode_post_entry (f : FILE) (cl : Z) : option (entry * FILE * Z) :=
  '(v, cl, f) ← fmakeword f "&" cl;
  v ← plustospace v;
  v ← unescape_url v;
  '(n, v) ← makeword v "=";
  Some ({| name := n; val := v |}, f, cl).

(** [for(x=0; cl && (!feof(stdin)); x++)] *)
Fixpoint decode_post (fuel size x m : nat) (entries : list entry) (cl : Z) (f : FILE) :
    option (nat * list entry) :=
  match fuel with
  | 0 => None
  | S fuel' =>
      if (cl =? 0)%Z || at_eof f then Some (m, entries)
      else if negb (x <? size)%nat then None
      else '(e, f, cl) ← decode_post_entry f cl; decode_post fuel' size (S x) x (entries ++ [e]) cl f
  end.

Definition post_query_main (env : environ) (stdin : FILE) : option bytes :=
  method ← getenv env "REQUEST_METHOD";
  post ← streq method (c_lit "POST");
  if negb post then Some (CONTENT_TYPE ++ wrong_method "POST")
  else
    ctype ← getenv env "CONTENT_TYPE";
    form ← streq ctype (c_lit "application/x-www-form-urlencoded");
    if negb form then
      Some (CONTENT_TYPE ++ lit "This script can only be used to decode form results. " ++ [LF])
    else
      length_ ← env (lit "CONTENT_LENGTH");
      cl ← atoi length_;
      '(m, entries) ← decode_post (2 + length (input stdin)) MAX_ENTRIES 0 0 [] cl stdin;
      out ← print_results m entries;
      Some (CONTENT_TYPE ++ out).
End Programs.
