(* ===== verification/CgiFormsFacts.v ===== *)
(** * Properties of the form decoders

    A form encoded as a browser does it is printed back pair by pair by both programs; what
    they do with other inputs. *)

From Stdlib Require Import Ascii String.
From stdpp Require Import base numbers list gmap strings option.
From S2P Require Import Prelude CppLib StaticFileHandler CMem CgiUtil CgiUtilFacts CgiForms.

(** ** Encoded forms *)

(** The characters with a meaning in an encoded form. *)
Definition reserved (c : ascii) : bool :=
  bool_decide (c ∈ [NUL; PERCENT; "+"%char; "&"%char; "="%char]).

(** [e] is a form encoding of [s]: a character as itself, a space as a plus sign, or
    anything but NUL as an escape. *)
Inductive form_encodes : bytes -> bytes -> Prop :=
| fe_nil : form_encodes [] []
| fe_plain c s e : reserved c = false -> form_encodes s e -> form_encodes (c :: s) (c :: e)
| fe_plus s e : form_encodes s e -> form_encodes (SP :: s) ("+"%char :: e)
| fe_escape c s e : c <> NUL -> form_encodes s e -> form_encodes (c :: s) (escape_char c ++ e).

(** A pair and its encoding. *)
Inductive pair_encodes : bytes * bytes -> bytes -> Prop :=
| pe_pair n v en ev :
    form_encodes n en -> form_encodes v ev -> "="%char ∉ n -> pair_encodes (n, v) (en ++ "="%char :: ev).

Fixpoint join (es : list bytes) : bytes :=
  match es with [] => [] | [e] => e | e :: es' => e ++ "&"%char :: join es' end.

Lemma reserved_false c :
  reserved c = false -> c <> NUL /\ c <> PERCENT /\ c <> "+"%char /\ c <> "&"%char /\ c <> "="%char.
Proof.
  unfold reserved. rewrite bool_decide_eq_false, !not_elem_of_cons. tauto.
Qed.

Lemma hex_char_plain c : reserved (hex_char (code c / 16)) = false /\ reserved (hex_char (code c mod 16)) = false.
Proof. ascii_cases c. Qed.

Lemma escape_char_reserved c x : x ∈ escape_char c -> x = PERCENT \/ reserved x = false.
Proof.
  unfold escape_char. rewrite !elem_of_cons, elem_of_nil. destruct (hex_char_plain c) as [H1 H2].
  intros [->|[->|[->|[]]]]; auto.
Qed.

(** An encoding has none of the separators. *)
Lemma form_encodes_plain s e :
  form_encodes s e -> NUL ∉ s /\ NUL ∉ e /\ "&"%char ∉ e /\ "="%char ∉ e.
Proof.
  induction 1 as [|c s e Hc _ (IH1 & IH2 & IH3 & IH4)|s e _ (IH1 & IH2 & IH3 & IH4)
    |c s e Hc _ (IH1 & IH2 & IH3 & IH4)].
  - repeat split; apply not_elem_of_nil.
  - apply reserved_false in Hc as (R1 & R2 & R3 & R4 & R5). rewrite !not_elem_of_cons. repeat split; congruence.
  - rewrite !not_elem_of_cons. repeat split; done.
  - assert (Hesc : forall x, x ∈ [NUL; "&"%char; "="%char] -> x ∉ escape_char c).
    { intros x Hx [->|Hr]%escape_char_reserved; [vm_compute in Hx; set_solver|].
      apply reserved_false in Hr as (R1 & R2 & R3 & R4 & R5). set_solver. }
    rewrite !elem_of_app, not_elem_of_cons.
    repeat split; try congruence; intros [Hx|Hx]; try done; by eapply Hesc; [|exact Hx]; set_solver.
Qed.

Lemma map_plus_escape c : map plus_char (escape_char c) = escape_char c.
Proof. ascii_cases c. Qed.

Lemma form_decodes s e : form_encodes s e -> unescape (map plus_char e) = Some s.
Proof.
  induction 1 as [|c s e Hc _ IH|s e _ IH|c s e Hc _ IH]; [done|..].
  - apply reserved_false in Hc as (_ & R2 & R3 & _).
    assert (Hp : plus_char c = c) by (unfold plus_char; by rewrite bool_decide_eq_false_2).
    cbn [map]. rewrite Hp. cbn [unescape]. rewrite bool_decide_eq_false_2 by done. by rewrite IH.
  - cbn [map]. change (plus_char "+") with SP. cbn [unescape]. rewrite bool_decide_eq_false_2 by done. by rewrite IH.
  - rewrite map_app, map_plus_escape, unescape_escape_char, IH. done.
Qed.

Lemma unescape_length e u : unescape e = Some u -> (length u <= length e)%nat.
Proof.
  revert u. induction e as [e IH] using list_ind_lt. intros u Hu. destruct e as [|c e].
  - by injection Hu as <-.
  - destruct (unescape_cons _ _ _ Hu) as [(a & b & s' & u' & -> & -> & Hu' & ->)|(u' & Hp & Hu' & ->)];
      apply IH in Hu'; simpl in *; lia.
Qed.

(** The decoded pair, before it is split. *)
Lemma pair_decodes p e :
  pair_encodes p e ->
  NUL ∉ e /\ "&"%char ∉ e /\ unescape (map plus_char e) = Some (p.1 ++ "="%char :: p.2) /\
  NUL ∉ p.1 ++ "="%char :: p.2 /\ cut "=" (p.1 ++ "="%char :: p.2) = (p.1, p.2) /\
  NUL ∉ p.1 /\ NUL ∉ p.2 /\ e <> [].
Proof.
  intros [n v en ev Hn Hv Hne]. simpl.
  destruct (form_encodes_plain _ _ Hn) as (N1 & N2 & N3 & N4), (form_encodes_plain _ _ Hv) as (V1 & V2 & V3 & V4).
  split; [rewrite elem_of_app, elem_of_cons; naive_solver|].
  split; [rewrite elem_of_app, elem_of_cons; naive_solver|].
  split.
  { rewrite map_app. cbn [map]. change (plus_char "=") with "="%char.
    rewrite (unescape_app _ n) by (by apply form_decodes). cbn [unescape].
    rewrite bool_decide_eq_false_2 by done. by rewrite (form_decodes _ _ Hv). }
  split; [rewrite elem_of_app, elem_of_cons; naive_solver|]. split; [|split; [done|split; [done|by destruct en]]].
  clear -Hne. induction n as [|c n IH]; simpl; [done|]. apply not_elem_of_cons in Hne as [Hc Hne].
  rewrite bool_decide_eq_false_2 by congruence. by rewrite IH.
Qed.

Lemma cut_at stop w r : stop ∉ w -> cut stop (w ++ stop :: r) = (w, r).
Proof.
  induction w as [|c w IH]; intros Hw; simpl; [by rewrite bool_decide_eq_true_2|].
  apply not_elem_of_cons in Hw as [Hc Hw]. rewrite bool_decide_eq_false_2 by congruence. by rewrite IH.
Qed.

Lemma cut_none stop w : stop ∉ w -> cut stop w = (w, []).
Proof.
  induction w as [|c w IH]; intros Hw; simpl; [done|].
  apply not_elem_of_cons in Hw as [Hc Hw]. rewrite bool_decide_eq_false_2 by congruence. by rewrite IH.
Qed.

Lemma cut_join e es : "&"%char ∉ e -> cut "&" (join (e :: es)) = (e, join es).
Proof. intros He. destruct es as [|e' es]; [by apply cut_none|]. by apply (cut_at "&"). Qed.

(** ** Printing *)

(** The arrays of an entry hold the pair. *)
Definition holds (e : entry) (p : bytes * bytes) : Prop := cstr (name e) p.1 /\ cstr (val e) p.2.

Definition item (p : bytes * bytes) : bytes :=
  lit "<li> <code>" ++ p.1 ++ lit " = " ++ p.2 ++ lit "</code>" ++ [LF].

Definition results_page (ps : list (bytes * bytes)) : bytes :=
  CONTENT_TYPE ++ lit "<H1>Query Results</H1>" ++
  lit "You submitted the following name/value pairs:<p>" ++ [LF] ++ lit "<ul>" ++ [LF] ++
  concat (map item ps) ++ lit "</ul>" ++ [LF].

Lemma print_entry_spec e p : holds e p -> print_entry e = Some (item p).
Proof.
  intros [Hn%c_string_cstr Hv%c_string_cstr]. unfold print_entry. rewrite Hn. run_bind. by rewrite Hv.
Qed.

Lemma print_entries_spec ps : forall entries x,
  Forall2 holds (drop x entries) ps -> print_entries (length ps) x entries = Some (concat (map item ps)).
Proof.
  induction ps as [|p ps IH]; intros entries x Hf; [done|]. cbn [length print_entries].
  apply Forall2_cons_inv_r in Hf as (e & es & He & Hes & Hd).
  assert (Hl : entries !! x = Some e) by (rewrite <- (Nat.add_0_r x), <- lookup_drop, Hd; done).
  rewrite Hl. run_bind. rewrite (print_entry_spec _ _ He). run_bind.
  apply drop_next in Hd as [Hd _]. by rewrite IH by (by rewrite Hd).
Qed.

Lemma print_results_spec entries p ps :
  Forall2 holds entries (p :: ps) ->
  (out ← print_results (length ps) entries; Some (CONTENT_TYPE ++ out)) = Some (results_page (p :: ps)).
Proof.
  intros Hf. unfold print_results. change (S (length ps)) with (length (p :: ps)).
  rewrite (print_entries_spec (p :: ps) entries 0) by done. done.
Qed.

(** ** [query.c] *)

Lemma lit_NUL s : bool_decide (NUL ∉ lit s) = true -> NUL ∉ lit s.
Proof. apply bool_decide_eq_true_1. Qed.

Section Programs.
Context `{Memory}.

Lemma stored_cstr b s t : NUL ∉ s -> stored b s = t -> cstr t s.
Proof. intros Hs <-. by apply cstr_stored. Qed.

Lemma decode_entry_spec cl e es p :
  cstr cl (join (e :: es)) -> pair_encodes p e -> (length e < NAME_SIZE)%nat ->
  exists x, decode_entry cl = Some (x, stored cl (join es)) /\ holds x p.
Proof.
  intros Hcl He Hlen. destruct (pair_decodes _ _ He) as (P1 & P2 & P3 & P4 & P5 & P6 & P7 & _).
  unfold decode_entry. rewrite (getword_spec _ _ _ _ _ _ Hcl (cut_join e es P2)), fresh_length.
  destruct (Nat.ltb_spec (length e) NAME_SIZE); [|lia]. run_bind.
  rewrite (plustospace_spec _ e) by (by apply cstr_stored). run_bind.
  rewrite (unescape_url_spec _ (map plus_char e) (p.1 ++ "="%char :: p.2));
    [|apply cstr_stored; by apply map_plus_NUL|done]. run_bind.
  erewrite (getword_spec _ _ _ _ _ _); [|by apply cstr_stored|exact P5].
  rewrite fresh_length. pose proof (unescape_length _ _ P3) as Hu. rewrite length_map, length_app in Hu.
  destruct (Nat.ltb_spec (length p.1) NAME_SIZE); [|simpl in Hu; lia]. run_bind.
  eexists. split; [done|]. split; by apply cstr_stored.
Qed.

Lemma join_nonempty e es p : pair_encodes p e -> NUL ∉ join (e :: es) ->
  exists c t, join (e :: es) = c :: t /\ c <> NUL.
Proof.
  intros He Hn. destruct (pair_decodes _ _ He) as (P1 & _ & _ & _ & _ & _ & _ & P8).
  destruct e as [|c e]; [done|]. destruct es as [|e' es]; simpl in *; exists c; eexists; split; try done;
    intros ->; apply Hn; by left.
Qed.

Lemma join_NUL es ps : Forall2 pair_encodes ps es -> NUL ∉ join es.
Proof.
  intros Hf. induction Hf as [|p e ps es He Hf IH]; [apply not_elem_of_nil|].
  destruct (pair_decodes _ _ He) as (P1 & _). destruct Hf; [done|]. simpl in *.
  rewrite elem_of_app, elem_of_cons. naive_solver.
Qed.

Lemma length_join e es : (length (join es) < length (join (e :: es)) \/ es = [])%nat.
Proof. destruct es as [|e' es]; [by right|]. left. simpl. rewrite length_app. simpl. lia. Qed.

Lemma decode_query_spec ps es :
  Forall2 pair_encodes ps es -> Forall (fun e => length e < NAME_SIZE)%nat es ->
  forall fuel size x m entries cl,
  cstr cl (join es) -> (length es < fuel)%nat -> (x + length es <= size)%nat ->
  exists new, decode_query fuel size x m entries cl
    = Some (if bool_decide (es = []) then m else (x + length es - 1)%nat, entries ++ new) /\
    Forall2 holds new ps.
Proof.
  intros Hf. induction Hf as [|p e ps es He Hf IH]; intros Hlen fuel size x m entries cl Hcl Hfuel Hsize;
    (destruct fuel as [|fuel]; [simpl in Hfuel; lia|]); cbn [decode_query].
  - destruct Hcl as [_ [t ->]]. exists []. simpl. by rewrite app_nil_r.
  - assert (Hn : NUL ∉ join (e :: es)) by apply Hcl.
    destruct (join_nonempty e es p He Hn) as (c & t & Hj & Hc).
    assert (Hrd : rd cl 0 = Some c) by (destruct Hcl as [_ [u ->]]; by rewrite Hj).
    rewrite Hrd. run_bind. rewrite bool_decide_eq_false_2 by done. cbn [length] in *.
    destruct (Nat.ltb_spec x size); [|lia]. cbn [negb]. apply Forall_cons_1 in Hlen as [Hle Hlen].
    destruct (decode_entry_spec cl e es p Hcl He Hle) as (y & -> & Hy). run_bind.
    destruct (IH Hlen fuel size (S x) x (entries ++ [y]) (stored cl (join es))) as (new & -> & Hnew).
    { apply cstr_stored. by eapply join_NUL. } { lia. } { lia. }
    exists (y :: new). split; [|by constructor]. rewrite <- (assoc_L (++)). simpl.
    do 2 f_equal. destruct es; [simpl; lia|]. rewrite !bool_decide_eq_false_2 by done. simpl. lia.
Qed.

Lemma length_es_join ps es : Forall2 pair_encodes ps es -> (length es <= length (join es))%nat.
Proof.
  intros Hf. induction Hf as [|p e ps es He Hf IH]; [done|].
  destruct (pair_decodes _ _ He) as (_ & _ & _ & _ & _ & _ & _ & P8).
  destruct e as [|c e]; [done|]. destruct Hf; simpl in *; [lia|]. rewrite length_app. simpl. lia.
Qed.

(** [query.c] prints a form back. When the query string is an encoding of at least one and
    at most 10,000 pairs, each of fewer than 128 encoded bytes and with no equals sign in a
    name, the program prints every pair, decoded, in order, and no array is left. *)
Theorem query_prints env ps es p e :
  env (lit "REQUEST_METHOD") = Some (lit "GET") -> env (lit "QUERY_STRING") = Some (join (e :: es)) ->
  pair_encodes p e -> Forall2 pair_encodes ps es ->
  Forall (fun e => length e < NAME_SIZE)%nat (e :: es) -> (length (e :: es) <= MAX_ENTRIES)%nat ->
  query_main env = Some (results_page (p :: ps)).
Proof.
  intros Hm Hq He Hes Hlen Hsize. unfold query_main, getenv. rewrite Hm, Hq. cbn [fmap option_fmap option_map].
  run_bind. rewrite (streq_lit (lit "GET")) by (done || by apply lit_NUL). run_bind.
  rewrite bool_decide_eq_true_2 by done. cbn [negb].
  assert (Hall : Forall2 pair_encodes (p :: ps) (e :: es)) by (by constructor).
  assert (Hn := join_NUL _ _ Hall).
  destruct (decode_query_spec _ _ Hall Hlen (length (join (e :: es) ++ [NUL])) MAX_ENTRIES 0 0 []
    (join (e :: es) ++ [NUL])) as (new & -> & Hnew).
  - split; [done|]. by exists [].
  - rewrite length_app. pose proof (length_es_join _ _ Hall). simpl in *. lia.
  - done.
  - run_bind. rewrite bool_decide_eq_false_2 by done. rewrite app_nil_l.
    replace (0 + length (e :: es) - 1)%nat with (length ps)
      by (apply Forall2_length in Hes; cbn [length]; lia).
    by apply print_results_spec.
Qed.

(** What [query.c] does with other query strings is undefined: with an empty one it prints
    an entry that was never written, and a field of 128 bytes or more is written past the
    end of its array. *)
Theorem query_undefined env q w r :
  env (lit "REQUEST_METHOD") = Some (lit "GET") -> env (lit "QUERY_STRING") = Some q -> NUL ∉ q ->
  (q = [] -> query_main env = None) /\
  (cut "&" q = (w, r) -> (NAME_SIZE <= length w)%nat -> query_main env = None).
Proof.
  intros Hm Hq Hn. unfold query_main, getenv. rewrite Hm, Hq. cbn [fmap option_fmap option_map].
  run_bind. rewrite (streq_lit (lit "GET")) by (done || by apply lit_NUL). run_bind.
  rewrite bool_decide_eq_true_2 by done. cbn [negb]. split; [by intros ->|].
  intros Hc Hw. destruct q as [|c q]; [simpl in Hc; injection Hc as <- <-; simpl in Hw; unfold NAME_SIZE in *; lia|].
  cbn [app length]. cbn [decode_query rd]. unfold rd at 1. cbn [lookup list_lookup]. run_bind.
  apply not_elem_of_cons in Hn as Hn'. rewrite bool_decide_eq_false_2 by (destruct Hn'; congruence).
  assert ((0 <? MAX_ENTRIES)%nat = true) as -> by (apply Nat.ltb_lt; unfold MAX_ENTRIES; lia). cbn [negb].
  unfold decode_entry. erewrite (getword_spec _ (c :: q ++ [NUL]) "&" (c :: q) w r); [|split; [done|by exists []]|done].
  rewrite fresh_length. by destruct (Nat.ltb_spec (length w) NAME_SIZE); [lia|].
Qed.

(** ** [post-query.c] *)

Lemma form_word_join e es n : "&"%char ∉ e -> (length (join (e :: es)) <= n)%nat -> (0 < length e)%nat ->
  n = length (join (e :: es)) ->
  form_word "&" n (join (e :: es)) =
    match es with
    | [] => (e, 0, fopen_bytes [])
    | _ => (e, length (join es), fopen_bytes (join es))
    end.
Proof.
  intros He _ Hpos ->. destruct es as [|e' es].
  - cbn [join]. clear -He Hpos. induction e as [|c e IH]; [simpl in Hpos; lia|]. cbn [form_word length].
    apply not_elem_of_cons in He as [Hc He]. rewrite bool_decide_eq_false_2 by congruence.
    rewrite Nat.sub_succ, Nat.sub_0_r. destruct e as [|d e]; [done|].
    destruct (Nat.eqb_spec (length (d :: e)) 0); [done|]. by rewrite IH by (done || simpl; lia).
  - change (join (e :: e' :: es)) with (e ++ "&"%char :: join (e' :: es)).
    generalize (join (e' :: es)) as r. clear Hpos. intros r. induction e as [|c e IH].
    + cbn [app form_word length]. rewrite bool_decide_eq_true_2 by done. by rewrite Nat.sub_succ, Nat.sub_0_r.
    + apply not_elem_of_cons in He as [Hc He]. cbn [app form_word length].
      rewrite bool_decide_eq_false_2 by congruence. rewrite Nat.sub_succ, Nat.sub_0_r.
      destruct (Nat.eqb_spec (length (e ++ "&"%char :: r)) 0) as [E|_]; [rewrite length_app in E; simpl in E; lia|].
      by rewrite IH.
Qed.

Lemma decode_post_entry_spec e es p :
  pair_encodes p e -> (N.of_nat (length e) < WSIZE)%N -> (Z.of_nat (length (join (e :: es))) <= INT_MAX)%Z ->
  exists x, decode_post_entry (fopen_bytes (join (e :: es))) (Z.of_nat (length (join (e :: es))))
    = Some (x, fopen_bytes (join es), Z.of_nat (length (join es))) /\ holds x p.
Proof.
  intros He Hw Hint. destruct (pair_decodes _ _ He) as (P1 & P2 & P3 & P4 & P5 & P6 & P7 & P8).
  assert (Hpos : (0 < length e)%nat) by (destruct e; [done|simpl; lia]).
  unfold decode_post_entry.
  rewrite (fmakeword_spec "&" (length (join (e :: es))) (join (e :: es)) e (length (join es)) (fopen_bytes (join es)));
    [|done| |done|].
  2: { destruct es; simpl; rewrite ?length_app; simpl; lia. }
  2: { rewrite form_word_join by (done || lia). by destruct es. }
  assert ((N.of_nat (length (join (e :: es)) - length (join es)) <=? WSIZE)%N = true) as ->.
  { apply N.leb_le. destruct es; simpl; rewrite ?length_app; simpl; lia. }
  run_bind. rewrite (plustospace_spec _ e) by (split; [done|by exists []]). run_bind.
  rewrite (unescape_url_spec _ (map plus_char e) (p.1 ++ "="%char :: p.2));
    [|apply cstr_stored; by apply map_plus_NUL|done]. run_bind.
  destruct (makeword_spec (stored (stored (e ++ [NUL]) (map plus_char e)) (p.1 ++ "="%char :: p.2)) "="
    (p.1 ++ "="%char :: p.2) p.1 p.2) as (word & -> & Hword); [by apply cstr_stored|done|].
  run_bind. eexists. split; [done|]. split; [done|by apply cstr_stored].
Qed.

Lemma decode_post_spec ps es :
  Forall2 pair_encodes ps es -> Forall (fun e => N.of_nat (length e) < WSIZE)%N es ->
  (Z.of_nat (length (join es)) <= INT_MAX)%Z ->
  forall fuel size x m entries, (length es < fuel)%nat -> (x + length es <= size)%nat ->
  exists new, decode_post fuel size x m entries (Z.of_nat (length (join es))) (fopen_bytes (join es))
    = Some (if bool_decide (es = []) then m else (x + length es - 1)%nat, entries ++ new) /\
    Forall2 holds new ps.
Proof.
  intros Hf. induction Hf as [|p e ps es He Hf IH]; intros Hlen Hint fuel size x m entries Hfuel Hsize;
    (destruct fuel as [|fuel]; [simpl in Hfuel; lia|]); cbn [decode_post].
  - exists []. simpl. by rewrite app_nil_r.
  - assert (Hall : Forall2 pair_encodes (p :: ps) (e :: es)) by (by constructor).
    pose proof (length_es_join _ _ Hall) as Hj. cbn [length] in *.
    destruct (Z.eqb_spec (Z.of_nat (length (join (e :: es)))) 0); [lia|]. cbn [orb at_eof fopen_bytes].
    destruct (Nat.ltb_spec x size); [|lia]. cbn [negb]. apply Forall_cons_1 in Hlen as [Hle Hlen].
    fold (fopen_bytes (join (e :: es))).
    destruct (decode_post_entry_spec e es p He Hle Hint) as (y & -> & Hy). run_bind.
    destruct (IH Hlen) with (fuel := fuel) (size := size) (x := S x) (m := x) (entries := entries ++ [y])
      as (new & -> & Hnew); [|lia|lia|].
    { destruct (length_join e es) as [Hl| ->]; [lia|]. simpl. unfold INT_MAX. lia. }
    exists (y :: new). split; [|by constructor]. rewrite <- (assoc_L (++)). simpl.
    do 2 f_equal. destruct es; [simpl; lia|]. rewrite !bool_decide_eq_false_2 by done. simpl. lia.
Qed.

(** C36. [post-query.c] prints a form back likewise, from its standard input, with the length
    the server gave, for pairs of up to 102,399 encoded bytes. *)
Theorem post_query_prints env ps es p e :
  env (lit "REQUEST_METHOD") = Some (lit "POST") ->
  env (lit "CONTENT_TYPE") = Some (lit "application/x-www-form-urlencoded") ->
  env (lit "CONTENT_LENGTH") = Some (print_N (len (join (e :: es)))) ->
  pair_encodes p e -> Forall2 pair_encodes ps es ->
  Forall (fun e => N.of_nat (length e) < WSIZE)%N (e :: es) -> (length (e :: es) <= MAX_ENTRIES)%nat ->
  (Z.of_nat (length (join (e :: es))) <= INT_MAX)%Z ->
  post_query_main env (fopen_bytes (join (e :: es))) = Some (results_page (p :: ps)).
Proof.
  intros Hm Ht Hl He Hes Hlen Hsize Hint. unfold post_query_main, getenv. rewrite Hm, Ht, Hl.
  cbn [fmap option_fmap option_map]. run_bind.
  rewrite (streq_lit (lit "POST")) by (done || by apply lit_NUL). run_bind.
  rewrite bool_decide_eq_true_2 by done. cbn [negb]. run_bind.
  rewrite (streq_lit (lit "application/x-www-form-urlencoded")) by (done || by apply lit_NUL). run_bind.
  rewrite bool_decide_eq_true_2 by done. cbn [negb]. run_bind.
  assert (Hall : Forall2 pair_encodes (p :: ps) (e :: es)) by (by constructor).
  unfold len. rewrite atoi_print_N by (unfold len; lia). run_bind. cbn [input fopen_bytes].
  fold (fopen_bytes (join (e :: es))). rewrite nat_N_Z.
  destruct (decode_post_spec _ _ Hall Hlen Hint (2 + length (join (e :: es))) MAX_ENTRIES 0 0 [])
    as (new & -> & Hnew).
  - pose proof (length_es_join _ _ Hall). simpl in *. lia.
  - done.
  - run_bind. rewrite bool_decide_eq_false_2 by done. rewrite app_nil_l.
    replace (0 + length (e :: es) - 1)%nat with (length ps)
      by (apply Forall2_length in Hes; cbn [length]; lia).
    by apply print_results_spec.
Qed.
End Programs.

(** ** Bodies that are too short *)

(** A body that ends before the length the client announced: the last word ends with the
    converted end-of-file mark. *)
Lemma form_word_short stop n s :
  stop ∉ s -> (length s < n)%nat ->
  form_word stop n s = (s ++ [EOF_CHAR], (n - length s - 1)%nat, {| input := []; at_eof := true |}).
Proof.
  revert n. induction s as [|c s IH]; intros n Hs Hn; cbn [form_word length] in *.
  - by rewrite Nat.sub_0_r.
  - apply not_elem_of_cons in Hs as [Hc Hs]. rewrite bool_decide_eq_false_2 by congruence.
    destruct (Nat.eqb_spec (n - 1) 0); [lia|]. rewrite IH by (done || lia). simpl. do 2 f_equal. lia.
Qed.

(** [fmakeword] on the rest of a body with [n] bytes to read: up to the separator; or the
    [n] bytes; or, when the body is shorter than announced, all of it with a byte 255
    appended, the converted end-of-file mark. More than 102,400 bytes for one word are
    written past the end of the array. *)
Theorem fmakeword_cases s w r n :
  (0 < n)%nat -> (Z.of_nat n <= INT_MAX)%Z -> "&"%char ∉ w ->
  (s = w ++ "&"%char :: r -> (length w < n)%nat ->
     fmakeword (fopen_bytes s) "&" (Z.of_nat n) =
       if (N.of_nat (length w) <? WSIZE)%N
       then Some (w ++ [NUL], Z.of_nat (n - length w - 1), fopen_bytes r) else None) /\
  (s = w ++ r -> length w = n ->
     fmakeword (fopen_bytes s) "&" (Z.of_nat n) =
       if (N.of_nat n <=? WSIZE)%N then Some (w ++ [NUL], 0%Z, fopen_bytes r) else None) /\
  (s = w -> (length w < n)%nat ->
     fmakeword (fopen_bytes s) "&" (Z.of_nat n) =
       if (N.of_nat (length w) <? WSIZE)%N
       then Some (w ++ [EOF_CHAR; NUL], Z.of_nat (n - length w - 1), {| input := []; at_eof := true |})
       else None).
Proof.
  intros Hn Hint Hw. assert (Hse : "&"%char <> EOF_CHAR) by done.
  assert (Hb : forall k, (N.of_nat k <? WSIZE)%N = (N.of_nat (S k) <=? WSIZE)%N).
  { intros k. destruct (N.ltb_spec (N.of_nat k) WSIZE), (N.leb_spec (N.of_nat (S k)) WSIZE); (done || lia). }
  split; [|split]; intros -> Hl.
  - assert (Hf : form_word "&" n (w ++ "&"%char :: r) = (w, (n - length w - 1)%nat, fopen_bytes r)).
    { clear -Hw Hl. revert n Hl. induction w as [|c w IH]; intros n Hl; cbn [app form_word length] in *.
      - rewrite bool_decide_eq_true_2 by done. do 2 f_equal. lia.
      - apply not_elem_of_cons in Hw as [Hc Hw]. rewrite bool_decide_eq_false_2 by congruence.
        destruct (Nat.eqb_spec (n - 1) 0); [lia|]. rewrite IH by (done || lia). do 2 f_equal. lia. }
    rewrite (fmakeword_spec _ _ _ _ _ _ Hse Hn Hint Hf), Hb.
    by replace (n - (n - length w - 1))%nat with (S (length w)) by lia.
  - assert (Hf : form_word "&" n (w ++ r) = (w, 0, fopen_bytes r)).
    { clear -Hw Hl Hn. revert n Hl Hn. induction w as [|c w IH]; intros n Hl Hn; cbn [app form_word length] in *; [lia|].
      apply not_elem_of_cons in Hw as [Hc Hw]. rewrite bool_decide_eq_false_2 by congruence.
      destruct (Nat.eqb_spec (n - 1) 0) as [E|E].
      - by destruct w; [|simpl in *; lia].
      - by rewrite IH by (done || lia). }
    rewrite (fmakeword_spec _ _ _ _ _ _ Hse Hn Hint Hf). by rewrite Nat.sub_0_r.
  - rewrite (fmakeword_spec _ _ _ _ _ _ Hse Hn Hint (form_word_short _ _ _ Hw Hl)), Hb.
    replace (n - (n - length w - 1))%nat with (S (length w)) by lia. by rewrite <- (assoc_L (++)).
Qed.

(** ** Examples *)

#[local] Instance example_memory : Memory.
Proof. refine {| fresh n := replicate n "x"%char |}. intros n. apply length_replicate. Defined.

Definition example_env (method query : bytes) : environ := fun n =>
  if bool_decide (n = lit "REQUEST_METHOD") then Some method
  else if bool_decide (n = lit "QUERY_STRING") then Some query
  else if bool_decide (n = lit "CONTENT_TYPE") then Some (lit "application/x-www-form-urlencoded")
  else if bool_decide (n = lit "CONTENT_LENGTH") then Some (print_N (len query))
  else None.

(** The pairs (who, A B) and (q, 1&2) as a browser sends them. *)
Lemma example_pair_1 : pair_encodes (lit "who", lit "A B") (lit "who=A+B").
Proof.
  apply (pe_pair (lit "who") (lit "A B") (lit "who") (lit "A+B"));
    [..|apply (bool_decide_eq_true_1 ("="%char ∉ lit "who")); vm_compute; reflexivity];
    repeat first [apply fe_nil | apply fe_plus | apply fe_plain; [vm_compute; reflexivity|]].
Qed.

Lemma example_pair_2 : pair_encodes (lit "q", lit "1&2") (lit "q=1%262").
Proof.
  apply (pe_pair (lit "q") (lit "1&2") (lit "q") (lit "1%262"));
    [..|apply (bool_decide_eq_true_1 ("="%char ∉ lit "q")); vm_compute; reflexivity].
  - apply fe_plain; [vm_compute; reflexivity|apply fe_nil].
  - apply fe_plain; [vm_compute; reflexivity|]. apply (fe_escape "&" (lit "2") (lit "2")); [done|].
    apply fe_plain; [vm_compute; reflexivity|apply fe_nil].
Qed.

Lemma query_prints_witness :
  query_main (example_env (lit "GET") (lit "who=A+B&q=1%262"))
  = Some (results_page [(lit "who", lit "A B"); (lit "q", lit "1&2")]).
Proof.
  apply (query_prints _ [(lit "q", lit "1&2")] [lit "q=1%262"] (lit "who", lit "A B") (lit "who=A+B"));
    [reflexivity|reflexivity|exact example_pair_1| | |vm_compute; lia].
  - constructor; [exact example_pair_2|constructor].
  - repeat constructor; vm_compute; lia.
Defined.

Lemma query_undefined_witness :
  query_main (example_env (lit "GET") []) = None.
Proof.
  exact (proj1 (query_undefined (example_env (lit "GET") []) [] [] [] eq_refl eq_refl
    (not_elem_of_nil NUL)) eq_refl).
Defined.

Lemma post_query_prints_witness :
  post_query_main (example_env (lit "POST") (lit "who=A+B&q=1%262")) (fopen_bytes (lit "who=A+B&q=1%262"))
  = Some (results_page [(lit "who", lit "A B"); (lit "q", lit "1&2")]).
Proof.
  apply (post_query_prints _ [(lit "q", lit "1&2")] [lit "q=1%262"] (lit "who", lit "A B") (lit "who=A+B"));
    [reflexivity|reflexivity|reflexivity|exact example_pair_1| | |vm_compute; lia|vm_compute; done].
  - constructor; [exact example_pair_2|constructor].
  - repeat constructor; vm_compute; reflexivity.
Defined.

Lemma fmakeword_cases_witness :
  fmakeword (fopen_bytes (lit "ab")) "&" 5 = Some (lit "ab" ++ [EOF_CHAR; NUL], 2%Z, {| input := []; at_eof := true |}).
Proof.
  refine (proj2 (proj2 (fmakeword_cases (lit "ab") (lit "ab") [] 5 _ _ _)) _ _); try (vm_compute; lia); try done.
  apply (bool_decide_eq_true_1 ("&"%char ∉ lit "ab")). vm_compute. reflexivity.
Defined.
