(* ===== verification/CgiPhf.v ===== *)
(** * The phone book gateway

    Models [legacy/http-root-dir/cgi-src/phf.c]: it decodes a query, builds a command line
    for the [ph] program from it and gives that to the shell. The output of the command is
    a parameter. The theorem is about what the shell makes of the user's text. *)

From Stdlib Require Import Ascii String.
From stdpp Require Import base numbers list gmap strings option.
From S2P Require Import Prelude CppLib StaticFileHandler CMem CgiUtil CgiUtilFacts Shell CgiForms.

(** ** The form *)

Record field := { qfield : bytes; qlen : N; qname : bytes }.
Definition fld (q : string) (n : N) (d : string) : field :=
  {| qfield := lit q; qlen := n; qname := lit d |}.

(** The tables without their closing entries. *)
Definition idxfields : list field :=
  [fld "Qalias" 32 "Alias"; fld "Qname" 256 "Name"; fld "Qemail" 128 "E-mail Address";
   fld "Qnickname" 120 "Nickname"; fld "Qoffice_phone" 60 "Office Phone Number";
   fld "Qcallsign" 16 "HAM Callsign"; fld "Qproxy" 64 "Proxy";
   fld "Qhigh_school" 30 "High School"; fld "Qslip" 256 "SLIP Address"].

Definition othersearchfields : list field :=
  [fld "Qcurriculum" 64 "Curriculum"; fld "Qphone" 64 "Phone Number"; fld "Qaddress" 128 "Address";
   fld "Qoffice_address" 128 "Office Address"; fld "Qhome_address" 128 "Home Address";
   fld "Qpermanent_address" 128 "Permanent Address"; fld "Qpermanent_phone" 60 "Permanent Phone";
   fld "Qdepartment" 64 "Department"; fld "Qtitle" 64 "Title"; fld "Qproject" 256 "Project";
   fld "Qother" 256 "Other"; fld "Qbirthday" 24 "Birthday"; fld "Qcolleges" 120 "Colleges Attended";
   fld "Qleft_uiuc" 24 "Date/Month Person left UIUC"].

Definition DQ : bytes := ["034"%char].
Definition HTML_BREAK : bytes := lit "<P>" ++ [LF].

Definition text_field (f : field) : bytes :=
  lit "<LI><INPUT TYPE=" ++ DQ ++ lit "text" ++ DQ ++ lit " NAME=" ++ DQ ++ qfield f ++ DQ ++
  lit " MAXLENGTH=" ++ DQ ++ print_N (qlen f) ++ DQ ++ lit ">" ++ qname f ++ [LF].

Definition check_field (f : field) : bytes :=
  lit "<LI><INPUT TYPE=" ++ DQ ++ lit "checkbox" ++ DQ ++ lit " NAME=" ++ DQ ++ lit "return" ++ DQ ++
  lit " VALUE=" ++ DQ ++ drop 1 (qfield f) ++ DQ ++ lit ">" ++ qname f ++ [LF].

(** [<A HREF="%s?Jform=%d">] and what the link shows. *)
Definition form_link (script : bytes) (which : Z) (text : bytes) : bytes :=
  lit "<A HREF=" ++ DQ ++ script ++ lit "?Jform=" ++ print_Z which ++ DQ ++ lit ">" ++ text ++
  lit "</A>" ++ [LF].

Definition send_doc (env : environ) (which : Z) : option bytes :=
  server_name ← env (lit "SERVER_NAME");
  server_port ← env (lit "SERVER_PORT");
  script_name ← env (lit "SCRIPT_NAME");
  let head :=
    lit "<TITLE>Form for CSO PH query</TITLE>" ++ [LF] ++
    lit "<H1>Form for CSO PH query</H1>" ++ [LF] ++
    lit "This form will send a PH query to the specified ph server." ++ [LF] ++
    HTML_BREAK ++ lit "<HR>" ++ [LF] ++
    lit "<FORM ACTION=" ++ DQ ++ lit "http://" ++ server_name ++ lit ":" ++ server_port ++
    script_name ++ DQ ++ lit ">" ++ [LF] ++
    lit "PH Server:<INPUT TYPE=" ++ DQ ++ lit "text" ++ DQ ++ lit " NAME=" ++ DQ ++ lit "Jserver" ++
    DQ ++ lit " VALUE=" ++ DQ ++ lit "ns.uiuc.edu" ++ DQ ++ lit " MAXLENGTH=" ++ DQ ++ lit "256" ++
    DQ ++ lit ">" ++ [LF] ++ HTML_BREAK ++
    lit "<H3>At least one of these fields must be specified:</H3><UL>" ++ [LF] ++
    concat (map text_field idxfields) ++ lit "</UL>" ++ [LF] in
  let more :=
    if (Z.land which 16 =? 0)%Z then
      form_link script_name (Z.lor which 16) (lit "<H3>Show additional fields to narrow query</H3>")
    else
      lit "<H3>Additional fields to narrow query:</H3><UL>" ++ [LF] ++
      concat (map text_field othersearchfields) ++ lit "</UL>" ++ [LF] ++
      form_link script_name (Z.land which 1) (lit "Show fewer query fields") in
  let fields :=
    if (Z.land which 1 =? 0)%Z then
      form_link script_name (Z.lor which 1) (lit "<H3>Return more than default fields</H3>")
    else
      lit "<H3>Fields to return:</H3><UL>" ++ [LF] ++ concat (map check_field idxfields) ++
      concat (map check_field othersearchfields) ++ lit "</UL>" ++ [LF] ++
      form_link script_name (Z.land which 16) (lit "Return default fields") in
  Some (head ++ more ++ HTML_BREAK ++ fields ++ HTML_BREAK ++
        lit "<INPUT TYPE=" ++ DQ ++ lit "submit" ++ DQ ++ lit ">" ++ [LF] ++ lit "</FORM>" ++ [LF] ++
        lit "<HR>" ++ [LF] ++ lit "<ADDRESS>" ++ lit "Questions, comments to: <a href=" ++ DQ ++
        lit "http://www.ncsa.uiuc.edu/SDG/People/jbrowne/jbrowne.html" ++ DQ ++
        lit ">Jim Browne</a>" ++ [LF] ++ lit "</ADDRESS>" ++ [LF]).

(** ** The query *)

(** [sscanf(s, "%d", &which)]: the returned count and the value stored, if any. *)
Definition sscanf_d (s : bytes) : option (Z * option Z) :=
  match skip_space s with
  | [] => Some ((-1)%Z, None)
  | c :: s' =>
      let digits := if bool_decide (c = "-"%char) || bool_decide (c = "+"%char) then s' else c :: s' in
      match digit_run digits with
      | 0 => Some (0%Z, None)
      | _ => z ← atoi (c :: s'); Some (1%Z, Some z)
      end
  end.

(** The variables of the second loop; an array that was not written is absent. *)
Record ph := {
  returnstr : bytes; typestr : bytes; serverstr : option bytes;
  atleastonereturn : bool; atleastonequery : bool
}.

(** The loop goes on, or the program leaves with what it printed. *)
Inductive ph_step := PhGo (s : ph) | PhExit (out : bytes).

Section Program.
Context `{Memory}.
Context (popen_output : bytes -> bytes).

(** The body of the loop for one entry. *)
Definition ph_entry (env : environ) (s : ph) (e : entry) : option ph_step :=
  is_return ← streq (name e) (c_lit "return");
  if (is_return : bool) then
    r ← strcat (returnstr s) (val e); r ← strcat r (c_lit " ");
    Some (PhGo {| returnstr := r; typestr := typestr s; serverstr := serverstr s;
                  atleastonereturn := true; atleastonequery := atleastonequery s |})
  else
    c ← rd (name e) 0; n ← strlen (val e);
    if bool_decide (c = "Q"%char) && negb (n =? 0)%nat then
      t ← strcat (typestr s) (drop 1 (name e)); t ← strcat t (c_lit "=");
      t ← strcat t (val e); t ← strcat t (c_lit " ");
      Some (PhGo {| returnstr := returnstr s; typestr := t; serverstr := serverstr s;
                    atleastonereturn := atleastonereturn s; atleastonequery := true |})
    else
      is_server ← streq (name e) (c_lit "Jserver");
      if (is_server : bool) then
        v ← strcpy (fresh 256) (val e);
        Some (PhGo {| returnstr := returnstr s; typestr := typestr s; serverstr := Some v;
                      atleastonereturn := atleastonereturn s;
                      atleastonequery := atleastonequery s |})
      else
        is_form ← streq (name e) (c_lit "Jform");
        if (is_form : bool) then
          v ← c_string (val e);
          '(count, which) ← sscanf_d v;
          if negb (count =? 0)%Z then out ← send_doc env (default 0%Z which); Some (PhExit out)
          else Some (PhExit [])
        else Some (PhGo s).

Fixpoint ph_loop (env : environ) (s : ph) (es : list entry) : option ph_step :=
  match es with
  | [] => Some (PhGo s)
  | e :: es' =>
      r ← ph_entry env s e;
      match r with PhGo s => ph_loop env s es' | PhExit out => Some (PhExit out) end
  end.

(** The block under [if (strlen(serverstr))]. *)
Definition add_server (cmd server : bytes) : option bytes :=
  n ← strlen server;
  if negb (n =? 0)%nat then
    cmd ← strcat cmd (c_lit " -s ");
    server ← escape_shell_cmd server;
    cmd ← strcat cmd server;
    strcat cmd (c_lit " ")
  else Some cmd.

(** The command line. *)
Definition ph_command (s : ph) : option bytes :=
  cmd ← strcpy (fresh (N.to_nat 8192)) (c_lit "/usr/local/bin/ph -m ");
  server ← serverstr s;
  cmd ← add_server cmd server;
  t ← escape_shell_cmd (typestr s);
  cmd ← strcat cmd t;
  if atleastonereturn s then r ← escape_shell_cmd (returnstr s); strcat cmd r else Some cmd.

(** The two loops over the fields of the query. *)
Definition phf_fields (env : environ) (cl : bytes) : option ph_step :=
  returnstr ← strcpy (fresh (N.to_nat 1024)) (c_lit "return ");
  typestr ← strcpy (fresh (N.to_nat 4098)) (c_lit " ");
  '(m, entries) ← decode_query (length cl) 64 0 0 [] cl;
  ph_loop env {| returnstr := returnstr; typestr := typestr; serverstr := None;
                 atleastonereturn := false; atleastonequery := false |} (take (S m) entries).

(** What is printed, and the string given to [popen], if it is called. *)
Definition phf_main (env : environ) : option (bytes * option bytes) :=
  let cl := default [NUL] (getenv env "QUERY_STRING") in
  c ← rd cl 0;
  if bool_decide (c = NUL) then out ← send_doc env 0; Some (CONTENT_TYPE ++ out, None)
  else
    r ← phf_fields env cl;
    match r with
    | PhExit out => Some (CONTENT_TYPE ++ out, None)
    | PhGo s =>
        let head := CONTENT_TYPE ++ lit "<H1>Query Results</H1>" ++ [LF] ++ HTML_BREAK in
        if negb (atleastonequery s) then
          Some (head ++ lit "<B>You did not enter a query!</B>" ++ [LF], None)
        else
          commandstr ← ph_command s;
          command ← c_string commandstr;
          out ← send_fd (fopen_bytes (popen_output command));
          Some (head ++ command ++ [LF] ++ lit "<PRE>" ++ [LF] ++ out ++ lit "</PRE>" ++ [LF],
                Some command)
    end.

(** ** What the shell sees *)

Lemma strcpy_inv dst src s r : cstr src s -> strcpy dst src = Some r -> cstr r s.
Proof.
  intros Hs. rewrite (strcpy_spec _ _ _ Hs). destruct (_ <? _)%nat; [|done]. intros Hr. injection Hr as <-.
  apply cstr_stored, Hs.
Qed.

Lemma strcat_inv dst src d s r : cstr dst d -> cstr src s -> strcat dst src = Some r -> cstr r (d ++ s).
Proof.
  intros Hd Hs. rewrite (strcat_spec _ _ _ _ Hd Hs). destruct (_ <? _)%nat; [|done]. intros Hr. injection Hr as <-.
  apply cstr_stored. rewrite elem_of_app. destruct Hd, Hs. tauto.
Qed.

Lemma escape_inv b b' : escape_shell_cmd b = Some b' -> exists s, cstr b s /\ cstr b' (quote s).
Proof.
  intros He. destruct (c_string b) as [s|] eqn:E.
  - apply c_string_cstr in E. rewrite (escape_shell_cmd_spec _ _ E) in He. destruct (_ <? _)%nat; [|done].
    injection He as <-. exists s. split; [done|]. apply cstr_stored, quote_NUL, E.
  - unfold escape_shell_cmd, strlen in He. rewrite E in He. done.
Qed.

(** The text of the query in the command, before it is quoted: the server, the fields to
    search for, the fields to return. *)
Definition query_text (s : ph) : option bytes :=
  server ← serverstr s; sv ← c_string server; t ← c_string (typestr s);
  r ← (if atleastonereturn s then c_string (returnstr s) else Some []);
  Some ((if bool_decide (sv = []) then [] else lit " -s " ++ sv ++ lit " ") ++ t ++ r).

Lemma add_server_text cmd server cmd' d :
  cstr cmd d -> add_server cmd server = Some cmd' ->
  exists sv, c_string server = Some sv /\
    cstr cmd' (d ++ quote (if bool_decide (sv = []) then [] else lit " -s " ++ sv ++ lit " ")).
Proof.
  intros Hd. unfold add_server, strlen. destruct (c_string server) as [sv|] eqn:Es; [|done].
  cbn [fmap option_fmap option_map]. run_bind. intros Hc. exists sv. split; [done|]. destruct sv as [|x sv].
  - cbn in Hc. injection Hc as <-. by rewrite app_nil_r.
  - cbn [length Nat.eqb negb] in Hc. rewrite bool_decide_eq_false_2 by done.
    apply bind_Some in Hc as (c1 & H1 & Hc). apply bind_Some in Hc as (q & H2 & Hc). apply bind_Some in Hc as (c2 & H3 & H4).
    apply escape_inv in H2 as (v & Hv1 & Hv). apply c_string_cstr in Hv1. rewrite Es in Hv1. injection Hv1 as <-.
    apply (strcat_inv _ _ _ _ _ Hd (cstr_lit " -s " eq_refl)) in H1.
    apply (strcat_inv _ _ _ _ _ H1 Hv) in H3. apply (strcat_inv _ _ _ _ _ H3 (cstr_lit " " eq_refl)) in H4.
    rewrite !quote_app. change (quote (lit " -s ")) with (lit " -s "). change (quote (lit " ")) with (lit " ").
    by rewrite <- !(assoc_L (++)) in *.
Qed.

(** The command is the quoted text after the name of the program. *)
Lemma ph_command_text s cmd :
  ph_command s = Some cmd ->
  exists text, query_text s = Some text /\ cstr cmd (quote (lit "/usr/local/bin/ph -m " ++ text)).
Proof.
  unfold ph_command, query_text. intros (c1 & H1 & (sv & Hsv & (c2 & H2 & (t' & H3 & (c3 & H4 & H5)%bind_Some)%bind_Some)%bind_Some)%bind_Some)%bind_Some.
  apply (strcpy_inv _ _ _ _ (cstr_lit "/usr/local/bin/ph -m " eq_refl)) in H1.
  destruct (add_server_text _ _ _ _ H1 H2) as (v & Hv & H2'). apply escape_inv in H3 as (t & Ht1 & Ht).
  apply (strcat_inv _ _ _ _ _ H2' Ht) in H4. rewrite Hsv. run_bind. rewrite Hv. run_bind.
  apply c_string_cstr in Ht1. rewrite Ht1. run_bind. destruct (atleastonereturn s).
  - apply bind_Some in H5 as (r' & H5 & H6). apply escape_inv in H5 as (r & Hr1 & Hr). apply (strcat_inv _ _ _ _ _ H4 Hr) in H6.
    apply c_string_cstr in Hr1. rewrite Hr1. run_bind. eexists. split; [done|]. rewrite !quote_app. by rewrite <- !(assoc_L (++)) in *.
  - injection H5 as <-. run_bind. eexists. split; [done|]. rewrite app_nil_r, !quote_app. by rewrite <- !(assoc_L (++)) in *.
Qed.

(** C37. What the shell makes of the query. If the program comes to call [popen], the command
    is the name of the phone book program, an option and the text of the query's fields with
    quotes. Whatever that text is, nothing in it is an operator, an expansion, a quote or a
    pattern to the shell. If there is no number sign in it, the shell sees one command, whose
    words after the first two are the words of the text, its newlines left out. *)
Theorem phf_command_inert env out command :
  phf_main env = Some (out, Some command) ->
  is_Some (sh_commands command) /\
  exists cl s text, getenv env "QUERY_STRING" = Some cl /\ phf_fields env cl = Some (PhGo s) /\ query_text s = Some text /\
    ("#"%char ∉ text -> sh_commands command = Some [lit "/usr/local/bin/ph" :: lit "-m" :: plain_words text]).
Proof.
  unfold phf_main. destruct (getenv env "QUERY_STRING") as [cl|]; cbn [default].
  2: { intros (c & [= <-] & Hm)%bind_Some. rewrite bool_decide_eq_true_2 in Hm by done. by apply bind_Some in Hm as (? & _ & ?). }
  intros (c & _ & Hm)%bind_Some.
  destruct (bool_decide (c = NUL)); [by apply bind_Some in Hm as (? & _ & ?)|].
  apply bind_Some in Hm as ([s|o] & Hs & Hm); [|done]. destruct (negb (atleastonequery s)); [done|].
  apply bind_Some in Hm as (cmd & Hc & Hm). apply bind_Some in Hm as (command' & Hs' & Hm). apply bind_Some in Hm as (o & _ & Hm).
  injection Hm as _ <-. destruct (ph_command_text _ _ Hc) as (text & Ht & Hcmd). apply c_string_cstr in Hcmd.
  rewrite Hs' in Hcmd. apply (inj Some) in Hcmd. subst command'. split; [apply read_quote_some|]. exists cl, s, text. do 3 (split; [done|]). intros Hh.
  assert (Hw : plain_words (lit "/usr/local/bin/ph -m " ++ text) = [lit "/usr/local/bin/ph"; lit "-m"] ++ plain_words text)
    by by apply plain_words_app.
  rewrite commands_quote; [by rewrite Hw| |by rewrite Hw]. rewrite elem_of_app. intros [Hx|Hx]; [|done].
  revert Hx. apply (bool_decide_eq_true_1 ("#"%char ∉ lit "/usr/local/bin/ph -m ")). vm_compute. reflexivity.
Qed.

(** A query without a server field makes the program read an array it never wrote. *)
Lemma phf_needs_server s :
  serverstr s = None -> ph_command s = None.
Proof. intros Hs. unfold ph_command. rewrite Hs. by destruct (strcpy _ _). Qed.
End Program.

(** ** An example *)

#[local] Instance phf_memory : Memory.
Proof. refine {| fresh n := replicate n "x"%char |}. intros n. apply length_replicate. Defined.

Definition phf_env (query : bytes) : environ := fun n =>
  if bool_decide (n = lit "QUERY_STRING") then Some query else None.

(** The well-known attack on this program, a newline and a command, arrives as one word. *)
Lemma phf_command_inert_witness :
  sh_commands (lit "/usr/local/bin/ph -m  -s h  alias=x\" ++ [LF] ++ lit "id ") =
    Some [[lit "/usr/local/bin/ph"; lit "-m"; lit "-s"; lit "h"; lit "alias=xid"]].
Proof.
  destruct (phf_command_inert (fun _ => []) (phf_env (lit "Qalias=x%0Aid&Jserver=h")) (CONTENT_TYPE ++ lit "<H1>Query Results</H1>" ++ [LF] ++ HTML_BREAK ++
    (lit "/usr/local/bin/ph -m  -s h  alias=x\" ++ [LF] ++ lit "id ") ++ [LF] ++ lit "<PRE>" ++ [LF] ++ lit "</PRE>" ++ [LF])
    (lit "/usr/local/bin/ph -m  -s h  alias=x\" ++ [LF] ++ lit "id ")) as (_ & cl & s & text & Hcl & Hs & Ht & Hw).
  - vm_compute. reflexivity.
  - assert (text = lit " -s h  alias=x" ++ [LF] ++ lit "id ") as ->.
    { injection Hcl as <-. vm_compute in Hs. injection Hs as <-. vm_compute in Ht. by injection Ht as <-. }
    apply Hw. apply (bool_decide_eq_true_1 ("#"%char ∉ _)). vm_compute. reflexivity.
Defined.

(** With a number sign the quoting is not enough: a comment ends at the newline whatever is
    before it, and what follows is a command of its own. *)
Theorem phf_comment_injects :
  exists out command, phf_main (fun _ => []) (phf_env (lit "Qalias=x+%23%0Aid&Jserver=h")) = Some (out, Some command) /\
    sh_commands command = Some [[lit "/usr/local/bin/ph"; lit "-m"; lit "-s"; lit "h"; lit "alias=x"]; [lit "id"]].
Proof. eexists _, _. split; [vm_compute; reflexivity|vm_compute; reflexivity]. Qed.

Lemma phf_needs_server_witness :
  ph_command {| returnstr := c_lit "return "; typestr := c_lit " "; serverstr := None;
                atleastonereturn := false; atleastonequery := true |} = None.
Proof. apply phf_needs_server. reflexivity. Defined.
