(* ===== verification/CgiPasswd.v ===== *)
(** * The password changer

    Models [legacy/http-root-dir/cgi-src/change-passwd.c]: it reads a form with a user name
    and two copies of a password, copies the password file to a temporary file with the
    user's line replaced or added, and copies that back. The file system, [rand] and [crypt]
    are parameters; [crypt] reads the two characters of the salt. *)

From Stdlib Require Import Ascii String.
From stdpp Require Import base numbers list gmap strings option.
From S2P Require Import Prelude CppLib StaticFileHandler CMem CgiUtil CgiUtilFacts CgiForms CgiFormsFacts.

Definition WIZARD : string := "webmaster".

Definition itoa64 : bytes :=
  lit "./0123456789ABCDEFGHIJKLMNOPQRSTUVWXYZabcdefghijklmnopqrstuvwxyz".

(** The [n] characters [to64] stores. *)
Fixpoint to64 (v : Z) (n : nat) : bytes :=
  match n with
  | 0 => []
  | S n' => default NUL (itoa64 !! Z.to_nat (Z.land v 63)) :: to64 (Z.shiftr v 6) n'
  end.

(** What the program finds: whether the temporary file can be opened, the password file if
    it can be, whether [cp] succeeds, and the result of [rand]. *)
Record Passwd_env := {
  tmp_opens : bool;
  user_file : option bytes;
  cp_works : bool;
  random : Z
}.

(** What a run leaves: its standard output, its status, and the new contents of the password
    file if it was replaced. *)
Record outcome := { page : bytes; status : Z; new_file : option bytes }.

Definition quits (page : bytes) : outcome := {| page := page; status := 1; new_file := None |}.

Section Program.
Context `{Memory}.
Context (crypt : bytes -> bytes -> bytes).

(** The line [change_password] prints; [user] may be a null pointer. *)
Definition change_password (pe : Passwd_env) (user : option bytes) (pw : bytes) : option bytes :=
  user ← user; u ← c_string user; p ← c_string pw;
  Some (u ++ lit ":" ++ crypt p (to64 (random pe) 2) ++ [LF]).

Definition putline (tfp : bytes) (l : bytes) : option bytes := s ← c_string l; Some (tfp ++ s ++ [LF]).

(** ** The form *)

(** The pointers of the loop; [None] is a null pointer. *)
Record fields := { f_user : option bytes; f_p1 : option bytes; f_p2 : option bytes }.
Definition no_fields : fields := {| f_user := None; f_p1 := None; f_p2 := None |}.

Inductive field_step := FieldGo (fs : fields) | FieldQuit (out : bytes).

Definition WRONG_FORM : bytes := lit "This script was accessed from the wrong form." ++ [LF].

(** The branches of the loop for the name [t2] and the value [t1]. *)
Definition take_field (fs : fields) (t2 t1 : bytes) : option field_step :=
  is_user ← streq t2 (c_lit "user");
  is_p1 ← streq t2 (c_lit "newpasswd1");
  is_p2 ← streq t2 (c_lit "newpasswd2");
  if (is_user : bool) then
    match f_user fs with
    | None => Some (FieldGo {| f_user := Some t1; f_p1 := f_p1 fs; f_p2 := f_p2 fs |})
    | Some _ => Some (FieldQuit WRONG_FORM)
    end
  else if (is_p1 : bool) then
    match f_p1 fs with
    | None => Some (FieldGo {| f_user := f_user fs; f_p1 := Some t1; f_p2 := f_p2 fs |})
    | Some _ => Some (FieldQuit WRONG_FORM)
    end
  else if (is_p2 : bool) then
    match f_p2 fs with
    | None => Some (FieldGo {| f_user := f_user fs; f_p1 := f_p1 fs; f_p2 := Some t1 |})
    | Some _ => Some (FieldQuit WRONG_FORM)
    end
  else
    n ← c_string t2;
    Some (FieldQuit (WRONG_FORM ++ lit "Unrecognized directive " ++ n ++ lit "." ++ [LF])).

Fixpoint read_fields (fuel : nat) (fs : fields) (cl : Z) (f : FILE) : option field_step :=
  match fuel with
  | 0 => None
  | S fuel' =>
      if (cl =? 0)%Z || at_eof f then Some (FieldGo fs)
      else
        '(t1, cl, f) ← fmakeword f "&" cl;
        '(t2, t1) ← makeword t1 "=";
        t1 ← unescape_url t1;
        t2 ← unescape_url t2;
        r ← take_field fs t2 t1;
        match r with
        | FieldQuit out => Some (FieldQuit out)
        | FieldGo fs => read_fields fuel' fs cl f
        end
  end.

(** ** The password file *)

Definition LINE : nat := 256.

(** The loop over the lines: whether the user was found and the temporary file. *)
Fixpoint copy_lines (fuel : nat) (pe : Passwd_env) (user : option bytes) (p1 line : bytes) (found : bool) (tfp : bytes)
    (f : FILE) : option (bool * bytes) :=
  match fuel with
  | 0 => None
  | S fuel' =>
      '(ended, line, f) ← mygetline line LINE f;
      if (ended : bool) then Some (found, tfp)
      else
        c ← rd line 0;
        if found || bool_decide (c = "#"%char) || bool_decide (c = NUL) then
          tfp ← putline tfp line; copy_lines fuel' pe user p1 line found tfp f
        else
          l ← strcpy (fresh LINE) line;
          '(w, l) ← getword (fresh LINE) l ":";
          u ← user; same ← streq u w;
          if negb same then
            tfp ← putline tfp line; copy_lines fuel' pe user p1 line found tfp f
          else
            entry ← change_password pe user p1; copy_lines fuel' pe user p1 line true (tfp ++ entry) f
  end.

Definition USER_MISMATCH : bytes :=
  lit "<TITLE>User Mismatch</TITLE>" ++ lit "<H1>User Mismatch</H1>" ++
  lit "The username you gave does not correspond with the " ++ lit "user you authenticated as." ++ [LF].
Definition PASSWORD_MISMATCH : bytes :=
  lit "<TITLE>Password Mismatch</TITLE>" ++ lit "<H1>Password Mismatch</H1>" ++
  lit "The two copies of your password do not match. Please" ++ lit " try again.".
Definition ADDED : bytes :=
  lit "<TITLE>Successful Addition</TITLE>" ++ lit "<H1>Successful Addition</H1>" ++
  lit "Your new user/password combination has been successfully added.<P>".
Definition CHANGED : bytes :=
  lit "<TITLE>Successful Change</TITLE>" ++ lit "<H1>Successful Change</H1>" ++
  lit "Your password has been successfully changed.<P>".

(** From the temporary file to the end. *)
Definition update_file (pe : Passwd_env) (user : option bytes) (p1 : bytes) : option outcome :=
  if negb (tmp_opens pe) then Some (quits CONTENT_TYPE)
  else match user_file pe with
  | None => Some (quits CONTENT_TYPE)
  | Some content =>
      '(found, tfp) ← copy_lines (2 + length content) pe user p1 (fresh LINE) false [] (fopen_bytes content);
      tfp ← match found with
            | true => Some tfp
            | false => added ← change_password pe user p1; Some (app tfp added)
            end;
      if negb (cp_works pe) then Some (quits CONTENT_TYPE)
      else Some {| page := CONTENT_TYPE ++ (if (found : bool) then CHANGED else ADDED); status := 0;
                   new_file := Some tfp |}
  end.

(** The checks of the user and of the two passwords. *)
Definition check_form (env : environ) (pe : Passwd_env) (fs : fields) : option outcome :=
  u ← getenv env "REMOTE_USER";
  wizard ← streq u (c_lit WIZARD);
  user_ok ← match wizard with true => Some true | false => user ← f_user fs; streq user u end;
  if negb user_ok then Some (quits (CONTENT_TYPE ++ USER_MISMATCH))
  else
    p1 ← f_p1 fs; p2 ← f_p2 fs;
    match_ ← streq p1 p2;
    if negb match_ then Some (quits (CONTENT_TYPE ++ PASSWORD_MISMATCH))
    else update_file pe (f_user fs) p1.

Definition passwd_main (env : environ) (pe : Passwd_env) (stdin : FILE) : option outcome :=
  method ← getenv env "REQUEST_METHOD";
  post ← streq method (c_lit "POST");
  if negb post then Some (quits (CONTENT_TYPE ++ wrong_method "POST"))
  else
    ctype ← getenv env "CONTENT_TYPE";
    form ← streq ctype (c_lit "application/x-www-form-urlencoded");
    if negb form then
      Some (quits (CONTENT_TYPE ++ lit "This script can only be used to decode form results. " ++ [LF]))
    else
      length_ ← env (lit "CONTENT_LENGTH");
      cl ← atoi length_;
      r ← read_fields (2 + length (input stdin)) no_fields cl stdin;
      match r with
      | FieldQuit out => Some (quits (CONTENT_TYPE ++ out))
      | FieldGo fs => check_form env pe fs
      end.
End Program.
