(* ===== verification/CgiPasswdFacts.v ===== *)
(** * Properties of the password changer

    What the new password file is, who can change whose entry, and what happens to a last
    line that has no end. *)

From Stdlib Require Import Ascii String.
From stdpp Require Import base numbers list gmap strings option.
From S2P Require Import Prelude CppLib StaticFileHandler CMem CgiUtil CgiUtilFacts CgiForms CgiFormsFacts CgiPasswd.

(** ** Password files *)

Definition unlines (ls : list bytes) : bytes := concat (map (fun l => l ++ [LF]) ls).

(** The line is the entry of the user: not empty, not a comment, and with that name. *)
Definition is_entry (u l : bytes) : bool :=
  negb (bool_decide (l = [])) && negb (bool_decide (head l = Some "#"%char)) && bool_decide ((cut ":" l).1 = u).

(** The first entry of the user replaced, or a new one at the end. *)
Fixpoint set_entry (u new : bytes) (ls : list bytes) : list bytes :=
  match ls with
  | [] => [new]
  | l :: ls' => if is_entry u l then new :: ls' else l :: set_entry u new ls'
  end.

(** A line that the program reads whole. *)
Definition good_line (l : bytes) : Prop := plain_line l /\ NUL ∉ l /\ (length l < LINE)%nat.

Section Program.
Context `{Memory} (crypt : bytes -> bytes -> bytes).

(** The line written for a user. *)
Definition entry_for (pe : Passwd_env) (u p : bytes) : bytes := u ++ lit ":" ++ crypt p (to64 (random pe) 2).

Lemma change_password_spec pe user pw u p :
  cstr user u -> cstr pw p -> change_password crypt pe (Some user) pw = Some (entry_for pe u p ++ [LF]).
Proof.
  intros Hu%c_string_cstr Hp%c_string_cstr. unfold change_password. run_bind. rewrite Hu. run_bind. rewrite Hp.
  run_bind. unfold entry_for. by rewrite <- !(assoc_L (++)).
Qed.

Lemma putline_spec tfp line l : cstr line l -> putline tfp line = Some (tfp ++ l ++ [LF]).
Proof. intros Hl%c_string_cstr. unfold putline. by rewrite Hl. Qed.

(** The rest of the file after the entry: lines are copied, and a last line without an end
    is not. *)
Lemma copy_rest pe user p1 ls rest : forall fuel line tfp,
  Forall good_line ls -> good_line rest -> length line = LINE -> (length ls < fuel)%nat ->
  copy_lines crypt fuel pe user p1 line true tfp (fopen_bytes (unlines ls ++ rest)) = Some (true, tfp ++ unlines ls).
Proof.
  induction ls as [|l ls IH]; intros fuel line tfp Hls Hrest Hline Hf; (destruct fuel as [|fuel]; [simpl in Hf; lia|]);
    cbn [copy_lines].
  - destruct Hrest as (Hp & _ & Hr). destruct (getline_unfinished rest (S LINE) 0 LINE line) as (s' & E & _);
      [done|done|lia|lia|]. unfold mygetline. cbn [unlines map concat app]. rewrite E. run_bind. by rewrite app_nil_r.
  - apply Forall_cons_1 in Hls as [(Hp & Hn & Hl) Hls]. unfold unlines. cbn [map concat]. fold (unlines ls).
    rewrite <- !(assoc_L (++)). cbn [app]. rewrite mygetline_line by (done || lia). run_bind.
    destruct (stored line l) as [|c t] eqn:Es; [apply (f_equal length) in Es; rewrite length_stored in Es by lia; simpl in Es; lia|].
    unfold rd at 1. cbn [lookup list_lookup]. run_bind. cbn [orb]. rewrite <- Es.
    rewrite (putline_spec _ _ l) by by apply cstr_stored. run_bind.
    rewrite IH; [|done|done|by rewrite length_stored by lia|simpl in Hf; lia]. by rewrite <- !(assoc_L (++)).
Qed.

(** One line before the entry. *)
Lemma copy_one fuel pe user p1 u p line l r tfp :
  good_line l -> length line = LINE -> cstr user u -> cstr p1 p ->
  copy_lines crypt (S fuel) pe (Some user) p1 line false tfp (fopen_bytes (l ++ LF :: r)) =
    if is_entry u l then copy_lines crypt fuel pe (Some user) p1 (stored line l) true (tfp ++ entry_for pe u p ++ [LF]) (fopen_bytes r)
    else copy_lines crypt fuel pe (Some user) p1 (stored line l) false (tfp ++ l ++ [LF]) (fopen_bytes r).
Proof.
  intros (Hp & Hn & Hl) Hline Hu Hpw. cbn [copy_lines]. rewrite mygetline_line by (done || lia). run_bind.
  assert (Hrd : rd (stored line l) 0 = Some (match l with [] => NUL | c :: _ => c end)) by by destruct l.
  rewrite Hrd. run_bind. cbn [orb]. pose proof (cstr_stored line l Hn) as Hc. unfold is_entry.
  destruct l as [|c l].
  { rewrite (bool_decide_eq_true_2 (NUL = NUL)), orb_true_r by done. rewrite (putline_spec _ _ [] Hc). done. }
  apply not_elem_of_cons in Hn as Hn'. rewrite (bool_decide_eq_false_2 (c = NUL)), orb_false_r by (destruct Hn'; congruence).
  rewrite (bool_decide_eq_false_2 (c :: l = [])) by done. cbn [negb andb head].
  case_bool_decide as Hh; [|].
  { rewrite (bool_decide_eq_true_2 (Some c = _)) by congruence. cbn [negb andb]. rewrite (putline_spec _ _ (c :: l) Hc). done. }
  rewrite (bool_decide_eq_false_2 (Some c = _)) by congruence. cbn [negb andb].
  rewrite (strcpy_spec _ _ (c :: l) Hc), fresh_length.
  destruct (Nat.ltb_spec (length (c :: l)) LINE); [|lia]. run_bind.
  destruct (cut ":" (c :: l)) as [w rest] eqn:Ecut. cbn [fst].
  assert (Hcp : cstr (stored (fresh LINE) (c :: l)) (c :: l)) by by apply cstr_stored.
  rewrite (getword_spec _ _ _ _ _ _ Hcp Ecut), fresh_length.
  assert (Hw : (length w <= length (c :: l))%nat).
  { destruct (cut_spec _ _ _ _ Ecut) as [_ [E|[E _]]]; rewrite E; [rewrite length_app; lia|lia]. }
  destruct (Nat.ltb_spec (length w) LINE); [|lia]. run_bind.
  assert (Hcw : cstr (stored (fresh LINE) w) w) by (apply cstr_stored; by apply (cut_NUL _ _ _ _ Hn Ecut)).
  rewrite (streq_spec _ _ _ _ Hu Hcw). run_bind. rewrite (bool_decide_ext (u = w) (w = u)) by done.
  case_bool_decide; cbn [negb].
  - by rewrite (change_password_spec pe user p1 u p Hu Hpw).
  - by rewrite (putline_spec _ _ (c :: l) Hc).
Qed.

Lemma copy_lines_spec pe user p1 u p ls rest : cstr user u -> cstr p1 p ->
  forall fuel line tfp, Forall good_line ls -> good_line rest -> length line = LINE -> (length ls < fuel)%nat ->
  exists found : bool, copy_lines crypt fuel pe (Some user) p1 line false tfp (fopen_bytes (unlines ls ++ rest))
    = Some (found, tfp ++ unlines (if found then set_entry u (entry_for pe u p) ls else ls)) /\
    found = existsb (is_entry u) ls.
Proof.
  intros Hu Hp. induction ls as [|l ls IH]; intros fuel line tfp Hls Hrest Hline Hf;
    (destruct fuel as [|fuel]; [simpl in Hf; lia|]).
  - exists false. split; [|done]. cbn [copy_lines unlines map concat app]. destruct Hrest as (Hpl & _ & Hr).
    destruct (getline_unfinished rest (S LINE) 0 LINE line) as (s' & E & _); [done|done|lia|lia|].
    unfold mygetline. rewrite E. run_bind. by rewrite app_nil_r.
  - apply Forall_cons_1 in Hls as [Hl Hls]. simpl in Hf. cbn [existsb]. pose proof Hl as (_ & _ & Hll).
    unfold unlines at 1. cbn [map concat]. fold (unlines ls). rewrite <- !(assoc_L (++)). cbn [app].
    rewrite (copy_one fuel pe user p1 u p) by done. cbn [set_entry]. destruct (is_entry u l) eqn:El; cbn [orb].
    + exists true. rewrite copy_rest; [|done|done|by rewrite length_stored by lia|lia]. split; [|done].
      unfold unlines. cbn [map concat]. by rewrite <- !(assoc_L (++)).
    + destruct (IH fuel (stored line l) (tfp ++ l ++ [LF])) as (found & -> & Hfound);
        [done|done|by rewrite length_stored by lia|lia|]. exists found. split; [|done].
      do 2 f_equal. unfold unlines. destruct found; cbn [map concat]; by rewrite <- !(assoc_L (++)).
Qed.

Lemma set_entry_absent u new ls : existsb (is_entry u) ls = false -> set_entry u new ls = ls ++ [new].
Proof.
  induction ls as [|l ls IH]; [done|]. cbn [existsb set_entry]. intros [-> Hr]%orb_false_iff. by rewrite IH.
Qed.

Lemma length_unlines ls : (length ls <= length (unlines ls))%nat.
Proof. induction ls as [|l ls IH]; [done|]. unfold unlines in *. cbn [map concat length]. rewrite !length_app. simpl. lia. Qed.

(** The file after a run that gets to the end: of a file of lines and a rest without a line
    end, the lines with the user's entry replaced or added; the rest is lost. *)
Lemma update_file_spec pe user p1 u p ls rest :
  cstr user u -> cstr p1 p -> Forall good_line ls -> good_line rest ->
  user_file pe = Some (unlines ls ++ rest) -> tmp_opens pe = true -> cp_works pe = true ->
  update_file crypt pe (Some user) p1 = Some
    {| page := CONTENT_TYPE ++ (if existsb (is_entry u) ls then CHANGED else ADDED); status := 0;
       new_file := Some (unlines (set_entry u (entry_for pe u p) ls)) |}.
Proof.
  intros Hu Hp Hls Hrest Hf Ht Hcp. unfold update_file. rewrite Ht, Hf. cbn [negb].
  destruct (copy_lines_spec pe user p1 u p ls rest Hu Hp (2 + length (unlines ls ++ rest)) (fresh LINE) [])
    as (found & -> & Hfound); [done|done|apply fresh_length|rewrite length_app; pose proof (length_unlines ls); lia|].
  run_bind. rewrite <- Hfound. destruct found; cbn [app].
  - rewrite Hcp. done.
  - rewrite (change_password_spec pe user p1 u p Hu Hp). run_bind. rewrite Hcp. cbn [negb]. do 3 f_equal.
    rewrite set_entry_absent by done. unfold unlines. rewrite map_app, concat_app. cbn [map concat].
    by rewrite app_nil_r.
Qed.

(** ** Who changes what *)

Lemma change_password_inv pe user pw r :
  change_password crypt pe user pw = Some r -> exists a u, user = Some a /\ cstr a u.
Proof.
  unfold change_password. destruct user as [a|]; [|done]. run_bind. destruct (c_string a) as [u|] eqn:E; [|done].
  intros _. exists a, u. split; [done|]. by apply c_string_cstr.
Qed.

(** Who is found was looked for. *)
Lemma copy_lines_user pe user p1 : forall fuel line tfp f tfp',
  copy_lines crypt fuel pe user p1 line false tfp f = Some (true, tfp') -> exists a u, user = Some a /\ cstr a u.
Proof.
  induction fuel as [|fuel IH]; intros line tfp f tfp'; [done|]. cbn [copy_lines].
  destruct (mygetline line LINE f) as [[[ended line'] f']|]; [|done]. run_bind. destruct ended; [done|].
  destruct (rd line' 0) as [c|]; [|done]. run_bind. destruct (_ || _).
  { destruct (putline tfp line'); [|done]. run_bind. apply IH. }
  destruct (strcpy _ _) as [l|]; [|done]. run_bind. destruct (getword _ _ _) as [[w l']|]; [|done]. run_bind.
  destruct user as [a|]; [|done]. run_bind. destruct (streq a w) as [same|]; [|done]. run_bind. destruct same; cbn [negb].
  - destruct (change_password _ _ _ _) as [e|] eqn:Ec; [|done]. intros _. by eapply change_password_inv.
  - destruct (putline tfp line'); [|done]. run_bind. apply IH.
Qed.

Lemma update_file_user pe user p1 o f :
  update_file crypt pe user p1 = Some o -> new_file o = Some f ->
  tmp_opens pe = true /\ cp_works pe = true /\ exists a u, user = Some a /\ cstr a u.
Proof.
  unfold update_file. destruct (tmp_opens pe); [|by intros [= <-]]. cbn [negb].
  destruct (user_file pe) as [content|]; [|by intros [= <-]].
  destruct (copy_lines _ _ _ _ _ _ _ _) as [[found tfp]|] eqn:Ec; [|done]. run_bind. destruct found.
  - apply copy_lines_user in Ec. run_bind. destruct (cp_works pe); [done|by intros [= <-]].
  - destruct (change_password _ _ _ _) as [e|] eqn:Ep; [|done]. run_bind. apply change_password_inv in Ep.
    destruct (cp_works pe); [done|by intros [= <-]].
Qed.

(** A replaced file was replaced by the last step of the checks. *)
Lemma check_form_inv env pe fs o f remote :
  check_form crypt env pe fs = Some o -> new_file o = Some f ->
  env (lit "REMOTE_USER") = Some remote -> NUL ∉ remote ->
  exists a u p1 p, f_user fs = Some a /\ cstr a u /\ cstr p1 p /\ (remote = lit WIZARD \/ remote = u) /\
    update_file crypt pe (Some a) p1 = Some o.
Proof.
  intros Hm Hf Hr Hn. unfold check_form, getenv in Hm. rewrite Hr in Hm. cbn [fmap option_fmap option_map] in Hm.
  assert (Hcr : cstr (remote ++ [NUL]) remote) by (split; [done|by exists []]). revert Hm. run_bind.
  rewrite (streq_spec _ _ _ _ Hcr (cstr_lit WIZARD ltac:(vm_compute; reflexivity))). run_bind.
  destruct (match bool_decide (remote = lit WIZARD) with true => _ | false => _ end) as [ok|] eqn:Eok; [|done].
  run_bind. destruct ok; [|by intros [= <-]]. cbn [negb].
  destruct (f_p1 fs) as [p1|]; [|done]. run_bind. destruct (f_p2 fs) as [p2|]; [|done]. run_bind.
  unfold streq at 1. destruct (c_string p1) as [p|] eqn:Ep; [|done]. run_bind.
  destruct (c_string p2) as [p'|]; [|done]. run_bind. destruct (bool_decide (p = p')); [|by intros [= <-]]. cbn [negb]. intros Ho.
  destruct (update_file_user _ _ _ _ _ Ho Hf) as (_ & _ & a & u & Ha & Hu). rewrite Ha in Ho, Eok.
  exists a, u, p1, p. split; [done|]. split; [done|]. split; [by apply c_string_cstr|]. split; [|done].
  revert Eok. case_bool_decide as Hw; [by left|]. run_bind. rewrite (streq_spec _ _ _ _ Hu Hcr).
  intros [= ->%bool_decide_eq_true_1]. by right.
Qed.

(** Whatever the form, a run that replaces the password file was authenticated as the user
    whose entry it sets, or as the administrator; it changes that entry and nothing else. A
    last line without a line end is lost, though. *)
Theorem only_own_entry env pe stdin o f remote ls rest :
  passwd_main crypt env pe stdin = Some o -> new_file o = Some f ->
  env (lit "REMOTE_USER") = Some remote -> NUL ∉ remote ->
  user_file pe = Some (unlines ls ++ rest) -> Forall good_line ls -> good_line rest ->
  exists u p, (remote = lit WIZARD \/ remote = u) /\ status o = 0%Z /\
    f = unlines (set_entry u (entry_for pe u p) ls).
Proof.
  intros Hm Hf Hr Hn Hfile Hls Hrest. unfold passwd_main in Hm.
  destruct (getenv env "REQUEST_METHOD") as [method|]; [|done]. revert Hm. run_bind.
  destruct (streq method _) as [[|]|]; [|by intros [= <-]|done]. run_bind. cbn [negb].
  destruct (getenv env "CONTENT_TYPE") as [ctype|]; [|done]. run_bind.
  destruct (streq ctype _) as [[|]|]; [|by intros [= <-]|done]. run_bind. cbn [negb].
  destruct (env (lit "CONTENT_LENGTH")) as [n|]; [|done]. run_bind. destruct (atoi n) as [cl|]; [|done]. run_bind.
  destruct (read_fields _ _ _ _) as [[fs|out]|]; [|by intros [= <-]|done]. run_bind. intros Hc.
  destruct (check_form_inv env pe fs o f remote Hc Hf Hr Hn) as (a & u & p1 & p & Ha & Hu & Hp & Hrem & Ho).
  exists u, p. split; [done|]. destruct (update_file_user _ _ _ _ _ Ho Hf) as (Ht & Hcp & _).
  rewrite (update_file_spec pe a p1 u p ls rest) in Ho by done. injection Ho as <-. cbn in Hf |- *. split; congruence.
Qed.

(** ** The form *)

Definition form_field (n e : bytes) : bytes := n ++ "="%char :: e.

(** A value and what the form has for it. *)
Definition value_encodes (v e : bytes) : Prop := encodes v e /\ NUL ∉ v /\ NUL ∉ e /\ "&"%char ∉ e.

(** A name that stands for itself. *)
Definition name_ok (n : bytes) : Prop := NUL ∉ n /\ "&"%char ∉ n /\ "="%char ∉ n /\ unescape n = Some n.

Lemma read_field_step fuel fs n v e es :
  name_ok n -> value_encodes v e -> (N.of_nat (length (form_field n e)) < WSIZE)%N ->
  let body := join (form_field n e :: es) in
  (Z.of_nat (length body) <= INT_MAX)%Z ->
  exists t2 t1, cstr t2 n /\ cstr t1 v /\
    read_fields (S fuel) fs (Z.of_nat (length body)) (fopen_bytes body) =
      r ← take_field fs t2 t1;
      match r with
      | FieldQuit out => Some (FieldQuit out)
      | FieldGo fs => read_fields fuel fs (Z.of_nat (length (join es))) (fopen_bytes (join es))
      end.
Proof.
  intros (Nn & Na & Ne & Nu) (Hv & Vn & En & Ea) Hw body Hint. set (x := form_field n e) in *.
  assert (Hx : "&"%char ∉ x) by (unfold x, form_field; rewrite elem_of_app, elem_of_cons; naive_solver).
  assert (HxN : NUL ∉ x) by (unfold x, form_field; rewrite elem_of_app, elem_of_cons; naive_solver).
  assert (Hpos : (0 < length x)%nat) by (unfold x, form_field; rewrite length_app; simpl; lia).
  assert (Hbody : (length (join es) < length body)%nat /\ (length body - length (join es) <= S (length x))%nat).
  { unfold body. destruct es; simpl; rewrite ?length_app; simpl; lia. }
  cbn [read_fields]. destruct (Z.eqb_spec (Z.of_nat (length body)) 0); [lia|]. cbn [orb at_eof fopen_bytes].
  fold (fopen_bytes body).
  rewrite (fmakeword_spec "&" (length body) body x (length (join es)) (fopen_bytes (join es))); [|done|lia|done|].
  2: { unfold body. rewrite form_word_join by (done || lia). by destruct es. }
  destruct (N.leb_spec (N.of_nat (length body - length (join es))) WSIZE); [|lia]. run_bind.
  destruct (makeword_spec (x ++ [NUL]) "=" x n e) as (word & -> & Hword);
    [split; [done|by exists []]|by apply cut_at|]. run_bind.
  rewrite (unescape_url_spec (stored (x ++ [NUL]) e) e v); [|by apply cstr_stored|by apply unescape_encodes]. run_bind.
  rewrite (unescape_url_spec word n n Hword Nu). run_bind.
  exists (stored word n), (stored (stored (x ++ [NUL]) e) v).
  split; [by apply cstr_stored|]. split; [by apply cstr_stored|]. done.
Qed.

Lemma take_field_spec fs t2 t1 n : cstr t2 n ->
  take_field fs t2 t1 =
    if bool_decide (n = lit "user") then
      Some (match f_user fs with
            | None => FieldGo {| f_user := Some t1; f_p1 := f_p1 fs; f_p2 := f_p2 fs |}
            | Some _ => FieldQuit WRONG_FORM end)
    else if bool_decide (n = lit "newpasswd1") then
      Some (match f_p1 fs with
            | None => FieldGo {| f_user := f_user fs; f_p1 := Some t1; f_p2 := f_p2 fs |}
            | Some _ => FieldQuit WRONG_FORM end)
    else if bool_decide (n = lit "newpasswd2") then
      Some (match f_p2 fs with
            | None => FieldGo {| f_user := f_user fs; f_p1 := f_p1 fs; f_p2 := Some t1 |}
            | Some _ => FieldQuit WRONG_FORM end)
    else Some (FieldQuit (WRONG_FORM ++ lit "Unrecognized directive " ++ n ++ lit "." ++ [LF])).
Proof.
  intros Hn. unfold take_field. rewrite (streq_spec _ _ _ _ Hn (cstr_lit "user" eq_refl)), (streq_spec _ _ _ _ Hn (cstr_lit "newpasswd1" eq_refl)),
    (streq_spec _ _ _ _ Hn (cstr_lit "newpasswd2" eq_refl)). run_bind.
  rewrite (proj2 (c_string_cstr _ _) Hn). run_bind.
  repeat case_bool_decide; by destruct (f_user fs), (f_p1 fs), (f_p2 fs).
Qed.

(** The three fields, in their order in the form. *)
Definition passwd_form (eu e1 e2 : bytes) : list bytes :=
  [form_field (lit "user") eu; form_field (lit "newpasswd1") e1; form_field (lit "newpasswd2") e2].

Lemma read_form u p q eu e1 e2 :
  value_encodes u eu -> value_encodes p e1 -> value_encodes q e2 ->
  Forall (fun e => N.of_nat (length e) < WSIZE)%N (passwd_form eu e1 e2) ->
  let body := join (passwd_form eu e1 e2) in
  (Z.of_nat (length body) <= INT_MAX)%Z ->
  exists a b c, cstr a u /\ cstr b p /\ cstr c q /\
    read_fields (2 + length body) no_fields (Z.of_nat (length body)) (fopen_bytes body)
    = Some (FieldGo {| f_user := Some a; f_p1 := Some b; f_p2 := Some c |}).
Proof.
  intros Hu Hp Hq Hw body Hint. apply Forall_cons_1 in Hw as [W1 [W2 [W3 _]%Forall_cons_1]%Forall_cons_1].
  assert (Hn : forall s, bool_decide (NUL ∉ lit s /\ "&"%char ∉ lit s /\ "="%char ∉ lit s /\ unescape (lit s) = Some (lit s)) = true ->
    name_ok (lit s)) by (intros s Hs; exact (bool_decide_eq_true_1 _ Hs)).
  assert (Hfuel : exists k, (2 + length body)%nat = S (S (S (S k)))).
  { exists (length body - 2)%nat. unfold body, passwd_form, form_field. cbn [join]. rewrite length_app. simpl length.
    change (length (lit "user")) with 4. lia. }
  destruct Hfuel as [k ->]. unfold body, passwd_form.
  destruct (read_field_step (S (S (S k))) no_fields (lit "user") u eu [form_field (lit "newpasswd1") e1; form_field (lit "newpasswd2") e2])
    as (t2 & a & Ht2 & Ha & ->); [apply Hn; vm_compute; reflexivity|done|done|done|].
  rewrite (take_field_spec _ _ _ _ Ht2), bool_decide_eq_true_2 by done. run_bind. cbn [f_user f_p1 f_p2 no_fields].
  destruct (read_field_step (S (S k)) {| f_user := Some a; f_p1 := None; f_p2 := None |} (lit "newpasswd1") p e1
    [form_field (lit "newpasswd2") e2]) as (t3 & b & Ht3 & Hb & ->); [apply Hn; vm_compute; reflexivity|done|done| |].
  { unfold body, passwd_form in Hint. cbn [join] in Hint |- *. rewrite length_app in Hint. cbn [length] in Hint. lia. }
  rewrite (take_field_spec _ _ _ _ Ht3), bool_decide_eq_false_2, bool_decide_eq_true_2 by done. run_bind.
  cbn [f_user f_p1 f_p2].
  destruct (read_field_step (S k) {| f_user := Some a; f_p1 := Some b; f_p2 := None |} (lit "newpasswd2") q e2 [])
    as (t4 & c & Ht4 & Hc & ->); [apply Hn; vm_compute; reflexivity|done|done| |].
  { unfold body, passwd_form in Hint. cbn [join] in Hint |- *. rewrite !length_app in Hint. cbn [length] in Hint.
    rewrite length_app in Hint. cbn [length] in Hint. lia. }
  rewrite (take_field_spec _ _ _ _ Ht4), !bool_decide_eq_false_2, bool_decide_eq_true_2 by done. run_bind.
  by exists a, b, c.
Qed.

(** C38. A password is changed. When a user, or the administrator, posts the form with a name
    and twice the same password, in any encoding, the new password file has, in their order,
    the lines of the old one that have their line end, with the first entry of that name
    replaced by the name and the encrypted password, or with a new entry after them when there
    was none. What follows the last line end of the old file is lost, also when it is an entry.
    The page says which of the two happened. *)
Theorem password_changed env pe remote u p eu e1 e2 ls rest :
  let body := join (passwd_form eu e1 e2) in
  env (lit "REQUEST_METHOD") = Some (lit "POST") ->
  env (lit "CONTENT_TYPE") = Some (lit "application/x-www-form-urlencoded") ->
  env (lit "CONTENT_LENGTH") = Some (print_N (len body)) ->
  env (lit "REMOTE_USER") = Some remote -> NUL ∉ remote -> remote = lit WIZARD \/ remote = u ->
  value_encodes u eu -> value_encodes p e1 -> value_encodes p e2 ->
  Forall (fun e => N.of_nat (length e) < WSIZE)%N (passwd_form eu e1 e2) ->
  (Z.of_nat (length body) <= INT_MAX)%Z ->
  tmp_opens pe = true -> cp_works pe = true -> user_file pe = Some (unlines ls ++ rest) ->
  Forall good_line ls -> good_line rest ->
  passwd_main crypt env pe (fopen_bytes body) = Some
    {| page := CONTENT_TYPE ++ (if existsb (is_entry u) ls then CHANGED else ADDED); status := 0;
       new_file := Some (unlines (set_entry u (entry_for pe u p) ls)) |}.
Proof.
  intros body Hm Ht Hl Hr Hrn Hrem Hu Hp Hq Hw Hint Htmp Hcp Hf Hls Hrest.
  destruct (read_form u p p eu e1 e2 Hu Hp Hq Hw Hint) as (a & b & c & Ha & Hb & Hc & Hread). fold body in Hread.
  unfold passwd_main, getenv. rewrite Hm, Ht, Hl. cbn [fmap option_fmap option_map]. run_bind.
  rewrite (streq_lit (lit "POST")) by (done || by apply lit_NUL). run_bind.
  rewrite bool_decide_eq_true_2 by done. cbn [negb]. run_bind.
  rewrite (streq_lit (lit "application/x-www-form-urlencoded")) by (done || by apply lit_NUL). run_bind.
  rewrite bool_decide_eq_true_2 by done. cbn [negb]. run_bind.
  unfold len. rewrite atoi_print_N by (unfold len; lia). run_bind. cbn [input fopen_bytes]. fold (fopen_bytes body).
  rewrite nat_N_Z, Hread. run_bind. unfold check_form, getenv. rewrite Hr. cbn [fmap option_fmap option_map]. run_bind.
  assert (Hcr : cstr (remote ++ [NUL]) remote) by (split; [done|by exists []]).
  rewrite (streq_spec _ _ _ _ Hcr (cstr_lit WIZARD ltac:(vm_compute; reflexivity))). run_bind. cbn [f_user f_p1 f_p2]. run_bind.
  rewrite (streq_spec _ _ _ _ Ha Hcr), (streq_spec _ _ _ _ Hb Hc), (bool_decide_eq_true_2 (p = p)) by done.
  replace (match bool_decide (remote = lit WIZARD) with true => Some true | false => Some (bool_decide (u = remote)) end) with (Some true).
  - run_bind. cbn [negb]. by apply update_file_spec with (rest := rest).
  - case_bool_decide; [done|]. destruct Hrem; [done|]. by rewrite bool_decide_eq_true_2.
Qed.
End Program.

(** ** A run *)

#[local] Instance passwd_memory : Memory := {|
  fresh n := replicate n "x"%char;
  fresh_length n := length_replicate n "x"%char
|}.

Definition passwd_demo_env (key : bytes) : option bytes :=
  if bool_decide (key = lit "REQUEST_METHOD") then Some (lit "POST")
  else if bool_decide (key = lit "CONTENT_TYPE") then Some (lit "application/x-www-form-urlencoded")
  else if bool_decide (key = lit "CONTENT_LENGTH") then Some (lit "36")
  else if bool_decide (key = lit "REMOTE_USER") then Some (lit "bob") else None.

Definition passwd_demo : Passwd_env :=
  {| tmp_opens := true;
     user_file := Some (unlines [lit "# users"; lit "ann:x"; lit "bob:y"; lit "bob:z"] ++ lit "eve:w");
     cp_works := true; random := 65 |}.

Lemma value_plain v :
  bool_decide (NUL ∉ v /\ "&"%char ∉ v /\ PERCENT ∉ v) = true -> value_encodes v v.
Proof.
  intros (Hn & Ha & Hp)%bool_decide_eq_true_1. split; [|done].
  induction v as [|c v IH]; [constructor|]. rewrite !not_elem_of_cons in *. constructor; [naive_solver|]. apply IH; naive_solver.
Qed.

Lemma password_changed_witness :
  passwd_main (fun p s => p ++ s) passwd_demo_env passwd_demo
    (fopen_bytes (lit "user=bob&newpasswd1=s3&newpasswd2=s3")) =
  Some {| page := CONTENT_TYPE ++ CHANGED; status := 0;
          new_file := Some (unlines [lit "# users"; lit "ann:x"; lit "bob:s3//"; lit "bob:z"]) |}.
Proof.
  refine (password_changed (fun p s => p ++ s) passwd_demo_env passwd_demo (lit "bob") (lit "bob") (lit "s3") (lit "bob")
    (lit "s3") (lit "s3") [lit "# users"; lit "ann:x"; lit "bob:y"; lit "bob:z"] (lit "eve:w") _ _ _ _ _ _ _ _ _ _ _ _ _ _ _ _);
    try reflexivity; try (apply value_plain; vm_compute; reflexivity).
  - right. reflexivity.
  - repeat constructor; vm_compute; reflexivity.
  - vm_compute. discriminate.
  - repeat constructor; try (vm_compute; lia); apply (bool_decide_eq_true_1 (NUL ∉ _)); vm_compute; reflexivity.
  - repeat constructor; try (vm_compute; lia). apply (bool_decide_eq_true_1 (NUL ∉ _)). vm_compute. reflexivity.
Defined.
