(* ===== verification/CgiOrder.v ===== *)
(** * The order form

    Models [legacy/http-root-dir/cgi-src/jj.c]: it prints a form, decodes a query into bit
    sets and three strings, and prints the order or mails it. The outcome of a run is the
    page and, if there is one, the mail; the temporary file it opens stays empty and is not
    part of it.
    [None] is undefined behaviour. *)

From Stdlib Require Import Ascii String.
From stdpp Require Import base numbers list gmap strings option.
From S2P Require Import Prelude CppLib StaticFileHandler CMem CgiUtil CgiUtilFacts CgiForms CgiFormsFacts.

Definition PASSWORD : string := "HTTPdRocKs".
Definition DQ : bytes := ["034"%char].

Definition sublist : list bytes :=
  [lit "The Pepe Gourmet Sub"; lit "Big John Gourmet Sub"; lit "Sorry Charlie Gourmet Sub";
   lit "Turkey Tom Gourmet Sub"; lit "Vito Gourmet Sub"; lit "Vegetarian Gourmet Sub";
   lit "Gourmet Smoked Ham Club"; lit "Billy Club"; lit "Italian Night Club"; lit "Hunter's Club";
   lit "Country Club"; lit "The Beach Club"].
Definition slimlist : list bytes :=
  [lit "Ham and Cheese"; lit "Rare Roast Beef"; lit "California Tuna"; lit "Sliced Turkey";
   lit "Salami and Capacola"; lit "Double Provolone"].
Definition sidelist : list bytes := [lit "Lay's Potato Chips"; lit "Jumbo Kosher Dill"].
Definition poplist : list bytes := [lit "Pepsi"; lit "Mountain Dew"; lit "Diet Pepsi"; lit "Iced Tea"].

Definition item (l : list bytes) (i : nat) : bytes := default [] (l !! i).

(** The lines of the form, each with a line feed. *)
Definition dump_form_lines : list bytes :=
  [lit "<TITLE>Form for Submarine Order</TITLE>";
   lit "<H1>Jimmy John's Submarine Order Form</H1>";
   lit "This form will send a faxed order to Jimmy John's in Champaign. Proper password is requred";
   lit "for order to be submitted, otherwise a copy of the order that would have been submitted will";
   lit "will be displayed.<P>";
   lit "<HR>";
   lit "<FORM ACTION=" ++ DQ ++ lit "jj" ++ DQ ++ lit ">";
   lit "Password: <INPUT TYPE=" ++ DQ ++ lit "text" ++ DQ ++ lit " NAME=" ++ DQ ++ lit "pwd" ++ DQ ++ lit " MAXLENGTH=" ++ DQ ++ lit "20" ++ DQ ++ lit "><P>";
   lit "<H3>Sub Type</H3>";
   lit "Select which you would like of the following:<P>";
   lit "<INPUT TYPE=" ++ DQ ++ lit "checkbox" ++ DQ ++ lit " NAME=" ++ DQ ++ lit "sub" ++ DQ ++ lit " VALUE=" ++ DQ ++ lit "0" ++ DQ ++ lit ">" ++ item sublist 0 ++ lit ":";
   lit "Smoked virginia ham and provolone cheese topped with lettuce, tomato, and mayo.<P>";
   lit "<INPUT TYPE=" ++ DQ ++ lit "checkbox" ++ DQ ++ lit " NAME=" ++ DQ ++ lit "sub" ++ DQ ++ lit " VALUE=" ++ DQ ++ lit "1" ++ DQ ++ lit ">" ++ item sublist 1 ++ lit ":";
   lit "Medium rare shaved roast beef topped with mayo, lettuce, and tomato.<P>";
   lit "<INPUT TYPE=" ++ DQ ++ lit "checkbox" ++ DQ ++ lit " NAME=" ++ DQ ++ lit "sub" ++ DQ ++ lit " VALUE=" ++ DQ ++ lit "2" ++ DQ ++ lit ">" ++ item sublist 2 ++ lit ":";
   lit "Tuna, mixed with celery, onions, and sauce, topped with lettuce,";
   lit "tomato, and alfalfa sprouts.<P>";
   lit "<INPUT TYPE=" ++ DQ ++ lit "checkbox" ++ DQ ++ lit " NAME=" ++ DQ ++ lit "sub" ++ DQ ++ lit " VALUE=" ++ DQ ++ lit "3" ++ DQ ++ lit ">" ++ item sublist 3 ++ lit ":";
   lit "Turkey breast topped with lettuce, mayo, alfalfa sprouts, and mayo.<P>";
   lit "<INPUT TYPE=" ++ DQ ++ lit "checkbox" ++ DQ ++ lit " NAME=" ++ DQ ++ lit "sub" ++ DQ ++ lit " VALUE=" ++ DQ ++ lit "4" ++ DQ ++ lit ">" ++ item sublist 4 ++ lit ":";
   lit "Genoa salami and provolone cheese topped with capacola, onion, lettuce, tomato, and Italian sauce.<P>";
   lit "<INPUT TYPE=" ++ DQ ++ lit "checkbox" ++ DQ ++ lit " NAME=" ++ DQ ++ lit "sub" ++ DQ ++ lit " VALUE=" ++ DQ ++ lit "5" ++ DQ ++ lit ">" ++ item sublist 5 ++ lit ":";
   lit "Layers of provolone cheese, separated by avocado, sprouts, lettuce, tomato, and mayo.<P>";
   lit "<INPUT TYPE=" ++ DQ ++ lit "checkbox" ++ DQ ++ lit " NAME=" ++ DQ ++ lit "sub" ++ DQ ++ lit " VALUE=" ++ DQ ++ lit "6" ++ DQ ++ lit ">" ++ item sublist 6 ++ lit ":";
   lit "1/4 pound of smoked ham, provolone cheese, topped with lettuce,";
   lit "tomato, and mayo.<P>";
   lit "<INPUT TYPE=" ++ DQ ++ lit "checkbox" ++ DQ ++ lit " NAME=" ++ DQ ++ lit "sub" ++ DQ ++ lit " VALUE=" ++ DQ ++ lit "7" ++ DQ ++ lit ">" ++ item sublist 7 ++ lit ":";
   lit "Shaved roast beef, provolone cheese, french dijon mustard, topped with shaved ham, lettuce,";
   lit "tomato, and mayo.<P>";
   lit "<INPUT TYPE=" ++ DQ ++ lit "checkbox" ++ DQ ++ lit " NAME=" ++ DQ ++ lit "sub" ++ DQ ++ lit " VALUE=" ++ DQ ++ lit "8" ++ DQ ++ lit ">" ++ item sublist 8 ++ lit ":";
   lit "Genoa salami, Italian capacola, smoked ham, and provolone cheese topped with lettuce,";
   lit "tomato, onions, mayo, and Italian sauce.<P>";
   lit "<INPUT TYPE=" ++ DQ ++ lit "checkbox" ++ DQ ++ lit " NAME=" ++ DQ ++ lit "sub" ++ DQ ++ lit " VALUE=" ++ DQ ++ lit "9" ++ DQ ++ lit ">" ++ item sublist 9 ++ lit ":";
   lit "1/4 pound of sliced roast beef, provolone cheese, topped with lettuce, tomato, and mayo.<P>";
   lit "<INPUT TYPE=" ++ DQ ++ lit "checkbox" ++ DQ ++ lit " NAME=" ++ DQ ++ lit "sub" ++ DQ ++ lit " VALUE=" ++ DQ ++ lit "10" ++ DQ ++ lit ">" ++ item sublist 10 ++ lit ":";
   lit "Turkey breast, smoked ham, and provolonecheese topped with lettuce, tomato, and mayo.<P>";
   lit "<INPUT TYPE=" ++ DQ ++ lit "checkbox" ++ DQ ++ lit " NAME=" ++ DQ ++ lit "sub" ++ DQ ++ lit " VALUE=" ++ DQ ++ lit "11" ++ DQ ++ lit ">" ++ item sublist 11 ++ lit ":";
   lit "Turkey breast, avocado, and cheese topped with lettuce, mayo, alfalfa, and tomato.<P>";
   lit "<H3>Slim Jim Subs</H3>";
   lit "Subs without veggies or sauce.<P>";
   lit "<INPUT TYPE=" ++ DQ ++ lit "checkbox" ++ DQ ++ lit " NAME=" ++ DQ ++ lit "slj" ++ DQ ++ lit " VALUE=" ++ DQ ++ lit "0" ++ DQ ++ lit ">" ++ item slimlist 0 ++ lit "<P>";
   lit "<INPUT TYPE=" ++ DQ ++ lit "checkbox" ++ DQ ++ lit " NAME=" ++ DQ ++ lit "slj" ++ DQ ++ lit " VALUE=" ++ DQ ++ lit "1" ++ DQ ++ lit ">" ++ item slimlist 1 ++ lit "<P>";
   lit "<INPUT TYPE=" ++ DQ ++ lit "checkbox" ++ DQ ++ lit " NAME=" ++ DQ ++ lit "slj" ++ DQ ++ lit " VALUE=" ++ DQ ++ lit "2" ++ DQ ++ lit ">" ++ item slimlist 2 ++ lit "<P>";
   lit "<INPUT TYPE=" ++ DQ ++ lit "checkbox" ++ DQ ++ lit " NAME=" ++ DQ ++ lit "slj" ++ DQ ++ lit " VALUE=" ++ DQ ++ lit "3" ++ DQ ++ lit ">" ++ item slimlist 3 ++ lit "<P>";
   lit "<INPUT TYPE=" ++ DQ ++ lit "checkbox" ++ DQ ++ lit " NAME=" ++ DQ ++ lit "slj" ++ DQ ++ lit " VALUE=" ++ DQ ++ lit "4" ++ DQ ++ lit ">" ++ item slimlist 4 ++ lit "<P>";
   lit "<INPUT TYPE=" ++ DQ ++ lit "checkbox" ++ DQ ++ lit " NAME=" ++ DQ ++ lit "slj" ++ DQ ++ lit " VALUE=" ++ DQ ++ lit "5" ++ DQ ++ lit ">" ++ item slimlist 5 ++ lit "<P>";
   lit "<H3>Side orders</H3>";
   lit "<INPUT TYPE=" ++ DQ ++ lit "checkbox" ++ DQ ++ lit " NAME=" ++ DQ ++ lit "sde" ++ DQ ++ lit " VALUE=" ++ DQ ++ lit "0" ++ DQ ++ lit ">" ++ item sidelist 0 ++ lit "<P>";
   lit "<INPUT TYPE=" ++ DQ ++ lit "checkbox" ++ DQ ++ lit " NAME=" ++ DQ ++ lit "sde" ++ DQ ++ lit " VALUE=" ++ DQ ++ lit "1" ++ DQ ++ lit ">" ++ item sidelist 1 ++ lit "<P>";
   lit "<H3>Drinks</H3>";
   lit "<INPUT TYPE=" ++ DQ ++ lit "checkbox" ++ DQ ++ lit " NAME=" ++ DQ ++ lit "pop" ++ DQ ++ lit " VALUE=" ++ DQ ++ lit "0" ++ DQ ++ lit ">" ++ item poplist 0 ++ lit "<P>";
   lit "<INPUT TYPE=" ++ DQ ++ lit "checkbox" ++ DQ ++ lit " NAME=" ++ DQ ++ lit "pop" ++ DQ ++ lit " VALUE=" ++ DQ ++ lit "1" ++ DQ ++ lit ">" ++ item poplist 1 ++ lit "<P>";
   lit "<INPUT TYPE=" ++ DQ ++ lit "checkbox" ++ DQ ++ lit " NAME=" ++ DQ ++ lit "pop" ++ DQ ++ lit " VALUE=" ++ DQ ++ lit "2" ++ DQ ++ lit ">" ++ item poplist 2 ++ lit "<P>";
   lit "<INPUT TYPE=" ++ DQ ++ lit "checkbox" ++ DQ ++ lit " NAME=" ++ DQ ++ lit "pop" ++ DQ ++ lit " VALUE=" ++ DQ ++ lit "3" ++ DQ ++ lit ">" ++ item poplist 3 ++ lit "<P>";
   lit "<H3>Your Address, Phone Number, and Name</H3>";
   lit "<INPUT TYPE=" ++ DQ ++ lit "text" ++ DQ ++ lit " NAME=" ++ DQ ++ lit "name" ++ DQ ++ lit " MAXLENGTH=" ++ DQ ++ lit "32" ++ DQ ++ lit ">Name<P>";
   lit "<INPUT TYPE=" ++ DQ ++ lit "text" ++ DQ ++ lit " NAME=" ++ DQ ++ lit "adr" ++ DQ ++ lit " MAXLENGTH=" ++ DQ ++ lit "64" ++ DQ ++ lit ">Address<P>";
   lit "<INPUT TYPE=" ++ DQ ++ lit "text" ++ DQ ++ lit " NAME=" ++ DQ ++ lit "phone" ++ DQ ++ lit " MAXLENGTH=" ++ DQ ++ lit "10" ++ DQ ++ lit ">Phone Number<P>";
   lit "<INPUT type=" ++ DQ ++ lit "submit" ++ DQ ++ lit ">";
   lit "</FORM>"].
Definition dump_form : bytes := concat (map (fun l => l ++ [LF]) dump_form_lines).

Definition print_error (reason : string) : bytes :=
  lit "<TITLE>Order Not Submitted</TITLE>" ++ [LF] ++ lit "<H1>Order Not Submitted</H1>" ++ [LF] ++
  lit "Your order has not been submitted, because " ++ lit reason ++ lit ".<P>" ++ [LF].

(** ** The query *)

Definition W_SIZE : nat := 256.
Definition CUSTOMER_SIZE : nat := 32.
Definition PHONE_SIZE : nat := 10.
Definition ADDRESS_SIZE : nat := 64.

Record order := {
  subs : Z; slims : Z; sides : Z; drinks : Z; allow : bool;
  customer : bytes; phone : bytes; address : bytes
}.

(** [getword(w,cl,stop); plustospace(w); unescape_url(w);] *)
Definition next_word (w cl : bytes) (stop : ascii) : option (bytes * bytes) :=
  '(w, cl) ← getword w cl stop; w ← plustospace w; w ← unescape_url w; Some (w, cl).

(** [1 << atoi(w)], which is undefined unless the result is an [int]. *)
Definition bit_of (w : bytes) : option Z :=
  s ← c_string w; n ← atoi s;
  if (0 <=? n)%Z && (n <? 31)%Z then Some (Z.shiftl 1 n) else None.

Definition with_items (subs slims sides drinks : Z) (o : order) : order :=
  {| subs := subs; slims := slims; sides := sides; drinks := drinks; allow := allow o;
     customer := customer o; phone := phone o; address := address o |}.
Definition with_allow (b : bool) (o : order) : order :=
  {| subs := subs o; slims := slims o; sides := sides o; drinks := drinks o; allow := b;
     customer := customer o; phone := phone o; address := address o |}.
Definition with_customer (name phone address : bytes) (o : order) : order :=
  {| subs := subs o; slims := slims o; sides := sides o; drinks := drinks o; allow := allow o;
     customer := name; phone := phone; address := address |}.

(** The body of the loop after the name of the field is in [w]. The test for [pwd] is not
    part of the chain that follows it. *)
Definition take_order_field (w cl : bytes) (o : order) : option (bytes * bytes * order) :=
  is_pwd ← streq w (c_lit "pwd");
  '(w, cl, o) ← match is_pwd with
                | true => '(w, cl) ← next_word w cl "&"; ok ← streq w (c_lit PASSWORD); Some (w, cl, with_allow ok o)
                | false => Some (w, cl, o)
                end;
  key ← c_string w;
  if bool_decide (key = lit "sub") then
    '(w, cl) ← next_word w cl "&"; b ← bit_of w;
    Some (w, cl, with_items (Z.lor (subs o) b) (slims o) (sides o) (drinks o) o)
  else if bool_decide (key = lit "slj") then
    '(w, cl) ← next_word w cl "&"; b ← bit_of w;
    Some (w, cl, with_items (subs o) (Z.lor (slims o) b) (sides o) (drinks o) o)
  else if bool_decide (key = lit "sde") then
    '(w, cl) ← next_word w cl "&"; b ← bit_of w;
    Some (w, cl, with_items (subs o) (slims o) (Z.lor (sides o) b) (drinks o) o)
  else if bool_decide (key = lit "pop") then
    '(w, cl) ← next_word w cl "&"; b ← bit_of w;
    Some (w, cl, with_items (subs o) (slims o) (sides o) (Z.lor (drinks o) b) o)
  else if bool_decide (key = lit "name") then
    '(w, cl) ← next_word w cl "&"; n ← strcpy (customer o) w;
    Some (w, cl, with_customer n (phone o) (address o) o)
  else if bool_decide (key = lit "phone") then
    '(w, cl) ← next_word w cl "&"; p ← strcpy (phone o) w;
    Some (w, cl, with_customer (customer o) p (address o) o)
  else if bool_decide (key = lit "adr") then
    '(w, cl) ← next_word w cl "&"; a ← strcpy (address o) w;
    Some (w, cl, with_customer (customer o) (phone o) a o)
  else Some (w, cl, o).

Fixpoint read_order (fuel : nat) (w cl : bytes) (o : order) : option order :=
  match fuel with
  | 0 => None
  | S fuel' =>
      c ← rd cl 0;
      if bool_decide (c = NUL) then Some o
      else
        '(w, cl) ← next_word w cl "=";
        '(w, cl, o) ← take_order_field w cl o;
        read_order fuel' w cl o
  end.

(** ** The order *)

(** [for(x=0; x<n; x++) if(set & (1 << x)) fprintf(order, "\t(1) %s...%c", ...)] *)
Definition print_items (l : list bytes) (set : Z) (suffix : bytes) : bytes :=
  concat (imap (fun x s => if Z.testbit set (Z.of_nat x)
                           then [HT] ++ lit "(1) " ++ s ++ suffix ++ [LF] else []) l).

Definition order_text (name phone address : bytes) (o : order) : bytes :=
  lit "My name is " ++ name ++ lit ", and I would like to have the following" ++ [LF] ++
  lit "order delivered to " ++ address ++ lit ":" ++ [LF; LF] ++
  print_items sublist (subs o) [] ++ print_items slimlist (slims o) (lit " Slim Jim") ++
  print_items sidelist (sides o) [] ++ print_items poplist (drinks o) [] ++
  [LF] ++ lit "Please feel free to call me at " ++ phone ++ lit " if there is any" ++ [LF] ++
  lit "problem. Thank you." ++ [LF; LF] ++ lit "." ++ [LF].

(** What a run leaves: the page and the mail. *)
Record jj_outcome := { jj_page : bytes; mailed : option bytes }.

Definition SENT : bytes :=
  lit "<TITLE>Order Sent</TITLE>" ++ [LF] ++ lit "<H1>Order Sent</H1>" ++ [LF] ++
  lit "Your order has been sent to the UIUC e-mail to FAX gateway.<P>" ++ [LF].
Definition SHOWN : bytes :=
  lit "<TITLE>Your Order</TITLE>" ++ [LF] ++ lit "<H1>Your Order</H1>" ++ [LF] ++
  lit "This is how your order would have looked if it had been sent.<P><PLAINTEXT>" ++ [LF].
Definition NO_TEMP : bytes :=
  lit "<TITLE>Server Error</TITLE>" ++ [LF] ++ lit "<H1>Server Error</H1>" ++ [LF] ++
  lit "Server unable to get a temporary file. Please try again later.<P>" ++ [LF].

(** The checks and the output, for the decoded order. *)
Definition place_order (mail_opens : bool) (o : order) : option jj_outcome :=
  n ← c_string (customer o); a ← c_string (address o); p ← c_string (phone o);
  let error reason := Some {| jj_page := CONTENT_TYPE ++ print_error reason; mailed := None |} in
  if bool_decide (n = []) then error "you didn't give your name"%string
  else if bool_decide (a = []) then error "you didn't give your address"%string
  else if bool_decide (p = []) then error "you didn't give your phone number"%string
  else if (subs o =? 0)%Z && (slims o =? 0)%Z && (sides o =? 0)%Z && (drinks o =? 0)%Z
  then error "you didn't order anything"%string
  else if allow o then
    if negb mail_opens then error "the server was unable to open a pipe to mail"%string
    else Some {| jj_page := CONTENT_TYPE ++ SENT; mailed := Some (order_text n p a o) |}
  else Some {| jj_page := CONTENT_TYPE ++ SHOWN ++ order_text n p a o; mailed := None |}.

Section Program.
Context `{Memory}.

(** An array that holds the empty string. *)
Definition empty_array (n : nat) : bytes := stored (fresh n) [].

Definition empty_order : order :=
  {| subs := 0; slims := 0; sides := 0; drinks := 0; allow := false; customer := empty_array CUSTOMER_SIZE;
     phone := empty_array PHONE_SIZE; address := empty_array ADDRESS_SIZE |}.

Definition jj_main (env : environ) (tmp_opens mail_opens : bool) : option jj_outcome :=
  match env (lit "QUERY_STRING") with
  | None | Some [] => Some {| jj_page := CONTENT_TYPE ++ dump_form; mailed := None |}
  | Some q =>
      if negb tmp_opens then Some {| jj_page := CONTENT_TYPE ++ NO_TEMP; mailed := None |}
      else
        o ← read_order (S (length q)) (fresh W_SIZE) (q ++ [NUL]) empty_order;
        place_order mail_opens o
  end.
End Program.
