(* ===== verification/CgiOrderFacts.v ===== *)
(** * Properties of the order form

    A form filled in within the sizes of the arrays is decoded field by field and ordered as
    given; the sizes the form itself allows are too large for the arrays. *)

From Stdlib Require Import Ascii String.
From stdpp Require Import base numbers list gmap strings option.
From S2P Require Import Prelude CppLib StaticFileHandler CMem CgiUtil CgiUtilFacts CgiForms CgiFormsFacts CgiOrder.

(** ** Words *)

Lemma next_word_spec w cl stop s word r v :
  cstr cl s -> cut stop s = (word, r) -> unescape (map plus_char word) = Some v -> NUL ∉ v ->
  (length word < length w)%nat ->
  exists w', next_word w cl stop = Some (w', stored cl r) /\ cstr w' v /\ length w' = length w.
Proof.
  intros Hcl Hc Hu Hv Hl. destruct (cut_NUL _ _ _ _ (proj1 Hcl) Hc) as [Hw _]. unfold next_word.
  rewrite (getword_spec _ _ _ _ _ _ Hcl Hc). destruct (Nat.ltb_spec (length word) (length w)); [|lia]. run_bind.
  rewrite (plustospace_spec _ word) by by apply cstr_stored. run_bind.
  rewrite (unescape_url_spec _ (map plus_char word) v); [|apply cstr_stored; by apply map_plus_NUL|done]. run_bind.
  eexists. split; [done|]. split; [by apply cstr_stored|].
  pose proof (unescape_length _ _ Hu) as Hlv. rewrite length_map in Hlv.
  assert (L1 : length (stored w word) = length w) by by apply length_stored.
  assert (L2 : length (stored (stored w word) (map plus_char word)) = length w)
    by (rewrite length_stored; rewrite ?length_map; lia).
  rewrite length_stored; lia.
Qed.

(** ** Fields *)

Definition KEYS : list bytes := [lit "sub"; lit "slj"; lit "sde"; lit "pop"; lit "name"; lit "phone"; lit "adr"].

Definition item_bit (v : bytes) : option Z :=
  n ← atoi v; if (0 <=? n)%Z && (n <? 31)%Z then Some (Z.shiftl 1 n) else None.

(** What a field means, for an order whose three texts are strings. *)
Definition apply_field (o : order) (k v : bytes) : option order :=
  if bool_decide (k = lit "pwd") then Some (with_allow (bool_decide (v = lit PASSWORD)) o)
  else if bool_decide (k = lit "sub") then
    b ← item_bit v; Some (with_items (Z.lor (subs o) b) (slims o) (sides o) (drinks o) o)
  else if bool_decide (k = lit "slj") then
    b ← item_bit v; Some (with_items (subs o) (Z.lor (slims o) b) (sides o) (drinks o) o)
  else if bool_decide (k = lit "sde") then
    b ← item_bit v; Some (with_items (subs o) (slims o) (Z.lor (sides o) b) (drinks o) o)
  else if bool_decide (k = lit "pop") then
    b ← item_bit v; Some (with_items (subs o) (slims o) (sides o) (Z.lor (drinks o) b) o)
  else if bool_decide (k = lit "name") then
    if (length v <? CUSTOMER_SIZE)%nat then Some (with_customer v (phone o) (address o) o) else None
  else if bool_decide (k = lit "phone") then
    if (length v <? PHONE_SIZE)%nat then Some (with_customer (customer o) v (address o) o) else None
  else if bool_decide (k = lit "adr") then
    if (length v <? ADDRESS_SIZE)%nat then Some (with_customer (customer o) (phone o) v o) else None
  else None.

Fixpoint apply_fields (o : order) (fs : list (bytes * bytes)) : option order :=
  match fs with [] => Some o | (k, v) :: fs' => o ← apply_field o k v; apply_fields o fs' end.

(** The arrays of [o] hold the strings of [a]. *)
Record represents (o a : order) : Prop := {
  rep_items : with_customer [] [] [] o = with_customer [] [] [] a;
  rep_customer : cstr (customer o) (customer a) /\ length (customer o) = CUSTOMER_SIZE;
  rep_phone : cstr (phone o) (phone a) /\ length (phone o) = PHONE_SIZE;
  rep_address : cstr (address o) (address a) /\ length (address o) = ADDRESS_SIZE
}.

(** A field as the form has it, with its name and its value. A password that is the name of
    another field would be taken for it. *)
Inductive order_field : bytes * bytes -> bytes -> Prop :=
| of_field k v ev :
    k ∈ lit "pwd" :: KEYS -> form_encodes v ev -> (length ev < W_SIZE)%nat -> (k = lit "pwd" -> v ∉ KEYS) ->
    order_field (k, v) (k ++ "="%char :: ev).

Lemma bit_of_spec w v : cstr w v -> bit_of w = item_bit v.
Proof. intros Hw%c_string_cstr. unfold bit_of. by rewrite Hw. Qed.

Lemma strcpy_fits dst w v n :
  cstr w v -> length dst = n ->
  strcpy dst w = (if (length v <? n)%nat then Some (stored dst v) else None) /\
  ((length v < n)%nat -> cstr (stored dst v) v /\ length (stored dst v) = n).
Proof.
  intros Hw <-. split; [by apply strcpy_spec|]. intros Hl. split; [apply cstr_stored; apply Hw|by apply length_stored].
Qed.

(** The fields that set a bit and those that set a text. *)
Ltac take_items Hw' Ha :=
  rewrite (bit_of_spec _ _ Hw');
  match type of Ha with context [item_bit ?v] => destruct (item_bit v) as [b|]; [|done] end;
  run_bind; injection Ha as <-; eexists _, _; (split; [done|]); (split; [lia|]);
  split; [unfold with_items, with_customer; cbn; congruence|done|done|done].

Ltac take_text Hw' Ha :=
  match goal with |- context [strcpy ?dst _] =>
    match goal with R : _ /\ length dst = ?n |- _ =>
      let E := fresh in let Hfit := fresh in destruct (strcpy_fits dst _ _ n Hw' (proj2 R)) as [E Hfit]; rewrite E;
      match type of E with context [(length ?v <? n)%nat] => destruct (Nat.ltb_spec (length v) n); [|done] end;
      run_bind; injection Ha as <-; eexists _, _; (split; [done|]); (split; [lia|]);
      split; [unfold with_customer; cbn; congruence|by auto|by auto|by auto]
    end
  end.

Lemma take_order_field_spec w cl s k v ev r o a a' :
  cstr w k -> length w = W_SIZE -> cstr cl s -> cut "&" s = (ev, r) ->
  k ∈ lit "pwd" :: KEYS -> form_encodes v ev -> (length ev < W_SIZE)%nat -> (k = lit "pwd" -> v ∉ KEYS) ->
  represents o a -> apply_field a k v = Some a' ->
  exists w' o', take_order_field w cl o = Some (w', stored cl r, o') /\ length w' = W_SIZE /\ represents o' a'.
Proof.
  intros Hw Hl Hcl Hcut Hk Hv Hev Hpwd [R1 R2 R3 R4] Ha. injection R1 as E1 E2 E3 E4 E5.
  destruct (form_encodes_plain _ _ Hv) as (Vn & _).
  destruct (next_word_spec w cl "&" s ev r v Hcl Hcut (form_decodes _ _ Hv) Vn) as (w' & Hn & Hw' & Hl'); [lia|].
  unfold take_order_field. rewrite (streq_spec _ _ _ _ Hw (cstr_lit "pwd" eq_refl)). run_bind.
  unfold apply_field in Ha. case_bool_decide as Kp.
  - run_bind. rewrite Hn. run_bind. rewrite (streq_spec _ _ _ _ Hw' (cstr_lit PASSWORD eq_refl)). run_bind.
    rewrite (proj2 (c_string_cstr _ _) Hw'). run_bind. specialize (Hpwd Kp). unfold KEYS in Hpwd.
    rewrite !not_elem_of_cons in Hpwd. destruct Hpwd as (? & ? & ? & ? & ? & ? & ? & _).
    rewrite !bool_decide_eq_false_2 by done. injection Ha as <-. eexists w', _. split; [done|]. split; [lia|].
    split; [cbn; unfold with_customer; cbn; congruence|done|done|done].
  - run_bind. rewrite (proj2 (c_string_cstr _ _) Hw). run_bind.
    apply elem_of_cons in Hk as [Hk|Hk]; [done|]. clear Hpwd Kp.
    repeat (case_bool_decide as K; [clear K; rewrite Hn; run_bind; first [take_items Hw' Ha | take_text Hw' Ha] | clear K]).
    done.
Qed.

(** ** The whole query *)

Lemma represents_order o a : represents o a ->
  forall mail, place_order mail o =
    let error reason := Some {| jj_page := CONTENT_TYPE ++ print_error reason; mailed := None |} in
    if bool_decide (customer a = []) then error "you didn't give your name"%string
    else if bool_decide (address a = []) then error "you didn't give your address"%string
    else if bool_decide (phone a = []) then error "you didn't give your phone number"%string
    else if (subs a =? 0)%Z && (slims a =? 0)%Z && (sides a =? 0)%Z && (drinks a =? 0)%Z
    then error "you didn't order anything"%string
    else if allow a then
      if negb mail then error "the server was unable to open a pipe to mail"%string
      else Some {| jj_page := CONTENT_TYPE ++ SENT; mailed := Some (order_text (customer a) (phone a) (address a) a) |}
    else Some {| jj_page := CONTENT_TYPE ++ SHOWN ++ order_text (customer a) (phone a) (address a) a; mailed := None |}.
Proof.
  intros [R1 [R2 _] [R3 _] [R4 _]] mail. injection R1 as E1 E2 E3 E4 E5. unfold place_order.
  rewrite (proj2 (c_string_cstr _ _) R2). run_bind. rewrite (proj2 (c_string_cstr _ _) R4). run_bind.
  rewrite (proj2 (c_string_cstr _ _) R3). run_bind. unfold order_text. by rewrite E1, E2, E3, E4, E5.
Qed.

Lemma key_plain k : k ∈ lit "pwd" :: KEYS -> NUL ∉ k /\ "="%char ∉ k /\ unescape (map plus_char k) = Some k /\ (length k < W_SIZE)%nat.
Proof.
  intros Hk. apply (bool_decide_eq_true_1 _).
  assert (Hall : Forall (fun k => bool_decide (NUL ∉ k /\ "="%char ∉ k /\ unescape (map plus_char k) = Some k /\ (length k < W_SIZE)%nat) = true) (lit "pwd" :: KEYS))
    by (repeat constructor; vm_compute; reflexivity).
  rewrite list.Forall_forall in Hall. by apply Hall.
Qed.

Lemma read_order_spec fs es : Forall2 order_field fs es -> forall fuel w cl o a a',
  cstr cl (join es) -> length w = W_SIZE -> (length es < fuel)%nat -> represents o a -> apply_fields a fs = Some a' ->
  exists o', read_order fuel w cl o = Some o' /\ represents o' a'.
Proof.
  induction 1 as [|[k v] e fs es He _ IH]; intros fuel w cl o a a' Hcl Hw Hf Hrep Ha;
    (destruct fuel as [|fuel]; [simpl in Hf; lia|]); cbn [read_order].
  - destruct Hcl as [_ [t ->]]. cbn. injection Ha as <-. by exists o.
  - inversion He as [k' v' ev Hk Hv Hev Hpwd]; subst. cbn [apply_fields] in Ha.
    destruct (apply_field a k v) as [a1|] eqn:Ea; [|done]. destruct (key_plain k Hk) as (Kn & Ke & Ku & Kl).
    destruct (form_encodes_plain _ _ Hv) as (Vn & En & Ea' & Ee).
    assert (Hj : exists r, join ((k ++ "="%char :: ev) :: es) = k ++ "="%char :: r /\ cut "&" r = (ev, join es)).
    { exists (join (ev :: es)). split; [destruct es; cbn [join]; by rewrite <- ?(assoc_L (++))|by apply cut_join]. }
    destruct Hj as (r & Hj & Hcut). rewrite Hj in Hcl.
    assert (Hhead : exists c, rd cl 0 = Some c /\ c <> NUL).
    { destruct Hcl as [_ [t ->]]. destruct k as [|c k]; [by exists "="%char|]. exists c. split; [done|].
      apply not_elem_of_cons in Kn as [? _]. congruence. }
    destruct Hhead as (c & -> & Hc). run_bind. rewrite bool_decide_eq_false_2 by done.
    destruct (next_word_spec w cl "=" (k ++ "="%char :: r) k r k Hcl) as (w1 & -> & Hw1 & Hl1);
      [by apply cut_at|done|done|lia|]. run_bind.
    assert (Hr : NUL ∉ r) by (destruct Hcl as [Hn _]; rewrite elem_of_app, elem_of_cons in Hn; naive_solver).
    destruct (take_order_field_spec w1 (stored cl r) r k v ev (join es) o a a1) as (w2 & o2 & -> & Hl2 & Hrep2);
      [done|lia|by apply cstr_stored|done|done|done|done|done|done|done|]. run_bind.
    apply (IH fuel w2 _ o2 a1 a'); [|done|simpl in Hf; lia|done|done].
    apply cstr_stored. by apply (cut_NUL _ _ _ _ Hr Hcut).
Qed.

Section Program.
Context `{Memory}.

(** An order before its fields, with strings for its texts. *)
Definition no_order : order :=
  {| subs := 0; slims := 0; sides := 0; drinks := 0; allow := false; customer := []; phone := []; address := [] |}.

Lemma empty_order_represents : represents empty_order no_order.
Proof.
  assert (He : forall n, (0 < n)%nat -> cstr (empty_array n) [] /\ length (empty_array n) = n).
  { intros n Hn. unfold empty_array. split; [apply cstr_stored, not_elem_of_nil|].
    rewrite length_stored; [apply fresh_length|rewrite fresh_length; simpl; lia]. }
  split; [done|..]; apply He; vm_compute; lia.
Qed.

(** An order is placed as the form says: each item whose box is ticked, once, with the name,
    address and telephone number, mailed when the password is right and shown otherwise, for
    fields in any order and any encoding as long as every text fits its array. *)
Theorem order_placed env mail q fs e es a :
  env (lit "QUERY_STRING") = Some q -> q = join (e :: es) -> Forall2 order_field fs (e :: es) ->
  apply_fields no_order fs = Some a ->
  customer a <> [] -> address a <> [] -> phone a <> [] ->
  (subs a, slims a, sides a, drinks a) <> (0, 0, 0, 0)%Z ->
  jj_main env true mail = Some (
    let text := order_text (customer a) (phone a) (address a) a in
    if allow a then
      if mail then {| jj_page := CONTENT_TYPE ++ SENT; mailed := Some text |}
      else {| jj_page := CONTENT_TYPE ++ print_error "the server was unable to open a pipe to mail"; mailed := None |}
    else {| jj_page := CONTENT_TYPE ++ SHOWN ++ text; mailed := None |}).
Proof.
  intros Hq -> Hfs Ha Hc Had Hp Hitems. unfold jj_main. rewrite Hq.
  assert (Hplain : Forall (fun e => NUL ∉ e /\ e <> []) (e :: es)).
  { clear -Hfs. induction Hfs as [|? ? ? ? Hf _ IH]; [constructor|]. constructor; [|done].
    destruct Hf as [k v ev Hk Hv _ _]. destruct (key_plain k Hk) as (Kn & _), (form_encodes_plain _ _ Hv) as (_ & En & _).
    split; [rewrite elem_of_app, elem_of_cons; naive_solver|by destruct k]. }
  assert (Hj : NUL ∉ join (e :: es) /\ (length (e :: es) <= length (join (e :: es)))%nat).
  { clear -Hplain. induction Hplain as [|x l [Hx Hne] Hl IH]; [split; [apply not_elem_of_nil|done]|].
    destruct l as [|y l]; [destruct x; [done|]; split; [done|simpl; lia]|]. destruct IH as [IH1 IH2].
    change (join (x :: y :: l)) with (x ++ "&"%char :: join (y :: l)). rewrite elem_of_app, elem_of_cons, length_app.
    split; [naive_solver|]. destruct x; [done|]. cbn [length] in *. lia. }
  destruct Hj as [Hn Hlen]. destruct (join (e :: es)) as [|c q] eqn:Ej; [simpl in Hlen; lia|]. rewrite <- Ej in *. cbn [negb].
  destruct (read_order_spec fs (e :: es) Hfs (S (length (join (e :: es)))) (fresh W_SIZE) (join (e :: es) ++ [NUL]) empty_order no_order a)
    as (o' & -> & Hrep); [split; [done|by exists []]|apply fresh_length|lia|apply empty_order_represents|done|].
  run_bind. rewrite (represents_order o' a Hrep). cbv zeta. rewrite !bool_decide_eq_false_2 by done.
  replace (_ && _ && _ && _) with false; [by destruct (allow a), mail|].
  destruct (Z.eqb_spec (subs a) 0), (Z.eqb_spec (slims a) 0), (Z.eqb_spec (sides a) 0), (Z.eqb_spec (drinks a) 0); try done.
  congruence.
Qed.

(** The form lets the user type ten characters for the telephone number, thirty-two for the
    name and sixty-four for the address; each is one more than its array takes. *)
Theorem full_field_overflows env q mail k v ev es :
  env (lit "QUERY_STRING") = Some q -> q = join ((k ++ "="%char :: ev) :: es) ->
  NUL ∉ q -> form_encodes v ev -> (length ev < W_SIZE)%nat ->
  (k, length v) ∈ [(lit "name", CUSTOMER_SIZE); (lit "phone", PHONE_SIZE); (lit "adr", ADDRESS_SIZE)] ->
  jj_main env true mail = None.
Proof.
  intros Hq -> Hn Hv Hl Hk. unfold jj_main. rewrite Hq. rewrite !list_elem_of_In in Hk. cbn [In] in Hk.
  assert (Hkey : k ∈ lit "pwd" :: KEYS).
  { apply list_elem_of_In. destruct Hk as [[= <- _]|[[= <- _]|[[= <- _]|[]]]]; simpl; tauto. }
  destruct (key_plain k Hkey) as (Kn & Ke & Ku & Kl). destruct (form_encodes_plain _ _ Hv) as (Vn & En & Ea & Ee).
  assert (Hj : exists r, join ((k ++ "="%char :: ev) :: es) = k ++ "="%char :: r /\ cut "&" r = (ev, join es)).
  { exists (join (ev :: es)). split; [destruct es; cbn [join]; by rewrite <- ?(assoc_L (++))|by apply cut_join]. }
  destruct Hj as (r & Hj & Hcut). rewrite Hj in *. clear Hq Hj.
  assert (Hcl : cstr ((k ++ "="%char :: r) ++ [NUL]) (k ++ "="%char :: r)) by (split; [done|by exists []]).
  assert (Hne : exists c t, k ++ "="%char :: r = c :: t /\ c <> NUL).
  { destruct k as [|c k]; [by eexists _, _|]. eexists c, _. split; [done|]. apply not_elem_of_cons in Kn as [? _]. congruence. }
  destruct Hne as (c & t & Hct & Hc). rewrite Hct at 1. cbn [negb]. 
  cbn [read_order]. assert (Hrd : rd ((k ++ "="%char :: r) ++ [NUL]) 0 = Some c) by by rewrite Hct.
  rewrite Hrd. run_bind. rewrite bool_decide_eq_false_2 by done.
  destruct (next_word_spec (fresh W_SIZE) _ "=" _ k r k Hcl) as (w1 & -> & Hw1 & Hl1);
    [by apply cut_at|done|done|by rewrite fresh_length|]. run_bind. rewrite fresh_length in Hl1.
  assert (Hr : NUL ∉ r) by (rewrite elem_of_app, elem_of_cons in Hn; naive_solver).
  destruct (next_word_spec w1 (stored ((k ++ "="%char :: r) ++ [NUL]) r) "&" r ev (join es) v) as (w2 & Hn2 & Hw2 & _);
    [by apply cstr_stored|done|by apply form_decodes|done|lia|].
  assert (Hno : take_order_field w1 (stored ((k ++ "="%char :: r) ++ [NUL]) r) empty_order = None); [|by rewrite Hno].
  unfold take_order_field. rewrite (streq_spec _ _ _ _ Hw1 (cstr_lit "pwd" eq_refl)). run_bind.
  destruct empty_order_represents as [_ [_ R2] [_ R3] [_ R4]].
  destruct Hk as [[= <- Hlv]|[[= <- Hlv]|[[= <- Hlv]|[]]]]; rewrite bool_decide_eq_false_2 by done; run_bind;
    rewrite (proj2 (c_string_cstr _ _) Hw1); run_bind; rewrite ?bool_decide_eq_false_2 by done;
    rewrite bool_decide_eq_true_2 by done; rewrite Hn2; run_bind;
    match goal with |- context [strcpy ?d _] => rewrite (proj1 (strcpy_fits d _ _ _ Hw2 eq_refl)) end;
    rewrite ?R2, ?R3, ?R4, <- Hlv, Nat.ltb_irrefl; done.
Qed.
End Program.
