(* ===== verification/Daytime.v ===== *)
(** * The server of the time of day

    Models [legacy/daytime-server.cc]: it asks each client for a name, one at a time, and
    answers with a greeting and the time. The bytes a client sends before it closes, the
    answers of the socket calls and the text of the time are parameters; the results of
    [write] are not looked at, so a write is the bytes it was given. *)

From Stdlib Require Import Ascii String.
From stdpp Require Import base numbers list gmap strings option.
From S2P Require Import Prelude CppLib CMem.

(** ** One client *)

Definition MaxName : nat := N.to_nat 1024.
Definition PROMPT : bytes := LF :: lit "Type your name:".
Definition HI : bytes := LF :: lit "Hi ".
Definition TIME_IS : bytes := lit " the time is:" ++ [LF].

(** The loop over the characters; [inp] is what the client still sends. The result is the
    length of the name, its array and the rest of the input. *)
Fixpoint read_name (inp : bytes) (lastChar : ascii) (nameLength : nat) (name : bytes) :
    option (nat * bytes * bytes) :=
  if (nameLength <? MaxName)%nat then
    match inp with
    | [] => Some (nameLength, name, [])
    | newChar :: inp' =>
        if bool_decide (lastChar = CR) && bool_decide (newChar = LF)
        then Some ((nameLength - 1)%nat, name, inp')
        else name ← wr name nameLength newChar; read_name inp' newChar (S nameLength) name
    end
  else Some (nameLength, name, inp).

(** The writes to the client, the line on standard output and the input not read. *)
Definition processTimeRequest `{Memory} (timeString inp : bytes) : option (list bytes * bytes * bytes) :=
  '(nameLength, name, rest) ← read_name inp NUL 0 (fresh (S MaxName));
  name ← wr name nameLength NUL;
  s ← c_string name;
  Some ([PROMPT; HI; s; TIME_IS; timeString; [LF]], lit "name=" ++ s ++ [LF], rest).

(** ** The server *)

(** [bind] gets the port; the result of [setsockopt] is not used. *)
Record Calls := { c_socket : bool; c_bind : N -> bool; c_listen : bool }.

(** [(u_short) port] *)
Definition u_short (port : Z) : N := Z.to_N (port mod 65536).

(** One round of the loop: [accept] fails, or gives a client with what it sends and the time
    when it is answered. *)
Inductive accept_result := AcceptFails | AcceptClient (inp timeString : bytes).

(** What the program does to the outside. *)
Inductive act := Say (text : bytes) | Write (data : bytes) | CloseClient | Exit (code : Z).

(** The loop, for as many rounds as are given. *)
Fixpoint rounds `{Memory} (rs : list accept_result) : option (list act) :=
  match rs with
  | [] => Some []
  | AcceptFails :: _ => Some [Exit (-1)]
  | AcceptClient inp timeString :: rs' =>
      '(writes, line, _) ← processTimeRequest timeString inp;
      more ← rounds rs';
      Some (map Write (take 1 writes) ++ Say line :: map Write (drop 1 writes) ++ CloseClient :: more)
  end.

(** The arguments are without the program's name; a failed call ends the program. *)
Definition daytime_main `{Memory} (argv : list bytes) (calls : Calls) (rs : list accept_result) : option (list act) :=
  match argv with
  | [] => Some [Exit (-1)]
  | arg :: _ =>
      port ← atoi arg;
      if negb (c_socket calls) then Some [Exit (-1)]
      else if negb (c_bind calls (u_short port)) then Some [Exit (-1)]
      else if negb (c_listen calls) then Some [Exit (-1)]
      else rounds rs
  end.

(** ** Reference: the name *)

(** The bytes before the first carriage return and line feed, at most [MaxName] of them. *)
Definition client_name (inp : bytes) : bytes :=
  match search CRLF inp with
  | Some i => if (S i <? MaxName)%nat then take i inp else take MaxName inp
  | None => take MaxName inp
  end.

(** The greeting shows the name up to its first NUL. *)
Definition greeted (inp : bytes) : bytes := default [] (c_string (client_name inp ++ [NUL])).

(** ** The name is read exactly *)

(** What was read so far ends in [c], or nothing was. *)
Definition ends_in (s : bytes) (c : ascii) : Prop := (exists t, s = t ++ [c]) \/ (s = [] /\ c = NUL).

Lemma search_crlf_snoc s c d :
  search CRLF s = None -> ends_in s d -> ~ (d = CR /\ c = LF) -> search CRLF (s ++ [c]) = None.
Proof.
  intros Hs He Hn. destruct (search CRLF (s ++ [c])) as [i|] eqn:E; [|done]. exfalso.
  pose proof (search_bound _ _ _ E) as Hb. rewrite length_app in Hb. change (length CRLF) with 2 in Hb. simpl in Hb.
  destruct (Nat.le_gt_cases (i + 2) (length s)) as [Hle|Hgt].
  { apply search_app_inv in E; [congruence|done]. }
  apply search_Some_split in E as Hsp. rewrite (drop_ge _ (i + length CRLF)) in Hsp
    by (rewrite length_app; change (length CRLF) with 2; simpl; lia).
  rewrite app_nil_r in Hsp. change CRLF with ([CR] ++ [LF]) in Hsp. rewrite (assoc_L (++)) in Hsp.
  apply app_inj_tail in Hsp as [Hsp ->]. destruct He as [[t ->]|[-> _]].
  - apply app_inj_tail in Hsp as [_ ->]. by apply Hn.
  - by destruct (take i _).
Qed.

Lemma search_crlf_end s t : search CRLF (s ++ [CR]) = None -> search CRLF (s ++ CR :: LF :: t) = Some (length s).
Proof.
  intros Hs. apply (search_here CRLF s t). intros j Hj.
  apply (search_None_drop _ _ j), search_None_starts in Hs. rewrite drop_app_le in Hs by lia.
  change (CRLF ++ t) with ([CR] ++ (LF :: t)). rewrite (assoc_L (++)), starts_with_app_inv; [done|].
  rewrite length_app, length_drop. simpl. lia.
Qed.

Lemma read_name_spec inp : forall before name lastChar,
  (length before <= MaxName)%nat -> length name = S MaxName -> take (length before) name = before ->
  ends_in before lastChar -> search CRLF before = None ->
  exists name' rest n, read_name inp lastChar (length before) name = Some (n, name', rest) /\
    length name' = S MaxName /\ (n <= MaxName)%nat /\ take n name' = client_name (before ++ inp).
Proof.
  induction inp as [|c inp IH]; intros before name last_ Hb Hn Ht He Hs; cbn [read_name];
    (destruct (Nat.ltb_spec (length before) MaxName) as [Hlt|Hge]; [|eexists _, _, _; split; [done|]; split; [done|];
       split; [done|]; unfold client_name; rewrite (take_app_length' _ _ MaxName) by lia;
       destruct (search CRLF (before ++ _)) as [i|] eqn:E; [|done];
       destruct (Nat.ltb_spec (S i) MaxName); [|done]; apply search_app_inv in E; [congruence|change (length CRLF) with 2; lia]]).
  - eexists _, _, _. split; [done|]. split; [done|]. split; [done|]. rewrite app_nil_r. unfold client_name.
    by rewrite Hs, (take_ge before) by lia.
  - destruct (bool_decide (last_ = CR) && bool_decide (c = LF)) eqn:E.
    + apply andb_true_iff in E as [->%bool_decide_eq_true_1 ->%bool_decide_eq_true_1].
      eexists _, _, _. split; [done|]. split; [done|]. split; [lia|]. unfold client_name.
      destruct He as [[t ->]|[_ Hx]]; [|done]. rewrite length_app in Hlt, Ht |- *. cbn [length] in *.
      rewrite Nat.add_sub, <- (assoc_L (++)). cbn [app]. rewrite search_crlf_end by done.
      destruct (Nat.ltb_spec (S (length t)) MaxName); [|lia]. rewrite take_app_length.
      apply (f_equal (take (length t))) in Ht. by rewrite take_take, Nat.min_l, take_app_length in Ht by lia.
    + rewrite wr_Some by lia. run_bind.
      destruct (IH (before ++ [c]) (<[length before := c]> name) c) as (name' & rest & n & E' & P).
      * rewrite length_app. simpl. lia.
      * by rewrite length_insert.
      * rewrite length_app, Nat.add_1_r, take_insert_next by lia. by rewrite Ht.
      * left. by exists before.
      * apply (search_crlf_snoc before c last_); [done|done|]. intros [-> ->]. by rewrite !bool_decide_eq_true_2 in E.
      * rewrite length_app, Nat.add_1_r in E'. rewrite <- (assoc_L (++)) in P. by eexists name', rest, n.
Qed.

Lemma c_string_cut s t : c_string (s ++ NUL :: t) = Some (default [] (c_string (s ++ [NUL]))).
Proof.
  revert t. induction s as [|c s IH]; intros t; cbn [app c_string]; [by rewrite !decide_True|].
  case_decide; [done|]. rewrite IH. pose proof (IH []) as E. by destruct (c_string (s ++ [NUL])).
Qed.

(** What a client that sends [inp] is answered: the name is what it sent before its first
    end of line, cut at 1024 bytes, shown up to its first NUL. No client makes the server
    write outside the array of the name. *)
Theorem daytime_greets `{Memory} timeString inp :
  exists rest, processTimeRequest timeString inp =
    Some ([PROMPT; HI; greeted inp; TIME_IS; timeString; [LF]], lit "name=" ++ greeted inp ++ [LF], rest).
Proof.
  unfold processTimeRequest.
  destruct (read_name_spec inp [] (fresh (S MaxName)) NUL) as (name & rest & n & E & Hl & Hn & Ht);
    [simpl; lia|apply fresh_length|done|by right|done|].
  cbn [length] in E. rewrite E. run_bind. rewrite wr_Some by lia. run_bind. exists rest.
  assert (Hs : c_string (<[n := NUL]> name) = Some (greeted inp)); [|by rewrite Hs].
  rewrite insert_take_drop, Ht by lia. unfold greeted. cbn [app].
  apply c_string_cut.
Qed.

Lemma rounds_total `{Memory} rs : exists acts, rounds rs = Some acts.
Proof.
  induction rs as [|[|inp timeString] rs [acts IH]]; [by eexists|by eexists|]. cbn [rounds].
  destruct (daytime_greets timeString inp) as [rest ->]. run_bind. rewrite IH. by eexists.
Qed.

(** The server never does anything undefined, whatever its clients send, once its argument is
    a number that fits. *)
Theorem daytime_defined `{Memory} arg rest port calls rs :
  atoi arg = Some port -> exists acts, daytime_main (arg :: rest) calls rs = Some acts.
Proof.
  intros Hp. unfold daytime_main. rewrite Hp. run_bind.
  destruct (c_socket calls), (c_bind calls (u_short port)), (c_listen calls); cbn [negb]; try by eexists.
  apply rounds_total.
Qed.
