(* ===== verification/Hello.v ===== *)
(** * The shared-object example

    Models [legacy/hello.cc], a shared object with one function that writes a page to a
    descriptor, and [legacy/use-dlopen.cc], a program that loads it and calls that function.
    The dynamic loader is a parameter. *)

From Stdlib Require Import Ascii String.
From stdpp Require Import base numbers list gmap strings option.
From S2P Require Import Prelude CppLib Fd Listener.

(** What a call of the function leaves: the bytes written to the descriptor, which is closed
    afterwards. [None] is undefined behaviour. *)
Record page_written := { on_fd : Z; page : bytes; closed_after : bool }.

(** [httprun]: when [fdopen] fails the error is reported and the null stream is used all the
    same. *)
Definition httprun (fdopen : Z -> bool) (ssock : Z) (query_string : bytes) : option page_written :=
  if negb (fdopen ssock) then None
  else Some {| on_fd := ssock;
               page := lit "Content-type: text/html" ++ [LF; LF] ++
                       lit "<h1>Hello. Hi from hello.so</h1>" ++ [LF];
               closed_after := true |}.

Definition httprunfunc : Type := Z -> bytes -> option page_written.

(** How the program ends: its status, what it wrote to the error stream, what the function
    wrote. *)
Record loader_outcome := { exit_status : Z; errors : bytes; written : option page_written }.

Section Loader.
Context `{ErrorTexts} {library : Type}.
Context (dlopen : bytes -> option library) (dlsym : library -> bytes -> option httprunfunc) (errno : Z).

Definition perror (s : bytes) : bytes := syscall_error s errno ++ [LF].

Definition use_dlopen_main : option loader_outcome :=
  match dlopen (lit "./hello.so") with
  | None => Some {| exit_status := 1; errors := lit "./hello.so not found" ++ [LF] ++ perror (lit "dlopen");
                    written := None |}
  | Some lib =>
      match dlsym lib (lit "httprun") with
      | None => Some {| exit_status := 1; errors := perror (lit "dlsym: httprun not found:"); written := None |}
      | Some hello_httprun =>
          out ← hello_httprun 1%Z (lit "a=b&c=d");
          Some {| exit_status := 0; errors := []; written := Some out |}
      end
  end.

(** The program ends with status 0 exactly when the object and its function are found, and with
    the object of [hello.cc] the page is on the standard output, which is then closed; an object
    whose function runs into undefined behaviour is the only way not to end. *)
Theorem use_dlopen_ends fdopen :
  (forall lib f, dlopen (lit "./hello.so") = Some lib -> dlsym lib (lit "httprun") = Some f -> f = httprun fdopen) ->
  fdopen 1%Z = true ->
  exists o, use_dlopen_main = Some o /\
    (exit_status o = 0%Z <-> exists lib f, dlopen (lit "./hello.so") = Some lib /\ dlsym lib (lit "httprun") = Some f) /\
    (exit_status o = 0%Z -> errors o = [] /\ exists out, written o = Some out /\ on_fd out = 1%Z /\
       closed_after out = true /\ lit "<h1>Hello. Hi from hello.so</h1>" ++ [LF] `suffix_of` page out) /\
    (exit_status o <> 0%Z -> exit_status o = 1%Z /\ errors o <> [] /\ written o = None).
Proof.
  intros Hlib Hfd. unfold use_dlopen_main.
  destruct (dlopen (lit "./hello.so")) as [lib|]; [|by eexists; split; [done|]; split_and!; naive_solver].
  destruct (dlsym lib (lit "httprun")) as [f|] eqn:Ef; [|by eexists; split; [done|]; split_and!; naive_solver].
  rewrite (Hlib lib f eq_refl Ef). unfold httprun. rewrite Hfd. eexists. split; [done|].
  split_and!; [naive_solver| |done]. intros _. split; [done|]. eexists. split_and!; [done..|].
  exists (lit "Content-type: text/html" ++ [LF; LF]). done.
Qed.
End Loader.
