(* ===== verification/Double.v ===== *)
(** * Doubles of the C and C++ programs

    [double] is the IEEE 754 binary64 format, as the Standard Library specifies it
    ([SpecFloat] with 53 bits of precision); conversions from integers, comparisons, and
    the default output of [operator<<], which is that of [printf]'s [%g]. *)

From Stdlib Require Import ZArith Ascii String SpecFloat.
From stdpp Require Import base numbers list strings.
From S2P Require Import Prelude CppLib.

Definition double : Type := spec_float.
Definition PREC : Z := 53.
Definition EMAX : Z := 1024.

Definition d_add : double -> double -> double := SFadd PREC EMAX.
Definition d_sub : double -> double -> double := SFsub PREC EMAX.
Definition d_mul : double -> double -> double := SFmul PREC EMAX.
Definition d_div : double -> double -> double := SFdiv PREC EMAX.

(** [(double) z] *)
Definition d_of_Z (z : Z) : double := binary_normalize PREC EMAX z 0 false.

Definition d_lt (a b : double) : bool := SFltb a b.
Definition d_ge (a b : double) : bool := SFleb b a.

(** ** Output *)

(** Division rounded to the nearest integer, ties to even. *)
Definition round_div (a b : Z) : Z :=
  let q := (a / b)%Z in let r := (a mod b)%Z in
  if (2 * r <? b)%Z then q else if (b <? 2 * r)%Z then (q + 1)%Z
  else if Z.even q then q else (q + 1)%Z.

(** The position of the first digit of [n / d]: the greatest [x] with
    [10 ^ x <= n / d], searched from [x] downwards. *)
Fixpoint exponent10 (fuel : nat) (n d x : Z) : Z :=
  match fuel with
  | 0 => x
  | S fuel' =>
      let at_least := if (0 <=? x)%Z then (d * 10 ^ x <=? n)%Z else (d <=? n * 10 ^ (- x))%Z in
      if at_least then x else exponent10 fuel' n d (x - 1)
  end.

Definition pad (k : nat) (s : bytes) : bytes := replicate (k - length s) "0"%char ++ s.

(** A decimal fraction without its trailing zeros, and without the point when nothing is
    left after it. *)
Fixpoint strip_zeros (s : bytes) : bytes :=
  match s with
  | [] => []
  | c :: s' =>
      match strip_zeros s' with
      | [] => if bool_decide (c = "0"%char) then [] else [c]
      | t => c :: t
      end
  end.

Definition with_point (whole fraction : bytes) : bytes :=
  match strip_zeros fraction with [] => whole | f => whole ++ "."%char :: f end.

(** [%g] of the positive number [n / d] with six significant digits. *)
Definition print_ratio (n d : Z) : bytes :=
  let x := exponent10 (N.to_nat 700) n d 330 in
  let digits := if (x <=? 5)%Z then round_div (n * 10 ^ (5 - x)) d else round_div n (d * 10 ^ (x - 5)) in
  let '(digits, x) := if (digits =? 1000000)%Z then (100000%Z, (x + 1)%Z) else (digits, x) in
  let ds := print_Z digits in
  if (x <? -4)%Z || (5 <? x)%Z then
    with_point (take 1 ds) (drop 1 ds) ++ "e"%char :: (if (x <? 0)%Z then "-"%char else "+"%char) ::
    pad 2 (print_Z (Z.abs x))
  else if (x <? 0)%Z then with_point (lit "0") (replicate (Z.to_nat (- x - 1)) "0"%char ++ ds)
  else with_point (take (S (Z.to_nat x)) ds) (drop (S (Z.to_nat x)) ds).

Definition print_double (x : double) : bytes :=
  match x with
  | S754_zero s => if (s : bool) then lit "-0" else lit "0"
  | S754_infinity s => if (s : bool) then lit "-inf" else lit "inf"
  | S754_nan => lit "nan"
  | S754_finite s m e =>
      let '(n, d) := if (0 <=? e)%Z then (Z.pos m * 2 ^ e, 1)%Z else (Z.pos m, 2 ^ (- e))%Z in
      (if (s : bool) then ["-"%char] else []) ++ print_ratio n d
  end.

Example print_int : print_double (d_of_Z 42) = lit "42". Proof. vm_compute. reflexivity. Qed.
Example print_large : print_double (d_of_Z 1234567) = lit "1.23457e+06". Proof. vm_compute. reflexivity. Qed.
Example print_small : print_double (d_div (d_of_Z 15) (d_of_Z 1000000)) = lit "1.5e-05". Proof. vm_compute. reflexivity. Qed.
Example print_fraction : print_double (d_div (d_of_Z 1234) (d_of_Z 1000000)) = lit "0.001234". Proof. vm_compute. reflexivity. Qed.
Example print_negative : print_double (d_of_Z (-1)) = lit "-1". Proof. vm_compute. reflexivity. Qed.

(** ** The order of the doubles that are not negative *)

(** The double is neither a NaN nor negative; a zero may have either sign. *)
Definition nonneg (x : double) : bool :=
  match x with
  | S754_zero _ | S754_infinity false | S754_finite false _ _ => true
  | _ => false
  end.

(** Where such a double stands: its exponent and its significand, and the class first. *)
Definition rank (x : double) : Z * (Z * Z) :=
  match x with
  | S754_zero _ => (0, (0, 0))%Z
  | S754_finite _ m e => (1, (e, Z.pos m))%Z
  | _ => (2, (0, 0))%Z
  end.

Definition rank_lt (a b : Z * (Z * Z)) : Prop :=
  (a.1 < b.1 \/ a.1 = b.1 /\ (a.2.1 < b.2.1 \/ a.2.1 = b.2.1 /\ a.2.2 < b.2.2))%Z.

Lemma d_lt_rank x y : nonneg x = true -> nonneg y = true -> d_lt x y = true <-> rank_lt (rank x) (rank y).
Proof.
  unfold d_lt, SFltb, rank_lt.
  destruct x as [sx|[|]| |[|] mx ex], y as [sy|[|]| |[|] my ey]; try done; intros _ _; cbn [rank fst snd SFcompare];
    try (split; [done|lia]); try (split; [lia|done]).
  change (Pos.compare_cont Eq mx my) with (mx ?= my)%positive.
  destruct (Z.compare_spec ex ey); [|split; [lia|done]|split; [done|lia]].
  destruct (Pos.compare_spec mx my); split; (done || lia).
Qed.

Lemma d_lt_false_rank x y : nonneg x = true -> nonneg y = true -> d_lt x y = false <-> ~ rank_lt (rank x) (rank y).
Proof. intros Hx Hy. rewrite <- d_lt_rank by done. by destruct (d_lt x y). Qed.

Lemma d_ge_trans x y z : nonneg x = true -> nonneg y = true -> nonneg z = true ->
  d_lt x y = false -> d_lt y z = false -> d_lt x z = false.
Proof. intros Hx Hy Hz. rewrite !d_lt_false_rank by done. unfold rank_lt. lia. Qed.

Lemma d_lt_le x y : nonneg x = true -> nonneg y = true -> d_lt x y = true -> d_lt y x = false.
Proof. intros Hx Hy. rewrite d_lt_rank, d_lt_false_rank by done. unfold rank_lt. lia. Qed.

Lemma d_lt_irrefl x : nonneg x = true -> d_lt x x = false.
Proof. intros Hx. rewrite d_lt_false_rank by done. unfold rank_lt. lia. Qed.

(** ** Rounding keeps the sign *)

Lemma shr_1_pos r : (0 <= shr_m r -> 0 <= shr_m (shr_1 r))%Z.
Proof. destruct r as [[|[m|m|]|[m|m|]] r s]; simpl; lia. Qed.

Lemma iter_pos_pres {A} (P : A -> Prop) (f : A -> A) n : (forall x, P x -> P (f x)) -> forall x, P x -> P (SpecFloat.iter_pos f n x).
Proof. intros Hf. induction n; simpl; auto. Qed.

Lemma shr_pos r e n : (0 <= shr_m r -> 0 <= shr_m (shr r e n).1)%Z.
Proof.
  intros Hr. destruct n as [|n|n]; simpl; [done| |done].
  apply (iter_pos_pres (fun r => (0 <= shr_m r)%Z)); [apply shr_1_pos|done].
Qed.

Lemma round_pos m l : (0 <= m -> 0 <= round_nearest_even m l)%Z.
Proof. destruct l as [|[]]; simpl; try destruct (Z.even m); lia. Qed.

Lemma binary_round_aux_nonneg m e l : (0 <= m)%Z -> nonneg (binary_round_aux PREC EMAX false m e l) = true.
Proof.
  intros Hm. unfold binary_round_aux, shr_fexp.
  match goal with |- context [shr ?r ?e ?n] => assert (H1 : (0 <= shr_m (shr r e n).1)%Z) end.
  { apply shr_pos. by destruct l as [|[]]. }
  destruct (shr _ _ _) as [r1 e1]. cbn [fst] in H1.
  match goal with |- context [shr ?r ?e ?n] => assert (H2 : (0 <= shr_m (shr r e n).1)%Z) end.
  { apply shr_pos. by apply round_pos. }
  destruct (shr _ _ _) as [r2 e2]. cbn [fst] in H2.
  destruct (shr_m r2) as [|m2|m2]; [done| |lia]. by destruct (_ <=? _)%Z.
Qed.

Lemma d_of_Z_nonneg z : (0 <= z)%Z -> nonneg (d_of_Z z) = true.
Proof.
  intros Hz. destruct z as [|p|p]; [done| |lia]. unfold d_of_Z, binary_normalize, binary_round.
  destruct (shl_align _ _ _). by apply binary_round_aux_nonneg.
Qed.

Lemma d_div_nonneg x m e : nonneg x = true -> nonneg (d_div x (S754_finite false m e)) = true.
Proof.
  destruct x as [s|[|]| |[|] mx ex]; try done. intros _. unfold d_div, SFdiv.
  destruct (SFdiv_core_binary _ _ _ _ _ _) as [[q e'] l] eqn:E. apply binary_round_aux_nonneg.
  unfold SFdiv_core_binary in E. match type of E with context [Z.div_eucl ?a ?b] =>
    assert (Ha : (0 <= a)%Z) by (destruct (_ - _ - _)%Z; [lia|apply Z.shiftl_nonneg; lia|lia]);
    assert (Hq : (0 <= a / b)%Z) by (apply Z.div_pos; lia); unfold Z.div in Hq; destruct (Z.div_eucl a b) end.
  by injection E as -> _ _.
Qed.

(** ** Integers are represented exactly *)

Lemma digits2_pos_bound m :
  (2 ^ (Z.pos (digits2_pos m) - 1) <= Z.pos m < 2 ^ Z.pos (digits2_pos m))%Z.
Proof.
  induction m as [m IH|m IH|]; cbn [digits2_pos]; [| |done];
    rewrite Pos2Z.inj_succ, Z.pow_succ_r by lia;
    replace (Z.succ (Z.pos (digits2_pos m)) - 1)%Z with (Z.succ (Z.pos (digits2_pos m) - 1)) by lia;
    rewrite Z.pow_succ_r by lia; lia.
Qed.

Lemma digits2_pos_shift m k : Z.pos (digits2_pos (Pos.iter xO m k)) = (Z.pos (digits2_pos m) + Z.pos k)%Z.
Proof.
  induction k as [|k IH] using Pos.peano_ind; [cbn; lia|]. rewrite Pos.iter_succ. cbn [digits2_pos]. lia.
Qed.

Lemma iter_xO m k : Z.pos (Pos.iter xO m k) = (Z.pos m * 2 ^ Z.pos k)%Z.
Proof.
  induction k as [|k IH] using Pos.peano_ind; [cbn; lia|].
  rewrite Pos.iter_succ, Pos2Z.inj_succ, Z.pow_succ_r by lia. lia.
Qed.

(** A positive integer of at most 53 bits: its significand is shifted to 53 bits. *)
Lemma binary_round_exact s m : (Z.pos (digits2_pos m) <= PREC)%Z ->
  exists m', binary_round PREC EMAX s m 0 = S754_finite s m' (Z.pos (digits2_pos m) - PREC) /\
    (Z.pos m' = Z.pos m * 2 ^ (PREC - Z.pos (digits2_pos m)))%Z.
Proof.
  intros Hd. set (d := Z.pos (digits2_pos m)) in *. assert (Hpos : (1 <= d)%Z) by lia.
  assert (Hal : exists m', shl_align m 0 (fexp PREC EMAX (d + 0)) = (m', (d - PREC)%Z) /\
    Z.pos m' = (Z.pos m * 2 ^ (PREC - d))%Z /\ Z.pos (digits2_pos m') = PREC).
  { unfold fexp, SpecFloat.emin, PREC, EMAX in *. rewrite Z.max_l by lia. unfold shl_align.
    destruct (d + 0 - 53 - 0)%Z as [|k|k] eqn:E; [|lia|].
    - exists m. replace (53 - d)%Z with 0%Z by lia. split; [f_equal; lia|]. split; [lia|fold d; lia].
    - exists (Pos.iter xO m k). split; [f_equal; lia|]. split; [rewrite iter_xO; do 2 f_equal; lia|].
      rewrite digits2_pos_shift. fold d. lia. }
  destruct Hal as (m' & Ha & Hm & Hd'). exists m'. split; [|done]. unfold binary_round. fold d. rewrite Ha.
  unfold binary_round_aux, shr_fexp. cbn [Zdigits2 shr_record_of_loc]. rewrite Hd'.
  assert (Hz : (fexp PREC EMAX (PREC + (d - PREC)) - (d - PREC) = 0)%Z).
  { unfold fexp, SpecFloat.emin, PREC, EMAX in *. rewrite Z.max_l by lia. lia. }
  rewrite Hz. cbn [shr shr_m loc_of_shr_record round_nearest_even Zdigits2 shr_record_of_loc]. rewrite Hd', Hz.
  cbn [shr shr_m]. destruct (Z.leb_spec (d - PREC) (EMAX - PREC)); [done|]. unfold PREC, EMAX in *. lia.
Qed.

Lemma digits2_pos_le m n : (Z.pos m < 2 ^ n)%Z -> (Z.pos (digits2_pos m) <= n)%Z.
Proof.
  intros Hm. destruct (Z.le_gt_cases (Z.pos (digits2_pos m)) n) as [|Hgt]; [done|]. exfalso.
  pose proof (digits2_pos_bound m) as [Hlo _]. destruct (Z.le_gt_cases 0 n) as [Hn|Hn]; [|by rewrite Z.pow_neg_r in Hm].
  pose proof (Z.pow_le_mono_r 2 n (Z.pos (digits2_pos m) - 1) ltac:(lia) ltac:(lia)). lia.
Qed.

(** Significands of different lengths compare by length, others by value. *)
Lemma compare_scaled m n :
  let d := Z.pos (digits2_pos m) in let e := Z.pos (digits2_pos n) in
  (d <= PREC)%Z -> (e <= PREC)%Z ->
  forall m' n', (Z.pos m' = Z.pos m * 2 ^ (PREC - d))%Z -> (Z.pos n' = Z.pos n * 2 ^ (PREC - e))%Z ->
  match (d - PREC ?= e - PREC)%Z with Lt => Lt | Gt => Gt | Eq => (m' ?= n')%positive end = (Z.pos m ?= Z.pos n)%Z.
Proof.
  intros d e Hd He m' n' Hm Hn. pose proof (digits2_pos_bound m) as Bm. pose proof (digits2_pos_bound n) as Bn.
  fold d in Bm. fold e in Bn. destruct (Z.compare_spec (d - PREC) (e - PREC)) as [Heq|Hlt|Hgt]; symmetry.
  - assert (d = e) as Hde by lia. rewrite <- Hde in Hn. change (m' ?= n')%positive with (Z.pos m' ?= Z.pos n')%Z.
    rewrite Hm, Hn. apply Zmult_compare_compat_r. apply Z.lt_gt, Z.pow_pos_nonneg; lia.
  - apply Z.compare_lt_iff. pose proof (Z.pow_le_mono_r 2 d (e - 1) ltac:(lia) ltac:(lia)). lia.
  - apply Z.compare_gt_iff. pose proof (Z.pow_le_mono_r 2 e (d - 1) ltac:(lia) ltac:(lia)). lia.
Qed.

(** Integers of at most 53 bits compare as doubles as they do as integers. *)
Lemma d_of_Z_compare a b : (Z.abs a < 2 ^ 53)%Z -> (Z.abs b < 2 ^ 53)%Z ->
  SFcompare (d_of_Z a) (d_of_Z b) = Some (a ?= b)%Z.
Proof.
  intros Ha Hb. unfold d_of_Z, binary_normalize.
  destruct a as [|m|m], b as [|n|n]; try done;
    try (destruct (binary_round_exact false m) as (m' & -> & Hm); [by apply digits2_pos_le|]);
    try (destruct (binary_round_exact true m) as (m' & -> & Hm); [by apply digits2_pos_le|]);
    try (destruct (binary_round_exact false n) as (n' & -> & Hn); [by apply digits2_pos_le|]);
    try (destruct (binary_round_exact true n) as (n' & -> & Hn); [by apply digits2_pos_le|]); try done;
    cbn [SFcompare]; f_equal; fold (m' ?= n')%positive;
    assert (Hc := compare_scaled m n ltac:(by apply digits2_pos_le) ltac:(by apply digits2_pos_le) m' n' Hm Hn).
  - exact Hc.
  - change (Z.neg m ?= Z.neg n)%Z with (CompOpp (Z.pos m ?= Z.pos n))%Z. rewrite <- Hc. by destruct (_ ?= _)%Z.
Qed.

Lemma d_lt_of_Z a b : (Z.abs a < 2 ^ 53)%Z -> (Z.abs b < 2 ^ 53)%Z -> d_lt (d_of_Z a) (d_of_Z b) = (a <? b)%Z.
Proof. intros Ha Hb. unfold d_lt, SFltb. rewrite d_of_Z_compare by done. by unfold Z.ltb; destruct (a ?= b)%Z. Qed.

Lemma d_ge_of_Z a b : (Z.abs a < 2 ^ 53)%Z -> (Z.abs b < 2 ^ 53)%Z -> d_ge (d_of_Z a) (d_of_Z b) = (b <=? a)%Z.
Proof. intros Ha Hb. unfold d_ge, SFleb. rewrite d_of_Z_compare by done. by unfold Z.leb; destruct (b ?= a)%Z. Qed.
