(* ===== verification/DoubleArith.v ===== *)
(** * Arithmetic on doubles, as rounded arithmetic on numbers

    The operations of [Double] round the exact result to the nearest double: stated with
    scaled integers, for normal numbers far from overflow and underflow. Comparison is that
    of the values, small integers are exact, and so are their sums and products. *)

From Stdlib Require Import ZArith SpecFloat.
From stdpp Require Import base numbers list.
From S2P Require Import Prelude CppLib Double.

Local Open Scope Z_scope.

(** ** Values *)

(** The value of a double in units of [2 ^ -SCALE]. *)
Definition SCALE : Z := 300.
Definition EXPONENT_MAX : Z := 900.

Definition dval (x : double) : Z :=
  match x with
  | S754_finite s m e => cond_Zopp s (Z.pos m * 2 ^ (e + SCALE))
  | _ => 0
  end.

(** A zero, or a full significand with an exponent in the middle of the range. *)
Definition normal (x : double) : Prop :=
  match x with
  | S754_zero _ => True
  | S754_finite _ m e => Z.pos (digits2_pos m) = PREC /\ - SCALE <= e <= EXPONENT_MAX
  | _ => False
  end.

Lemma pow2_pos n : 0 <= n -> 0 < 2 ^ n.
Proof. intros Hn. by apply Z.pow_pos_nonneg. Qed.

Lemma digits2_pos_unique m d : 2 ^ (d - 1) <= Z.pos m < 2 ^ d -> Z.pos (digits2_pos m) = d.
Proof.
  intros [H1 H2]. pose proof (digits2_pos_le m d H2) as Hle. pose proof (digits2_pos_bound m) as [_ Hb].
  destruct (Z.le_gt_cases d (Z.pos (digits2_pos m))) as [|Hlt]; [lia|].
  pose proof (Z.pow_le_mono_r 2 (Z.pos (digits2_pos m)) (d - 1) ltac:(lia) ltac:(lia)). lia.
Qed.

(** Normal numbers compare as their values. *)
Lemma compare_dval x y : normal x -> normal y -> SFcompare x y = Some (dval x ?= dval y).
Proof.
  assert (Hpos : forall m e, - SCALE <= e -> 0 < Z.pos m * 2 ^ (e + SCALE)).
  { intros m e He. apply Z.mul_pos_pos; [lia|]. apply pow2_pos. lia. }
  assert (Hcmp : forall m1 e1 m2 e2, Z.pos (digits2_pos m1) = PREC -> Z.pos (digits2_pos m2) = PREC ->
    - SCALE <= e1 -> - SCALE <= e2 ->
    match e1 ?= e2 with Lt => Lt | Gt => Gt | Eq => Pos.compare_cont Eq m1 m2 end
    = (Z.pos m1 * 2 ^ (e1 + SCALE) ?= Z.pos m2 * 2 ^ (e2 + SCALE))).
  { intros m1 e1 m2 e2 D1 D2 E1 E2. pose proof (digits2_pos_bound m1) as B1. pose proof (digits2_pos_bound m2) as B2.
    rewrite D1 in B1. rewrite D2 in B2. unfold PREC in *.
    assert (Hlt : forall m m' e e', 2 ^ (53 - 1) <= Z.pos m < 2 ^ 53 -> 2 ^ (53 - 1) <= Z.pos m' < 2 ^ 53 ->
      - SCALE <= e -> e < e' -> Z.pos m * 2 ^ (e + SCALE) < Z.pos m' * 2 ^ (e' + SCALE)).
    { intros m m' e e' Bm Bm' He Hee. replace (e' + SCALE) with (e + SCALE + (e' - e)) by lia.
      rewrite (Z.pow_add_r 2 (e + SCALE)), (Z.mul_comm (2 ^ (e + SCALE)) (2 ^ (e' - e))), Z.mul_assoc by lia.
      apply Z.mul_lt_mono_pos_r; [apply pow2_pos; lia|].
      pose proof (Z.pow_le_mono_r 2 1 (e' - e) ltac:(lia) ltac:(lia)). nia. }
    destruct (Z.compare_spec e1 e2) as [->|Hl|Hg]; symmetry.
    - fold (m1 ?= m2)%positive. change (m1 ?= m2)%positive with (Z.pos m1 ?= Z.pos m2).
      symmetry. apply Zmult_compare_compat_r. apply Z.lt_gt, pow2_pos. lia.
    - apply Z.compare_lt_iff. by apply Hlt.
    - apply Z.compare_gt_iff. by apply Hlt. }
  destruct x as [sx|sx| |sx mx ex], y as [sy|sy| |sy my ey]; try done; cbn [SFcompare dval normal]; intros Hx Hy; f_equal.
  - pose proof (Hpos my ey ltac:(lia)). symmetry. destruct sy; cbn [cond_Zopp];
      [apply Z.compare_gt_iff|apply Z.compare_lt_iff]; lia.
  - pose proof (Hpos mx ex ltac:(lia)). symmetry. destruct sx; cbn [cond_Zopp];
      [apply Z.compare_lt_iff|apply Z.compare_gt_iff]; lia.
  - pose proof (Hpos mx ex ltac:(lia)). pose proof (Hpos my ey ltac:(lia)).
    pose proof (Hcmp mx ex my ey ltac:(lia) ltac:(lia) ltac:(lia) ltac:(lia)) as Hc.
    destruct sx, sy; cbn [cond_Zopp].
    + rewrite Z.compare_opp, (Z.compare_antisym (Z.pos mx * _)), <- Hc. by destruct (ex ?= ey).
    + symmetry. apply Z.compare_lt_iff. lia.
    + symmetry. apply Z.compare_gt_iff. lia.
    + exact Hc.
Qed.

(** ** Rounding *)

(** A location describes the fraction [r / b]. *)
Definition loc_is (l : location) (r b : Z) : Prop :=
  0 <= r < b /\
  match l with
  | loc_Exact => r = 0
  | loc_Inexact c => 0 < r /\ (2 * r ?= b) = c
  end.

Lemma loc_record m l : loc_of_shr_record (shr_record_of_loc m l) = l /\ shr_m (shr_record_of_loc m l) = m.
Proof. by destruct l as [|[]]. Qed.

(** One bit more is shifted out. *)
Lemma shr_1_spec x r b :
  0 <= shr_m x -> loc_is (loc_of_shr_record x) r b ->
  shr_m (shr_1 x) = shr_m x / 2 /\
  loc_is (loc_of_shr_record (shr_1 x)) ((shr_m x mod 2) * b + r) (2 * b).
Proof.
  destruct x as [m fr fs]. cbn [shr_m]. intros Hm [Hr Hl].
  assert (Hcase : exists q o, m = 2 * q + (if (o : bool) then 1 else 0) /\
    shr_1 {| shr_m := m; shr_r := fr; shr_s := fs |} = {| shr_m := q; shr_r := o; shr_s := fr || fs |}).
  { destruct m as [|[p|p|]|p]; [| | | |lia].
    - by exists 0, false.
    - exists (Z.pos p), true. split; [lia|done].
    - exists (Z.pos p), false. split; [lia|done].
    - by exists 0, true. }
  destruct Hcase as (q & o & Hq & ->). cbn [shr_m]. destruct o.
  - assert (m / 2 = q /\ m mod 2 = 1) as [-> ->] by (split; [symmetry; apply (Z.div_unique _ _ _ 1)|symmetry; apply (Z.mod_unique _ _ q)]; lia).
    split; [done|]. split; [lia|]. destruct fr, fs; cbn [orb loc_of_shr_record] in *; (split; [lia|]);
      first [apply Z.compare_eq_iff; lia|apply Z.compare_gt_iff; lia].
  - assert (m / 2 = q /\ m mod 2 = 0) as [-> ->] by (split; [symmetry; apply (Z.div_unique _ _ _ 0)|symmetry; apply (Z.mod_unique _ _ q)]; lia).
    split; [done|]. split; [lia|]. destruct fr, fs; cbn [orb loc_of_shr_record] in *; try lia; (split; [lia|]);
      apply Z.compare_lt_iff; lia.
Qed.

Lemma iter_pos_nat {A} (f : A -> A) n x : SpecFloat.iter_pos f n x = Nat.iter (Pos.to_nat n) f x.
Proof.
  revert x. induction n as [n IH|n IH|]; intros x; cbn [SpecFloat.iter_pos]; [| |done].
  - rewrite Pos2Nat.inj_xI, !IH, <- Nat.iter_add. rewrite Nat.iter_succ_r. f_equal. lia.
  - rewrite Pos2Nat.inj_xO, !IH, <- Nat.iter_add. f_equal. lia.
Qed.

Lemma shr_iter_spec n x r b :
  0 <= shr_m x -> loc_is (loc_of_shr_record x) r b ->
  shr_m (Nat.iter n shr_1 x) = shr_m x / 2 ^ Z.of_nat n /\
  loc_is (loc_of_shr_record (Nat.iter n shr_1 x)) ((shr_m x mod 2 ^ Z.of_nat n) * b + r) (2 ^ Z.of_nat n * b).
Proof.
  intros Hm Hl. induction n as [|n [IH1 IH2]].
  - simpl Nat.iter. change (2 ^ Z.of_nat 0) with 1. rewrite Z.div_1_r, Z.mod_1_r, Z.mul_1_l. by rewrite Z.mul_0_l, Z.add_0_l.
  - change (Nat.iter (S n) shr_1 x) with (shr_1 (Nat.iter n shr_1 x)). set (y := Nat.iter n shr_1 x) in *.
    assert (Hp : 0 < 2 ^ Z.of_nat n) by (apply pow2_pos; lia).
    destruct (shr_1_spec y _ _ ltac:(rewrite IH1; by apply Z.div_pos) IH2) as [S1 S2].
    rewrite S1, IH1. replace (Z.of_nat (S n)) with (Z.of_nat n + 1) by lia.
    rewrite Z.pow_add_r by lia. change (2 ^ 1) with 2. split; [by rewrite Z.div_div by lia|].
    rewrite IH1 in S2. rewrite Z.rem_mul_r by lia.
    replace ((shr_m x mod 2 ^ Z.of_nat n + 2 ^ Z.of_nat n * ((shr_m x / 2 ^ Z.of_nat n) mod 2)) * b + r)
      with ((shr_m x / 2 ^ Z.of_nat n) mod 2 * (2 ^ Z.of_nat n * b) + (shr_m x mod 2 ^ Z.of_nat n * b + r)) by lia.
    replace (2 ^ Z.of_nat n * 2 * b) with (2 * (2 ^ Z.of_nat n * b)) by lia. done.
Qed.

(** Rounding chooses a nearest integer. *)
Lemma round_nearest_spec M l r b :
  loc_is l r b ->
  (round_nearest_even M l = M \/ round_nearest_even M l = M + 1) /\
  2 * Z.abs (round_nearest_even M l * b - (M * b + r)) <= b.
Proof.
  intros [Hr Hl]. destruct l as [|[]]; cbn [round_nearest_even].
  - split; [by left|]. lia.
  - destruct Hl as [_ E%Z.compare_eq_iff]. destruct (Z.even M); (split; [lia|lia]).
  - destruct Hl as [_ E]. change (2 * r < b) in E. split; [by left|lia].
  - destruct Hl as [_ E%Z.compare_gt_iff]. split; [by right|lia].
Qed.

Lemma shr_nonneg x e n : 0 <= n -> shr x e n = (Nat.iter (Z.to_nat n) shr_1 x, e + n).
Proof.
  intros Hn. destruct n as [|n|n]; [|by simpl; rewrite iter_pos_nat|lia]. simpl. f_equal. lia.
Qed.

Lemma fexp_normal d : - SCALE <= d - PREC -> fexp PREC EMAX d = d - PREC.
Proof. intros Hd. unfold fexp, SpecFloat.emin, PREC, EMAX, SCALE in *. rewrite Z.max_l; lia. Qed.

(** The significand is brought to 53 bits again after rounding. *)
Lemma renormalize m1 j s :
  2 ^ 52 <= m1 <= 2 ^ 53 -> - SCALE <= j -> j + 1 <= EXPONENT_MAX ->
  exists m2 e2,
    (let '(x, e) := shr_fexp PREC EMAX m1 j loc_Exact in
     match shr_m x with
     | 0 => S754_zero s
     | Z.pos m => if e <=? EMAX - PREC then S754_finite s m e else S754_infinity s
     | _ => S754_nan
     end) = S754_finite s m2 e2 /\
    Z.pos (digits2_pos m2) = PREC /\ j <= e2 <= j + 1 /\ Z.pos m2 * 2 ^ (e2 - j) = m1.
Proof.
  intros Hm Hj Hmax. destruct m1 as [|m|m]; [lia| |lia]. unfold shr_fexp. cbn [Zdigits2 shr_record_of_loc].
  destruct (decide (Z.pos m = 2 ^ 53)) as [E|E].
  - assert (m = 9007199254740992%positive) as -> by (change (2 ^ 53) with 9007199254740992 in E; congruence).
    change (Z.pos (digits2_pos 9007199254740992)) with 54. rewrite fexp_normal by (unfold PREC; lia).
    replace (54 + j - PREC - j) with 1 by (unfold PREC; lia). simpl. exists 4503599627370496%positive, (j + 1).
    unfold EXPONENT_MAX in *. destruct (Z.leb_spec (j + 1) (EMAX - PREC)); [|unfold EMAX, PREC in *; lia].
    split; [done|]. split; [done|]. split; [lia|]. by replace (j + 1 - j) with 1 by lia.
  - assert (Hd : Z.pos (digits2_pos m) = 53) by (apply digits2_pos_unique; lia). rewrite Hd.
    rewrite fexp_normal by (unfold PREC; lia). replace (53 + j - PREC - j) with 0 by (unfold PREC; lia). simpl.
    exists m, j. unfold EXPONENT_MAX in *. destruct (Z.leb_spec j (EMAX - PREC)); [|unfold EMAX, PREC in *; lia].
    split; [done|]. split; [done|]. split; [lia|]. rewrite Z.sub_diag. lia.
Qed.

(** [binary_round_aux] on the number [(m + r / b) * 2 ^ e]: the result is within half a unit of
    its last place. *)
Lemma round_aux_spec s m e l r b :
  let d := Z.pos (digits2_pos m) in let j := d + e - PREC in
  loc_is l r b -> PREC <= d -> - SCALE <= j -> j + 1 <= EXPONENT_MAX ->
  exists m2 e2, binary_round_aux PREC EMAX s (Z.pos m) e l = S754_finite s m2 e2 /\
    Z.pos (digits2_pos m2) = PREC /\ j <= e2 <= j + 1 /\
    2 * Z.abs (Z.pos m2 * 2 ^ (e2 - j) * (2 ^ (d - PREC) * b) - (Z.pos m * b + r)) <= 2 ^ (d - PREC) * b.
Proof.
  intros d j Hl Hd Hj Hmax. unfold binary_round_aux. unfold shr_fexp at 1. cbn [Zdigits2]. fold d.
  rewrite fexp_normal by (fold j; lia). fold j. replace (j - e) with (d - PREC) by (unfold j; lia).
  rewrite shr_nonneg by lia. set (n := d - PREC) in *. destruct (loc_record (Z.pos m) l) as [L1 L2].
  destruct (shr_iter_spec (Z.to_nat n) (shr_record_of_loc (Z.pos m) l) r b) as [S1 S2]; [rewrite L2; lia|by rewrite L1|].
  rewrite L2, Z2Nat.id in S1, S2 by lia. set (x := Nat.iter _ _ _) in *. replace (e + n) with j by (unfold j, n; lia).
  destruct (round_nearest_spec (shr_m x) _ _ _ S2) as [R1 R2]. set (m1 := round_nearest_even _ _) in *.
  assert (Hp : 0 < 2 ^ n) by (apply pow2_pos; lia).
  assert (HM : 2 ^ 52 <= shr_m x < 2 ^ 53).
  { rewrite S1. pose proof (digits2_pos_bound m) as [B1 B2]. fold d in B1, B2. split.
    - apply Z.div_le_lower_bound; [done|]. rewrite <- Z.pow_add_r by lia.
      replace (n + 52) with (d - 1) by (unfold n, PREC; lia). done.
    - apply Z.div_lt_upper_bound; [done|]. rewrite <- Z.pow_add_r by lia.
      replace (n + 53) with d by (unfold n, PREC; lia). done. }
  destruct (renormalize m1 j s) as (m2 & e2 & -> & D2 & E2 & V2); [lia|done|done|].
  exists m2, e2. split; [done|]. split; [done|]. split; [done|]. rewrite V2, S1 in *.
  pose proof (Z.div_mod (Z.pos m) (2 ^ n) ltac:(lia)) as Hdm.
  replace (Z.pos m * b + r) with (Z.pos m / 2 ^ n * (2 ^ n * b) + (Z.pos m mod 2 ^ n * b + r)) by nia. done.
Qed.

(** ** The nearest double *)

(** [x] is the rational [P / Q], in units of [2 ^ -SCALE], rounded: it is a multiple of the unit
    [2 ^ j] in which that rational has 53 bits, and at most half a unit away. *)
Definition nearest (x : double) (P Q : Z) : Prop :=
  normal x /\
  (P = 0 /\ dval x = 0 \/
   exists j, 0 <= j /\ 2 ^ (j + 52) * Q <= Z.abs P < 2 ^ (j + 53) * Q /\ (2 ^ j | dval x) /\
     2 * Z.abs (dval x * Q - P) <= 2 ^ j * Q).

Lemma nearest_error x P Q : 0 < Q -> nearest x P Q -> 2 ^ 53 * Z.abs (dval x * Q - P) <= Z.abs P.
Proof.
  intros HQ [_ [[-> ->]|(j & Hj & HP & _ & Hx)]]; [lia|]. rewrite Z.pow_add_r in HP by lia. nia.
Qed.

(** An integer of at most 53 bits is its own nearest double. *)
Lemma nearest_exact x P Q z :
  0 < Q -> nearest x P Q -> P = Q * (z * 2 ^ SCALE) -> Z.abs z < 2 ^ 53 -> dval x = z * 2 ^ SCALE.
Proof.
  intros HQ [_ [[HP Hx]|(j & Hj & HP & [k Hk] & Hx)]] HPz Hz.
  - rewrite Hx. rewrite HP in HPz. symmetry in HPz. apply Z.mul_eq_0 in HPz as [|]; lia.
  - assert (Hs : 0 < 2 ^ SCALE) by (by apply pow2_pos). assert (Hp : 0 < 2 ^ j) by (by apply pow2_pos).
    assert (Hle : j <= SCALE).
    { destruct (Z.le_gt_cases j SCALE) as [|Hgt]; [done|]. rewrite HPz, Z.abs_mul, (Z.abs_eq Q), Z.abs_mul, (Z.abs_eq (2 ^ SCALE)) in HP by lia.
      pose proof (Z.pow_le_mono_r 2 (SCALE + 1) j ltac:(lia) ltac:(lia)) as Hmono.
      rewrite !Z.pow_add_r in * by (done || lia). change (2 ^ 1) with 2 in Hmono. change (2 ^ 53) with (2 * 2 ^ 52) in Hz.
      set (S := 2 ^ SCALE) in *. set (J := 2 ^ j) in *.
      assert (Z.abs z * S < 2 ^ 52 * J) by nia. nia. }
    assert (Hv : z * 2 ^ SCALE = z * 2 ^ (SCALE - j) * 2 ^ j).
    { rewrite <- Z.mul_assoc, <- Z.pow_add_r by lia. do 2 f_equal. lia. }
    rewrite HPz, Hk, Hv in Hx. rewrite Hk, Hv. f_equal.
    replace (k * 2 ^ j * Q - Q * (z * 2 ^ (SCALE - j) * 2 ^ j)) with ((k - z * 2 ^ (SCALE - j)) * (2 ^ j * Q)) in Hx by lia.
    rewrite Z.abs_mul, (Z.abs_eq (2 ^ j * Q)) in Hx by lia.
    assert (Z.abs (k - z * 2 ^ (SCALE - j)) < 1); [|lia]. nia.
Qed.

(** The same inequalities in other units: [u * v = w * t] are two ways to write the last place,
    [X / b] and [P / Q] the same number. *)
Lemma change_units A X P b t Q u v w :
  0 < b -> 0 < t -> 0 < Q -> 0 < v -> u * v = w * t -> P * b * t = X * Q * v ->
  (2 * Z.abs (A * (u * b) - X) <= u * b -> 2 * Z.abs (A * w * Q - P) <= w * Q) /\
  (2 ^ 52 * (u * b) <= X < 2 ^ 53 * (u * b) -> 2 ^ 52 * w * Q <= P < 2 ^ 53 * w * Q).
Proof.
  intros Hb Ht HQ Hv Hu HP.
  assert (HPt : P * (b * t) = X * (Q * v)) by (transitivity (P * b * t); [ring|rewrite HP; ring]).
  assert (Hunit : w * Q * (b * t) = u * b * (Q * v)) by (transitivity (w * t * (b * Q)); [ring|rewrite <- Hu; ring]).
  split; [intros HX|intros [H1 H2]; split].
  - apply (Z.mul_le_mono_pos_r _ _ (b * t)); [nia|]. apply (Z.mul_le_mono_pos_r _ _ (Q * v)) in HX; [|nia].
    rewrite Hunit, <- Z.mul_assoc, <- (Z.abs_eq (b * t)), <- Z.abs_mul by nia.
    rewrite <- Z.mul_assoc, <- (Z.abs_eq (Q * v)), <- Z.abs_mul in HX by nia.
    replace ((A * w * Q - P) * (b * t)) with ((A * (u * b) - X) * (Q * v)); [by rewrite (Z.abs_eq (Q * v)) in HX by nia|].
    transitivity (A * (w * Q * (b * t)) - P * (b * t)); [rewrite Hunit, HPt|]; ring.
  - apply (Z.mul_le_mono_pos_r _ _ (b * t)); [nia|]. rewrite HPt.
    replace (2 ^ 52 * w * Q * (b * t)) with (2 ^ 52 * (u * b) * (Q * v)) by (transitivity (2 ^ 52 * (w * Q * (b * t))); [rewrite Hunit|]; ring).
    apply Z.mul_le_mono_nonneg_r; nia.
  - apply (Z.mul_lt_mono_pos_r (b * t)); [nia|]. rewrite HPt.
    replace (2 ^ 53 * w * Q * (b * t)) with (2 ^ 53 * (u * b) * (Q * v)) by (transitivity (2 ^ 53 * (w * Q * (b * t))); [rewrite Hunit|]; ring).
    apply Z.mul_lt_mono_pos_r; nia.
Qed.

(** Rounding gives the nearest double. [T] is an exponent great enough to write the number
    without fractions. *)
Lemma nearest_round s m e l r b P Q T :
  let d := Z.pos (digits2_pos m) in let j := d + e - PREC in
  0 < Q -> loc_is l r b -> PREC <= d -> - SCALE <= j -> j + 1 <= EXPONENT_MAX -> SCALE <= T -> 0 <= e + T ->
  P * b * 2 ^ (T - SCALE) = (Z.pos m * b + r) * Q * 2 ^ (e + T) ->
  nearest (binary_round_aux PREC EMAX s (Z.pos m) e l) (cond_Zopp s P) Q.
Proof.
  intros d j HQ Hl Hd Hj Hmax HT HeT HP.
  destruct (round_aux_spec s m e l r b Hl Hd Hj Hmax) as (m2 & e2 & -> & D2 & E2 & V2). fold d j in V2.
  destruct Hl as [Hr _]. set (w := 2 ^ (j + SCALE)). set (u := 2 ^ (d - PREC)) in *. set (x := 2 ^ (e2 - j)) in *.
  assert (Hu : u * 2 ^ (e + T) = w * 2 ^ (T - SCALE)).
  { unfold u, w. rewrite <- !Z.pow_add_r by lia. f_equal. unfold j. lia. }
  assert (Hx : 2 ^ (e2 + SCALE) = x * w) by (unfold x, w; rewrite <- Z.pow_add_r by lia; f_equal; lia).
  assert (Hw : 0 < w) by (apply pow2_pos; lia).
  destruct (change_units (Z.pos m2 * x) (Z.pos m * b + r) P b (2 ^ (T - SCALE)) Q u (2 ^ (e + T)) w)
    as [Herr Hran]; [lia|apply pow2_pos; lia|done|by apply pow2_pos|done|done|].
  specialize (Herr V2). destruct Hran as [R1 R2].
  { pose proof (digits2_pos_bound m) as [B1 B2]. fold d in B1, B2.
    assert (H1 : 2 ^ (d - 1) = 2 ^ 52 * u) by (unfold u; rewrite <- Z.pow_add_r by lia; f_equal; unfold PREC; lia).
    assert (H2 : 2 ^ d = 2 ^ 53 * u) by (unfold u; rewrite <- Z.pow_add_r by lia; f_equal; unfold PREC; lia).
    rewrite H1 in B1. rewrite H2 in B2. assert (0 < u) by (apply pow2_pos; lia). nia. }
  split; [by split; [|lia]|]. right. exists (j + SCALE). rewrite !(Z.pow_add_r 2 (j + SCALE)) by lia. fold w.
  cbn [dval]. rewrite Hx. split; [lia|].
  split; [destruct s; cbn [cond_Zopp]; rewrite ?Z.abs_opp, Z.abs_eq; lia|].
  split; [destruct s; cbn [cond_Zopp]; [exists (- (Z.pos m2 * x))|exists (Z.pos m2 * x)]; ring|].
  replace (cond_Zopp s (Z.pos m2 * (x * w)) * Q - cond_Zopp s P) with (cond_Zopp s (Z.pos m2 * x * w * Q - P))
    by (destruct s; cbn [cond_Zopp]; ring).
  by destruct s; cbn [cond_Zopp]; rewrite ?Z.abs_opp.
Qed.

(** ** The operations *)

Lemma nearest_self x : normal x -> nearest x (dval x) 1.
Proof.
  intros Hx. split; [done|]. destruct x as [s|s| |s m e]; try done; [by left|]. right. destruct Hx as [Hd He].
  exists (e + SCALE). pose proof (digits2_pos_bound m) as [B1 B2]. rewrite Hd in B1, B2.
  assert (Hw : 0 < 2 ^ (e + SCALE)) by (apply pow2_pos; lia).
  rewrite !(Z.pow_add_r 2 (e + SCALE)) by lia. cbn [dval]. unfold PREC in *. change (53 - 1) with 52 in B1.
  split; [lia|]. split; [destruct s; cbn [cond_Zopp]; rewrite ?Z.abs_opp, Z.abs_eq; nia|].
  split; [destruct s; cbn [cond_Zopp]; [exists (- Z.pos m)|exists (Z.pos m)]; ring|].
  rewrite Z.mul_1_r, Z.sub_diag. simpl. lia.
Qed.

Lemma normal_opp x : normal x -> normal (SFopp x) /\ dval (SFopp x) = - dval x.
Proof. destruct x as [s|s| |s m e]; try done. intros Hx. split; [done|]. destruct s; simpl; lia. Qed.

(** An integer times a power of two. *)
Lemma nearest_normalize z e sz P :
  z <> 0 -> 0 <= e + SCALE -> P = z * 2 ^ (e + SCALE) -> 2 ^ 53 <= Z.abs P < 2 ^ (SCALE + 800) ->
  nearest (binary_normalize PREC EMAX z e sz) P 1.
Proof.
  intros Hz He HP Hb.
  assert (Hround : forall s m, Z.abs z = Z.pos m -> z = cond_Zopp s (Z.pos m) ->
    nearest (binary_round PREC EMAX s m e) P 1).
  { intros s m Hm Hs. unfold binary_round. set (d := Z.pos (digits2_pos m)).
    pose proof (digits2_pos_bound m) as [B1 B2]. fold d in B1, B2.
    assert (Hw : 0 < 2 ^ (e + SCALE)) by (by apply pow2_pos).
    assert (HPm : Z.abs P = Z.pos m * 2 ^ (e + SCALE)) by (rewrite HP, Z.abs_mul, Hm, (Z.abs_eq (2 ^ _)); lia).
    rewrite HPm in Hb.
    assert (Hlow : 53 < d + e + SCALE).
    { destruct (Z.lt_ge_cases 53 (d + e + SCALE)) as [|Hle]; [done|].
      assert (2 ^ d * 2 ^ (e + SCALE) <= 2 ^ 53); [|nia].
      rewrite <- Z.pow_add_r by lia. apply Z.pow_le_mono_r; lia. }
    assert (Hhigh : d - 1 + e < 800).
    { destruct (Z.lt_ge_cases (d - 1 + e) 800) as [|Hge]; [done|].
      assert (2 ^ (SCALE + 800) <= 2 ^ (d - 1) * 2 ^ (e + SCALE)); [|nia].
      rewrite <- Z.pow_add_r by lia. apply Z.pow_le_mono_r; lia. }
    assert (Hsign : P = cond_Zopp s (Z.pos m * 2 ^ (e + SCALE))) by (rewrite HP, Hs; destruct s; cbn [cond_Zopp]; ring).
    rewrite fexp_normal by (unfold PREC; lia). unfold shl_align.
    destruct (d + e - PREC - e) as [|k|k] eqn:Ek; rewrite Hsign.
    1,2: apply (nearest_round s m e loc_Exact 0 1 _ 1 SCALE); fold d; unfold PREC, EXPONENT_MAX in *;
      try lia; [by split|rewrite Z.sub_diag; change (2 ^ 0) with 1; ring].
    assert (Hd' : Z.pos (digits2_pos (Pos.iter xO m k)) = PREC) by (rewrite digits2_pos_shift; fold d; lia).
    apply (nearest_round s (Pos.iter xO m k) (d + e - PREC) loc_Exact 0 1 _ 1 SCALE);
      rewrite ?Hd'; unfold PREC, EXPONENT_MAX in *; try lia; [by split|].
    rewrite iter_xO, Z.sub_diag, !Z.mul_1_r, Z.add_0_r, <- Z.mul_assoc, <- Z.pow_add_r by lia.
    do 2 f_equal. lia. }
  destruct z as [|m|m]; [done|by apply (Hround false)|by apply (Hround true)].
Qed.

(** A product of a significand and its alignment. *)
Lemma shl_align_fst m e ez : ez <= e -> Z.pos (shl_align m e ez).1 = Z.pos m * 2 ^ (e - ez).
Proof.
  intros He. unfold shl_align. destruct (ez - e) as [|k|k] eqn:E; [|lia|].
  - replace (e - ez) with 0 by lia. simpl. lia.
  - cbn [fst]. rewrite iter_xO. do 2 f_equal. lia.
Qed.

Lemma d_sub_nearest x y :
  normal x -> normal y ->
  (dval x - dval y <> 0 -> 2 ^ 53 <= Z.abs (dval x - dval y) < 2 ^ (SCALE + 800)) ->
  nearest (d_sub x y) (dval x - dval y) 1.
Proof.
  intros Hx Hy Hb. unfold d_sub. destruct x as [sx|sx| |sx mx ex], y as [sy|sy| |sy my ey]; try done; cbn [SFsub].
  - split; [by destruct sx, sy|left]. split; [done|by destruct sx, sy].
  - destruct (normal_opp _ Hy) as [Hn Hv]. cbn [SFopp] in Hn, Hv.
    replace (dval (S754_zero sx) - dval (S754_finite sy my ey)) with (dval (S754_finite (negb sy) my ey)) by (rewrite Hv; simpl; lia).
    by apply nearest_self.
  - replace (dval (S754_finite sx mx ex) - dval (S754_zero sy)) with (dval (S754_finite sx mx ex)) by (simpl; lia).
    by apply nearest_self.
  - set (ez := Z.min ex ey). destruct Hx as [_ Hx], Hy as [_ Hy].
    rewrite !shl_align_fst by lia. set (z := _ - _).
    assert (HP : dval (S754_finite sx mx ex) - dval (S754_finite sy my ey) = z * 2 ^ (ez + SCALE)).
    { assert (Hex : 2 ^ (ex + SCALE) = 2 ^ (ex - ez) * 2 ^ (ez + SCALE)) by (rewrite <- Z.pow_add_r by lia; f_equal; lia).
      assert (Hey : 2 ^ (ey + SCALE) = 2 ^ (ey - ez) * 2 ^ (ez + SCALE)) by (rewrite <- Z.pow_add_r by lia; f_equal; lia).
      unfold z. cbn [dval]. rewrite Hex, Hey. destruct sx, sy; cbn [cond_Zopp]; ring. }
    rewrite HP in *. assert (Hw : 0 < 2 ^ (ez + SCALE)) by (apply pow2_pos; lia).
    destruct (decide (z = 0)) as [->|Hz]; [by split; [|left]|].
    apply nearest_normalize; [done|lia|done|]. apply Hb. nia.
Qed.

Lemma d_add_sub x y : d_add x y = d_sub x (SFopp y).
Proof.
  unfold d_add, d_sub. destruct x as [[|]|[|]| |[|] mx ex], y as [[|]|[|]| |[|] my ey]; try done;
    cbn [SFadd SFsub SFopp negb cond_Zopp]; f_equal; lia.
Qed.

Lemma cond_mul s t a b : cond_Zopp s a * cond_Zopp t b = cond_Zopp (xorb s t) (a * b).
Proof. destruct s, t; cbn [xorb cond_Zopp]; ring. Qed.

(** The length of a number between two powers of two. *)
Lemma digits_between m lo hi :
  2 ^ lo <= Z.pos m < 2 ^ hi -> 0 <= lo -> lo < Z.pos (digits2_pos m) <= hi.
Proof.
  intros [H1 H2] Hlo. split; [|by apply digits2_pos_le].
  destruct (Z.lt_ge_cases lo (Z.pos (digits2_pos m))) as [|Hle]; [done|].
  pose proof (digits2_pos_bound m) as [_ Hb]. pose proof (Z.pow_le_mono_r 2 _ _ ltac:(lia) Hle). lia.
Qed.

(** Far enough from the ends of the range for products and quotients. *)
Definition moderate (x : double) : Prop :=
  match x with S754_finite _ _ e => -100 <= e <= 100 | _ => True end.

Lemma d_mul_nearest x y :
  normal x -> normal y -> moderate x -> moderate y -> nearest (d_mul x y) (dval x * dval y) (2 ^ SCALE).
Proof.
  intros Hx Hy Mx My. unfold d_mul. destruct x as [sx|sx| |sx mx ex], y as [sy|sy| |sy my ey]; try done; cbn [SFmul].
  1-3: split; [done|left; split; [simpl; lia|done]].
  destruct Hx as [Dx Hx], Hy as [Dy Hy]. cbn [moderate] in Mx, My. cbn [dval]. rewrite cond_mul.
  pose proof (digits2_pos_bound mx) as Bx. pose proof (digits2_pos_bound my) as By. rewrite Dx in Bx. rewrite Dy in By.
  unfold PREC in *. change (53 - 1) with 52 in *.
  destruct (digits_between (mx * my) 104 106) as [D1 D2].
  { rewrite Pos2Z.inj_mul. change (2 ^ 104) with (2 ^ 52 * 2 ^ 52). change (2 ^ 106) with (2 ^ 53 * 2 ^ 53). nia. }
  { lia. }
  apply (nearest_round _ _ _ loc_Exact 0 1 _ _ (2 * SCALE)); unfold PREC, EXPONENT_MAX, SCALE in *; try lia; [by split|].
  rewrite Pos2Z.inj_mul, !Z.mul_1_r, Z.add_0_r.
  transitivity (Z.pos mx * Z.pos my * (2 ^ (ex + 300) * 2 ^ (ey + 300) * 2 ^ (2 * 300 - 300))); [ring|].
  rewrite <- (Z.mul_assoc (Z.pos mx * Z.pos my)). f_equal. rewrite <- !Z.pow_add_r by lia. f_equal. lia.
Qed.

Lemma new_location_spec b r : 0 <= r < b -> loc_is (new_location b r) r b.
Proof.
  intros Hr. split; [done|]. unfold new_location, new_location_even, new_location_odd.
  destruct (Z.even b) eqn:Eb, (Z.eqb_spec r 0) as [|Hne]; try done; (split; [lia|]).
  - done.
  - assert (Hodd : 2 * r <> b) by (intros <-; by rewrite Z.even_mul in Eb).
    change (Z.pos 2 * r + Z.pos 1) with (2 * r + 1).
    destruct (Z.compare_spec (2 * r + 1) b), (Z.compare_spec (2 * r) b); (done || lia).
Qed.

Lemma d_div_nearest x y :
  normal x -> normal y -> moderate x -> moderate y -> dval y <> 0 ->
  nearest (d_div x y) (dval x * 2 ^ SCALE * Z.sgn (dval y)) (Z.abs (dval y)).
Proof.
  intros Hx Hy Mx My Hne. unfold d_div. destruct x as [sx|sx| |sx mx ex], y as [sy|sy| |sy my ey]; try done; cbn [SFdiv].
  { split; [done|by left]. }
  destruct Hx as [Dx Hx], Hy as [Dy Hy]. cbn [moderate] in Mx, My. clear Hne.
  pose proof (digits2_pos_bound mx) as Bx. pose proof (digits2_pos_bound my) as By. rewrite Dx in Bx. rewrite Dy in By.
  assert (Hwx : 0 < 2 ^ (ex + SCALE)) by (apply pow2_pos; lia). assert (Hwy : 0 < 2 ^ (ey + SCALE)) by (apply pow2_pos; lia).
  assert (Hsgn : Z.sgn (dval (S754_finite sy my ey)) = cond_Zopp sy 1).
  { cbn [dval]. destruct sy; cbn [cond_Zopp]; [rewrite Z.sgn_opp|]; rewrite Z.sgn_pos; nia. }
  assert (Habs : Z.abs (dval (S754_finite sy my ey)) = Z.pos my * 2 ^ (ey + SCALE)).
  { cbn [dval]. destruct sy; cbn [cond_Zopp]; [rewrite Z.abs_opp|]; rewrite Z.abs_eq; nia. }
  rewrite Hsgn, Habs. cbn [dval].
  replace (cond_Zopp sx (Z.pos mx * 2 ^ (ex + SCALE)) * 2 ^ SCALE * cond_Zopp sy 1)
    with (cond_Zopp (xorb sx sy) (Z.pos mx * 2 ^ (ex + SCALE) * 2 ^ SCALE)) by (destruct sx, sy; cbn [xorb cond_Zopp]; ring).
  unfold SFdiv_core_binary. cbn [Zdigits2]. rewrite Dx, Dy.
  rewrite fexp_normal by (unfold PREC, SCALE in *; lia).
  replace (Z.min (PREC + ex - (PREC + ey) - PREC) (ex - ey)) with (ex - ey - PREC) by (unfold PREC; lia).
  replace (ex - ey - (ex - ey - PREC)) with PREC by lia. unfold PREC at 1. rewrite Z.shiftl_mul_pow2 by lia.
  destruct (Z.div_eucl _ _) as [q r] eqn:Eq.
  pose proof (Z_div_mod (Z.pos mx * 2 ^ PREC) (Z.pos my) ltac:(lia)) as Hdm. rewrite Eq in Hdm. destruct Hdm as [Hdm Hr].
  unfold PREC in *. change (53 - 1) with 52 in *.
  assert (Hq : 2 ^ 52 <= q < 2 ^ 54).
  { change (2 ^ 54) with (2 * 2 ^ 53). change (2 ^ 53) with (2 * 2 ^ 52) in *. set (u := 2 ^ 52) in *.
    assert (0 < u) by (by apply pow2_pos). split.
    - destruct (Z.le_gt_cases u q) as [|Hlt]; [done|]. assert (Z.pos my * (q + 1) <= Z.pos my * u) by nia.
      assert (Z.pos my * u < 2 * u * u) by nia. nia.
    - destruct (Z.lt_ge_cases q (2 * (2 * u))) as [|Hge]; [done|].
      assert (Z.pos my * (2 * (2 * u)) <= Z.pos my * q) by nia. nia. } destruct q as [|q|q]; [lia| |lia].
  destruct (digits_between q 52 54 Hq ltac:(lia)) as [D1 D2].
  apply (nearest_round _ _ _ _ r (Z.pos my) _ _ 600); unfold PREC, EXPONENT_MAX, SCALE in *; try lia; [by apply new_location_spec|].
  replace (Z.pos q * Z.pos my + r) with (Z.pos mx * 2 ^ 53) by lia.
  transitivity (Z.pos mx * Z.pos my * (2 ^ (ex + 300) * 2 ^ 300 * 2 ^ (600 - 300))); [ring|].
  transitivity (Z.pos mx * Z.pos my * (2 ^ 53 * 2 ^ (ey + 300) * 2 ^ (ex - ey - 53 + 600))); [|ring].
  f_equal. rewrite <- !Z.pow_add_r by lia. f_equal. lia.
Qed.

(** ** Integers *)

Definition is_int (x : double) (a : Z) : Prop := normal x /\ dval x = a * 2 ^ SCALE.

Lemma scale_pos : 0 < 2 ^ SCALE.
Proof. by apply pow2_pos. Qed.

(** An integer that is not zero is far from underflow. *)
Lemma int_range a :
  a <> 0 -> Z.abs a < 2 ^ 53 -> 2 ^ 53 <= Z.abs (a * 2 ^ SCALE) < 2 ^ (SCALE + 800).
Proof.
  intros Hne Ha. rewrite Z.abs_mul, (Z.abs_eq (2 ^ SCALE)) by (pose proof scale_pos; lia).
  rewrite Z.pow_add_r by (unfold SCALE; lia).
  assert (2 ^ 53 <= 2 ^ SCALE) by (apply Z.pow_le_mono_r; unfold SCALE; lia).
  assert (2 ^ 53 <= 2 ^ 800) by (apply Z.pow_le_mono_r; lia).
  set (S := 2 ^ SCALE) in *. set (B := 2 ^ 800) in *. nia.
Qed.

Lemma is_int_nearest x P Q a : 0 < Q -> nearest x P Q -> P = Q * (a * 2 ^ SCALE) -> Z.abs a < 2 ^ 53 -> is_int x a.
Proof. intros HQ Hn HP Ha. split; [apply Hn|by eapply nearest_exact]. Qed.

Lemma is_int_of_Z a : Z.abs a < 2 ^ 53 -> is_int (d_of_Z a) a.
Proof.
  intros Ha. destruct (decide (a = 0)) as [->|Hne]; [done|].
  eapply (is_int_nearest _ (a * 2 ^ SCALE) 1); [done| |lia|done]. unfold d_of_Z.
  apply nearest_normalize; [done|done|done|by apply int_range].
Qed.

Lemma is_int_moderate x a : is_int x a -> Z.abs a < 2 ^ 53 -> moderate x.
Proof.
  intros [Hn Hv] Ha. destruct x as [s|s| |s m e]; try done. destruct Hn as [Hd He]. cbn [moderate].
  pose proof (digits2_pos_bound m) as [B1 B2]. rewrite Hd in B1, B2. unfold PREC in *. change (53 - 1) with 52 in *.
  assert (Habs : Z.pos m * 2 ^ (e + SCALE) = Z.abs a * 2 ^ SCALE).
  { apply (f_equal Z.abs) in Hv. cbn [dval] in Hv. rewrite (Z.abs_mul a), (Z.abs_eq (2 ^ SCALE)) in Hv by (pose proof scale_pos; lia).
    destruct s; cbn [cond_Zopp] in Hv; rewrite ?Z.abs_opp, Z.abs_mul, (Z.abs_eq (2 ^ _)) in Hv by (apply Z.lt_le_incl, pow2_pos; lia);
      simpl Z.abs in Hv; lia. }
  pose proof scale_pos as Hs. destruct (Z.lt_ge_cases 0 e) as [Hpos|Hneg].
  - rewrite Z.pow_add_r in Habs by (unfold SCALE; lia). assert (Hm : Z.pos m * 2 ^ e = Z.abs a) by nia.
    pose proof (Z.pow_le_mono_r 2 1 e ltac:(lia) ltac:(lia)). change (2 ^ 53) with (2 * 2 ^ 52) in Ha. nia.
  - destruct (Z.le_gt_cases (-100) e) as [|Hlt]; [lia|]. exfalso.
    assert (Hle : 2 ^ (e + SCALE) * 2 ^ 101 <= 2 ^ SCALE).
    { rewrite <- Z.pow_add_r by (unfold SCALE in *; lia). apply Z.pow_le_mono_r; lia. }
    assert (Hw : 0 < 2 ^ (e + SCALE)) by (apply pow2_pos; lia).
    assert (Z.abs a <> 0) by (intros E; rewrite E in Habs; nia).
    change (2 ^ 101) with (2 ^ 53 * 2 ^ 48) in Hle. set (S := 2 ^ SCALE) in *. set (w := 2 ^ (e + SCALE)) in *. nia.
Qed.

Lemma is_int_opp x a : is_int x a -> is_int (SFopp x) (- a).
Proof. intros [Hn Hv]. destruct (normal_opp x Hn) as [Hn' Hv']. split; [done|]. rewrite Hv', Hv. ring. Qed.

Lemma is_int_sub x y a b : is_int x a -> is_int y b -> Z.abs (a - b) < 2 ^ 53 -> is_int (d_sub x y) (a - b).
Proof.
  intros [Nx Vx] [Ny Vy] Hab. assert (Hd : dval x - dval y = (a - b) * 2 ^ SCALE) by (rewrite Vx, Vy; ring).
  eapply (is_int_nearest _ (dval x - dval y) 1); [done| |lia|done]. apply d_sub_nearest; [done|done|].
  rewrite Hd. intros Hne. apply int_range; [|done]. intros E. rewrite E in Hne. lia.
Qed.

Lemma is_int_add x y a b : is_int x a -> is_int y b -> Z.abs (a + b) < 2 ^ 53 -> is_int (d_add x y) (a + b).
Proof.
  intros Hx Hy Hab. rewrite d_add_sub. replace (a + b) with (a - - b) in * by lia. by apply is_int_sub; [|apply is_int_opp|].
Qed.

Lemma is_int_mul x y a b :
  is_int x a -> is_int y b -> Z.abs a < 2 ^ 53 -> Z.abs b < 2 ^ 53 -> Z.abs (a * b) < 2 ^ 53 -> is_int (d_mul x y) (a * b).
Proof.
  intros Hx Hy Ha Hb Hab. pose proof (is_int_moderate _ _ Hx Ha). pose proof (is_int_moderate _ _ Hy Hb).
  destruct Hx as [Nx Vx], Hy as [Ny Vy].
  eapply (is_int_nearest _ (dval x * dval y) (2 ^ SCALE)); [apply scale_pos|by apply d_mul_nearest| |done].
  rewrite Vx, Vy. ring.
Qed.

Lemma is_int_compare x y a b : is_int x a -> is_int y b -> SFcompare x y = Some (a ?= b).
Proof.
  intros [Nx Vx] [Ny Vy]. rewrite compare_dval by done. rewrite Vx, Vy. f_equal. symmetry.
  apply Zmult_compare_compat_r, Z.lt_gt, scale_pos.
Qed.

Lemma is_int_lt x y a b : is_int x a -> is_int y b -> d_lt x y = (a <? b).
Proof. intros Hx Hy. unfold d_lt, SFltb. rewrite (is_int_compare _ _ _ _ Hx Hy). by unfold Z.ltb; destruct (a ?= b). Qed.

Lemma is_int_ge x y a b : is_int x a -> is_int y b -> d_ge x y = (b <=? a).
Proof. intros Hx Hy. unfold d_ge, SFleb. rewrite (is_int_compare _ _ _ _ Hy Hx). by unfold Z.leb; destruct (b ?= a). Qed.
