(* ===== verification/Imagemap.v ===== *)
(** * Image maps

    Models [legacy/http-root-dir/cgi-src/imagemap.c]: it finds a map file, reads its lines
    and answers with the document of the first shape that contains the point, of the nearest
    point or of the default. A program is a function of its argument, its environment and
    the files to what it prints; [None] is undefined behaviour, in particular a read of an
    object that was never written. Coordinates are doubles, as in the code. *)

From Stdlib Require Import Ascii String SpecFloat.
From stdpp Require Import base numbers list gmap strings option.
From S2P Require Import Prelude CppLib CMem Double CgiUtil CgiForms.

Definition MAXLINE : nat := N.to_nat 500.
Definition MAXVERTS : nat := N.to_nat 100.

Definition isname (c : ascii) : bool := negb (isspace c).

(** ** Shapes *)

Abbreviation point := (double * double)%type.

(** A place of [pointarray]: a coordinate that was not written is absent. *)
Abbreviation place := (option double * option double)%type.

Definition px (pgon : list place) (i : nat) : option double := v ← pgon !! i; fst v.
Definition py (pgon : list place) (i : nat) : option double := v ← pgon !! i; snd v.

Definition d_le (a b : double) : bool := SFleb a b.

(** [&&] evaluates its second operand only when the first is true. *)
Definition and_then (a b : option bool) : option bool := x ← a; if (x : bool) then b else Some false.

Definition pointinrect (p : point) (coords : list place) : option bool :=
  and_then (and_then (x0 ← px coords 0; Some (d_ge p.1 x0)) (x1 ← px coords 1; Some (d_le p.1 x1)))
           (and_then (y0 ← py coords 0; Some (d_ge p.2 y0)) (y1 ← py coords 1; Some (d_le p.2 y1))).

(** Conversion to [int]: toward zero, and undefined out of range. *)
Definition d_to_int (x : double) : option Z :=
  match x with
  | S754_zero _ => Some 0%Z
  | S754_finite s m e =>
      let n := if (0 <=? e)%Z then (Z.pos m * 2 ^ e)%Z else (Z.pos m / 2 ^ (- e))%Z in
      let z := if (s : bool) then (- n)%Z else n in
      if in_int z then Some z else None
  | _ => None
  end.

Definition d_square (x : double) : double := d_mul x x.

Definition pointincircle (p : point) (coords : list place) : option bool :=
  x0 ← px coords 0; y0 ← py coords 0; x1 ← px coords 1; y1 ← py coords 1;
  radius1 ← d_to_int (d_add (d_square (d_sub y0 y1)) (d_square (d_sub x0 x1)));
  radius2 ← d_to_int (d_add (d_square (d_sub y0 p.2)) (d_square (d_sub x0 p.1)));
  Some (radius2 <=? radius1)%Z.

(** [for (i = 0; pgon[i][X] != -1 && i < MAXVERTS; i++)] *)
Fixpoint count_verts (fuel i : nat) (pgon : list place) : option nat :=
  match fuel with
  | 0 => None
  | S fuel' =>
      x ← px pgon i;
      if negb (SFeqb x (d_of_Z (-1))) && (i <? MAXVERTS)%nat then count_verts fuel' (S i) pgon else Some i
  end.

(** The edge from one vertex to another, when their ends are on different sides of the
    horizontal line through the point: whether it is met to the right of the point. *)
Definition meets (p : point) (x0 y0 x1 y1 : double) : bool :=
  let xflag0 := d_ge x0 p.1 in
  if eqb xflag0 (d_ge x1 p.1) then xflag0
  else d_ge (d_sub x0 (d_div (d_mul (d_sub y0 p.2) (d_sub x1 x0)) (d_sub y1 y0))) p.1.

Definition vertex (pgon : list place) (i : nat) : option point :=
  x ← px pgon i; y ← py pgon i; Some (x, y).

(** [while (p < stop && *p >= ty) p += 2;] and its twin with [<]: [i] is the vertex
    that [p] points into, [above] the side that is skipped. *)
Fixpoint skip_side (fuel i stop : nat) (above : bool) (p : point) (pgon : list place) : option nat :=
  match fuel with
  | 0 => None
  | S fuel' =>
      if (i <? stop)%nat then
        y ← py pgon i;
        if (if above then d_ge y p.2 else d_lt y p.2)
        then skip_side fuel' (S i) stop above p pgon else Some i
      else Some i
  end.

(** The loop over the other edges, with [y] the ordinate of the vertex before [i]. *)
Fixpoint poly_loop (fuel i stop : nat) (y : double) (crossings : nat) (p : point) (pgon : list place) :
    option nat :=
  match fuel with
  | 0 => None
  | S fuel' =>
      if (i <? stop)%nat then
        i ← skip_side (S stop) i stop (d_ge y p.2) p pgon;
        if (stop <=? i)%nat then Some crossings
        else
          '(x0, y0) ← vertex pgon (i - 1); '(x1, y1) ← vertex pgon i;
          poly_loop fuel' (S i) stop y1 (crossings + Nat.b2n (meets p x0 y0 x1 y1)) p pgon
      else Some crossings
  end.

Definition pointinpoly (p : point) (pgon : list place) : option bool :=
  numverts ← count_verts (2 + MAXVERTS) 0 pgon;
  if (numverts =? 0)%nat then None
  else
    '(xl, yl) ← vertex pgon (numverts - 1);
    '(xf, yf) ← vertex pgon 0;
    let crossings := if eqb (d_ge yl p.2) (d_ge yf p.2) then 0
                     else Nat.b2n (meets p xl yl xf yf) in
    crossings ← poly_loop (S numverts) 1 numverts yf crossings p pgon;
    Some (Nat.odd crossings).

(** ** Answers *)

Definition servererr (msg : bytes) : bytes :=
  lit "Content-type: text/html" ++ [LF; LF] ++ lit "<title>Mapping Server Error</title>" ++
  lit "<h1>Mapping Server Error</h1>" ++ lit "This server encountered an error:<p>" ++ msg.

Definition DQ : bytes := ["034"%char].

(** The directory of a path, with its slash: the position of the last one. *)
Fixpoint last_slash (s : bytes) : option nat :=
  match s with
  | [] => None
  | c :: s' => match last_slash s' with
               | Some i => Some (S i)
               | None => if bool_decide (c = "/"%char) then Some 0 else None
               end
  end.

(** The path put before a relative URL; without a slash the code compares with a null
    pointer, and a directory of 500 bytes or more does not fit its array. *)
Definition map_path (env : environ) : option bytes :=
  match env (lit "PATH_INFO") with
  | None => Some (lit "/")
  | Some path_info =>
      last ← last_slash path_info;
      if (S last <? MAXLINE)%nat then Some (take (S last) path_info) else None
  end.

Definition sendmesg (env : environ) (url : bytes) : option bytes :=
  let here := lit "This document has moved <A HREF=" ++ DQ ++ url ++ DQ ++ lit ">here</A>" ++ [LF] in
  match search [":"%char] url with
  | Some _ => Some (lit "Location: " ++ url ++ [LF; LF] ++ here)
  | None =>
      server_name ← env (lit "SERVER_NAME");
      let port := match env (lit "SERVER_PORT") with
                  | Some p => if bool_decide (p = lit "80") then [] else lit ":" ++ p
                  | None => []
                  end in
      path ← (if bool_decide (head url = Some "/"%char) then Some [] else map_path env);
      Some (lit "Location: http://" ++ server_name ++ port ++ path ++ url ++ [LF; LF] ++ here)
  end.

(** ** Lines of a map *)

Fixpoint skip_while (f : ascii -> bool) (s : bytes) : bytes :=
  match s with [] => [] | c :: s' => if f c then skip_while f s' else s end.

Fixpoint take_while (f : ascii -> bool) (s : bytes) : bytes :=
  match s with [] => [] | c :: s' => if f c then c :: take_while f s' else [] end.

Definition is_separator (c : ascii) : bool := isspace c || bool_decide (c = ","%char).

(** A number: its digits must fit [num], and it is absent when there are none. *)
Definition read_num (s : bytes) : option (option double * bytes) :=
  let s := skip_while is_separator s in
  let digits := take_while isdigit s in
  if (length digits <? 10)%nat then
    match digits with
    | [] => Some (None, s)
    | _ => z ← atoi digits; Some (Some (d_of_Z z), drop (length digits) s)
    end
  else None.

Definition set_x (k : nat) (x : double) (pts : list place) : option (list place) :=
  '(_, y) ← pts !! k; Some (<[k := (Some x, y)]> pts).
Definition set_y (k : nat) (y : double) (pts : list place) : option (list place) :=
  '(x, _) ← pts !! k; Some (<[k := (x, Some y)]> pts).

(** The loop over the coordinates: the array and the number of points, or the error. *)
Fixpoint read_points (fuel k : nat) (pts : list place) (s : bytes) : option (result bytes (list place * nat)) :=
  match fuel with
  | 0 => None
  | S fuel' =>
      match s with
      | [] => Some (Ok (pts, k))
      | _ =>
          '(x, s) ← read_num s;
          match x with
          | None => Some (Ok (pts, k))
          | Some x =>
              pts ← set_x k x pts;
              '(y, s) ← read_num s;
              match y with
              | None => Some (Err (servererr (lit "Missing y value.")))
              | Some y => pts ← set_y k y pts; read_points fuel' (S k) pts s
              end
          end
      end
  end.

(** The variables that live over the lines; [def] and [mindist] are absent until written. *)
Record map_state := {
  pointarray : list place; def : option bytes; sawpoint : nat; mindist : option double
}.
Definition map_start : map_state :=
  {| pointarray := replicate MAXVERTS (None, None); def := None; sawpoint := 0; mindist := None |}.

Inductive line_result := Next (s : map_state) | Print (out : bytes).

Definition shape (env : environ) (type url : bytes) (testpoint : point) (s : map_state) : option line_result :=
  let pts := pointarray s in
  let answer inside := if (inside : bool) then out ← sendmesg env url; Some (Print out) else Some (Next s) in
  if bool_decide (type = lit "poly") then inside ← pointinpoly testpoint pts; answer inside
  else if bool_decide (type = lit "circle") then inside ← pointincircle testpoint pts; answer inside
  else if bool_decide (type = lit "rect") then inside ← pointinrect testpoint pts; answer inside
  else if bool_decide (type = lit "point") then
    x ← px pts 0; y ← py pts 0;
    let dist := d_add (d_square (d_sub testpoint.1 x)) (d_square (d_sub testpoint.2 y)) in
    nearest ← (if (sawpoint s =? 0)%nat then Some true else m ← mindist s; Some (d_lt dist m));
    Some (Next {| pointarray := pts; def := if (nearest : bool) then Some url else def s;
                  sawpoint := S (sawpoint s); mindist := if nearest then Some dist else mindist s |})
  else Some (Next s).

(** One line of the map, as a string. *)
Definition map_line (env : environ) (testpoint : point) (line : bytes) (s : map_state) : option line_result :=
  if bool_decide (head line = Some "#"%char) || bool_decide (line = []) then Some (Next s)
  else
    let type := take_while isname line in
    let rest := skip_while isspace (drop (length type) line) in
    let url := take_while isname rest in
    let rest := drop (length url) rest in
    if bool_decide (type = lit "default") && (sawpoint s =? 0)%nat then
      Some (Next {| pointarray := pointarray s; def := Some url; sawpoint := sawpoint s; mindist := mindist s |})
    else
      r ← read_points (S (length rest)) 0 (pointarray s) rest;
      match r with
      | Err out => Some (Print out)
      | Ok (pts, k) =>
          pts ← set_x k (d_of_Z (-1)) pts;
          shape env type url testpoint
            {| pointarray := pts; def := def s; sawpoint := sawpoint s; mindist := mindist s |}
      end.

Fixpoint map_lines (fuel : nat) (env : environ) (testpoint : point) (input : bytes) (f : FILE) (s : map_state) :
    option line_result :=
  match fuel with
  | 0 => None
  | S fuel' =>
      '(ended, input, f) ← mygetline input MAXLINE f;
      if (ended : bool) then Some (Next s)
      else
        line ← c_string input;
        r ← map_line env testpoint line s;
        match r with Print out => Some (Print out) | Next s => map_lines fuel' env testpoint input f s end
  end.

(** ** The program *)

(** The name in a line of the configuration file. The loop does not stop at the end of the
    string. *)
Fixpoint conf_name (fuel i : nat) (input confname : bytes) : option (nat * bytes) :=
  match fuel with
  | 0 => None
  | S fuel' =>
      c ← rd input i;
      if isname c && negb (bool_decide (c = ":"%char)) then
        confname ← wr confname i c; conf_name fuel' (S i) input confname
      else confname ← wr confname i NUL; Some (i, confname)
  end.

Definition is_gap (c : ascii) : bool := isspace c || bool_decide (c = ":"%char).

(** The part of the line after the name: the path of the map file. *)
Definition conf_value (input : bytes) (i : nat) : option bytes :=
  rest ← c_string (drop i input); Some (take_while isname (skip_while is_gap rest)).

Section Program.
Context `{Memory}.
Context (files : bytes -> option bytes) (is_regular : bytes -> bool).

Definition CONF_FILE : bytes := lit "/usr/local/etc/httpd/conf/imagemap.conf".

(** The search of the configuration file: the path of the map, or none at the end. *)
Fixpoint find_map (fuel : nat) (mapname input : bytes) (f : FILE) : option (option bytes) :=
  match fuel with
  | 0 => None
  | S fuel' =>
      '(ended, input, f) ← mygetline input MAXLINE f;
      if (ended : bool) then Some None
      else
        c ← rd input 0;
        if bool_decide (c = "#"%char) || bool_decide (c = NUL) then find_map fuel' mapname input f
        else
          '(i, confname) ← conf_name (S MAXLINE) 0 input (fresh MAXLINE);
          s ← c_string confname;
          if bool_decide (s = mapname) then Some <$> conf_value input i
          else find_map fuel' mapname input f
  end.

(** [strcpy(conf, getenv("PATH_TRANSLATED"))] *)
Definition translated (env : environ) : option bytes :=
  t ← env (lit "PATH_TRANSLATED"); if (length t <? MAXLINE)%nat then Some t else None.

(** The path of the map file, or the error page. *)
Definition map_file (env : environ) (mapname : bytes) : option (result bytes bytes) :=
  match search ["/"%char] mapname with
  | Some _ => Ok <$> translated env
  | None =>
      match files CONF_FILE with
      | None => None
      | Some content =>
          r ← find_map (2 + length content) mapname (fresh MAXLINE) (fopen_bytes content);
          match r with
          | Some conf => Some (Ok conf)
          | None =>
              t ← translated env;
              if is_regular t then Some (Ok t)
              else Some (Err (servererr (lit "Map not found in configuration file.")))
          end
      end
  end.

Definition ISMAP_ERROR : bytes := lit "Wrong number of arguments, client may not support ISMAP.".
Definition NO_MAP : bytes :=
  lit "No map name given. Please read the <A HREF=" ++ DQ ++
  lit "http://hoohoo.ncsa.uiuc.edu/docs/tutorials/imagemapping.html" ++ DQ ++ lit ">instructions</A>.<P>".

(** The lines of the map file and what is left for the end. *)
Definition answer_point (env : environ) (testpoint : point) (conf : bytes) : option bytes :=
  match files conf with
  | None =>
      let errstr := lit "Couldn't open configuration file: " ++ conf in
      if (length errstr <? MAXLINE)%nat then Some (servererr errstr) else None
  | Some content =>
      r ← map_lines (2 + length content) env testpoint (fresh MAXLINE) (fopen_bytes content) map_start;
      match r with
      | Print out => Some out
      | Next s =>
          d ← def s;
          match d with [] => Some (servererr (lit "No default specified.")) | _ => sendmesg env d end
      end
  end.

Definition imagemap_main (argv : list bytes) (env : environ) : option bytes :=
  match argv with
  | [arg] =>
      match env (lit "PATH_INFO") with
      | None | Some [] => Some (servererr NO_MAP)
      | Some (_ :: mapname) =>
          match search [","%char] arg with
          | None => Some (servererr (lit "Your client doesn't support image mapping properly."))
          | Some t =>
              x ← atoi (take t arg); y ← atoi (drop (t + 1) arg);
              r ← map_file env mapname;
              match r with
              | Err out => Some out
              | Ok conf => answer_point env (d_of_Z x, d_of_Z y) conf
              end
          end
      end
  | _ => Some (servererr ISMAP_ERROR)
  end.
End Program.
