(* ===== verification/ImagemapFacts.v ===== *)
(** * Properties of the image map program

    The polygon test with its skipping loops counts the same edges as a plain walk around
    the polygon; the rectangle test is the comparison of integers; and where the program is
    undefined. *)

From Stdlib Require Import Ascii String SpecFloat.
From stdpp Require Import base numbers list gmap strings option.
From S2P Require Import Prelude CppLib CMem Double CgiUtil CgiUtilFacts CgiForms Imagemap.

(** ** Points with integer coordinates *)

Definition small (z : Z) : Prop := (Z.abs z < 2 ^ 53)%Z.
Definition small_point (v : Z * Z) : Prop := small v.1 /\ small v.2.
Definition at_int (v : Z * Z) : point := (d_of_Z v.1, d_of_Z v.2).
Definition int_place (v : Z * Z) : place := (Some (d_of_Z v.1), Some (d_of_Z v.2)).

(** An edge counts when its ends are on different sides of the line through the point, one
    being on the line or above and one below, and it is met on or to the right of it. *)
Definition side (p v : Z * Z) : bool := (p.2 <=? v.2)%Z.
Definition meets_edge (p v w : Z * Z) : bool :=
  meets (at_int p) (d_of_Z v.1) (d_of_Z v.2) (d_of_Z w.1) (d_of_Z w.2).
Definition crosses (p v w : Z * Z) : bool := negb (eqb (side p v) (side p w)) && meets_edge p v w.

(** The edges of a walk through [vs] that starts at [v]. *)
Fixpoint crossings_from (p v : Z * Z) (vs : list (Z * Z)) : nat :=
  match vs with
  | [] => 0
  | w :: vs' => Nat.b2n (crosses p v w) + crossings_from p w vs'
  end.

(** The closed walk, from the last vertex to the first and on. *)
Definition crossings_around (p : Z * Z) (vs : list (Z * Z)) : nat :=
  match list.last vs with Some v => crossings_from p v vs | None => 0 end.

(** The vertices [vs] stand at the beginning of the array. *)
Definition holds_polygon (pgon : list place) (vs : list (Z * Z)) : Prop :=
  exists y rest, pgon = map int_place vs ++ (Some (d_of_Z (-1)), y) :: rest.

Lemma holds_lookup pgon vs i v :
  holds_polygon pgon vs -> vs !! i = Some v -> pgon !! i = Some (int_place v).
Proof.
  intros (y & rest & ->) Hi. rewrite lookup_app_l by (rewrite length_map; by eapply lookup_lt_Some).
  change (map int_place vs) with (int_place <$> vs). by rewrite list_lookup_fmap, Hi.
Qed.

Lemma vertex_at pgon vs i v : holds_polygon pgon vs -> vs !! i = Some v -> vertex pgon i = Some (at_int v).
Proof. intros Hp Hi. unfold vertex, px, py. by rewrite (holds_lookup _ _ _ _ Hp Hi). Qed.

Lemma count_verts_spec pgon vs i fuel :
  holds_polygon pgon vs -> Forall small_point vs -> Forall (fun v => v.1 <> (-1)%Z) vs ->
  (length vs <= MAXVERTS)%nat -> (i <= length vs)%nat -> (length vs - i < fuel)%nat ->
  count_verts fuel i pgon = Some (length vs).
Proof.
  intros Hp Hs Hn Hm. revert i. induction fuel as [|fuel IH]; intros i Hi Hf; [lia|]. cbn [count_verts].
  destruct (vs !! i) as [v|] eqn:Ev.
  - unfold px. rewrite (holds_lookup _ _ _ _ Hp Ev). run_bind. cbn [int_place fst snd]. run_bind.
    assert (Hv : SFeqb (d_of_Z v.1) (d_of_Z (-1)) = false).
    { unfold SFeqb. rewrite d_of_Z_compare; [|by apply (Forall_lookup_1 _ _ _ _ Hs Ev)|done].
      pose proof (Forall_lookup_1 _ _ _ _ Hn Ev) as Hne. by destruct (Z.compare_spec v.1 (-1)). }
    apply lookup_lt_Some in Ev as Hlt. rewrite Hv. destruct (Nat.ltb_spec i MAXVERTS); [|lia]. cbn [negb andb].
    apply IH; lia.
  - apply lookup_ge_None in Ev. assert (i = length vs) as -> by lia. destruct Hp as (y & rest & ->).
    unfold px. rewrite lookup_app_r, length_map, Nat.sub_diag by (rewrite length_map; lia). cbn [lookup list_lookup].
    run_bind. done.
Qed.

Section Polygon.
Context (p : Z * Z) (pgon : list place) (vs : list (Z * Z)).
Hypothesis (Hpoly : holds_polygon pgon vs) (Hvs : Forall small_point vs) (Hp : small_point p).

Lemma side_above v : v ∈ vs -> d_ge (d_of_Z v.2) (at_int p).2 = side p v /\ d_lt (d_of_Z v.2) (at_int p).2 = negb (side p v).
Proof.
  intros Hv. rewrite list.Forall_forall in Hvs. destruct (Hvs v Hv) as [_ H2], Hp as [_ H3].
  unfold side. cbn [at_int snd]. rewrite d_ge_of_Z, d_lt_of_Z by done.
  split; [done|]. destruct (Z.ltb_spec v.2 p.2), (Z.leb_spec p.2 v.2); (done || lia).
Qed.

(** The skipping loop stops at the first vertex on the other side. *)
Lemma skip_side_spec b ws : forall i fuel,
  drop i vs = ws -> (length ws < fuel)%nat ->
  exists same others, ws = same ++ others /\ Forall (fun v => side p v = b) same /\
    (forall w others', others = w :: others' -> side p w <> b) /\
    skip_side fuel i (length vs) b (at_int p) pgon = Some (i + length same)%nat.
Proof.
  induction ws as [|w ws IH]; intros i fuel Hd Hf; (destruct fuel as [|fuel]; [simpl in Hf; lia|]); cbn [skip_side].
  - exists [], []. rewrite Nat.add_0_r. destruct (Nat.ltb_spec i (length vs)) as [Hlt|_]; [|done].
    apply (f_equal length) in Hd. rewrite length_drop in Hd. simpl in Hd. lia.
  - apply drop_next in Hd as Hd'. destruct Hd' as [Hd' Hi]. destruct (Nat.ltb_spec i (length vs)); [|lia].
    assert (Hw : vs !! i = Some w) by (rewrite <- (Nat.add_0_r i), <- lookup_drop, Hd; done).
    unfold py. rewrite (holds_lookup _ _ _ _ Hpoly Hw). run_bind. cbn [int_place fst snd]. run_bind.
    destruct (side_above w) as [S1 S2]; [by eapply list_elem_of_lookup_2|]. rewrite S1, S2.
    destruct (decide (side p w = b)) as [Hb|Hb].
    + replace (if b then side p w else negb (side p w)) with true by (by destruct b; rewrite Hb).
      destruct (IH (S i) fuel Hd') as (same & others & -> & F & O & E); [simpl in Hf; lia|].
      exists (w :: same), others. split; [done|]. split; [by constructor|]. split; [done|].
      rewrite E. f_equal. simpl. lia.
    + replace (if b then side p w else negb (side p w)) with false by (by destruct b, (side p w)).
      exists [], (w :: ws). rewrite Nat.add_0_r. split; [done|]. split; [constructor|]. split; [by intros ? ? [= <- _]|done].
Qed.

Lemma crossings_same v same others b :
  side p v = b -> Forall (fun w => side p w = b) same ->
  crossings_from p v (same ++ others) = crossings_from p (default v (list.last same)) others.
Proof.
  intros Hv Hs. revert v Hv. induction Hs as [|w same Hw Hs IH]; intros v Hv; [done|]. cbn [app crossings_from].
  rewrite (IH w Hw). unfold crosses. rewrite Hv, Hw, eqb_reflx. cbn [negb andb Nat.b2n Nat.add].
  f_equal. destruct same as [|x same]; [done|]. rewrite last_cons_cons. by destruct (list.last (x :: same)) eqn:El; [|apply last_None in El].
Qed.

(** The main loop, from the vertex after [v]. *)
Lemma poly_loop_spec ws : forall i v fuel c,
  drop i vs = v :: ws -> (length ws < fuel)%nat ->
  poly_loop fuel (S i) (length vs) (d_of_Z v.2) c (at_int p) pgon = Some (c + crossings_from p v ws)%nat.
Proof.
  induction ws as [ws IH] using list_ind_lt. intros i v fuel c Hd Hf. destruct fuel as [|fuel]; [lia|]. cbn [poly_loop].
  apply drop_next in Hd as Hd'. destruct Hd' as [Hd' Hi]. assert (Hlen : (S i + length ws = length vs)%nat).
  { apply (f_equal length) in Hd'. rewrite length_drop in Hd'. lia. }
  destruct (Nat.ltb_spec (S i) (length vs)) as [Hlt|Hge].
  2: { destruct ws; [by rewrite Nat.add_0_r|simpl in Hlen; lia]. }
  assert (Hvi : vs !! i = Some v) by (rewrite <- (Nat.add_0_r i), <- lookup_drop, Hd; done).
  assert (Hv : v ∈ vs) by by eapply list_elem_of_lookup_2.
  rewrite (proj1 (side_above v Hv)).
  destruct (skip_side_spec (side p v) ws (S i) (S (length vs)) Hd') as (same & others & -> & F & O & E); [lia|].
  rewrite E. run_bind. rewrite (crossings_same v same others (side p v)) by done. rewrite length_app in Hlen, Hf.
  destruct others as [|w others].
  - destruct (Nat.leb_spec (length vs) (S i + length same)); [|simpl in Hlen; lia]. by rewrite Nat.add_0_r.
  - destruct (Nat.leb_spec (length vs) (S i + length same)); [simpl in Hlen; lia|].
    set (u := default v (list.last same)).
    assert (Hu : vs !! (i + length same)%nat = Some u).
    { rewrite <- lookup_drop, Hd. unfold u. destruct same as [|x same]; [done|].
      change ((((x :: same) ++ w :: others) !! length same) = Some (default v (list.last (x :: same)))).
      rewrite lookup_app_l by (simpl; lia). rewrite last_lookup. cbn [length Nat.pred].
      by destruct ((x :: same) !! length same) eqn:Ex; [|apply lookup_ge_None in Ex; simpl in Ex; lia]. }
    assert (Hw : vs !! (S i + length same)%nat = Some w).
    { rewrite <- lookup_drop, Hd', lookup_app_r, Nat.sub_diag by lia. done. }
    replace (S i + length same - 1)%nat with (i + length same)%nat by lia.
    rewrite (vertex_at _ _ _ _ Hpoly Hu), (vertex_at _ _ _ _ Hpoly Hw). run_bind. cbn [at_int fst snd].
    change (S (S i + length same)) with (S (S i + length same)%nat). cbn [length] in Hlen, Hf.
    rewrite (IH others) with (v := w); [|rewrite length_app; simpl; lia| |lia].
    + cbn [crossings_from]. unfold crosses, meets_edge. f_equal.
      replace (eqb (side p u) (side p w)) with false; [cbn [negb andb]; unfold at_int; lia|].
      assert (Hsu : side p u = side p v).
      { unfold u. destruct (list.last same) as [x|] eqn:El; [|done]. apply last_Some_elem_of in El.
        rewrite list.Forall_forall in F. by apply F. }
      specialize (O w others eq_refl). rewrite Hsu. by destruct (side p v), (side p w).
    + rewrite <- drop_drop, Hd'. by rewrite drop_app_length.
Qed.
End Polygon.

(** The polygon test is the parity of the edges met on a walk around the polygon: the loops
    that skip vertices on one side of the line lose and double no edge, whatever the polygon,
    for at most 100 vertices with non-negative integer coordinates below 2^53. *)
Lemma pointinpoly_crossings p pgon vs :
  holds_polygon pgon vs -> vs <> [] -> (length vs <= MAXVERTS)%nat -> small_point p ->
  Forall (fun v => small_point v /\ (0 <= v.1)%Z) vs ->
  pointinpoly (at_int p) pgon = Some (Nat.odd (crossings_around p vs)).
Proof.
  intros Hpoly Hne Hm Hp Hvs. assert (Hs : Forall small_point vs) by (eapply list.Forall_impl; [exact Hvs|naive_solver]).
  unfold pointinpoly. rewrite (count_verts_spec pgon vs 0 (2 + MAXVERTS)); [|done|done| |done|lia|lia].
  2: { eapply list.Forall_impl; [exact Hvs|]. intros v [_ Hv]. lia. }
  run_bind. unfold crossings_around. destruct (list.last vs) as [l|] eqn:El; [|by apply last_None in El].
  assert (Hl : vs !! (length vs - 1)%nat = Some l) by (by rewrite last_lookup, <- Nat.sub_1_r in El).
  destruct vs as [|v ws] eqn:Evs; [done|]. rewrite <- Evs in *.
  assert (Hv : vs !! 0 = Some v) by by rewrite Evs.
  destruct (Nat.eqb_spec (length vs) 0) as [E|_]; [by rewrite Evs in E|].
  rewrite (vertex_at _ _ _ _ Hpoly Hl), (vertex_at _ _ _ _ Hpoly Hv). run_bind. cbn [at_int fst snd].
  destruct (side_above p vs Hs Hp l (list_elem_of_lookup_2 _ _ _ Hl)) as [S1 _].
  destruct (side_above p vs Hs Hp v (list_elem_of_lookup_2 _ _ _ Hv)) as [S2 _].
  cbn [at_int snd] in S1, S2. rewrite S1, S2. fold (at_int p).
  rewrite (poly_loop_spec p pgon vs Hpoly Hs Hp ws 0 v) by (rewrite Evs; simpl; (done || lia)). run_bind.
  do 2 f_equal. rewrite Evs. cbn [crossings_from]. f_equal. unfold crosses, meets_edge.
  by destruct (eqb (side p l) (side p v)).
Qed.

(** The rectangle test on integer coordinates. *)
Theorem pointinrect_exact p a b coords :
  small_point p -> small_point a -> small_point b ->
  coords !! 0 = Some (int_place a) -> coords !! 1 = Some (int_place b) ->
  pointinrect (at_int p) coords =
    Some (bool_decide (a.1 <= p.1 <= b.1 /\ a.2 <= p.2 <= b.2)%Z).
Proof.
  intros [P1 P2] [A1 A2] [B1 B2] H0 H1. unfold pointinrect, and_then, px, py. rewrite H0, H1. run_bind. cbn [int_place fst snd at_int].
  run_bind. unfold d_le. change SFleb with (fun x y => d_ge y x). cbn beta. rewrite !d_ge_of_Z by done.
  destruct (Z.leb_spec a.1 p.1), (Z.leb_spec p.1 b.1), (Z.leb_spec a.2 p.2), (Z.leb_spec p.2 b.2); run_bind; symmetry; f_equal;
    first [apply bool_decide_eq_true_2; lia | apply bool_decide_eq_false_2; lia].
Qed.

(** ** Where the program is undefined *)

(** A polygon without vertices: the vertex before the first is read. *)
Theorem empty_polygon_undefined p pgon : holds_polygon pgon [] -> pointinpoly p pgon = None.
Proof.
  intros Hp. unfold pointinpoly. rewrite (count_verts_spec pgon [] 0) by (done || unfold MAXVERTS; simpl; lia). done.
Qed.

(** A map name without a slash, and no configuration file: the path of the map file is read
    without having been written. *)
Theorem no_configuration_undefined `{Memory} files is_regular env arg slash mapname :
  env (lit "PATH_INFO") = Some (slash :: mapname) -> "/"%char ∉ mapname -> files CONF_FILE = None ->
  search [","%char] arg <> None -> imagemap_main files is_regular [arg] env = None.
Proof.
  intros Hp Hs Hf Hc. unfold imagemap_main. rewrite Hp. destruct (search [","%char] arg) as [t|]; [|done].
  destruct (atoi (take t arg)) as [x|]; [|done]. run_bind. destruct (atoi (drop (t + 1) arg)) as [y|]; [|done]. run_bind.
  unfold map_file. apply search_char_None in Hs. by rewrite Hs, Hf.
Qed.

(** A map file without lines: the default is read without having been written. *)
Theorem no_default_undefined `{Memory} files env p conf :
  files conf = Some [] -> answer_point files env p conf = None.
Proof.
  intros Hf. unfold answer_point. rewrite Hf. cbn [length Nat.add map_lines].
  destruct (getline_eof (S MAXLINE) 0 MAXLINE (fresh MAXLINE) false) as (s' & E & _);
    [unfold MAXLINE; lia|rewrite fresh_length; lia|lia|].
  unfold mygetline, fopen_bytes. rewrite E. done.
Qed.
