(* ===== verification/ImagemapExact.v ===== *)
(** * Image maps in integer arithmetic

    For coordinates of a picture the tests of [imagemap.c], which compute with doubles, are the
    tests of integer geometry: nothing is decided by a rounding error. *)

From Stdlib Require Import Ascii String ZArith Znumtheory SpecFloat.
From stdpp Require Import base numbers list gmap strings option.
From S2P Require Import Prelude CppLib CMem Double DoubleArith CgiUtil CgiUtilFacts CgiForms Imagemap ImagemapFacts.

Local Open Scope Z_scope.

(** Coordinates of a picture, with room for a point outside of it. *)
Definition pixel (z : Z) : Prop := Z.abs z < 2 ^ 14.
Definition pixel_point (v : Z * Z) : Prop := pixel v.1 /\ pixel v.2.

Lemma pixel_int z : pixel z -> is_int (d_of_Z z) z.
Proof. intros Hz. apply is_int_of_Z. unfold pixel in Hz. lia. Qed.

(** ** Circles and distances *)

Definition distance2 (a b : Z * Z) : Z := (a.1 - b.1) * (a.1 - b.1) + (a.2 - b.2) * (a.2 - b.2).

Lemma difference_square a b :
  pixel a -> pixel b -> is_int (d_square (d_sub (d_of_Z a) (d_of_Z b))) ((a - b) * (a - b)) /\ 0 <= (a - b) * (a - b) < 2 ^ 30.
Proof.
  intros Ha Hb. unfold pixel in *. assert (Hd : Z.abs (a - b) < 2 ^ 15) by lia. assert (Hs : 0 <= (a - b) * (a - b) < 2 ^ 30) by nia.
  split; [|done]. apply is_int_mul; [..|lia|lia|lia]; (apply is_int_sub; [by apply pixel_int..|lia]).
Qed.

(** The sum of squares that the code computes, in either order of its terms. *)
Lemma distance_int a b c d :
  pixel a -> pixel b -> pixel c -> pixel d ->
  is_int (d_add (d_square (d_sub (d_of_Z a) (d_of_Z b))) (d_square (d_sub (d_of_Z c) (d_of_Z d))))
    ((a - b) * (a - b) + (c - d) * (c - d)) /\
  0 <= (a - b) * (a - b) + (c - d) * (c - d) < 2 ^ 31.
Proof.
  intros Ha Hb Hc Hd. destruct (difference_square a b Ha Hb) as [I1 B1], (difference_square c d Hc Hd) as [I2 B2].
  split; [|lia]. apply is_int_add; [done..|lia].
Qed.

Lemma is_int_to_int x a : is_int x a -> in_int a = true -> d_to_int x = Some a.
Proof.
  intros [Hn Hv] Ha. pose proof scale_pos as Hs. destruct x as [s|s| |s m e]; try done.
  - assert (a = 0) as -> by (cbn [dval] in Hv; symmetry in Hv; apply Z.mul_eq_0 in Hv as [|]; lia). done.
  - destruct Hn as [_ He]. cbn [d_to_int].
    assert (Hm : (if s then - (if 0 <=? e then Z.pos m * 2 ^ e else Z.pos m / 2 ^ (- e)) else (if 0 <=? e then Z.pos m * 2 ^ e else Z.pos m / 2 ^ (- e))) = a).
    { assert (Habs : Z.pos m * 2 ^ (e + SCALE) = cond_Zopp s a * 2 ^ SCALE) by (cbn [dval] in Hv; destruct s; cbn [cond_Zopp] in *; [rewrite Z.mul_opp_l, <- Hv, Z.opp_involutive|]; done).
      assert (Hn : (if 0 <=? e then Z.pos m * 2 ^ e else Z.pos m / 2 ^ (- e)) = cond_Zopp s a).
      { destruct (Z.leb_spec 0 e).
        - rewrite Z.pow_add_r in Habs by (unfold SCALE; lia). apply (Z.mul_reg_r _ _ (2 ^ SCALE)); lia.
        - assert (Hp : 0 < 2 ^ (- e)) by (apply pow2_pos; lia). assert (Hw : 0 < 2 ^ (e + SCALE)) by (apply pow2_pos; lia).
          assert (Hsc : 2 ^ SCALE = 2 ^ (- e) * 2 ^ (e + SCALE)) by (rewrite <- Z.pow_add_r by lia; f_equal; lia).
          rewrite Hsc in Habs. symmetry. apply Z.div_unique_exact; nia. }
      rewrite Hn. destruct s; cbn [cond_Zopp]; lia. }
    rewrite Hm. by rewrite Ha.
Qed.

Lemma in_int_range a : 0 <= a < 2 ^ 31 -> in_int a = true.
Proof. intros Ha. unfold in_int, INT_MIN, INT_MAX. apply andb_true_iff. split; apply Z.leb_le; lia. Qed.

(** The circle around the first point through the second. *)
Theorem pointincircle_exact p c q coords :
  pixel_point p -> pixel_point c -> pixel_point q ->
  coords !! 0%nat = Some (int_place c) -> coords !! 1%nat = Some (int_place q) ->
  pointincircle (at_int p) coords = Some (distance2 c p <=? distance2 c q).
Proof.
  intros [P1 P2] [C1 C2] [Q1 Q2] H0 H1. unfold pointincircle, px, py. rewrite H0, H1. run_bind.
  cbn [int_place at_int fst snd]. run_bind.
  destruct (distance_int c.2 q.2 c.1 q.1 C2 Q2 C1 Q1) as [I1 B1]. destruct (distance_int c.2 p.2 c.1 p.1 C2 P2 C1 P1) as [I2 B2].
  rewrite (is_int_to_int _ _ I1) by by apply in_int_range. run_bind.
  rewrite (is_int_to_int _ _ I2) by by apply in_int_range. run_bind. unfold distance2. do 2 f_equal; lia.
Qed.

(** ** Edges *)

(** The edge from [v] to [w] meets the horizontal line through [p] at [p] or to the right of it:
    the abscissa [v.1 - (v.2 - p.2) * (w.1 - v.1) / (w.2 - v.2)] is at least [p.1], without the
    division. *)
Definition meets_right (p v w : Z * Z) : bool :=
  (v.2 - p.2) * (w.1 - v.1) * Z.sgn (w.2 - v.2) <=? (v.1 - p.1) * Z.abs (w.2 - v.2).

(** The quotient of two integers and its distance from a third: when it is not an integer it is
    rounded, but stays on its side of every integer. *)
Lemma quotient_side q n d k :
  0 < d < 2 ^ 15 -> Z.abs n < 2 ^ 30 -> ~ (d | n) ->
  nearest q (n * 2 ^ SCALE * 2 ^ SCALE) (d * 2 ^ SCALE) ->
  Z.abs (dval q) < 2 ^ 31 * 2 ^ SCALE /\
  (n < k * d -> dval q + 2 ^ 284 <= k * 2 ^ SCALE) /\ (k * d < n -> k * 2 ^ SCALE + 2 ^ 284 <= dval q).
Proof.
  intros Hd Hn Hnd Hq. pose proof scale_pos as Hs.
  apply nearest_error in Hq; [|nia]. change (2 ^ 284) with (2 ^ 284). assert (HS : 2 ^ SCALE = 2 ^ 16 * 2 ^ 284) by done.
  set (S := 2 ^ SCALE) in *. set (u := 2 ^ 284) in *. assert (Hu : 0 < u) by (by apply pow2_pos).
  assert (Herr : 2 ^ 53 * Z.abs (dval q * d - n * S) <= Z.abs n * S).
  { replace (dval q * (d * S) - n * S * S) with ((dval q * d - n * S) * S) in Hq by ring.
    rewrite !Z.abs_mul, !(Z.abs_eq S) in Hq by lia. nia. }
  assert (Herr' : 2 ^ 7 * Z.abs (dval q * d - n * S) <= u) by (rewrite HS in *; nia).
  split; [|split; intros Hk].
  - assert (Z.abs (dval q) * d <= Z.abs n * S + u) by (rewrite <- (Z.abs_eq d) at 1 by lia; rewrite <- Z.abs_mul, <- (Z.abs_eq S), <- Z.abs_mul by lia; lia).
    nia.
  - assert (n * S + S <= k * d * S) by nia. assert (dval q * d + S - u <= k * d * S) by lia.
    assert (d * u <= 2 ^ 15 * u) by nia. assert ((dval q + u) * d <= k * S * d) by nia. nia.
  - assert (k * d * S + S <= n * S) by nia. assert (k * d * S + S - u <= dval q * d) by lia.
    assert (d * u <= 2 ^ 15 * u) by nia. assert ((k * S + u) * d <= dval q * d) by nia. nia.
Qed.

Lemma d_ge_dval x y : normal x -> normal y -> d_ge x y = (dval y <=? dval x).
Proof. intros Hx Hy. unfold d_ge, SFleb. rewrite compare_dval by done. by unfold Z.leb; destruct (_ ?= _). Qed.

(** The comparison of the code, on integers: the rounding errors of the quotient and of the
    difference do not change it. *)
Lemma edge_compare x0 num den px X N D P :
  is_int x0 X -> is_int num N -> is_int den D -> is_int px P ->
  pixel X -> pixel P -> Z.abs N < 2 ^ 30 -> D <> 0 -> Z.abs D < 2 ^ 15 ->
  d_ge (d_sub x0 (d_div num den)) px = (N * Z.sgn D <=? (X - P) * Z.abs D).
Proof.
  intros Hx Hn Hd Hp BX BP BN HD BD. unfold pixel in *. pose proof scale_pos as Hs.
  set (q := d_div num den). set (n := N * Z.sgn D). set (d := Z.abs D).
  assert (Hd0 : 0 < d < 2 ^ 15) by lia. assert (Hn0 : Z.abs n < 2 ^ 30) by (unfold n; destruct (Z.sgn_spec D) as [[_ ->]|[[_ ->]|[_ ->]]]; lia).
  assert (Hq : nearest q (n * 2 ^ SCALE * 2 ^ SCALE) (d * 2 ^ SCALE)).
  { assert (Hq : nearest q (dval num * 2 ^ SCALE * Z.sgn (dval den)) (Z.abs (dval den))).
    { apply d_div_nearest; [apply Hn|apply Hd|by apply (is_int_moderate _ N); [|lia]|by apply (is_int_moderate _ D); [|lia]|].
      destruct Hd as [_ ->]. nia. }
    destruct Hn as [_ Vn], Hd as [_ Vd]. rewrite Vn, Vd, Z.sgn_mul, (Z.sgn_pos (2 ^ SCALE)), Z.abs_mul, (Z.abs_eq (2 ^ SCALE)) in Hq by lia.
    replace (N * 2 ^ SCALE * 2 ^ SCALE * (Z.sgn D * 1)) with (n * 2 ^ SCALE * 2 ^ SCALE) in Hq by (unfold n; ring). exact Hq. }
  destruct (Znumtheory.Zdivide_dec d n) as [[k Hk]|Hnd].
  - assert (Hk0 : Z.abs k < 2 ^ 30) by nia.
    assert (Iq : is_int q k) by (eapply is_int_nearest; [|exact Hq|rewrite Hk; ring|lia]; nia).
    rewrite (is_int_ge _ px (X - k) P) by (done || (apply is_int_sub; [done..|lia])).
    rewrite Hk. apply eq_bool_prop_intro. rewrite !Is_true_true, !Z.leb_le. nia.
  - destruct (quotient_side q n d X Hd0 Hn0 Hnd Hq) as (Bq & Lq & Gq).
    destruct (quotient_side q n d (X - P) Hd0 Hn0 Hnd Hq) as (_ & Lk & Gk).
    assert (HnX : forall k, n <> k * d) by (intros k E; apply Hnd; by exists k).
    destruct Hx as [Nx Vx], Hp as [Np Vp]. pose proof (HnX X). pose proof (HnX (X - P)).
    set (u := 2 ^ 284) in *. assert (HS : 2 ^ SCALE = 2 ^ 16 * u) by done. assert (Hu : 2 ^ 53 <= u) by (by apply Z.pow_le_mono_r).
    assert (HB : 2 ^ (SCALE + 800) = 2 ^ 800 * 2 ^ SCALE) by (rewrite Z.pow_add_r by (unfold SCALE; lia); ring).
    assert (H800 : 2 ^ 32 < 2 ^ 800) by (by apply Z.pow_lt_mono_r).
    set (S := 2 ^ SCALE) in *. set (B := 2 ^ 800) in *.
    clearbody S B u. clear BN HD BD.
    assert (Hv : Z.abs (X * S - dval q) < 2 ^ 32 * S) by nia.
    assert (Hr : nearest (d_sub x0 q) (X * S - dval q) 1).
    { rewrite <- Vx. apply d_sub_nearest; [done|apply Hq|]. intros _. rewrite Vx, HB. split; [|apply (Z.lt_trans _ (2 ^ 32 * S)); [done|by apply Z.mul_lt_mono_pos_r]].
      destruct (Z.lt_ge_cases n (X * d)); [specialize (Lq ltac:(done))|specialize (Gq ltac:(lia))]; lia. }
    pose proof (nearest_error _ _ 1 ltac:(done) Hr) as He. rewrite Z.mul_1_r in He.
    assert (He' : 2 ^ 5 * Z.abs (dval (d_sub x0 q) - (X * S - dval q)) <= u) by (clear - He Hv HS; lia).
    rewrite (d_ge_dval _ _ (proj1 Hr) Np), Vp.
    destruct (Z.leb_spec n ((X - P) * d)) as [Hle|Hgt]; [apply Z.leb_le|apply Z.leb_gt].
    + specialize (Lk ltac:(lia)). lia.
    + specialize (Gk Hgt). lia.
Qed.

(** When the ends are on one side of the vertical line too, so is the place where the edge is
    met. *)
Lemma meets_one_side a b t D :
  0 <= t <= D -> 0 < D -> (0 <= a -> 0 <= b -> t * (a - b) <= a * D) /\ (a < 0 -> b < 0 -> a * D < t * (a - b)).
Proof. intros Ht HD. split; intros Ha Hb; [nia|]. destruct (Z.eq_dec t 0) as [->|]; nia. Qed.

Lemma meets_right_side p v w t D :
  0 <= t <= D -> 0 < D -> (v.2 - p.2) * Z.sgn (w.2 - v.2) = - t -> Z.abs (w.2 - v.2) = D ->
  (p.1 <=? v.1) = (p.1 <=? w.1) -> meets_right p v w = (p.1 <=? v.1).
Proof.
  intros Ht HD Et ED. unfold meets_right. rewrite ED.
  replace ((v.2 - p.2) * (w.1 - v.1) * Z.sgn (w.2 - v.2)) with (t * ((v.1 - p.1) - (w.1 - p.1))) by nia.
  destruct (meets_one_side (v.1 - p.1) (w.1 - p.1) t D Ht HD) as [L R].
  destruct (Z.leb_spec p.1 v.1), (Z.leb_spec p.1 w.1); intros [=]; [apply Z.leb_le, L|apply Z.leb_gt, R]; lia.
Qed.

(** The test of an edge whose ends are on different sides of the horizontal line. *)
Lemma meets_edge_exact p v w :
  pixel_point p -> pixel_point v -> pixel_point w -> side p v <> side p w ->
  meets_edge p v w = meets_right p v w.
Proof.
  intros [P1 P2] [V1 V2] [W1 W2] Hs. unfold meets_edge, meets. cbn [at_int fst snd].
  rewrite !(is_int_ge _ _ _ _ (pixel_int _ V1) (pixel_int _ P1)), !(is_int_ge _ _ _ _ (pixel_int _ W1) (pixel_int _ P1)).
  assert (Hsides : v.2 < p.2 <= w.2 \/ w.2 < p.2 <= v.2) by (unfold side in Hs; lia).
  destruct (eqb (p.1 <=? v.1) (p.1 <=? w.1)) eqn:Eb.
  - apply eqb_prop in Eb. symmetry. destruct Hsides.
    + apply (meets_right_side p v w (p.2 - v.2) (w.2 - v.2)); (done || rewrite ?Z.sgn_pos; lia).
    + apply (meets_right_side p v w (v.2 - p.2) (v.2 - w.2)); (done || rewrite ?Z.sgn_neg; lia).
  - unfold pixel in *. unfold meets_right.
    apply edge_compare; [by apply pixel_int| | |by apply pixel_int|done..|nia|lia|lia].
    + apply is_int_mul; [..|lia|lia|nia]; (apply is_int_sub; [by apply pixel_int..|lia]).
    + apply is_int_sub; [by apply pixel_int..|lia].
Qed.

(** ** Polygons *)

(** The edges of the closed walk through the vertices. *)
Definition edges (vs : list (Z * Z)) : list ((Z * Z) * (Z * Z)) :=
  match list.last vs with Some l => zip (l :: vs) vs | None => [] end.

(** The half-line from [p] to the right crosses the edge: one end is on its line or above it and
    one below, and the edge meets the line at [p] or to the right of it. *)
Definition ray_crosses (p : Z * Z) (e : (Z * Z) * (Z * Z)) : bool :=
  negb (eqb (side p e.1) (side p e.2)) && meets_right p e.1 e.2.

(** The even-odd rule. *)
Definition even_odd (p : Z * Z) (vs : list (Z * Z)) : bool :=
  Nat.odd (length (filter (fun e => ray_crosses p e = true) (edges vs))).

Lemma crosses_exact p v w :
  pixel_point p -> pixel_point v -> pixel_point w -> crosses p v w = ray_crosses p (v, w).
Proof.
  intros Hp Hv Hw. unfold crosses, ray_crosses. cbn [fst snd].
  destruct (eqb (side p v) (side p w)) eqn:E; [done|]. apply eqb_false_iff in E. by rewrite meets_edge_exact.
Qed.

Lemma crossings_filter p v vs :
  pixel_point p -> pixel_point v -> Forall pixel_point vs ->
  crossings_from p v vs = length (filter (fun e => ray_crosses p e = true) (zip (v :: vs) vs)).
Proof.
  intros Hp Hv Hvs. revert v Hv. induction Hvs as [|w vs Hw Hvs IH]; intros v Hv; [done|].
  cbn [crossings_from]. rewrite crosses_exact, (IH w Hw) by done.
  change (zip (v :: w :: vs) (w :: vs)) with ((v, w) :: zip (w :: vs) vs). rewrite filter_cons.
  by destruct (ray_crosses p (v, w)).
Qed.

Lemma pointinpoly_exact p pgon vs :
  holds_polygon pgon vs -> vs <> [] -> (length vs <= MAXVERTS)%nat -> pixel_point p ->
  Forall (fun v => pixel_point v /\ 0 <= v.1) vs ->
  pointinpoly (at_int p) pgon = Some (even_odd p vs).
Proof.
  intros Hpoly Hne Hm Hp Hvs. assert (Hpx : Forall pixel_point vs) by (eapply list.Forall_impl; [exact Hvs|naive_solver]).
  assert (Hsmall : forall v, pixel_point v -> small_point v) by (intros v [A B]; split; unfold pixel, small in *; lia).
  rewrite (pointinpoly_crossings p pgon vs); [|done..|by apply Hsmall|eapply list.Forall_impl; [exact Hvs|naive_solver]].
  unfold even_odd, crossings_around, edges. destruct (list.last vs) as [l|] eqn:El; [|done].
  rewrite crossings_filter; [done..| |done]. apply last_Some_elem_of in El. by eapply list.Forall_forall.
Qed.

(** C40. The polygon test of the code is the even-odd rule of integer geometry. For a point and
    vertices of a picture of 16384 by 16384 pixels, as many as the array holds, the loops that skip vertices lose
    and double no edge, and neither the quotient nor the difference that the code computes in
    doubles decides an edge differently than exact arithmetic. *)
Theorem pointinpoly_even_odd p pgon vs :
  holds_polygon pgon vs -> vs <> [] -> (length vs <= MAXVERTS)%nat -> pixel_point p ->
  Forall (fun v => pixel_point v /\ 0 <= v.1) vs ->
  pointinpoly (at_int p) pgon = Some (even_odd p vs).
Proof. apply pointinpoly_exact. Qed.

(** A quadrilateral with a notch, and points in it, in the notch and on an edge. *)
Definition arrow : list (Z * Z) := [(0, 0); (900, 300); (0, 600); (301, 300)].
Definition arrow_array : list place :=
  map int_place arrow ++ (Some (d_of_Z (-1)), None) :: replicate (MAXVERTS - 5) (None, None).

Lemma pointinpoly_even_odd_witness :
  pointinpoly (at_int (500, 200)) arrow_array = Some (even_odd (500, 200) arrow) /\
  even_odd (500, 200) arrow = true /\ even_odd (100, 300) arrow = false.
Proof.
  split; [|split; vm_compute; reflexivity]. apply (pointinpoly_even_odd (500, 200) arrow_array arrow).
  - exists None, (replicate (MAXVERTS - 5) (None, None)). reflexivity.
  - discriminate.
  - vm_compute. lia.
  - split; vm_compute; reflexivity.
  - repeat constructor; try (vm_compute; reflexivity); vm_compute; discriminate.
Defined.
