(* ===== verification/ImagemapLines.v ===== *)
(** * What a map file means

    A map file is a list of entries, one to a line. For a well-formed file the program answers
    with the document of the first area that contains the point, else of the nearest point,
    else of the last default: the parser, the state that lives over the lines and the double
    arithmetic implement that choice. *)

From Stdlib Require Import Ascii String ZArith SpecFloat.
From stdpp Require Import base numbers list gmap strings option.
From S2P Require Import Prelude CppLib CMem Double DoubleArith CgiUtil CgiUtilFacts CgiForms Imagemap ImagemapFacts ImagemapExact.

Local Open Scope Z_scope.

(** ** Entries and their meaning *)

Inductive area := Rect (a b : Z * Z) | Circle (c q : Z * Z) | Poly (vs : list (Z * Z)).
Inductive entry := Comment (text : bytes) | Default (url : bytes) | Area (a : area) (url : bytes) | Spot (v : Z * Z) (url : bytes).

Definition contains (p : Z * Z) (a : area) : bool :=
  match a with
  | Rect a b => bool_decide (a.1 <= p.1 <= b.1 /\ a.2 <= p.2 <= b.2)
  | Circle c q => distance2 c p <=? distance2 c q
  | Poly vs => even_odd p vs
  end.

(** The first area around the point. *)
Fixpoint hit (p : Z * Z) (es : list entry) : option bytes :=
  match es with
  | Area a url :: es' => if contains p a then Some url else hit p es'
  | _ :: es' => hit p es'
  | [] => None
  end.

Definition spots (es : list entry) : list ((Z * Z) * bytes) :=
  omap (fun e => match e with Spot v url => Some (v, url) | _ => None end) es.
Definition defaults (es : list entry) : list bytes :=
  omap (fun e => match e with Default url => Some url | _ => None end) es.

Definition nearer (p : Z * Z) (best : option ((Z * Z) * bytes)) (x : (Z * Z) * bytes) : option ((Z * Z) * bytes) :=
  match best with
  | Some b => if distance2 p x.1 <? distance2 p b.1 then Some x else Some b
  | None => Some x
  end.
Definition closest (p : Z * Z) (pts : list ((Z * Z) * bytes)) : option ((Z * Z) * bytes) := foldl (nearer p) None pts.

Definition chosen (p : Z * Z) (es : list entry) : option bytes :=
  match hit p es with
  | Some url => Some url
  | None => match closest p (spots es) with Some x => Some x.2 | None => list.last (defaults es) end
  end.

(** The choice among the points is one of least distance. *)
Lemma closest_least p pts :
  match closest p pts with
  | Some x => x ∈ pts /\ forall y, y ∈ pts -> distance2 p x.1 <= distance2 p y.1
  | None => pts = []
  end.
Proof.
  induction pts as [|y pts IH] using rev_ind; [done|]. unfold closest in *. rewrite foldl_snoc.
  destruct (foldl (nearer p) None pts) as [x|]; cbn [nearer].
  - destruct IH as [Hx Hle]. destruct (Z.ltb_spec (distance2 p y.1) (distance2 p x.1)).
    + split; [set_solver|]. intros z [Hz| ->%list_elem_of_singleton]%elem_of_app; [specialize (Hle z Hz)|]; lia.
    + split; [set_solver|]. intros z [Hz| ->%list_elem_of_singleton]%elem_of_app; [by apply Hle|lia].
  - subst pts. split; [set_solver|]. intros z ->%list_elem_of_singleton. lia.
Qed.

(** ** Files *)

Definition coordinate (z : Z) : bytes := print_N (Z.to_N z).
Definition coordinates (vs : list (Z * Z)) : bytes :=
  concat (map (fun v => SP :: coordinate v.1 ++ ","%char :: coordinate v.2) vs).

Definition area_type (a : area) : bytes :=
  match a with Rect _ _ => lit "rect" | Circle _ _ => lit "circle" | Poly _ => lit "poly" end.
Definition corners (a : area) : list (Z * Z) :=
  match a with Rect a b => [a; b] | Circle c q => [c; q] | Poly vs => vs end.

Definition directive (type url : bytes) (vs : list (Z * Z)) : bytes := type ++ SP :: url ++ coordinates vs.
Definition entry_line (e : entry) : bytes :=
  match e with
  | Comment text => "#"%char :: text
  | Default url => directive (lit "default") url []
  | Area a url => directive (area_type a) url (corners a)
  | Spot v url => directive (lit "point") url [v]
  end.
Definition map_text (es : list entry) : bytes := concat (map (fun e => entry_line e ++ [LF]) es).

Definition url_char (c : ascii) : bool := isname c && negb (bool_decide (c = NUL)) && negb (bool_decide (c = EOT)).
Definition good_url (url : bytes) : Prop := url <> [] /\ Forall (fun c => url_char c = true) url.
Definition on_picture (v : Z * Z) : Prop := 0 <= v.1 < 2 ^ 14 /\ 0 <= v.2 < 2 ^ 14.

(** The entry is one line of the program's array, and its points fit the other one. *)
Definition good_entry (e : entry) : Prop :=
  (length (entry_line e) < MAXLINE)%nat /\
  match e with
  | Comment text => plain_line text /\ NUL ∉ text
  | Default url => good_url url
  | Area a url => good_url url /\ corners a <> [] /\ (length (corners a) < MAXVERTS)%nat /\ Forall on_picture (corners a)
  | Spot v url => good_url url /\ on_picture v
  end.

#[global] Instance on_picture_dec v : Decision (on_picture v).
Proof. unfold on_picture. apply _. Defined.

#[global] Instance good_url_dec url : Decision (good_url url).
Proof. unfold good_url. apply _. Defined.

#[global] Instance good_entry_dec e : Decision (good_entry e).
Proof. unfold good_entry. destruct e; apply _. Defined.

(** ** Words and numbers of a line *)

Definition stops (f : ascii -> bool) (s : bytes) : Prop := match s with [] => True | c :: _ => f c = false end.

Lemma take_while_stops f l r : Forall (fun c => f c = true) l -> stops f r -> take_while f (l ++ r) = l.
Proof.
  intros Hl Hr. induction Hl as [|c l Hc Hl IH]; [|by cbn [app take_while]; rewrite Hc, IH].
  destruct r as [|c r]; [done|]. cbn [app take_while]. cbn [stops] in Hr. by rewrite Hr.
Qed.

Lemma skip_while_one f c r : f c = true -> stops f r -> skip_while f (c :: r) = r.
Proof. intros Hc Hr. cbn [skip_while]. rewrite Hc. destruct r as [|d r]; [done|]. cbn [stops] in Hr. cbn [skip_while]. by rewrite Hr. Qed.

Lemma dec_digits_length fuel : forall k n acc,
  (n < 10 ^ N.of_nat k)%N -> (0 < k)%nat -> (length (dec_digits fuel n acc) <= k + length acc)%nat.
Proof.
  induction fuel as [|fuel IH]; intros k n acc Hn Hk; cbn [dec_digits]; [lia|].
  destruct (N.ltb_spec n 10) as [Hlt|Hge]; [cbn [length]; lia|].
  destruct k as [|k]; [lia|]. rewrite Nat2N.inj_succ, N.pow_succ_r' in Hn. destruct k as [|k]; [cbn in Hn; lia|].
  specialize (IH (S k) (n / 10)%N (digit_char (n mod 10) :: acc)). cbn [length] in IH.
  assert (n / 10 < 10 ^ N.of_nat (S k))%N by (apply N.Div0.div_lt_upper_bound; lia). specialize (IH ltac:(done) ltac:(lia)). lia.
Qed.

(** A number between separators. *)
Lemma read_num_coordinate c z r :
  is_separator c = true -> 0 <= z < 2 ^ 14 -> stops isdigit r ->
  read_num (c :: coordinate z ++ r) = Some (Some (d_of_Z z), r).
Proof.
  intros Hc Hz Hr. unfold read_num, coordinate. pose proof (print_N_digits (Z.to_N z)) as Hd. pose proof (print_N_nonempty (Z.to_N z)) as Hne.
  assert (Hl : (length (print_N (Z.to_N z)) <= 5 + 0)%nat) by (apply (dec_digits_length _ 5 (Z.to_N z) []); simpl; lia).
  assert (Hat : atoi (print_N (Z.to_N z)) = Some z) by (rewrite atoi_print_N by (unfold INT_MAX; lia); by rewrite Z2N.id by lia).
  set (l := print_N (Z.to_N z)) in *.
  rewrite skip_while_one; [|done|].
  - rewrite take_while_stops by done. destruct (Nat.ltb_spec (length l) 10); [|lia].
    destruct l as [|d l]; [done|]. rewrite Hat. run_bind. by rewrite drop_app_length.
  - destruct l as [|d l]; [done|]. apply Forall_cons_1 in Hd as [Hd _]. cbn [app stops]. unfold is_separator.
    destruct (isdigit_cases d Hd) as (-> & _ & _). apply bool_decide_eq_false_2. intros ->. by vm_compute in Hd.
Qed.

Lemma coordinates_stops f vs : f SP = false -> stops f (coordinates vs).
Proof. intros Hf. by destruct vs. Qed.

(** The places [k], [k + 1], ... of the array become the points that are read. *)
Lemma read_points_spec vs : forall fuel k pts,
  Forall on_picture vs -> (k + length vs <= length pts)%nat -> (length vs < fuel)%nat ->
  read_points fuel k pts (coordinates vs) =
    Some (Ok (take k pts ++ map int_place vs ++ drop (k + length vs) pts, (k + length vs)%nat)).
Proof.
  induction vs as [|v vs IH]; intros fuel k pts Hvs Hk Hf; (destruct fuel as [|fuel]; [simpl in Hf; lia|]).
  - cbn [coordinates map concat read_points app length]. by rewrite Nat.add_0_r, take_drop.
  - apply Forall_cons_1 in Hvs as [[H1 H2] Hvs]. cbn [length] in Hk, Hf. unfold coordinates. cbn [map concat]. fold (coordinates vs).
    cbn [app]. rewrite <- (assoc_L (++)). cbn [app read_points].
    rewrite read_num_coordinate by done. run_bind.
    destruct (lookup_lt_is_Some_2 pts k) as [[x0 y0] Hp]; [lia|].
    unfold set_x at 1. rewrite Hp. run_bind. rewrite read_num_coordinate; [|done|done|by apply coordinates_stops]. run_bind.
    unfold set_y at 1. rewrite list_lookup_insert_eq by lia. run_bind. rewrite list_insert_insert_eq.
    rewrite IH by (rewrite ?length_insert; (done || lia)). rewrite take_insert_next, drop_insert_lt by lia. cbn [length map].
    rewrite Nat.add_succ_r. by rewrite <- (assoc_L (++)).
Qed.

(** ** One line *)

(** The array after the points of a line were read and marked. *)
Definition placed (vs : list (Z * Z)) (pts : list place) : list place :=
  map int_place vs ++ match drop (length vs) pts with (_, y) :: rest => (Some (d_of_Z (-1)), y) :: rest | [] => [] end.

Lemma placed_spec vs pts :
  (length vs < length pts)%nat ->
  set_x (length vs) (d_of_Z (-1)) (map int_place vs ++ drop (length vs) pts) = Some (placed vs pts) /\
  holds_polygon (placed vs pts) vs /\ length (placed vs pts) = length pts.
Proof.
  intros Hl. pose proof (length_drop pts (length vs)) as Hd. unfold placed, set_x, holds_polygon.
  destruct (drop (length vs) pts) as [|[x y] rest] eqn:Ed; [simpl in Hd; lia|].
  rewrite lookup_app_r, length_map, Nat.sub_diag by (rewrite length_map; lia). cbn [lookup list_lookup]. run_bind.
  rewrite insert_app_r_alt, length_map, Nat.sub_diag by (rewrite length_map; lia). split; [done|]. split; [by exists y, rest|].
  rewrite length_app, length_map. cbn [length] in *. lia.
Qed.

Definition keyword (type : bytes) : Prop :=
  Forall (fun c => isname c = true) type /\ type <> [] /\ head type <> Some "#"%char.

#[global] Instance keyword_dec type : Decision (keyword type).
Proof. unfold keyword. apply _. Defined.

Ltac is_keyword := apply (bool_decide_eq_true_1 (keyword _)); vm_compute; reflexivity.

Lemma map_line_directive env tp type url vs s :
  keyword type -> good_url url -> Forall on_picture vs -> (length vs < length (pointarray s))%nat ->
  map_line env tp (directive type url vs) s =
    if bool_decide (type = lit "default") && (sawpoint s =? 0)%nat then
      Some (Next {| pointarray := pointarray s; def := Some url; sawpoint := sawpoint s; mindist := mindist s |})
    else shape env type url tp {| pointarray := placed vs (pointarray s); def := def s; sawpoint := sawpoint s; mindist := mindist s |}.
Proof.
  intros (Hk & Hne & Hh) [Hu1 Hu2] Hvs Hl. unfold map_line, directive.
  destruct type as [|c type]; [done|]. cbn [head app] in *. rewrite !bool_decide_eq_false_2 by done. cbn [orb].
  change (c :: type ++ SP :: url ++ coordinates vs) with ((c :: type) ++ SP :: url ++ coordinates vs).
  rewrite take_while_stops by done. rewrite drop_app_length.
  assert (Hn : Forall (fun c => isname c = true) url) by (eapply list.Forall_impl; [exact Hu2|]; unfold url_char; intros d Hd; bool_prop; done).
  rewrite skip_while_one; [|done|].
  2: { destruct url as [|d url]; [done|]. apply Forall_cons_1 in Hn as [Hd _]. unfold isname in Hd. bool_prop. done. }
  rewrite take_while_stops by (done || by apply coordinates_stops). rewrite drop_app_length.
  destruct (bool_decide _ && _); [done|]. rewrite read_points_spec; [|done|lia|].
  - run_bind. rewrite take_0. cbn [app Nat.add]. destruct (placed_spec vs (pointarray s) Hl) as (-> & _ & _). done.
  - clear. induction vs as [|v vs IH]; simpl; [lia|]. fold (coordinates vs). rewrite !length_app. simpl. lia.
Qed.

Lemma directive_chars type url vs :
  Forall (fun c => url_char c = true) type -> good_url url -> Forall (fun c => plain c = true /\ c <> NUL) (directive type url vs).
Proof.
  intros Ht [_ Hu].
  assert (Hw : forall w, Forall (fun c => url_char c = true) w -> Forall (fun c => plain c = true /\ c <> NUL) w).
  { intros w Hw. eapply list.Forall_impl; [exact Hw|]. clear. intros c. ascii_cases c. }
  assert (Hd : forall z, Forall (fun c => plain c = true /\ c <> NUL) (coordinate z)).
  { intros z. eapply list.Forall_impl; [apply print_N_digits|]. clear. intros c. ascii_cases c. }
  unfold directive. apply Forall_app. split; [by apply Hw|]. constructor; [done|]. apply Forall_app. split; [by apply Hw|].
  induction vs as [|v vs IH]; [constructor|]. unfold coordinates. cbn [map concat]. fold (coordinates vs). apply Forall_app. split; [|done].
  constructor; [done|]. apply Forall_app. split; [done|]. by constructor.
Qed.

Lemma good_entry_line e : good_entry e -> plain_line (entry_line e) /\ NUL ∉ entry_line e /\ (length (entry_line e) < MAXLINE)%nat.
Proof.
  intros [Hl He].
  assert (Hc : Forall (fun c => plain c = true /\ c <> NUL) (entry_line e)).
  { destruct e as [text|url|a url|v url]; cbn [entry_line].
    - destruct He as [Hp Hn]. constructor; [done|]. apply list.Forall_forall. intros c Hc. rewrite list.Forall_forall in Hp. split; [by apply Hp|by intros ->].
    - apply directive_chars; [by repeat constructor|done].
    - destruct He as [Hu _]. apply directive_chars; [by destruct a; repeat constructor|done].
    - destruct He as [Hu _]. apply directive_chars; [by repeat constructor|done]. }
  split; [eapply list.Forall_impl; [exact Hc|naive_solver]|]. split; [|done].
  intros Hn. rewrite list.Forall_forall in Hc. by destruct (Hc NUL Hn).
Qed.

Section Map.
Context (env : environ) (p : Z * Z).
Hypothesis Hp : pixel_point p.

Definition reply (url : bytes) : option line_result := out ← sendmesg env url; Some (Print out).

Lemma on_picture_pixel v : on_picture v -> pixel_point v.
Proof. intros [H1 H2]. unfold pixel_point, pixel. lia. Qed.

Lemma pixel_small v : pixel_point v -> small_point v.
Proof. intros [H1 H2]. unfold small_point, small, pixel in *. lia. Qed.

Lemma shape_area a url s :
  holds_polygon (pointarray s) (corners a) -> corners a <> [] -> (length (corners a) < MAXVERTS)%nat -> Forall on_picture (corners a) ->
  shape env (area_type a) url (at_int p) s = if contains p a then reply url else Some (Next s).
Proof.
  intros Hh Hne Hl Hv. unfold shape, reply.
  assert (Hpl : forall i v, corners a !! i = Some v -> pointarray s !! i = Some (int_place v) /\ pixel_point v).
  { intros i v Hi. split; [by eapply holds_lookup|]. by eapply on_picture_pixel, Forall_lookup_1. }
  destruct a as [a b|c q|vs]; cbn [area_type corners contains] in *.
  - destruct (Hpl 0%nat a eq_refl), (Hpl 1%nat b eq_refl). rewrite (pointinrect_exact p a b) by (done || by apply pixel_small). done.
  - destruct (Hpl 0%nat c eq_refl), (Hpl 1%nat q eq_refl). rewrite (pointincircle_exact p c q) by done. done.
  - rewrite (pointinpoly_exact p _ vs); [done|done|done|lia|done|]. eapply list.Forall_impl; [exact Hv|].
    intros v Hon. split; [by apply on_picture_pixel|apply Hon].
Qed.

(** The state after the entries [es], none of which has ended the program. *)
Definition follows (es : list entry) (s : map_state) : Prop :=
  length (pointarray s) = MAXVERTS /\
  match closest p (spots es) with
  | Some x => sawpoint s <> 0%nat /\ def s = Some x.2 /\ exists m, mindist s = Some m /\ is_int m (distance2 p x.1)
  | None => sawpoint s = 0%nat /\ def s = list.last (defaults es)
  end.

Lemma follows_snoc es e :
  spots (es ++ [e]) = spots es ++ spots [e] /\ defaults (es ++ [e]) = defaults es ++ defaults [e].
Proof. split; apply omap_app. Qed.

(** An entry that is neither a point nor a default leaves the choice as it is. *)
Lemma follows_other es e s s' :
  follows es s -> spots [e] = [] -> defaults [e] = [] ->
  length (pointarray s') = length (pointarray s) -> def s' = def s -> sawpoint s' = sawpoint s -> mindist s' = mindist s ->
  follows (es ++ [e]) s'.
Proof.
  intros [Hl Hs] E1 E2 H1 H2 H3 H4. unfold follows. destruct (follows_snoc es e) as [-> ->].
  rewrite E1, E2, !app_nil_r, H1, H2, H3, H4. done.
Qed.

Lemma point_distance v s :
  on_picture v -> pointarray s !! 0%nat = Some (int_place v) ->
  exists m, is_int m (distance2 p v) /\
    forall url, shape env (lit "point") url (at_int p) s =
      nearest ← (if (sawpoint s =? 0)%nat then Some true else m' ← mindist s; Some (d_lt m m'));
      Some (Next {| pointarray := pointarray s; def := if (nearest : bool) then Some url else def s;
                    sawpoint := S (sawpoint s); mindist := if nearest then Some m else mindist s |}).
Proof.
  intros [V1 V2]%on_picture_pixel Hv. destruct Hp as [P1 P2]. destruct (distance_int p.1 v.1 p.2 v.2 P1 V1 P2 V2) as [Hi _].
  eexists. split; [exact Hi|]. intros url. unfold shape. do 3 (rewrite bool_decide_eq_false_2 by done). rewrite bool_decide_eq_true_2 by done.
  unfold px, py. rewrite Hv. run_bind. cbn [int_place fst snd]. run_bind. done.
Qed.

(** A point is chosen when it is the first or nearer than the one before. *)
Lemma shape_point es s v url :
  follows es s -> on_picture v -> pointarray s !! 0%nat = Some (int_place v) ->
  exists s', shape env (lit "point") url (at_int p) s = Some (Next s') /\ follows (es ++ [Spot v url]) s'.
Proof.
  intros [Hl Hs] Hv H0. destruct (point_distance v s Hv H0) as (m & Hm & ->). unfold follows.
  destruct (follows_snoc es (Spot v url)) as [-> _]. unfold closest in *. cbn [spots omap list_omap]. rewrite foldl_snoc.
  destruct (foldl (nearer p) None (spots es)) as [x|]; cbn [nearer fst snd].
  - destruct Hs as (Hsaw & Hd & m' & Hm' & Hi). destruct (Nat.eqb_spec (sawpoint s) 0); [done|]. rewrite Hm'. run_bind.
    rewrite (is_int_lt _ _ _ _ Hm Hi). eexists. split; [done|]. cbn [pointarray sawpoint def mindist]. split; [done|].
    destruct (_ <? _); (split; [done|split; [done|by eexists]]).
  - destruct Hs as [Hsaw Hd]. rewrite Hsaw. cbn [Nat.eqb]. run_bind. eexists. split; [done|].
    cbn [pointarray sawpoint def mindist snd]. split; [done|split; [done|split; [done|by eexists]]].
Qed.

Lemma line_follows es s e :
  follows es s -> good_entry e ->
  match hit p [e] with
  | Some url => map_line env (at_int p) (entry_line e) s = reply url
  | None => exists s', map_line env (at_int p) (entry_line e) s = Some (Next s') /\ follows (es ++ [e]) s'
  end.
Proof.
  intros Hf [_ He]. pose proof Hf as [Hl Hs]. destruct e as [text|url|a url|v url]; cbn [hit entry_line].
  - exists s. split; [done|]. by apply (follows_other es _ s).
  - rewrite map_line_directive; [|is_keyword|done|done|rewrite Hl; vm_compute; lia]. rewrite bool_decide_eq_true_2 by done. cbn [andb].
    destruct (follows_snoc es (Default url)) as [E1 E2]. cbn [spots defaults omap list_omap] in E1, E2. rewrite app_nil_r in E1.
    destruct (Nat.eqb_spec (sawpoint s) 0) as [H0|H0]; eexists; (split; [done|]); unfold follows; cbn [pointarray def sawpoint mindist]; rewrite E1, E2.
    + split; [done|]. destruct (closest p (spots es)); [by destruct Hs|]. split; [done|]. by rewrite last_snoc.
    + split; [by destruct (placed_spec [] (pointarray s)) as (_ & _ & ->); [rewrite Hl; vm_compute; lia|]|].
      destruct (closest p (spots es)); [done|by destruct Hs].
  - destruct He as (Hu & Hne & Hn & Hv). destruct (placed_spec (corners a) (pointarray s)) as (_ & Hh & Hpl); [lia|].
    rewrite map_line_directive; [|destruct a; is_keyword|done|done|lia].
    replace (bool_decide (area_type a = lit "default")) with false by by destruct a. cbn [andb].
    rewrite shape_area by done. destruct (contains p a); [done|]. eexists. split; [done|]. by apply (follows_other es _ s).
  - destruct He as [Hu Hv]. destruct (placed_spec [v] (pointarray s)) as (_ & Hh & Hpl); [rewrite Hl; vm_compute; lia|].
    rewrite map_line_directive; [|is_keyword|done|by constructor|rewrite Hl; vm_compute; lia]. rewrite bool_decide_eq_false_2 by done. cbn [andb].
    apply shape_point; [|done|by apply (holds_lookup _ [v])]. split; [cbn [pointarray]; congruence|done].
Qed.

(** ** The whole file *)

Lemma hit_cons e es : hit p (e :: es) = match hit p [e] with Some url => Some url | None => hit p es end.
Proof. destruct e as [| |a url|]; cbn [hit]; [done..| |done]. by destruct (contains p a). Qed.

Lemma map_lines_spec es `{Memory} : forall before fuel buf s,
  follows before s -> Forall good_entry es -> length buf = MAXLINE -> (length es < fuel)%nat ->
  match hit p es with
  | Some url => map_lines fuel env (at_int p) buf (fopen_bytes (map_text es)) s = reply url
  | None => exists s', map_lines fuel env (at_int p) buf (fopen_bytes (map_text es)) s = Some (Next s') /\ follows (before ++ es) s'
  end.
Proof.
  induction es as [|e es IH]; intros before fuel buf s Hf Hes Hb Hn; (destruct fuel as [|fuel]; [simpl in Hn; lia|]); cbn [map_lines].
  - destruct (getline_eof (S MAXLINE) 0 MAXLINE buf false) as (s' & E & _); [vm_compute; lia|lia|lia|].
    unfold mygetline, fopen_bytes. cbn [hit map_text map concat]. rewrite E. run_bind. exists s. by rewrite app_nil_r.
  - apply Forall_cons_1 in Hes as [He Hes]. destruct (good_entry_line e He) as (Hpl & Hnul & Hlen).
    unfold map_text. cbn [map concat]. fold (map_text es). rewrite <- (assoc_L (++)). cbn [app].
    rewrite mygetline_line by (done || lia). run_bind. rewrite (proj2 (c_string_cstr _ _) (cstr_stored buf _ Hnul)). run_bind.
    rewrite hit_cons. pose proof (line_follows before s e Hf He) as Hline. destruct (hit p [e]) as [url|].
    + rewrite Hline. unfold reply. by destruct (sendmesg env url).
    + destruct Hline as (s' & -> & Hf'). run_bind. specialize (IH (before ++ [e]) fuel (stored buf (entry_line e)) s' Hf' Hes).
      rewrite <- (assoc_L (++)) in IH. apply IH; [rewrite length_stored by lia; done|simpl in Hn; lia].
Qed.
End Map.

(** A document is never the empty name. *)
Lemma chosen_good p es url : Forall good_entry es -> chosen p es = Some url -> good_url url.
Proof.
  intros Hes. rewrite list.Forall_forall in Hes. unfold chosen. destruct (hit p es) as [u|] eqn:Eh.
  - intros [= ->]. revert Hes Eh. induction es as [|e es IH]; intros Hes; [done|]. rewrite hit_cons.
    destruct (hit p [e]) as [u|] eqn:Ee; [|intros Hh; apply IH; [set_solver|done]]. intros [= ->]. destruct (Hes e ltac:(set_solver)) as [_ He].
    destruct e as [| |a u|]; cbn [hit] in Ee; try done. destruct (contains p a); [|done]. injection Ee as ->. apply He.
  - pose proof (closest_least p (spots es)) as Hc. destruct (closest p (spots es)) as [x|].
    + intros [= <-]. destruct Hc as [Hx _]. unfold spots in Hx. apply list_elem_of_omap in Hx as (e & He & Hx). destruct (Hes e He) as [_ Hg]. destruct e; try done.
      injection Hx as <-. apply Hg.
    + intros Hd%last_Some_elem_of. unfold defaults in Hd. apply list_elem_of_omap in Hd as (e & He & Hx). destruct (Hes e He) as [_ Hg]. destruct e; try done.
      injection Hx as <-. apply Hg.
Qed.

Section Program.
Context `{Memory} (files : bytes -> option bytes).

Lemma answer_point_chosen env p conf es :
  pixel_point p -> Forall good_entry es -> files conf = Some (map_text es) ->
  answer_point files env (at_int p) conf = url ← chosen p es; sendmesg env url.
Proof.
  intros Hp Hes Hf. unfold answer_point. rewrite Hf.
  assert (Hstart : follows p [] map_start) by by split; [apply length_replicate|].
  assert (Hlen : (length es < 2 + length (map_text es))%nat).
  { clear. unfold map_text. induction es as [|e es IH]; [simpl; lia|]. cbn [map concat length]. rewrite !length_app. cbn [length]. lia. }
  pose proof (map_lines_spec env p Hp es [] _ (fresh MAXLINE) map_start Hstart Hes (fresh_length _) Hlen) as Hl.
  pose proof (chosen_good p es) as Hg. unfold chosen in *.
  destruct (hit p es) as [url|]; [rewrite Hl; unfold reply; run_bind; by destruct (sendmesg env url)|].
  destruct Hl as (s' & -> & _ & Hs). cbn [app] in Hs. run_bind.
  destruct (closest p (spots es)) as [x|]; [destruct Hs as (_ & -> & _)|destruct Hs as [_ ->]].
  - run_bind. specialize (Hg x.2 Hes eq_refl). by destruct x.2; [destruct Hg|].
  - destruct (list.last (defaults es)) as [d|]; [|done]. run_bind. specialize (Hg d Hes eq_refl). by destruct d; [destruct Hg|].
Qed.

(** C39. What a click on an image map answers. For a map named by a path, whose file is a list of
    well-formed entries, and a point of the picture, the program sends the browser to the
    document of the first area that contains the point in exact integer geometry; when there is
    none, of a point of the map at least distance, the first of those; when there are no points,
    of the last default; and without any of them it is undefined. *)
Theorem imagemap_chooses is_regular env mapname conf es x y :
  env (lit "PATH_INFO") = Some ("/"%char :: mapname) -> "/"%char ∈ mapname ->
  env (lit "PATH_TRANSLATED") = Some conf -> (length conf < MAXLINE)%nat ->
  files conf = Some (map_text es) -> Forall good_entry es -> on_picture (x, y) ->
  imagemap_main files is_regular [coordinate x ++ ","%char :: coordinate y] env =
    url ← chosen (x, y) es; sendmesg env url.
Proof.
  intros Hi Hm Ht Hc Hf Hes Hp. pose proof Hp as [Hx Hy]. cbn [fst snd] in Hx, Hy. unfold imagemap_main. rewrite Hi.
  assert (Hat : forall z, 0 <= z < 2 ^ 14 -> atoi (coordinate z) = Some z).
  { intros z Hz. unfold coordinate. rewrite atoi_print_N by (unfold INT_MAX; lia). by rewrite Z2N.id by lia. }
  assert (Hcomma : ","%char ∉ coordinate x).
  { intros Hin. pose proof (print_N_digits (Z.to_N x)) as Hd. rewrite list.Forall_forall in Hd. specialize (Hd _ Hin). by vm_compute in Hd. }
  rewrite search_char_app, take_app_length by done. rewrite Hat by done. run_bind.
  rewrite drop_app_add' by done. change (drop 1 (","%char :: coordinate y)) with (coordinate y). rewrite Hat by done. run_bind.
  unfold map_file, translated. destruct (search ["/"%char] mapname) as [i|] eqn:Es; [|by apply search_char_None in Es].
  rewrite Ht. run_bind. destruct (Nat.ltb_spec (length conf) MAXLINE); [|lia]. cbn [fmap option_fmap option_map]. run_bind.
  apply (answer_point_chosen env (x, y)); [|done..]. by apply on_picture_pixel.
Qed.
End Program.

(** ** A map *)

Definition sample : list entry :=
  [Default (lit "/other.html"); Comment (lit " the logo"); Area (Rect (0, 0) (99, 49)) (lit "/logo.html");
   Area (Circle (300, 300) (300, 250)) (lit "/disc.html"); Area (Poly arrow) (lit "http://h/arrow.html");
   Spot (1000, 1000) (lit "/south.html"); Spot (1000, 0) (lit "/north.html")].

Definition sample_env : environ := fun name =>
  if bool_decide (name = lit "PATH_INFO") then Some (lit "/maps/a.map")
  else if bool_decide (name = lit "PATH_TRANSLATED") then Some (lit "/www/maps/a.map")
  else if bool_decide (name = lit "SERVER_NAME") then Some (lit "h") else None.
Definition sample_files : bytes -> option bytes := fun name =>
  if bool_decide (name = lit "/www/maps/a.map") then Some (map_text sample) else None.

#[local] Instance map_memory : Memory.
Proof. exists (fun n => replicate n "Z"%char). intros n. apply length_replicate. Defined.

Definition any_file (path : bytes) : bool := true.

Lemma imagemap_chooses_witness :
  imagemap_main sample_files any_file [lit "500,200"] sample_env = sendmesg sample_env (lit "http://h/arrow.html") /\
  imagemap_main sample_files any_file [lit "2000,2000"] sample_env = sendmesg sample_env (lit "/south.html").
Proof.
  assert (Hgood : Forall good_entry sample) by (apply (bool_decide_eq_true_1 (Forall good_entry sample)); vm_compute; reflexivity).
  assert (Hslash : "/"%char ∈ lit "maps/a.map") by (apply (bool_decide_eq_true_1 ("/"%char ∈ lit "maps/a.map")); vm_compute; reflexivity).
  split.
  - apply (imagemap_chooses sample_files any_file sample_env (lit "maps/a.map") (lit "/www/maps/a.map") sample 500 200);
      [reflexivity|exact Hslash|reflexivity|vm_compute; lia|reflexivity|exact Hgood|split; split; vm_compute; (discriminate || reflexivity)].
  - apply (imagemap_chooses sample_files any_file sample_env (lit "maps/a.map") (lit "/www/maps/a.map") sample 2000 2000);
      [reflexivity|exact Hslash|reflexivity|vm_compute; lia|reflexivity|exact Hgood|split; split; vm_compute; (discriminate || reflexivity)].
Defined.
