(* ===== verification/Myhttpd.v ===== *)
(** * The first server: handling one client

    Models [legacy/myhttpd.cc], the HTTP/1.0 server this repository started from: sending,
    CGI, the statistics and log pages, and [handleClient] with files, directory listings and
    errors. The operating system is the class [Os], whose answers depend on the history of
    calls; the program is a state monad over the history and the global variables, with
    the ways a call can fail to come back. [MyhttpdMain] has the four accept loops. *)

From Stdlib Require Import Ascii String.
From stdpp Require Import base numbers list gmap strings option sorting.
From S2P Require Import Prelude CppLib CMem Double.

(** ** The operating system *)

Record stat_buf := { st_isdir : bool; st_size : Z; st_mtime : Z }.

(** A child process of [handleCGI]: the program and its first argument, the variables set,
    its standard input when it was redirected, the bytes the child itself sent to the client,
    and whether the program was started. *)
Record cgi_child := {
  cgi_path : bytes; cgi_argv0 : bytes; cgi_env : list (bytes * bytes); cgi_stdin : option bytes;
  cgi_header : bytes; cgi_started : bool
}.

(** The calls that leave a trace, latest first in a history. *)
Inductive event :=
| EvRead (data : option bytes)
| EvLog (line : bytes)
| EvLogRead
| EvWrite (data : bytes) (n : Z)
| EvStat (path : bytes)
| EvOpendir (path : bytes)
| EvOpen (path : bytes)
| EvFileRead (path : bytes) (data : bytes)
| EvClose (path : bytes)
| EvCgi (child : cgi_child).

Definition history : Type := list event.

(** [sys_read] is the read from the client, [None] for an error or the end; [sys_read_file]
    gets the offset, and an empty answer ends the loop, as an error does. [stdout_pending] is
    the standard output stream of the process: [None] when it is line buffered (a terminal),
    otherwise the bytes written to it and not yet flushed. A pipe takes a request whole. *)
Class Os := {
  sys_read : history -> nat -> option bytes;
  sys_read_le h n data : sys_read h n = Some data -> data <> [] /\ (length data <= n)%nat;
  sys_write : history -> bytes -> Z;
  sys_write_le h data : (sys_write h data <= Z.of_nat (length data))%Z;
  sys_log_append : history -> bool;
  sys_log_read : history -> option bytes;
  sys_stat : history -> bytes -> option stat_buf;
  sys_opendir : history -> bytes -> option (list bytes);
  sys_open : history -> bytes -> bool;
  sys_read_file : history -> bytes -> nat -> nat -> bytes;
  sys_fork : history -> bool;
  sys_pipe : history -> bool;
  sys_execv : history -> bytes -> bool;
  stdout_pending : history -> option bytes;
  sys_clock : history -> Z;
  sys_time : history -> Z
}.

(** [std::sort]: a sorted permutation when the comparison is a strict weak ordering, which
    one of them is not specified. *)
Record strict_weak {A} (lt : A -> A -> bool) : Prop := {
  sw_irrefl a : lt a a = false;
  sw_trans a b c : lt a b = true -> lt b c = true -> lt a c = true;
  sw_incomp a b c : lt a b = false -> lt b c = false -> lt a c = false
}.

Class StdSort := {
  std_sort : forall {A}, (A -> A -> bool) -> list A -> list A;
  std_sort_perm {A} (lt : A -> A -> bool) l : Permutation (std_sort lt l) l;
  std_sort_sorted {A} (lt : A -> A -> bool) l :
    strict_weak lt -> StronglySorted (fun a b => lt b a = false) (std_sort lt l)
}.

(** ** The state and the monad *)

Record Globals := {
  serverStartTime : Z;
  totalRequests : Z;
  minServiceTime : double;
  maxServiceTime : double;
  minURL : bytes;
  maxURL : bytes
}.

Definition MINUS_ONE : double := d_of_Z (-1).

Definition initial_globals : Globals :=
  {| serverStartTime := 0; totalRequests := 0; minServiceTime := MINUS_ONE;
     maxServiceTime := MINUS_ONE; minURL := []; maxURL := [] |}.

Record World := { hist : history; globals : Globals }.

(** Undefined behaviour, an exception that nobody catches, a loop that takes more iterations
    than the fuel given. *)
Inductive crash := Undefined | OutOfRange | OutOfFuel.

Definition M (A : Type) : Type := World -> result crash (A * World).

#[export] Instance M_ret : MRet M := fun A a w => Ok (a, w).
#[export] Instance M_bind : MBind M := fun A B k m w =>
  match m w with Ok (a, w') => k a w' | Err e => Err e end.

Definition fail {A} (e : crash) : M A := fun _ => Err e.
Definition record_event (e : event) : M unit := fun w => Ok (tt, {| hist := e :: hist w; globals := globals w |}).
Definition get_globals : M Globals := fun w => Ok (globals w, w).
Definition set_globals (g : Globals) : M unit := fun w => Ok (tt, {| hist := hist w; globals := g |}).
Definition ask {A} (f : history -> A) : M A := fun w => Ok (f (hist w), w).

(** ** Constants *)

Definition MaxRequestSize : nat := N.to_nat 8192.
Definition RootDir : bytes := lit "http-root-dir".
Definition AUTH_TOKEN : bytes := lit "Basic <redacted>".
Definition REALM : bytes := lit "myhttpd-cs252".
Definition DQUOTE : bytes := ["034"%char].

(** ** Strings *)

(** [stream >> word] *)
Fixpoint take_token (s : bytes) : bytes :=
  match s with [] => [] | c :: s' => if isspace c then [] else c :: take_token s' end.

Definition extract (s : bytes) : bytes * bytes :=
  let s := skip_space s in let w := take_token s in (w, drop (length w) s).

(** [s.substr(pos)] for a [pos] of type [size_t] *)
Definition substr_from (s : bytes) (pos : N) : M bytes :=
  if (len s <? pos)%N then fail OutOfRange else mret (drop (N.to_nat pos) s).

(** [find] as a [size_t]; [npos] is the greatest value. *)
Definition npos : N := SIZE_MAX.
Definition find_pos (pat s : bytes) : N :=
  match search pat s with Some i => N.of_nat i | None => npos end.

(** [s.find_last_of(c, pos)] *)
Fixpoint find_last (c : ascii) (s : bytes) : option nat :=
  match s with
  | [] => None
  | d :: s' => match find_last c s' with
               | Some i => Some (S i)
               | None => if bool_decide (d = c) then Some 0 else None
               end
  end.

(** The lines [getline] finds. *)
Fixpoint getlines (s line : bytes) : list bytes :=
  match s with
  | [] => match line with [] => [] | _ => [line] end
  | c :: s' => if bool_decide (c = LF) then line :: getlines s' [] else getlines s' (line ++ [c])
  end.

(** Lexicographic comparison by unsigned byte. *)
Fixpoint string_lt (a b : bytes) : bool :=
  match a, b with
  | _, [] => false
  | [], _ :: _ => true
  | c :: a', d :: b' =>
      if (code c <? code d)%N then true else if (code d <? code c)%N then false else string_lt a' b'
  end.

Section Server.
Context `{Os} `{StdSort}.
Context (format_mtime : Z -> bytes).

(** ** Sending *)

Definition write_ (data : bytes) : M Z :=
  n ← ask (fun h => sys_write h data); record_event (EvWrite data n);; mret n.

Fixpoint send_from (fuel total : nat) (buf : bytes) : M Z :=
  if (total <? length buf)%nat then
    match fuel with
    | 0 => fail OutOfFuel
    | S fuel' =>
        sent ← write_ (drop total buf);
        if (sent <=? 0)%Z then mret sent else send_from fuel' (total + Z.to_nat sent) buf
    end
  else mret (Z.of_nat total).

(** Every accepted write takes at least one byte. *)
Definition sendAll (buf : bytes) : M Z := send_from (length buf) 0 buf.

(** A header and a body, the result of each send being dropped. *)
Definition send_both (header body : bytes) : M unit := sendAll header;; sendAll body;; mret tt.

(** ** CGI *)

Definition CGI_PREFIX : bytes := lit "/cgi-bin/".

(** The child: [dup2] has made the client its standard output, so what is pending in the
    stream goes to the client at [exit] and is lost at a successful [execv]. *)
Definition cgi_run (h : history) (method script scriptFullPath queryString requestBody : bytes) : cgi_child :=
  let env := (lit "REQUEST_METHOD", method) ::
    (if bool_decide (method = lit "GET") then [(lit "QUERY_STRING", queryString)]
     else if bool_decide (method = lit "POST")
     then [(lit "CONTENT_LENGTH", print_N (len requestBody))] else []) in
  let post := bool_decide (method = lit "POST") in
  let header := lit "HTTP/1.0 200 Document follows" ++ CRLF ++ lit "Server: MyHTTPD" ++ CRLF in
  let stdin := if post then Some requestBody else None in
  if post && negb (sys_pipe h) then
    {| cgi_path := scriptFullPath; cgi_argv0 := script; cgi_env := env; cgi_stdin := None;
       cgi_header := default [] (stdout_pending h); cgi_started := false |}
  else
    let started := sys_execv h scriptFullPath in
    {| cgi_path := scriptFullPath; cgi_argv0 := script; cgi_env := env; cgi_stdin := stdin;
       cgi_header := match stdout_pending h with
                     | None => header
                     | Some pending => if started then [] else pending ++ header
                     end;
       cgi_started := started |}.

Definition handleCGI (method url requestBody : bytes) : M unit :=
  let '(scriptPath, queryString) :=
    match search ["?"%char] url with
    | Some qm_pos => (take qm_pos url, drop (qm_pos + 1) url)
    | None => (url, [])
    end in
  script ← substr_from scriptPath (len CGI_PREFIX);
  let scriptFullPath := lit "http-root-dir/cgi-bin/" ++ script in
  forked ← ask sys_fork;
  if negb forked then mret tt
  else
    child ← ask (fun h => cgi_run h method script scriptFullPath queryString requestBody);
    record_event (EvCgi child).

(** ** The statistics and the log *)

Definition ok_header (size : N) : bytes :=
  lit "HTTP/1.0 200 OK" ++ CRLF ++ lit "Content-Length: " ++ print_N size ++ CRLF ++
  lit "Content-Type: text/html" ++ CRLF ++ CRLF.

(** The length of a file is an [off_t]. *)
Definition ok_header_Z (size : Z) : bytes :=
  lit "HTTP/1.0 200 OK" ++ CRLF ++ lit "Content-Length: " ++ print_Z size ++ CRLF ++
  lit "Content-Type: text/html" ++ CRLF ++ CRLF.

Definition not_found_header (size : N) : bytes :=
  lit "HTTP/1.0 404 Not Found" ++ CRLF ++ lit "Content-Length: " ++ print_N size ++ CRLF ++
  lit "Content-Type: text/html" ++ CRLF ++ CRLF.

Definition stats_page (now : Z) (g : Globals) : bytes :=
  lit "<html><body>" ++ [LF] ++ lit "<h1>Server Stats</h1>" ++ [LF] ++ lit "<ul>" ++ [LF] ++
  lit "<li>Students: Annsh Navle</li>" ++ [LF] ++
  lit "<li>Uptime: " ++ print_double (d_sub (d_of_Z now) (d_of_Z (serverStartTime g))) ++
  lit " seconds</li>" ++ [LF] ++
  lit "<li>Total Requests: " ++ print_Z (totalRequests g) ++ lit "</li>" ++ [LF] ++
  lit "<li>Min Service Time: " ++ print_double (minServiceTime g) ++ lit " seconds (" ++
  minURL g ++ lit ")</li>" ++ [LF] ++
  lit "<li>Max Service Time: " ++ print_double (maxServiceTime g) ++ lit " seconds (" ++
  maxURL g ++ lit ")</li>" ++ [LF] ++ lit "</ul>" ++ [LF] ++ lit "</body></html>" ++ [LF].

Definition handleStats : M unit :=
  now ← ask sys_time;
  g ← get_globals;
  let body := stats_page now g in
  send_both (ok_header (len body)) body.

Definition log_page (content : bytes) : bytes :=
  lit "<html><body>" ++ [LF] ++ lit "<h1>Request Logs</h1>" ++ [LF] ++ lit "<pre>" ++ [LF] ++
  concat (map (fun line => line ++ [LF]) (getlines content [])) ++
  lit "</pre>" ++ [LF] ++ lit "</body></html>" ++ [LF].

Definition handleLogs : M unit :=
  logfile ← ask sys_log_read;
  record_event EvLogRead;;
  match logfile with
  | None =>
      let notFound := lit "<html><body><h1>No logs available</h1></body></html>" in
      send_both (not_found_header (len notFound)) notFound
  | Some content => let html := log_page content in send_both (ok_header (len html)) html
  end.

(** ** Directory listings *)

Record DirEntry := { name : bytes; size : Z; mtime : Z; is_dir : bool }.

(** The loop over [readdir]. *)
Fixpoint read_entries (path : bytes) (names : list bytes) : M (list DirEntry) :=
  match names with
  | [] => mret []
  | entryName :: names' =>
      if bool_decide (entryName = lit ".") || bool_decide (entryName = lit "..")
      then read_entries path names'
      else
        let fullEntryPath := path ++ lit "/" ++ entryName in
        st ← ask (fun h => sys_stat h fullEntryPath);
        record_event (EvStat fullEntryPath);;
        entries ← read_entries path names';
        mret (match st with
              | Some s => {| name := entryName; size := st_size s; mtime := st_mtime s;
                             is_dir := st_isdir s |} :: entries
              | None => entries
              end)
  end.

Definition compare_by (sortField sortOrder : ascii) : option (DirEntry -> DirEntry -> bool) :=
  let desc := bool_decide (sortOrder = "D"%char) in
  if bool_decide (sortField = "N"%char) then
    Some (if desc then fun a b => string_lt (name b) (name a) else fun a b => string_lt (name a) (name b))
  else if bool_decide (sortField = "S"%char) then
    Some (if desc then fun a b => (size b <? size a)%Z else fun a b => (size a <? size b)%Z)
  else if bool_decide (sortField = "M"%char) then
    Some (if desc then fun a b => (mtime b <? mtime a)%Z else fun a b => (mtime a <? mtime b)%Z)
  else None.

Definition sort_entries (sortField sortOrder : ascii) (entries : list DirEntry) : list DirEntry :=
  match compare_by sortField sortOrder with
  | Some cmp => std_sort cmp entries
  | None => entries
  end.

Definition sort_link (field : string) (sortField sortOrder : ascii) (text : string) : bytes :=
  lit "<th><a href=" ++ DQUOTE ++ lit "?C=" ++ lit field ++ lit ";O=" ++
  (if bool_decide ([sortField] = lit field) && bool_decide (sortOrder = "A"%char)
   then lit "D" else lit "A") ++ DQUOTE ++ lit ">" ++ lit text ++ lit "</a></th>".

Definition HR_ROW : bytes :=
  lit "<tr><th colspan=" ++ DQUOTE ++ lit "4" ++ DQUOTE ++ lit "><hr></th></tr>" ++ [LF].
Definition RIGHT : bytes := lit "<td align=" ++ DQUOTE ++ lit "right" ++ DQUOTE ++ lit ">".

(** The link to the parent: [url.substr(0, url.find_last_of('/', url.length() - 2))]. *)
Definition parent_of (url : bytes) : bytes :=
  let parent := match find_last "/" (take (length url - 1) url) with
                | Some i => take i url
                | None => url
                end in
  match parent with [] => lit "/" | _ => parent ++ lit "/" end.

Definition parent_row (url : bytes) : bytes :=
  lit "<tr>" ++ lit "<td valign=" ++ DQUOTE ++ lit "top" ++ DQUOTE ++ lit "><img src=" ++ DQUOTE ++
  lit "/icons/back.gif" ++ DQUOTE ++ lit " alt=" ++ DQUOTE ++ lit "[PARENTDIR]" ++ DQUOTE ++
  lit "></td>" ++ lit "<td><a href=" ++ DQUOTE ++ parent_of url ++ DQUOTE ++
  lit ">Parent Directory</a></td>" ++ RIGHT ++ lit "&nbsp;</td>" ++ RIGHT ++ lit " - </td>" ++
  lit "<td>&nbsp;</td>" ++ lit "</tr>" ++ [LF].

Definition entry_row (url : bytes) (e : DirEntry) : bytes :=
  let icon := if is_dir e then lit "/icons/folder.gif" else lit "/icons/text.gif" in
  let altText := if is_dir e then lit "[DIR]" else lit "[FILE]" in
  lit "<tr>" ++ lit "<td valign=" ++ DQUOTE ++ lit "top" ++ DQUOTE ++ lit "><img src=" ++ DQUOTE ++
  icon ++ DQUOTE ++ lit " alt=" ++ DQUOTE ++ altText ++ DQUOTE ++ lit "></td>" ++
  lit "<td><a href=" ++ DQUOTE ++ url ++
  (if bool_decide (last url = Some "/"%char) then [] else lit "/") ++ name e ++
  (if is_dir e then lit "/" else []) ++ DQUOTE ++ lit ">" ++ name e ++ lit "</a></td>" ++
  RIGHT ++ format_mtime (mtime e) ++ lit "</td>" ++
  (if is_dir e then RIGHT ++ lit " - </td>" else RIGHT ++ print_Z (size e) ++ lit "</td>") ++
  lit "<td>&nbsp;</td>" ++ lit "</tr>" ++ [LF].

Definition listing_page (url : bytes) (sortField sortOrder : ascii) (entries : list DirEntry) : bytes :=
  lit "<html><body>" ++ [LF] ++ lit "<h1>Index of " ++ url ++ lit "</h1>" ++ [LF] ++
  lit "<table>" ++ [LF] ++
  lit "<tr><th valign=" ++ DQUOTE ++ lit "top" ++ DQUOTE ++ lit "><img src=" ++ DQUOTE ++
  lit "/icons/blank.gif" ++ DQUOTE ++ lit " alt=" ++ DQUOTE ++ lit "[ICO]" ++ DQUOTE ++ lit "</th>" ++
  sort_link "N" sortField sortOrder "Name" ++ sort_link "M" sortField sortOrder "Last modified" ++
  sort_link "S" sortField sortOrder "Size" ++ lit "</tr>" ++ [LF] ++ HR_ROW ++
  (if bool_decide (url = lit "/") then [] else parent_row url) ++
  concat (map (entry_row url) entries) ++ HR_ROW ++ lit "</table>" ++ [LF] ++
  lit "</body></html>" ++ [LF].

Definition NOT_FOUND_DIR : bytes := lit "<html><body><h1>404 Not Found</h1></body></html>".
Definition NOT_FOUND : bytes := NOT_FOUND_DIR ++ [LF].

Definition moved (url : bytes) : bytes :=
  lit "HTTP/1.0 301 Moved Permanently" ++ CRLF ++ lit "Location: " ++ url ++ lit "/" ++ CRLF ++
  lit "Content-Length: 0" ++ CRLF ++ CRLF.

(** The branches of [handleClient] return whether it goes on to the statistics. *)
Definition serve_directory (path url : bytes) (sortField sortOrder : ascii) : M bool :=
  match last url with
  | None => fail Undefined
  | Some c =>
      if negb (bool_decide (c = "/"%char)) then sendAll (moved url);; mret false
      else
        dir ← ask (fun h => sys_opendir h path);
        record_event (EvOpendir path);;
        match dir with
        | None =>
            send_both (not_found_header (len NOT_FOUND_DIR)) NOT_FOUND_DIR;; mret false
        | Some names =>
            entries ← read_entries path names;
            let body := listing_page url sortField sortOrder (sort_entries sortField sortOrder entries) in
            send_both (ok_header (len body)) body;; mret true
        end
  end.

Definition BufSize : nat := N.to_nat 4096.

(** [while ((r = read(...)) > 0) if (sendAll(...) < 0) break;] *)
Fixpoint copy_file (fuel : nat) (path : bytes) (offset : nat) : M unit :=
  match fuel with
  | 0 => fail OutOfFuel
  | S fuel' =>
      data ← ask (fun h => sys_read_file h path offset BufSize);
      record_event (EvFileRead path data);;
      match data with
      | [] => mret tt
      | _ =>
          sent ← sendAll data;
          if (sent <? 0)%Z then mret tt else copy_file fuel' path (offset + length data)
      end
  end.

Definition serve_plain (fuel : nat) (path : bytes) (st : stat_buf) : M bool :=
  opened ← ask (fun h => sys_open h path);
  record_event (EvOpen path);;
  if negb opened then mret false
  else
    sendAll (ok_header_Z (st_size st));;
    copy_file fuel path 0;;
    record_event (EvClose path);;
    mret true.

(** The options of a query. *)
Definition option_after (key : bytes) (query : bytes) (d : ascii) : ascii :=
  match search key query with
  | Some pos => default d (query !! (pos + 2))
  | None => d
  end.

Definition parse_sort (url : bytes) : bytes * ascii * ascii :=
  match search ["?"%char] url with
  | None => (url, "N"%char, "A"%char)
  | Some qm_pos =>
      let query := drop (qm_pos + 1) url in
      (take qm_pos url, option_after (lit "C=") query "N", option_after (lit "O=") query "A")
  end.

Definition CLOCKS_PER_SEC : double := d_of_Z 1000000.

(** The update of the statistics; [totalRequests] is an [int]. *)
Definition update_stats (url : bytes) (ticks : Z) (g : Globals) : option Globals :=
  let serviceTime := d_div (d_of_Z ticks) CLOCKS_PER_SEC in
  if (totalRequests g =? INT_MAX)%Z then None
  else
    let '(minT, minU) :=
      if d_lt (minServiceTime g) (d_of_Z 0) || d_lt serviceTime (minServiceTime g)
      then (serviceTime, url) else (minServiceTime g, minURL g) in
    let '(maxT, maxU) :=
      if d_lt (maxServiceTime g) serviceTime then (serviceTime, url)
      else (maxServiceTime g, maxURL g) in
    Some {| serverStartTime := serverStartTime g; totalRequests := totalRequests g + 1;
            minServiceTime := minT; maxServiceTime := maxT; minURL := minU; maxURL := maxU |}.

Definition finish_request (url : bytes) (start : Z) : M unit :=
  end_ ← ask sys_clock;
  g ← get_globals;
  match update_stats url (end_ - start) g with
  | None => fail Undefined
  | Some g' => set_globals g'
  end.

Definition UNAUTHORIZED : bytes :=
  lit "HTTP/1.0 401 Unauthorized" ++ CRLF ++ lit "WWW-Authenticate: Basic realm=" ++ DQUOTE ++ REALM ++
  DQUOTE ++ CRLF ++ lit "Content-Length: 0" ++ CRLF ++ CRLF.
Definition NOT_IMPLEMENTED : bytes :=
  lit "HTTP/1.0 501 Not Implemented" ++ CRLF ++ lit "Content-Length: 0" ++ CRLF ++ CRLF.

Definition AUTH_HEADER : bytes := lit "Authorization: " ++ AUTH_TOKEN.

(** Files and directories. *)
Definition serve_path (fuel : nat) (start : Z) (url : bytes) : M unit :=
  let '(url, sortField, sortOrder) := parse_sort url in
  let path := RootDir ++ lit "/htdocs" ++ url in
  sb ← ask (fun h => sys_stat h path);
  record_event (EvStat path);;
  goes_on ← match sb with
            | Some st =>
                if st_isdir st then serve_directory path url sortField sortOrder
                else serve_plain fuel path st
            | None => send_both (not_found_header (len NOT_FOUND)) NOT_FOUND;; mret true
            end;
  if (goes_on : bool) then finish_request url start else mret tt.

(** What [handleClient] does with a request that has the token and a known method. *)
Definition dispatch_url (fuel : nat) (start : Z) (fullRequest method url : bytes) : M unit :=
  let url := if bool_decide (url = lit "/") then lit "/index.html" else url in
  if bool_decide (url = lit "/stats") then handleStats
  else if bool_decide (url = lit "/logs") then handleLogs
  else
    let pos := find_pos CRLF2 fullRequest in
    requestBody ← substr_from fullRequest (sz_add pos 4);
    if starts_with CGI_PREFIX url then handleCGI method url requestBody
    else serve_path fuel start url.

Definition log_request (clientIP url : bytes) : M unit :=
  opened ← ask sys_log_append;
  if (opened : bool) then record_event (EvLog (clientIP ++ lit " " ++ url ++ [LF])) else mret tt.

(** [request[n] = '\0'; std::string fullRequest(request);] *)
Definition full_request (data : bytes) : bytes := default [] (c_string (data ++ [NUL])).

Definition handleClient (fuel : nat) (clientIP : bytes) : M unit :=
  start ← ask sys_clock;
  request ← ask (fun h => sys_read h MaxRequestSize);
  record_event (EvRead request);;
  match request with
  | None => mret tt
  | Some data =>
      let fullRequest := full_request data in
      let '(method, rest) := extract fullRequest in
      let '(url, _) := extract rest in
      log_request clientIP url;;
      match search AUTH_HEADER fullRequest with
      | None => sendAll UNAUTHORIZED;; mret tt
      | Some _ =>
          if negb (bool_decide (method = lit "GET")) && negb (bool_decide (method = lit "POST"))
          then sendAll NOT_IMPLEMENTED;; mret tt
          else dispatch_url fuel start fullRequest method url
      end
  end.
End Server.
