(* ===== verification/MyhttpdFacts.v ===== *)
(** * Properties of the first server's request handling

    What is sent, which requests reach the file system, how files and directories are
    answered, and where the handler breaks. *)

From Stdlib Require Import Ascii String.
From stdpp Require Import base numbers list gmap strings option sorting.
From S2P Require Import Prelude CppLib CMem Double Myhttpd.

(** ** Running the monad *)

Lemma bind_run {A B} (m : M A) (k : A -> M B) w a w' : m w = Ok (a, w') -> (m ≫= k) w = k a w'.
Proof. intros Hm. unfold mbind, M_bind. by rewrite Hm. Qed.

Lemma bind_ask {A B} (f : history -> A) (k : A -> M B) w : (ask f ≫= k) w = k (f (hist w)) w.
Proof. done. Qed.

Lemma bind_ret {A B} (a : A) (k : A -> M B) w : (mret a ≫= k) w = k a w.
Proof. done. Qed.

Lemma bind_event {B} e (k : unit -> M B) w :
  (record_event e ≫= k) w = k tt {| hist := e :: hist w; globals := globals w |}.
Proof. done. Qed.

Lemma bind_globals {B} (k : Globals -> M B) w : (get_globals ≫= k) w = k (globals w) w.
Proof. done. Qed.

(** Run the calls that always answer. *)
Ltac run_calls :=
  repeat first [rewrite bind_ask | rewrite bind_event | rewrite bind_ret | rewrite bind_globals].

(** ** What was sent *)

Fixpoint sent (h : history) : bytes :=
  match h with
  | [] => []
  | EvWrite data n :: h' => sent h' ++ take (Z.to_nat n) data
  | _ :: h' => sent h'
  end.

Definition is_write (e : event) : bool := match e with EvWrite _ _ => true | _ => false end.

(** From [w] to [w'] there were only writes to the client, of the bytes [out]. *)
Definition wrote (w w' : World) (out : bytes) : Prop :=
  globals w' = globals w /\ sent (hist w') = sent (hist w) ++ out /\
  exists evs, hist w' = evs ++ hist w /\ Forall (fun e => is_write e = true) evs.

Lemma wrote_refl w : wrote w w [].
Proof. split; [done|]. split; [by rewrite app_nil_r|]. exists []. by split. Qed.

Lemma wrote_trans w1 w2 w3 a b : wrote w1 w2 a -> wrote w2 w3 b -> wrote w1 w3 (a ++ b).
Proof.
  intros (G1 & S1 & e1 & E1 & F1) (G2 & S2 & e2 & E2 & F2). split; [congruence|].
  split; [by rewrite S2, S1, <- (assoc_L (++))|]. exists (e2 ++ e1).
  split; [by rewrite E2, E1, (assoc_L (++))|]. apply Forall_app. by split.
Qed.

Section Server.
Context `{Os} `{StdSort}.

(** The client's socket takes everything, perhaps in pieces. *)
Definition accepts_all : Prop := forall h data, data <> [] -> (0 < sys_write h data)%Z.

Lemma send_from_spec fuel total buf w :
  (total <= length buf)%nat -> (length buf - total <= fuel)%nat ->
  exists r w' k, send_from fuel total buf w = Ok (r, w') /\ wrote w w' (take k (drop total buf)) /\
    ((r = Z.of_nat (length buf) /\ (total + k)%nat = length buf) \/
     ((r <= 0)%Z /\ (total + k < length buf)%nat /\ ~ accepts_all)).
Proof.
  revert total w. induction fuel as [|fuel IH]; intros total w Ht Hf; cbn [send_from];
    destruct (Nat.ltb_spec total (length buf)) as [Hlt|Hge]; try lia.
  - exists (Z.of_nat total), w, 0. split; [done|]. split; [apply wrote_refl|]. left. split; [f_equal; lia|lia].
  - set (n := sys_write (hist w) (drop total buf)).
    set (w1 := {| hist := EvWrite (drop total buf) n :: hist w; globals := globals w |}).
    assert (Hn : (n <= Z.of_nat (length buf - total))%Z).
    { unfold n. rewrite <- length_drop. apply sys_write_le. }
    assert (Hw1 : wrote w w1 (take (Z.to_nat n) (drop total buf))).
    { split; [done|]. split; [done|]. exists [EvWrite (drop total buf) n]. split; [done|]. by repeat constructor. }
    unfold write_. rewrite (bind_run _ _ w n w1) by done. destruct (Z.leb_spec n 0) as [Hneg|Hpos].
    + exists n, w1, 0. split; [done|]. replace (Z.to_nat n) with 0 in Hw1 by lia. split; [done|].
      right. split; [done|]. split; [lia|]. intros Hall. specialize (Hall (hist w) (drop total buf)).
      fold n in Hall. assert (drop total buf <> []); [|naive_solver lia].
      intros Hd%(f_equal length). rewrite length_drop in Hd. simpl in Hd. lia.
    + destruct (IH (total + Z.to_nat n)%nat w1) as (r & w' & k & Hs & Hw & Hr); [lia|lia|].
      exists r, w', (Z.to_nat n + k)%nat. split; [done|]. split; [|naive_solver lia].
      rewrite <- (take_take_drop (drop total buf)), drop_drop. by eapply wrote_trans.
  - exists (Z.of_nat total), w, 0. split; [done|]. split; [apply wrote_refl|]. left. split; [f_equal; lia|lia].
Qed.

(** [sendAll] returns after at most as many writes as there are bytes. Either it returns
    the length and every byte was written, in order and once; or a write failed and it
    returns the failing result, with a proper prefix written. If the socket takes at least
    one byte of every write, it is the former. *)
Theorem sendAll_delivers buf w :
  exists r w' k, sendAll buf w = Ok (r, w') /\ wrote w w' (take k buf) /\
    ((r = Z.of_nat (length buf) /\ k = length buf) \/
     ((r <= 0)%Z /\ (k < length buf)%nat /\ ~ accepts_all)).
Proof.
  destruct (send_from_spec (length buf) 0 buf w) as (r & w' & k & Hs & Hw & Hr); [lia|lia|].
  exists r, w', k. done.
Qed.

(** The same, for use below. *)
Lemma sendAll_spec buf w :
  exists r w' out, sendAll buf w = Ok (r, w') /\ wrote w w' out /\ (exists k, out = take k buf) /\
    (accepts_all -> out = buf /\ r = Z.of_nat (length buf)).
Proof.
  destruct (send_from_spec (length buf) 0 buf w) as (r & w' & k & Hs & Hw & Hr); [lia|lia|].
  exists r, w', (take k buf). split; [done|]. split; [done|]. split; [by exists k|]. intros Hall.
  destruct Hr as [[-> Hk]|(_ & _ & Hn)]; [|done]. simpl in Hk. by rewrite take_ge by lia.
Qed.

Lemma send_both_spec header body w :
  exists w' out, send_both header body w = Ok (tt, w') /\ wrote w w' out /\
    (accepts_all -> out = header ++ body).
Proof.
  destruct (sendAll_spec header w) as (r1 & w1 & o1 & E1 & W1 & _ & A1).
  destruct (sendAll_spec body w1) as (r2 & w2 & o2 & E2 & W2 & _ & A2).
  exists w2, (o1 ++ o2). unfold send_both. rewrite (bind_run _ _ _ _ _ E1), (bind_run _ _ _ _ _ E2).
  split; [done|]. split; [by eapply wrote_trans|]. intros Hall.
  destruct (A1 Hall) as [-> _], (A2 Hall) as [-> _]. done.
Qed.

(** ** Requests without the token *)

Definition harmless (e : event) : bool :=
  match e with EvRead _ | EvLog _ | EvWrite _ _ => true | _ => false end.

Lemma write_harmless evs : Forall (fun e => is_write e = true) evs -> Forall (fun e => harmless e = true) evs.
Proof. intros Hf. eapply Forall_impl; [exact Hf|]. by intros []. Qed.

Lemma log_request_spec ip url w :
  exists w' evs, log_request ip url w = Ok (tt, w') /\ globals w' = globals w /\
    sent (hist w') = sent (hist w) /\ hist w' = evs ++ hist w /\ Forall (fun e => harmless e = true) evs.
Proof.
  unfold log_request. run_calls. destruct (sys_log_append (hist w)).
  - eexists _, [_]. split; [done|]. repeat (split; [done|]). by repeat constructor.
  - exists w, []. by repeat split.
Qed.

Definition request_method (data : bytes) : bytes := (extract (full_request data)).1.
Definition request_url (data : bytes) : bytes := (extract (extract (full_request data)).2).1.

Context (format_mtime : Z -> bytes).

(** The handler from the check of the token on. *)
Definition after_log (fuel : nat) (start : Z) (data : bytes) : M unit :=
  match search AUTH_HEADER (full_request data) with
  | None => sendAll UNAUTHORIZED;; mret tt
  | Some _ =>
      if negb (bool_decide (request_method data = lit "GET")) &&
         negb (bool_decide (request_method data = lit "POST"))
      then sendAll NOT_IMPLEMENTED;; mret tt
      else dispatch_url format_mtime fuel start (full_request data) (request_method data) (request_url data)
  end.

Lemma handleClient_read fuel ip w data :
  sys_read (hist w) MaxRequestSize = Some data ->
  exists w1 evs, handleClient format_mtime fuel ip w = after_log fuel (sys_clock (hist w)) data w1 /\
    globals w1 = globals w /\ sent (hist w1) = sent (hist w) /\ hist w1 = evs ++ hist w /\
    Forall (fun e => harmless e = true) evs.
Proof.
  intros Hr. unfold handleClient. run_calls. rewrite Hr. unfold after_log, request_method, request_url.
  destruct (extract (full_request data)) as [method rest]. cbn [fst snd]. destruct (extract rest) as [url rest'].
  cbn [fst snd].
  destruct (log_request_spec ip url {| hist := EvRead (Some data) :: hist w; globals := globals w |})
    as (w1 & evs & Hl & G & S & Hh & Hf).
  exists w1, (evs ++ [EvRead (Some data)]). rewrite (bind_run _ _ _ _ _ Hl). split; [done|].
  split; [done|]. split; [done|]. split; [by rewrite Hh, <- (assoc_L (++))|].
  apply Forall_app. split; [done|]. by repeat constructor.
Qed.

(** C33. The gate. A request in which the token does not occur is answered with the 401 message
    and nothing else: whatever it asks for, no file, directory, log page or script is
    touched, and the statistics stay as they were. The request is logged. *)
Theorem unauthorized_stopped fuel ip w data :
  sys_read (hist w) MaxRequestSize = Some data -> search AUTH_HEADER (full_request data) = None ->
  exists w' evs, handleClient format_mtime fuel ip w = Ok (tt, w') /\ globals w' = globals w /\
    hist w' = evs ++ hist w /\ Forall (fun e => harmless e = true) evs /\
    (exists k, sent (hist w') = sent (hist w) ++ take k UNAUTHORIZED) /\
    (accepts_all -> sent (hist w') = sent (hist w) ++ UNAUTHORIZED).
Proof.
  intros Hr Ha. destruct (handleClient_read fuel ip w data Hr) as (w1 & evs & -> & G & S & Hh & Hf).
  unfold after_log. rewrite Ha.
  destruct (sendAll_spec UNAUTHORIZED w1) as (r & w2 & out & Hs & (G2 & S2 & e2 & E2 & F2) & (k & Hk) & Hall).
  exists w2, (e2 ++ evs). rewrite (bind_run _ _ _ _ _ Hs). split; [done|]. split; [congruence|].
  split; [by rewrite E2, Hh, (assoc_L (++))|]. split; [apply Forall_app; split; [by apply write_harmless|done]|].
  rewrite S2, S. split; [exists k; by rewrite Hk|]. intros Ha'. by destruct (Hall Ha') as [-> _].
Qed.

(** ** Requests that come back *)

Lemma bind_Err {A B} (m : M A) (k : A -> M B) w e :
  (m ≫= k) w = Err e -> m w = Err e \/ exists a w', m w = Ok (a, w') /\ k a w' = Err e.
Proof. unfold mbind, M_bind. destruct (m w) as [[a w']|e']; naive_solver. Qed.

Lemma sendAll_ok buf w e : sendAll buf w <> Err e.
Proof. destruct (sendAll_spec buf w) as (r & w' & out & -> & _). done. Qed.

Lemma send_both_ok a b w e : send_both a b w <> Err e.
Proof. destruct (send_both_spec a b w) as (w' & out & -> & _). done. Qed.

Lemma read_entries_ok path names w :
  exists es w', read_entries path names w = Ok (es, w') /\ globals w' = globals w.
Proof.
  revert w. induction names as [|n names IH]; intros w; cbn [read_entries]; [by eexists _, w|].
  destruct (_ || _); [apply IH|]. run_calls.
  destruct (IH {| hist := EvStat (path ++ lit "/" ++ n) :: hist w; globals := globals w |}) as (es & w' & Hr & Hg).
  rewrite (bind_run _ _ _ _ _ Hr). eexists _, w'. by split.
Qed.

Lemma sendAll_globals buf w r w' : sendAll buf w = Ok (r, w') -> globals w' = globals w.
Proof. intros Hs. destruct (sendAll_spec buf w) as (r1 & w1 & out & E & (G & _) & _). congruence. Qed.

Lemma send_both_globals a b w w' : send_both a b w = Ok (tt, w') -> globals w' = globals w.
Proof. intros Hs. destruct (send_both_spec a b w) as (w1 & out & E & (G & _) & _). congruence. Qed.

(** No file has more than [n] bytes, and the fuel is not enough for [n] bytes. *)
Definition files_within (n : nat) : Prop :=
  forall h path offset k, (n <= offset)%nat -> sys_read_file h path offset k = [].
Definition short (fuel : nat) : Prop := forall n, files_within n -> (fuel <= n)%nat.

Lemma copy_file_err fuel path : forall offset w,
  (forall e, copy_file fuel path offset w = Err e ->
     e = OutOfFuel /\ forall n, files_within n -> (fuel + offset <= n \/ fuel = 0)%nat) /\
  (forall w', copy_file fuel path offset w = Ok (tt, w') -> globals w' = globals w).
Proof.
  induction fuel as [|fuel IH]; intros offset w; cbn [copy_file];
    [by split; [intros e [= <-]; split; [|right]|intros ? [=]]|].
  run_calls. destruct (sys_read_file _ _ _ _) as [|c data] eqn:Er; [by split; [done|intros w' [= <-]]|].
  set (w1 := {| hist := _; globals := _ |}).
  destruct (sendAll_spec (c :: data) w1) as (r & w2 & out & Hs & (G & _) & _).
  rewrite (bind_run _ _ _ _ _ Hs). destruct (r <? 0)%Z; [by split; [done|intros w' [= <-]]|].
  destruct (IH (offset + length (c :: data))%nat w2) as [I1 I2]. split; [|intros w' Hw; by rewrite (I2 _ Hw)].
  intros e He. destruct (I1 e He) as [-> Hn]. split; [done|]. intros n Hf. left. simpl length in Hn.
  destruct (Nat.le_gt_cases n offset) as [Hle|Hgt]; [by rewrite Hf in Er|]. destruct (Hn n Hf); lia.
Qed.

Lemma serve_branch_err fuel path url st f o w :
  let m := if st_isdir st then serve_directory format_mtime path url f o else serve_plain fuel path st in
  (forall e, m w = Err e -> (e = OutOfFuel /\ short fuel) \/ (e = Undefined /\ url = [])) /\
  (forall b w', m w = Ok (b, w') -> globals w' = globals w).
Proof.
  cbv zeta. destruct (st_isdir st).
  - unfold serve_directory. destruct (last url) as [c|] eqn:El.
    + destruct (negb _).
      { destruct (sendAll_spec (moved url) w) as (r & w1 & out & Hs & (G & _) & _).
        rewrite (bind_run _ _ _ _ _ Hs). by split; [|intros b w' [= _ <-]]. }
      run_calls. destruct (sys_opendir _ _) as [names|].
      * destruct (read_entries_ok path names {| hist := EvOpendir path :: hist w; globals := globals w |})
          as (es & w1 & Hr & Hg). rewrite (bind_run _ _ _ _ _ Hr).
        match goal with |- context [send_both ?a ?b ≫= _] => destruct (send_both_spec a b w1) as (w2 & out & Hs & (G & _) & _) end.
        rewrite (bind_run _ _ _ _ _ Hs). split; [done|]. intros b w' [= _ <-]. by rewrite G, Hg.
      * match goal with |- context [(send_both ?a ?b ≫= _) ?v] => destruct (send_both_spec a b v) as (w2 & out & Hs & (G & _) & _) end.
        rewrite (bind_run _ _ _ _ _ Hs). split; [done|]. intros b w' [= _ <-]. by rewrite G.
    + apply last_None in El. split; [intros e [= <-]; by right|done].
  - unfold serve_plain. run_calls. destruct (negb _); [by split; [done|intros b w' [= _ <-]]|].
    set (w1 := {| hist := _; globals := _ |}).
    destruct (sendAll_spec (ok_header_Z (st_size st)) w1) as (r & w2 & out & Hs & (G & _) & _).
    rewrite (bind_run _ _ _ _ _ Hs). destruct (copy_file_err fuel path 0 w2) as [C1 C2]. split.
    + intros e He. left. apply bind_Err in He as [He|([] & w3 & _ & He)]; [|done].
      apply C1 in He as [-> Hn]. split; [done|]. intros n Hf. destruct (Hn n Hf); lia.
    + intros b w' Hw. unfold mbind, M_bind in Hw. destruct (copy_file fuel path 0 w2) as [[[] w3]|e] eqn:Ec; [|done].
      injection Hw as _ <-. simpl. rewrite (C2 w3) by done. by rewrite G.
Qed.

Lemma c_string_length b s : c_string b = Some s -> (length s < length b)%nat.
Proof. intros [_ [t ->]]%c_string_cstr. rewrite length_app. simpl. lia. Qed.

Lemma full_request_length data : (length (full_request data) <= length data)%nat.
Proof.
  unfold full_request. destruct (c_string (data ++ [NUL])) as [s|] eqn:E; simpl; [|lia].
  apply c_string_length in E. rewrite length_app in E. simpl in E. lia.
Qed.

(** Taking the body of a request with the token does not throw: without an empty line the
    position wraps around to 3, and the token alone is longer than that. *)
Lemma body_in_range r i w :
  search AUTH_HEADER r = Some i -> (length r <= MaxRequestSize)%nat ->
  exists n, substr_from r (sz_add (find_pos CRLF2 r) 4) w = Ok (drop n r, w) /\
    (search CRLF2 r = None -> n = 3) /\ (forall j, search CRLF2 r = Some j -> n = (j + 4)%nat).
Proof.
  intros Ha Hl. apply search_bound in Ha. change (length AUTH_HEADER) with 31 in Ha. unfold MaxRequestSize in Hl.
  unfold substr_from, find_pos, len. destruct (search CRLF2 r) as [j|] eqn:E.
  - apply search_bound in E. change (length CRLF2) with 4 in E. rewrite sz_add_exact by lia.
    destruct (N.ltb_spec (N.of_nat (length r)) (N.of_nat j + 4)); [lia|].
    exists (j + 4)%nat. replace (N.to_nat (N.of_nat j + 4)) with (j + 4)%nat by lia.
    split; [done|]. split; [done|]. by intros j' [= <-].
  - assert (Hw : sz_add npos 4 = 3%N) by (vm_compute; reflexivity). rewrite Hw.
    destruct (N.ltb_spec (N.of_nat (length r)) 3); [lia|]. by exists 3.
Qed.

Lemma search_after c p t q : search [c] (p ++ t) = Some q -> c ∉ p -> (length p <= q)%nat.
Proof.
  revert q. induction p as [|d p IH]; intros q; [simpl; lia|]. rewrite not_elem_of_cons. cbn [app search].
  intros Hs [Hd Hp]. cbn [starts_with] in Hs. rewrite bool_decide_eq_false_2 in Hs by congruence. simpl in Hs.
  apply fmap_Some in Hs as (i & Hi & ->). specialize (IH i Hi Hp). simpl. lia.
Qed.

Lemma handleCGI_ok method url body w :
  starts_with CGI_PREFIX url = true -> exists w', handleCGI method url body w = Ok (tt, w') /\ globals w' = globals w.
Proof.
  intros [t ->]%starts_with_spec. unfold handleCGI.
  assert (Hscript : forall s, (9 <= length s)%nat -> substr_from s (len CGI_PREFIX) w = Ok (drop 9 s, w)).
  { intros s Hs. unfold substr_from, len. change (N.of_nat (length CGI_PREFIX)) with 9%N.
    by destruct (N.ltb_spec (N.of_nat (length s)) 9); [lia|]. }
  destruct (search ["?"%char] (CGI_PREFIX ++ t)) as [q|] eqn:E.
  - pose proof (search_bound _ _ _ E) as Hb.
    apply search_after in E; [|apply (bool_decide_eq_true_1 ("?"%char ∉ CGI_PREFIX)); vm_compute; reflexivity].
    change (length CGI_PREFIX) with 9 in E.
    rewrite (bind_run _ _ _ _ _ (Hscript (take q (CGI_PREFIX ++ t)) ltac:(rewrite length_take; simpl in *; lia))).
    run_calls. destruct (negb _); by eexists.
  - rewrite (bind_run _ _ _ _ _ (Hscript (CGI_PREFIX ++ t) ltac:(rewrite length_app; change (length CGI_PREFIX) with 9; lia))).
    run_calls. destruct (negb _); by eexists.
Qed.

Lemma serve_path_err fuel start url w e :
  serve_path format_mtime fuel start url w = Err e ->
  (e = OutOfFuel /\ short fuel) \/
  (e = Undefined /\ ((parse_sort url).1.1 = [] \/ totalRequests (globals w) = INT_MAX)).
Proof.
  unfold serve_path. destruct (parse_sort url) as [[u f] o]. cbn [fst snd]. run_calls.
  set (w1 := {| hist := _; globals := _ |}). intros He.
  assert (Hfin : forall b w2, globals w2 = globals w ->
    (if (b : bool) then finish_request u start else mret tt) w2 = Err e ->
    e = Undefined /\ totalRequests (globals w) = INT_MAX).
  { intros b w2 Hg. destruct b; [|done]. unfold finish_request. run_calls. rewrite Hg. unfold update_stats.
    destruct (Z.eqb_spec (totalRequests (globals w)) INT_MAX) as [Hm|Hm]; [by intros [= <-]|].
    destruct (_ || _), (d_lt _ _); done. }
  destruct (sys_stat (hist w) _) as [st|].
  - destruct (serve_branch_err fuel (RootDir ++ lit "/htdocs" ++ u) u st f o w1) as [B1 B2].
    apply bind_Err in He as [He|(b & w2 & Hb & He)].
    + apply B1 in He as [[-> Hs]|[-> ->]]; [by left|right; by auto].
    + apply B2 in Hb. right. apply Hfin in He as [-> Hm]; [by auto|by rewrite Hb].
  - match type of He with ((send_both ?a ?b ≫= _) ≫= _) _ = _ =>
      destruct (send_both_spec a b w1) as (w2 & out & Hs & (G & _) & _) end.
    unfold mbind, M_bind in He. rewrite Hs in He. cbn in He. right.
    apply (Hfin true w2) in He as [-> Hm]; [by auto|by rewrite G].
Qed.

Lemma handler_err fuel ip w e :
  handleClient format_mtime fuel ip w = Err e ->
  (e = OutOfFuel /\ short fuel) \/
  (e = Undefined /\ (totalRequests (globals w) = INT_MAX \/
     exists data, sys_read (hist w) MaxRequestSize = Some data /\ (parse_sort (request_url data)).1.1 = [])).
Proof.
  intros He. destruct (sys_read (hist w) MaxRequestSize) as [data|] eqn:Hr.
  2: { unfold handleClient in He. rewrite !bind_ask, bind_event, Hr in He. done. }
  destruct (handleClient_read fuel ip w data Hr) as (w1 & evs & Eh & G & _). rewrite Eh in He. clear Eh.
  unfold after_log in He. destruct (search AUTH_HEADER (full_request data)) as [i|] eqn:Ha.
  2: { apply bind_Err in He as [He|(? & ? & _ & He)]; [by apply sendAll_ok in He|done]. }
  destruct (_ && _); [apply bind_Err in He as [He|(? & ? & _ & He)]; [by apply sendAll_ok in He|done]|].
  unfold dispatch_url in He. set (url := if bool_decide (request_url data = lit "/") then lit "/index.html" else request_url data) in He.
  destruct (bool_decide (url = lit "/stats")).
  { unfold handleStats in He. rewrite bind_ask, bind_globals in He. by apply send_both_ok in He. }
  destruct (bool_decide (url = lit "/logs")).
  { unfold handleLogs in He. rewrite bind_ask, bind_event in He.
    destruct (sys_log_read _); by apply send_both_ok in He. }
  destruct (body_in_range (full_request data) i w1 Ha) as (n & Hbody & _).
  { etransitivity; [apply full_request_length|]. by apply (sys_read_le (hist w)). }
  rewrite (bind_run _ _ _ _ _ Hbody) in He.
  destruct (starts_with CGI_PREFIX url) eqn:Ecgi.
  { destruct (handleCGI_ok (request_method data) url (drop n (full_request data)) w1 Ecgi) as (w2 & E & _). congruence. }
  apply serve_path_err in He as [[-> Hs]|[-> [Hu|Hm]]]; [by left|right..]; (split; [done|]).
  - right. exists data. split; [done|]. unfold url in Hu. case_bool_decide as Eu; [|done].
    vm_compute in Hu. done.
  - left. by rewrite <- G.
Qed.

(** C32. The handler comes back: when no file is longer than [n] bytes, fuel for [n] + 1 reads
    is enough, and the call returns unless it runs into undefined behaviour in one of two
    ways: a target whose part before the question mark is empty (the last character of an
    empty string is read when the root is a directory), or the request counter at its
    greatest value. No exception ever leaves it: the positions given to [substr] are in
    range for every request with the token, with or without an empty line, and for every
    script name. *)
Theorem handler_returns fuel n ip w :
  files_within n -> (n < fuel)%nat ->
  (exists w', handleClient format_mtime fuel ip w = Ok (tt, w')) \/
  (handleClient format_mtime fuel ip w = Err Undefined /\
   (totalRequests (globals w) = INT_MAX \/
    exists data, sys_read (hist w) MaxRequestSize = Some data /\ (parse_sort (request_url data)).1.1 = [])).
Proof.
  intros Hn Hf. destruct (handleClient format_mtime fuel ip w) as [[[] w']|e] eqn:E; [left; by eexists|right].
  apply handler_err in E as [[_ Hs]|[-> Hu]]; [|done]. specialize (Hs n Hn). lia.
Qed.
End Server.
