(* ===== verification/MyhttpdPage.v ===== *)
(** * Reading the pages of the first server

    What a browser finds in a directory listing: the links of the page, read by a small
    reader of tags that knows nothing of how the page is made; the order of the entries that
    a query asks for; and the queries themselves. *)

From Stdlib Require Import Ascii String.
From stdpp Require Import base numbers list gmap strings option.
From S2P Require Import Prelude CppLib CMem Double Myhttpd.

(** ** Links *)

Definition LT : ascii := "<"%char.
Definition QUOTE_MARK : ascii := "034"%char.

(** The text before the first tag, and each tag with the text after it. *)
Fixpoint pieces (s : bytes) : bytes * list bytes :=
  match s with
  | [] => ([], [])
  | c :: s' =>
      let '(p, ps) := pieces s' in
      if bool_decide (c = LT) then ([], p :: ps) else (c :: p, ps)
  end.

(** A link: the address between the quotes and the text after the tag. *)
Definition link (tag : bytes) : option (bytes * bytes) :=
  let start := lit "a href=" ++ [QUOTE_MARK] in
  if starts_with start tag then
    let rest := drop (length start) tag in
    match search [QUOTE_MARK] rest with Some i => Some (take i rest, drop (i + 2) rest) | None => None end
  else None.

Definition links (page : bytes) : list (bytes * bytes) := omap link (pieces page).2.

(** Text without tags and quotes. *)
Definition clean (s : bytes) : Prop := LT ∉ s /\ QUOTE_MARK ∉ s.

#[global] Instance clean_dec s : Decision (clean s).
Proof. unfold clean. apply _. Defined.

Lemma pieces_plain a s : LT ∉ a -> pieces (a ++ s) = (a ++ (pieces s).1, (pieces s).2).
Proof.
  induction a as [|c a IH]; [intros _; cbn [app]; by destruct (pieces s)|]. intros [Hc Ha]%not_elem_of_cons. cbn [app pieces].
  rewrite IH by done. by rewrite bool_decide_eq_false_2.
Qed.

Lemma links_app a b : (pieces b).1 = [] -> links (a ++ b) = links a ++ links b.
Proof.
  intros Hb. unfold links. rewrite <- omap_app. f_equal.
  enough (pieces (a ++ b) = ((pieces a).1, (pieces a).2 ++ (pieces b).2)) as -> by done.
  induction a as [|c a IH]; [cbn [app pieces fst snd]; destruct (pieces b) as [x y]; simpl in *; by subst|]. cbn [app pieces]. rewrite IH.
  destruct (pieces a). by destruct (bool_decide _).
Qed.

(** One tag with its text. *)
Lemma links_tag body : LT ∉ body -> links (LT :: body) = match link body with Some l => [l] | None => [] end.
Proof.
  intros Hb. unfold links. cbn [pieces]. rewrite <- (app_nil_r body) at 1. rewrite pieces_plain by done. cbn [fst snd pieces].
  rewrite bool_decide_eq_true_2 by done. cbn [snd omap list_omap]. rewrite app_nil_r. by destruct (link body).
Qed.

Lemma link_anchor href text :
  QUOTE_MARK ∉ href -> link (lit "a href=" ++ [QUOTE_MARK] ++ href ++ [QUOTE_MARK] ++ lit ">" ++ text) = Some (href, text).
Proof.
  intros Hh. unfold link. rewrite (assoc_L (++)). set (start := lit "a href=" ++ [QUOTE_MARK]).
  replace (starts_with start _) with true by (symmetry; apply starts_with_spec; by eexists).
  rewrite drop_app_length. cbn [app]. rewrite (search_char_app QUOTE_MARK href) by done. rewrite take_app_length.
  do 2 f_equal. by rewrite drop_app_add' by done.
Qed.

(** ** The listing *)

Lemma DQUOTE_mark : DQUOTE = [QUOTE_MARK].
Proof. done. Qed.

Lemma clean_app a b : clean (a ++ b) <-> clean a /\ clean b.
Proof. unfold clean. rewrite !elem_of_app. tauto. Qed.

Lemma clean_take n s : clean s -> clean (take n s).
Proof. intros [H1 H2]. split; intros Hin; [apply H1|apply H2]; by eapply (subseteq_take n). Qed.

Lemma clean_parent url : clean url -> clean (parent_of url).
Proof.
  intros Hu. unfold parent_of.
  assert (Hp : clean (match find_last "/" (take (length url - 1) url) with Some i => take i url | None => url end))
    by (destruct (find_last _ _); [by apply clean_take|done]).
  destruct (match find_last _ _ with Some _ => _ | None => _ end); [by split; vm_compute; set_solver|].
  apply clean_app. split; [done|]. split; vm_compute; set_solver.
Qed.

Lemma print_Z_plain z : LT ∉ print_Z z.
Proof.
  assert (Hd : forall n, LT ∉ print_N n).
  { intros n Hin. pose proof (print_N_digits n) as Hf. rewrite list.Forall_forall in Hf. specialize (Hf _ Hin). by vm_compute in Hf. }
  unfold print_Z. destruct (z <? 0)%Z; [|done]. rewrite elem_of_cons. intros [?|?]; [done|by eapply Hd].
Qed.

(** A cell of the table. *)
Definition cell (start text : bytes) : bytes := LT :: start ++ text.

Lemma links_cell start text :
  LT ∉ start -> LT ∉ text -> head start <> Some "a"%char -> head start <> None -> links (cell start text) = [].
Proof.
  intros Hs Ht Ha Hn. unfold cell. rewrite links_tag by (rewrite elem_of_app; tauto).
  replace (link (start ++ text)) with (@None (bytes * bytes)); [done|]. unfold link. destruct start as [|c start]; [done|].
  change (lit "a href=" ++ [QUOTE_MARK]) with ("a"%char :: lit " href=" ++ [QUOTE_MARK]). cbn [app starts_with].
  rewrite bool_decide_eq_false_2; [done|]. cbn in Ha. congruence.
Qed.

Section Page.
Context (format_mtime : Z -> bytes) (url : bytes).
Hypothesis (Hfmt : forall t, LT ∉ format_mtime t) (Hurl : clean url) (Hslash : list.last url = Some "/"%char).

(** Where an entry leads. *)
Definition entry_link (e : DirEntry) : bytes * bytes := (url ++ name e ++ (if is_dir e then lit "/" else []), name e).

Lemma links_anchor href text :
  clean href -> LT ∉ text -> links (LT :: lit "a href=" ++ [QUOTE_MARK] ++ href ++ [QUOTE_MARK] ++ lit ">" ++ text) = [(href, text)].
Proof.
  intros [H1 H2] Ht. rewrite links_tag; [by rewrite link_anchor|]. rewrite !elem_of_app.
  intros [Hx|[Hx|[Hx|[Hx|[Hx|Hx]]]]]; try done; revert Hx; vm_compute; set_solver.
Qed.

Definition icon_cell (e : DirEntry) : bytes :=
  lit "<tr>" ++ lit "<td valign=" ++ DQUOTE ++ lit "top" ++ DQUOTE ++ lit "><img src=" ++ DQUOTE ++
  (if is_dir e then lit "/icons/folder.gif" else lit "/icons/text.gif") ++ DQUOTE ++ lit " alt=" ++ DQUOTE ++
  (if is_dir e then lit "[DIR]" else lit "[FILE]") ++ DQUOTE ++ lit "></td>" ++ lit "<td>".

Definition right_start : bytes := drop 1 RIGHT.

Lemma entry_row_cells e :
  entry_row format_mtime url e =
    icon_cell e ++ (LT :: lit "a href=" ++ [QUOTE_MARK] ++ (entry_link e).1 ++ [QUOTE_MARK] ++ lit ">" ++ name e) ++
    lit "</a></td>" ++ cell right_start (format_mtime (mtime e)) ++ lit "</td>" ++
    cell right_start (if is_dir e then lit " - " else print_Z (size e)) ++ lit "</td>" ++ lit "<td>&nbsp;</td>" ++ lit "</tr>" ++ [LF].
Proof.
  unfold entry_row, icon_cell, cell, entry_link. rewrite bool_decide_eq_true_2 by done. cbn [fst].
  destruct (is_dir e); repeat (cbn [app]; rewrite <- (assoc_L (++))); cbn [app]; reflexivity.
Qed.

Lemma pieces_tag body : (pieces (LT :: body)).1 = [].
Proof. cbn [pieces]. destruct (pieces body). by rewrite bool_decide_eq_true_2. Qed.

Lemma entry_row_links e : clean (name e) -> links (entry_row format_mtime url e) = [entry_link e].
Proof.
  intros Hn. rewrite entry_row_cells.
  assert (Hhref : clean (entry_link e).1).
  { unfold entry_link. cbn [fst]. rewrite !clean_app. split; [done|]. split; [done|]. destruct (is_dir e); split; vm_compute; set_solver. }
  assert (Hc : forall text, LT ∉ text -> links (cell right_start text) = []).
  { intros text Ht. apply links_cell; [vm_compute; set_solver|done|done|done]. }
  rewrite (links_app (icon_cell e)) by apply pieces_tag.
  rewrite (links_app (LT :: _)) by apply pieces_tag. rewrite links_anchor by (done || apply Hn).
  rewrite (links_app (lit "</a></td>")) by apply pieces_tag. rewrite (links_app (cell _ _)) by apply pieces_tag. rewrite Hc by done.
  rewrite (links_app (lit "</td>")) by apply pieces_tag. rewrite (links_app (cell _ _)) by apply pieces_tag.
  rewrite Hc by (destruct (is_dir e); [vm_compute; set_solver|apply print_Z_plain]).
  replace (links (icon_cell e)) with (@nil (bytes * bytes)) by (unfold icon_cell; by destruct (is_dir e)).
  done.
Qed.

Lemma rows_pieces es tail : (pieces tail).1 = [] -> (pieces (concat (map (entry_row format_mtime url) es) ++ tail)).1 = [].
Proof. intros Ht. destruct es as [|e es]; [done|]. apply pieces_tag. Qed.

Lemma rows_links es :
  Forall (fun e => clean (name e)) es -> links (concat (map (entry_row format_mtime url) es)) = map entry_link es.
Proof.
  induction 1 as [|e es He _ IH]; [done|]. cbn [map concat]. rewrite links_app.
  - by rewrite entry_row_links, IH.
  - rewrite <- (app_nil_r (concat _)). by apply rows_pieces.
Qed.

(** The link of a column: the other order when the entries are in ascending order of it. *)
Definition sort_target (field : ascii) (f o : ascii) : bytes :=
  lit "?C=" ++ [field] ++ lit ";O=" ++ (if bool_decide (f = field) && bool_decide (o = "A"%char) then lit "D" else lit "A").

Definition column_links (f o : ascii) : list (bytes * bytes) :=
  [(sort_target "N" f o, lit "Name"); (sort_target "M" f o, lit "Last modified"); (sort_target "S" f o, lit "Size")].

Definition parent_link : list (bytes * bytes) :=
  if bool_decide (url = lit "/") then [] else [(parent_of url, lit "Parent Directory")].

Lemma sort_link_links (field : string) c f o (text : string) :
  lit field = [c] -> c <> LT -> c <> QUOTE_MARK -> LT ∉ lit text ->
  links (sort_link field f o text) = [(sort_target c f o, lit text)].
Proof.
  intros Hf H1 H2 Ht. unfold sort_link. rewrite Hf.
  replace (bool_decide ([f] = [c])) with (bool_decide (f = c)) by (apply bool_decide_ext; split; [by intros ->|by intros [= ->]]).
  change (lit "<th><a href=") with (lit "<th>" ++ LT :: lit "a href="). change (lit "</a></th>") with (LT :: lit "/a></th>").
  assert (Hl : forall last, clean last -> links (((lit "<th>" ++ LT :: lit "a href=") ++ DQUOTE ++ lit "?C=" ++ [c] ++ lit ";O=" ++ last ++ DQUOTE ++ lit ">" ++ lit text ++ LT :: lit "/a></th>"))
    = [(lit "?C=" ++ [c] ++ lit ";O=" ++ last, lit text)]).
  { intros last Hlast.
    replace ((lit "<th>" ++ LT :: lit "a href=") ++ _) with (lit "<th>" ++ (LT :: lit "a href=" ++ [QUOTE_MARK] ++ (lit "?C=" ++ [c] ++ lit ";O=" ++ last) ++ [QUOTE_MARK] ++ lit ">" ++ lit text) ++ lit "</a></th>")
      by (repeat (cbn [app]; rewrite <- (assoc_L (++))); reflexivity).
    rewrite (links_app (lit "<th>")), (links_app (LT :: _)) by apply pieces_tag. rewrite links_anchor; [done| |done].
    rewrite !clean_app. split; [split; vm_compute; set_solver|]. split; [split; set_solver|]. split; [split; vm_compute; set_solver|done]. }
  unfold sort_target. destruct (_ && _); apply Hl; split; vm_compute; set_solver.
Qed.

Lemma parent_row_links : links (parent_row url) = [(parent_of url, lit "Parent Directory")].
Proof.
  pose (A := lit "<tr>" ++ lit "<td valign=" ++ DQUOTE ++ lit "top" ++ DQUOTE ++ lit "><img src=" ++ DQUOTE ++
    lit "/icons/back.gif" ++ DQUOTE ++ lit " alt=" ++ DQUOTE ++ lit "[PARENTDIR]" ++ DQUOTE ++ lit "></td>" ++ lit "<td>").
  pose (B := lit "</a></td>" ++ RIGHT ++ lit "&nbsp;</td>" ++ RIGHT ++ lit " - </td>" ++ lit "<td>&nbsp;</td>" ++ lit "</tr>" ++ [LF]).
  assert (Hrow : parent_row url = A ++ (LT :: lit "a href=" ++ [QUOTE_MARK] ++ parent_of url ++ [QUOTE_MARK] ++ lit ">" ++ lit "Parent Directory") ++ B).
  { unfold parent_row, A, B. repeat (cbn [app]; rewrite <- (assoc_L (++))). cbn [app]. reflexivity. }
  rewrite Hrow. rewrite (links_app A), (links_app (LT :: _) B) by (done || apply pieces_tag).
  rewrite links_anchor; [done|by apply clean_parent|vm_compute; set_solver].
Qed.

Lemma page_links f o es :
  Forall (fun e => clean (name e)) es ->
  links (listing_page format_mtime url f o es) = column_links f o ++ parent_link ++ map entry_link es.
Proof.
  intros He.
  pose (H1 := lit "<html><body>" ++ [LF]).
  pose (H2 := lit "</h1>" ++ [LF] ++ lit "<table>" ++ [LF] ++ lit "<tr><th valign=" ++ DQUOTE ++ lit "top" ++ DQUOTE ++ lit "><img src=" ++ DQUOTE ++
    lit "/icons/blank.gif" ++ DQUOTE ++ lit " alt=" ++ DQUOTE ++ lit "[ICO]" ++ DQUOTE ++ lit "</th>").
  pose (H3 := lit "</tr>" ++ [LF] ++ HR_ROW). pose (T := HR_ROW ++ lit "</table>" ++ [LF] ++ lit "</body></html>" ++ [LF]).
  pose (P := if bool_decide (url = lit "/") then [] else parent_row url).
  assert (Hpage : listing_page format_mtime url f o es =
    H1 ++ cell (lit "h1>Index of ") url ++ H2 ++ sort_link "N" f o "Name" ++ sort_link "M" f o "Last modified" ++ sort_link "S" f o "Size" ++
    H3 ++ P ++ concat (map (entry_row format_mtime url) es) ++ T).
  { unfold listing_page, cell, H1, H2, H3, P, T. repeat (cbn [app]; rewrite <- (assoc_L (++))). cbn [app]. reflexivity. }
  assert (HT : (pieces T).1 = []) by apply pieces_tag.
  assert (HR : (pieces (concat (map (entry_row format_mtime url) es) ++ T)).1 = []) by by apply rows_pieces.
  assert (HP : (pieces (P ++ concat (map (entry_row format_mtime url) es) ++ T)).1 = [])
    by (unfold P; destruct (bool_decide _); [done|apply pieces_tag]).
  rewrite Hpage. rewrite (links_app H1), (links_app (cell _ _)), (links_app H2), !(links_app (sort_link _ _ _ _)) by apply pieces_tag.
  rewrite (links_app H3), (links_app P), (links_app (concat _)) by done.
  rewrite links_cell; [|vm_compute; set_solver|apply Hurl|done|done].
  rewrite (sort_link_links "N" "N"), (sort_link_links "M" "M"), (sort_link_links "S" "S") by (done || (vm_compute; set_solver)).
  rewrite rows_links by done. replace (links P) with parent_link; [by rewrite app_nil_r|].
  unfold P, parent_link. destruct (bool_decide _); [done|]. symmetry. apply parent_row_links.
Qed.
End Page.

(** ** The order of the entries *)

(** The alphabetical order of names, by the codes of their characters. *)
Fixpoint name_le (a b : bytes) : Prop :=
  match a, b with
  | [], _ => True
  | _ :: _, [] => False
  | c :: a', d :: b' => (code c < code d)%N \/ (c = d /\ name_le a' b')
  end.

(** What a query asks for: by name, size or time; descending for [D], ascending otherwise. *)
Definition in_order (f o : ascii) (a b : DirEntry) : Prop :=
  let '(a, b) := if bool_decide (o = "D"%char) then (b, a) else (a, b) in
  (f = "N"%char -> name_le (name a) (name b)) /\
  (f = "S"%char -> (size a <= size b)%Z) /\
  (f = "M"%char -> (mtime a <= mtime b)%Z).

Lemma string_lt_le a b : string_lt b a = false -> name_le a b.
Proof.
  revert b. induction a as [|c a IH]; intros [|d b]; cbn [string_lt name_le]; try done.
  destruct (N.ltb_spec (code d) (code c)); [done|]. destruct (N.ltb_spec (code c) (code d)); [by left|].
  intros Hs. right. split; [|by apply IH]. rewrite <- (ascii_N_embedding c), <- (ascii_N_embedding d). f_equal. unfold code in *. lia.
Qed.

Lemma compare_by_order f o cmp a b : compare_by f o = Some cmp -> cmp b a = false -> in_order f o a b.
Proof.
  unfold compare_by, in_order. intros Hc Hab.
  destruct (bool_decide (f = "N"%char)) eqn:E1; [|destruct (bool_decide (f = "S"%char)) eqn:E2; [|destruct (bool_decide (f = "M"%char)) eqn:E3; [|done]]].
  all: repeat match goal with E : bool_decide _ = true |- _ => apply bool_decide_eq_true in E end; subst f.
  all: injection Hc as <-; destruct (bool_decide (o = "D"%char)); (split; [|split]); intros [=];
    first [by apply string_lt_le | by apply Z.ltb_ge].
Qed.

Lemma compare_by_none f o : compare_by f o = None <-> f <> "N"%char /\ f <> "S"%char /\ f <> "M"%char.
Proof. unfold compare_by. repeat case_bool_decide; subst; naive_solver. Qed.

(** ** Queries *)

Lemma parse_sort_plain t : "?"%char ∉ t -> parse_sort t = (t, "N"%char, "A"%char).
Proof. intros Ht. unfold parse_sort. apply search_char_None in Ht. by rewrite Ht. Qed.

(** The queries of the links of a listing. *)
Lemma parse_sort_query url f o :
  "?"%char ∉ url -> parse_sort (url ++ lit "?C=" ++ [f] ++ lit ";O=" ++ [o]) = (url, f, o).
Proof.
  intros Hu. unfold parse_sort. change (lit "?C=" ++ [f] ++ lit ";O=" ++ [o]) with ("?"%char :: lit "C=" ++ [f] ++ lit ";O=" ++ [o]).
  rewrite search_char_app, take_app_length by done. rewrite drop_app_add' by done.
  change (drop 1 ("?"%char :: ?q)) with q. unfold option_after.
  assert (H1 : search (lit "C=") (lit "C=" ++ [f] ++ lit ";O=" ++ [o]) = Some 0) by done.
  assert (H2 : search (lit "O=") (lit "C=" ++ [f] ++ lit ";O=" ++ [o]) = Some 4).
  { change (lit "C=" ++ [f] ++ lit ";O=" ++ [o]) with ["C"%char; "="%char; f; ";"%char; "O"%char; "="%char; o].
    change (lit "O=") with ["O"%char; "="%char]. cbn [search starts_with]. destruct (bool_decide ("O"%char = f)) eqn:E; by rewrite ?andb_false_r. }
  by rewrite H1, H2.
Qed.
