(* ===== verification/MyhttpdServe.v ===== *)
(** * What the first server answers

    The requests that pass the checks of the token and of the method, branch by branch: a
    file, a directory, a script and the errors, with what reaches the client and what is
    asked of the operating system. *)

From Stdlib Require Import Ascii String.
From stdpp Require Import base numbers list gmap strings option sorting.
From S2P Require Import Prelude CppLib CMem Double Myhttpd MyhttpdFacts MyhttpdPage.

(** ** The order of a listing *)

Lemma string_lt_irrefl a : string_lt a a = false.
Proof. induction a as [|c a IH]; [done|]. cbn [string_lt]. by rewrite N.ltb_irrefl. Qed.

Lemma string_lt_trans a b c : string_lt a b = true -> string_lt b c = true -> string_lt a c = true.
Proof.
  revert b c. induction a as [|x a IH]; intros [|y b] [|z c]; try done. cbn [string_lt].
  destruct (N.ltb_spec (code x) (code y)), (N.ltb_spec (code y) (code x)), (N.ltb_spec (code y) (code z)),
    (N.ltb_spec (code z) (code y)), (N.ltb_spec (code x) (code z)), (N.ltb_spec (code z) (code x));
    try done; try lia. apply IH.
Qed.

Lemma string_lt_incomp a b c : string_lt a b = false -> string_lt b c = false -> string_lt a c = false.
Proof.
  revert b c. induction a as [|x a IH]; intros [|y b] [|z c]; try done. cbn [string_lt].
  destruct (N.ltb_spec (code x) (code y)), (N.ltb_spec (code y) (code x)), (N.ltb_spec (code y) (code z)),
    (N.ltb_spec (code z) (code y)), (N.ltb_spec (code x) (code z)), (N.ltb_spec (code z) (code x));
    try done; try lia. apply IH.
Qed.

Lemma sw_flip {A} (lt : A -> A -> bool) : strict_weak lt -> strict_weak (fun a b => lt b a).
Proof. intros [I T N]. split; [exact I| |]; intros a b c Ha Hb; [exact (T _ _ _ Hb Ha)|exact (N _ _ _ Hb Ha)]. Qed.

Lemma sw_preimage {A B} (f : A -> B) (lt : B -> B -> bool) :
  strict_weak lt -> strict_weak (fun a b => lt (f a) (f b)).
Proof. intros [I T N]. split; [by intros a|by intros a b c; apply T|by intros a b c; apply N]. Qed.

Lemma sw_string : strict_weak string_lt.
Proof. split; [apply string_lt_irrefl|apply string_lt_trans|apply string_lt_incomp]. Qed.

Lemma sw_Z : strict_weak Z.ltb.
Proof. split; [apply Z.ltb_irrefl|..]; intros a b c; rewrite ?Z.ltb_lt, ?Z.ltb_ge; lia. Qed.

#[export] Hint Resolve sw_string sw_Z sw_preimage : myhttpd.

(** Every comparison given to [std::sort] is a strict weak ordering, as it requires. *)
Lemma compare_by_strict_weak f o cmp : compare_by f o = Some cmp -> strict_weak cmp.
Proof.
  unfold compare_by. repeat case_bool_decide; intros [= <-];
    first [solve [auto with myhttpd] | apply (sw_flip (fun a b : DirEntry => _ (_ a) (_ b))); auto with myhttpd].
Qed.

Section Server.
Context `{Os} `{StdSort}.
(** ** Requests that pass *)

(** The target, with the default page for the root. *)
Definition target (data : bytes) : bytes :=
  if bool_decide (request_url data = lit "/") then lit "/index.html" else request_url data.

(** The token occurs somewhere and the method is one of two. *)
Definition admitted (data : bytes) : Prop :=
  search AUTH_HEADER (full_request data) <> None /\
  (request_method data = lit "GET" \/ request_method data = lit "POST").

(** The target is not one of the two pages of the server. *)
Definition no_page (url : bytes) : Prop := url <> lit "/stats" /\ url <> lit "/logs".

(** The calls of a run that are not the read, the log and writes. *)
Definition deeds (h : list event) : list event := filter (fun e => harmless e = false) h.

Lemma deeds_harmless evs h : Forall (fun e => harmless e = true) evs -> deeds (evs ++ h) = deeds h.
Proof.
  intros Hf. unfold deeds. rewrite filter_app. replace (filter _ evs) with (@nil event); [done|].
  induction Hf as [|e evs He _ IH]; [done|]. rewrite filter_cons_False; [done|]. by rewrite He.
Qed.

Lemma wrote_deeds w w' out : wrote w w' out -> deeds (hist w') = deeds (hist w).
Proof. intros (_ & _ & evs & -> & Hf). by apply deeds_harmless, write_harmless. Qed.

Context (format_mtime : Z -> bytes).

Lemma handleClient_admitted fuel ip w data :
  sys_read (hist w) MaxRequestSize = Some data -> admitted data -> no_page (target data) ->
  exists w1 n, sent (hist w1) = sent (hist w) /\ globals w1 = globals w /\ deeds (hist w1) = deeds (hist w) /\
    (search CRLF2 (full_request data) = None -> n = 3) /\
    (forall j, search CRLF2 (full_request data) = Some j -> n = (j + 4)%nat) /\
    handleClient format_mtime fuel ip w =
      if starts_with CGI_PREFIX (target data)
      then handleCGI (request_method data) (target data) (drop n (full_request data)) w1
      else serve_path format_mtime fuel (sys_clock (hist w)) (target data) w1.
Proof.
  intros Hr [Ha Hm] [Hp1 Hp2].
  destruct (handleClient_read format_mtime fuel ip w data Hr) as (w1 & evs & -> & G & S & Hh & Hf).
  destruct (search AUTH_HEADER (full_request data)) as [i|] eqn:Ei; [|done].
  destruct (body_in_range (full_request data) i w1 Ei) as (n & Hbody & Hn1 & Hn2).
  { etransitivity; [apply full_request_length|]. by apply (sys_read_le (hist w)). }
  exists w1, n. split; [done|]. split; [done|]. split; [by rewrite Hh, deeds_harmless|].
  split; [done|]. split; [done|]. unfold after_log. rewrite Ei.
  replace (_ && _) with false by (symmetry; rewrite !bool_decide_decide; destruct Hm as [->| ->]; done).
  unfold dispatch_url. fold (target data). rewrite !bool_decide_eq_false_2 by done.
  rewrite (bind_run _ _ _ _ _ Hbody). by destruct (starts_with _ _).
Qed.

(** ** Files *)

Definition doc_path (url : bytes) : bytes := RootDir ++ lit "/htdocs" ++ url.

(** The file can be opened, and reads give its content in pieces. *)
Definition file_stored (path content : bytes) : Prop :=
  forall h, sys_open h path = true /\
    forall offset, exists k, sys_read_file h path offset BufSize = take k (drop offset content) /\
      ((offset < length content)%nat -> (0 < k)%nat).

Definition event_path (e : event) : option bytes :=
  match e with
  | EvStat p | EvOpendir p | EvOpen p | EvFileRead p _ | EvClose p => Some p
  | _ => None
  end.

Definition at_path (path : bytes) (e : event) : Prop := event_path e = Some path.

(** From [w] to [w'] the bytes [out] were sent, and apart from that all calls are [ok]. *)
Definition answered (ok : event -> Prop) (w w' : World) (out : bytes) : Prop :=
  sent (hist w') = sent (hist w) ++ out /\
  exists ds, deeds (hist w') = ds ++ deeds (hist w) /\ Forall ok ds.

Lemma answered_refl ok w : answered ok w w [].
Proof. split; [by rewrite app_nil_r|]. exists []. by split. Qed.

Lemma answered_trans ok w1 w2 w3 a b :
  answered ok w1 w2 a -> answered ok w2 w3 b -> answered ok w1 w3 (a ++ b).
Proof.
  intros (S1 & d1 & E1 & F1) (S2 & d2 & E2 & F2). split; [by rewrite S2, S1, <- (assoc_L (++))|].
  exists (d2 ++ d1). split; [by rewrite E2, E1, (assoc_L (++))|]. apply Forall_app. by split.
Qed.

Lemma answered_wrote ok w w' out : wrote w w' out -> answered ok w w' out.
Proof. intros Hw. split; [apply Hw|]. exists []. split; [by apply (wrote_deeds _ _ out)|done]. Qed.

Lemma answered_event (ok : event -> Prop) e w :
  ok e -> event_path e <> None -> answered ok w {| hist := e :: hist w; globals := globals w |} [].
Proof.
  intros He Hp. split; [rewrite app_nil_r; by destruct e|]. exists [e]. split; [by destruct e|]. by repeat constructor.
Qed.

(** The handler up to the branch does not count. *)
Lemma answered_from ok w w1 w' out :
  sent (hist w1) = sent (hist w) -> deeds (hist w1) = deeds (hist w) -> answered ok w1 w' out ->
  answered ok w w' out.
Proof. intros S1 D1 (SA & ds & DA & FA). split; [by rewrite SA, S1|]. exists ds. by rewrite <- D1. Qed.

Lemma prefix_rest {A} k (l : list A) : l = take k l ++ drop (length (take k l)) l.
Proof.
  rewrite <- (take_drop k l) at 1. f_equal. rewrite length_take.
  destruct (Nat.le_ge_cases k (length l)); [by rewrite Nat.min_l|]. rewrite Nat.min_r by done. by rewrite !drop_ge.
Qed.

Lemma copy_file_spec path content : accepts_all -> file_stored path content -> forall fuel offset w,
  (length content - offset < fuel)%nat ->
  exists w', copy_file fuel path offset w = Ok (tt, w') /\ globals w' = globals w /\
    answered (at_path path) w w' (drop offset content).
Proof.
  intros Hall Hst. induction fuel as [|fuel IH]; intros offset w Hf; [lia|]. cbn [copy_file]. run_calls.
  set (data := sys_read_file _ _ _ _). set (w1 := {| hist := EvFileRead path data :: _; globals := _ |}).
  assert (Hw1 : answered (at_path path) w w1 []) by by apply answered_event.
  assert (Hg1 : globals w1 = globals w) by done.
  destruct (proj2 (Hst (hist w)) offset) as (k & Hk & Hpos). fold data in Hk.
  clearbody w1. clearbody data.
  assert (Hcut : data = [] -> drop offset content = []).
  { intros Hd. destruct (Nat.lt_ge_cases offset (length content)) as [Hlt|Hge]; [|by apply drop_ge].
    rewrite Hd in Hk. apply (f_equal length) in Hk. rewrite length_take, length_drop in Hk.
    specialize (Hpos Hlt). simpl in Hk. lia. }
  assert (Hdata : drop offset content = data ++ drop (offset + length data) content).
  { rewrite <- drop_drop, Hk. apply prefix_rest. }
  destruct data as [|c data]; [by rewrite Hcut; [exists w1|]|].
  destruct (sendAll_spec (c :: data) w1) as (r & w2 & out & Hs & Hw2 & _ & Ho). destruct (Ho Hall) as [-> ->].
  rewrite (bind_run _ _ _ _ _ Hs). destruct (Z.ltb_spec (Z.of_nat (length (c :: data))) 0); [lia|].
  destruct (IH (offset + length (c :: data))%nat w2) as (w3 & Hc & Hg & Ha).
  { apply (f_equal length) in Hdata. rewrite length_app, length_drop in Hdata. simpl in *. lia. }
  exists w3. split; [done|]. split; [by rewrite Hg, (proj1 Hw2)|]. rewrite Hdata, <- (app_nil_l (_ ++ _)).
  eapply answered_trans, answered_trans; [exact Hw1|by apply answered_wrote|done].
Qed.

(** The end of a counted request. *)
Lemma finish_spec url start w :
  (totalRequests (globals w) < INT_MAX)%Z ->
  exists g, finish_request url start w = Ok (tt, {| hist := hist w; globals := g |}) /\
    update_stats url (sys_clock (hist w) - start) (globals w) = Some g /\
    totalRequests g = (totalRequests (globals w) + 1)%Z.
Proof.
  intros Ht. unfold finish_request. run_calls.
  assert (Hu : exists g, update_stats url (sys_clock (hist w) - start) (globals w) = Some g /\
                         totalRequests g = (totalRequests (globals w) + 1)%Z).
  { unfold update_stats. destruct (Z.eqb_spec (totalRequests (globals w)) INT_MAX); [lia|].
    destruct (_ || _), (d_lt _ _); by eexists. }
  destruct Hu as (g & -> & Hg). by exists g.
Qed.

(** C30. A file is sent whole. For an admitted request whose target, up to the question mark,
    names a file under the document root, the client gets the header with the file's size
    and then exactly the file's bytes, in whatever pieces reads and writes go; the request
    is counted; and apart from the log no other path is touched. The path is the root with
    the target after it, as it stands. *)
Theorem file_served fuel ip w data st content :
  let url := (parse_sort (target data)).1.1 in
  accepts_all ->
  sys_read (hist w) MaxRequestSize = Some data -> admitted data ->
  no_page (target data) -> starts_with CGI_PREFIX (target data) = false ->
  (forall h, sys_stat h (doc_path url) = Some st) -> st_isdir st = false -> file_stored (doc_path url) content ->
  (length content < fuel)%nat -> (totalRequests (globals w) < INT_MAX)%Z ->
  exists w', handleClient format_mtime fuel ip w = Ok (tt, w') /\
    answered (at_path (doc_path url)) w w' (ok_header_Z (st_size st) ++ content) /\
    totalRequests (globals w') = (totalRequests (globals w) + 1)%Z.
Proof.
  intros url Hall Hr Had Hnp Hcgi Hstat Hdir Hst Hf Ht.
  destruct (handleClient_admitted fuel ip w data Hr Had Hnp) as (w1 & n & S1 & G1 & D1 & _ & _ & ->).
  rewrite Hcgi. unfold serve_path. subst url. destruct (parse_sort (target data)) as [[url f] o]. cbn [fst snd] in *.
  fold (doc_path url). run_calls. rewrite Hstat, Hdir. unfold serve_plain.
  set (w2 := {| hist := EvStat _ :: _; globals := _ |}).
  set (w3 := {| hist := EvOpen (doc_path url) :: hist w2; globals := globals w2 |}).
  destruct (sendAll_spec (ok_header_Z (st_size st)) w3) as (r & w4 & out & Hs & Hw4 & _ & Ho).
  destruct (Ho Hall) as [-> _]. destruct (copy_file_spec (doc_path url) content Hall Hst fuel 0 w4) as (w5 & Hc & G5 & A5); [lia|].
  set (w6 := {| hist := EvClose (doc_path url) :: hist w5; globals := globals w5 |}).
  rewrite (bind_run _ _ w2 true w6).
  2: { run_calls. fold w3. rewrite (proj1 (Hst _)). cbn [negb].
       by rewrite (bind_run _ _ _ _ _ Hs), (bind_run _ _ _ _ _ Hc). }
  assert (G6 : globals w6 = globals w) by (simpl; by rewrite G5, (proj1 Hw4)).
  destruct (finish_spec url (sys_clock (hist w)) w6) as (g & Hfin & _ & Hg); [by rewrite G6|].
  eexists. split; [exact Hfin|]. split; [|by rewrite <- G6].
  assert (A16 : answered (at_path (doc_path url)) w1 w6 (ok_header_Z (st_size st) ++ content)).
  { apply (answered_trans _ w1 w2 w6 []); [by apply answered_event|].
    apply (answered_trans _ w2 w3 w6 []); [by apply answered_event|].
    apply (answered_trans _ w3 w4 w6 (ok_header_Z (st_size st)) content); [by apply answered_wrote|]. rewrite <- (app_nil_r content).
    apply (answered_trans _ w4 w5 w6 content []); [exact A5|by apply answered_event]. }
  by apply (answered_from _ w w1 w6 _ S1 D1) in A16.
Qed.

(** ** Directories *)

(** The entries of a directory, in the order they are read: those that have a status, less
    the directory itself and its parent. *)
Definition listed (stats : bytes -> option stat_buf) (path : bytes) (names : list bytes) : list DirEntry :=
  omap (fun n =>
    if bool_decide (n = lit ".") || bool_decide (n = lit "..") then None
    else s ← stats (path ++ lit "/" ++ n);
         Some {| name := n; size := st_size s; mtime := st_mtime s; is_dir := st_isdir s |}) names.

Definition within (path : bytes) (e : event) : Prop :=
  at_path path e \/ exists n, at_path (path ++ lit "/" ++ n) e.

Lemma read_entries_spec stats path names w :
  (forall h p, sys_stat h p = stats p) ->
  exists w', read_entries path names w = Ok (listed stats path names, w') /\ globals w' = globals w /\
    answered (within path) w w' [].
Proof.
  intros Hs. revert w. induction names as [|n names IH]; intros w; cbn [read_entries].
  { exists w. split; [done|]. split; [done|]. apply answered_refl. }
  unfold listed. cbn [omap list_omap]. fold (listed stats path names). destruct (_ || _); [apply IH|].
  run_calls. rewrite Hs. set (w1 := {| hist := _; globals := _ |}).
  destruct (IH w1) as (w' & Hr & Hg & Ha). exists w'. rewrite (bind_run _ _ _ _ _ Hr).
  split; [by destruct (stats _)|]. split; [done|]. apply (answered_trans _ w w1 w' [] []); [|done].
  apply answered_event; [right; by exists n|done].
Qed.

Lemma sort_entries_spec f o es :
  Permutation (sort_entries f o es) es /\ StronglySorted (in_order f o) (sort_entries f o es) /\
  (f <> "N"%char -> f <> "S"%char -> f <> "M"%char -> sort_entries f o es = es).
Proof.
  unfold sort_entries. destruct (compare_by f o) as [cmp|] eqn:E.
  - split; [apply std_sort_perm|]. split.
    + pose proof (std_sort_sorted cmp es (compare_by_strict_weak f o _ E)) as Hs.
      induction Hs as [|a l _ IH Ha]; constructor; [done|]. eapply Forall_impl; [exact Ha|]. intros b. by apply compare_by_order.
    + intros H1 H2 H3. assert (compare_by f o = None) by by apply compare_by_none. congruence.
  - split; [done|]. split; [|done]. apply compare_by_none in E. induction es as [|e es IH]; constructor; [done|].
    apply Forall_forall. intros e' _. unfold in_order. destruct (bool_decide (o = "D"%char)); naive_solver.
Qed.

Lemma listed_clean stats path names es :
  Forall clean names -> Permutation es (listed stats path names) -> Forall (fun e => clean (name e)) es.
Proof.
  intros Hn ->. induction Hn as [|n names Hn _ IH]; [constructor|]. unfold listed. cbn [omap list_omap]. fold (listed stats path names).
  destruct (_ || _); [done|]. destruct (stats _); [|done]. by constructor.
Qed.

(** C31. A listing is complete and in order. For an admitted request whose target names a
    directory and ends in a slash, the client gets a page, with its length in the header,
    of the directory's entries that have a status, each once, the directory itself and its
    parent left out. They are in the order asked for: by name, size or time of change,
    descending for [D] and ascending otherwise, as the two letters of a query [?C=x;O=y] say,
    by name in ascending order without a query, and as the directory has them for other
    letters. A reader of the page finds the links of the columns, of the parent and then of
    exactly these entries in that order, when no name has a tag or a quote in it. Only the
    directory and its entries are looked at, and the request is counted. *)
Theorem listing_served fuel ip w data stats names st url f o :
  accepts_all ->
  sys_read (hist w) MaxRequestSize = Some data -> admitted data ->
  no_page (target data) -> starts_with CGI_PREFIX (target data) = false ->
  parse_sort (target data) = (url, f, o) ->
  (forall h p, sys_stat h p = stats p) -> stats (doc_path url) = Some st -> st_isdir st = true ->
  last url = Some "/"%char -> (forall h, sys_opendir h (doc_path url) = Some names) ->
  (totalRequests (globals w) < INT_MAX)%Z ->
  exists w' es body, handleClient format_mtime fuel ip w = Ok (tt, w') /\
    answered (within (doc_path url)) w w' (ok_header (len body) ++ body) /\
    totalRequests (globals w') = (totalRequests (globals w) + 1)%Z /\
    Permutation es (listed stats (doc_path url) names) /\
    StronglySorted (in_order f o) es /\
    (f <> "N"%char -> f <> "S"%char -> f <> "M"%char -> es = listed stats (doc_path url) names) /\
    body = listing_page format_mtime url f o es /\
    (clean url -> Forall clean names -> (forall t, LT ∉ format_mtime t) ->
       links body = column_links f o ++ parent_link url ++ map (entry_link url) es) /\
    ("?"%char ∉ target data -> url = target data /\ f = "N"%char /\ o = "A"%char) /\
    (forall u x y, "?"%char ∉ u -> target data = u ++ lit "?C=" ++ [x] ++ lit ";O=" ++ [y] -> url = u /\ f = x /\ o = y).
Proof.
  intros Hall Hr Had Hnp Hcgi Hp Hstat Hst Hdir Hl Hopen Ht.
  destruct (handleClient_admitted fuel ip w data Hr Had Hnp) as (w1 & n & S1 & G1 & D1 & _ & _ & ->).
  rewrite Hcgi. unfold serve_path. rewrite Hp. fold (doc_path url). run_calls. rewrite Hstat, Hst, Hdir.
  set (w2 := {| hist := _; globals := _ |}). unfold serve_directory. rewrite Hl. cbn [negb bool_decide].
  rewrite bool_decide_eq_true_2 by done. cbn [negb].
  set (w3 := {| hist := EvOpendir (doc_path url) :: hist w2; globals := globals w2 |}).
  destruct (read_entries_spec stats (doc_path url) names w3 Hstat) as (w4 & He & G4 & A4).
  set (es := sort_entries f o (listed stats (doc_path url) names)).
  set (body := listing_page format_mtime url f o es).
  destruct (send_both_spec (ok_header (len body)) body w4) as (w5 & out & Hs & W5 & Ho). rewrite (Ho Hall) in W5.
  rewrite (bind_run _ _ w2 true w5).
  2: { run_calls. fold w3. rewrite Hopen, (bind_run _ _ _ _ _ He). by rewrite (bind_run _ _ _ _ _ Hs). }
  assert (G5 : globals w5 = globals w) by by rewrite (proj1 W5), G4.
  destruct (finish_spec url (sys_clock (hist w)) w5) as (g & Hfin & _ & Hg); [by rewrite G5|].
  eexists _, es, body. split; [exact Hfin|]. destruct (sort_entries_spec f o (listed stats (doc_path url) names)) as (P1 & P2 & P3).
  split.
  { apply (answered_from _ w w1 w5 _ S1 D1).
    apply (answered_trans _ w1 w2 w5 []); [by apply answered_event; [left|]|].
    apply (answered_trans _ w2 w3 w5 []); [by apply answered_event; [left|]|].
    apply (answered_trans _ w3 w4 w5 []); [done|by apply answered_wrote]. }
  split; [by rewrite <- G5|]. split; [exact P1|]. split; [exact P2|]. split; [exact P3|]. split; [done|]. split; [|split].
  - intros Hu Hn Hf. apply page_links; [done|done|done|by eapply listed_clean].
  - intros Hq. rewrite parse_sort_plain in Hp by done. by injection Hp.
  - intros u x y Hu Et. rewrite Et, parse_sort_query in Hp by done. by injection Hp.
Qed.

(** ** Redirections and errors *)

(** What a request gets that names nothing servable, all of it exact and with the calls
    made: nothing at the path, the 404 page, and the request is counted; a directory without
    the slash, a redirection to the same target with one; a directory that cannot be read,
    a 404 page; a file that cannot be opened, nothing at all. The last three are not
    counted. *)
Theorem unserved_answers fuel ip w data url f o :
  accepts_all ->
  sys_read (hist w) MaxRequestSize = Some data -> admitted data ->
  no_page (target data) -> starts_with CGI_PREFIX (target data) = false ->
  parse_sort (target data) = (url, f, o) ->
  (totalRequests (globals w) < INT_MAX)%Z ->
  let path := doc_path url in
  let ends out counted :=
    exists w', handleClient format_mtime fuel ip w = Ok (tt, w') /\ answered (at_path path) w w' out /\
      totalRequests (globals w') = (totalRequests (globals w) + (if (counted : bool) then 1 else 0))%Z in
  ((forall h, sys_stat h path = None) -> ends (not_found_header (len NOT_FOUND) ++ NOT_FOUND) true) /\
  (forall st c, (forall h, sys_stat h path = Some st) -> st_isdir st = true -> last url = Some c ->
     (c <> "/"%char -> ends (moved url) false) /\
     (c = "/"%char -> (forall h, sys_opendir h path = None) ->
        ends (not_found_header (len NOT_FOUND_DIR) ++ NOT_FOUND_DIR) false)) /\
  (forall st, (forall h, sys_stat h path = Some st) -> st_isdir st = false ->
     (forall h, sys_open h path = false) -> ends [] false).
Proof.
  intros Hall Hr Had Hnp Hcgi Hp Ht path ends.
  destruct (handleClient_admitted fuel ip w data Hr Had Hnp) as (w1 & n & S1 & G1 & D1 & _ & _ & Eh).
  rewrite Hcgi in Eh. unfold serve_path in Eh. rewrite Hp in Eh. fold path in Eh.
  rewrite bind_ask, bind_event in Eh. set (w2 := {| hist := EvStat _ :: _; globals := _ |}) in Eh.
  assert (A2 : answered (at_path path) w w2 []).
  { apply (answered_from _ w w1 w2 _ S1 D1). by apply answered_event. }
  assert (G2 : globals w2 = globals w) by done. clearbody w2.
  assert (Huncounted : forall out w3, globals w3 = globals w2 -> answered (at_path path) w2 w3 out ->
            handleClient format_mtime fuel ip w = Ok (tt, w3) -> ends out false).
  { intros out w3 G3 A3 E3. exists w3. split; [done|]. split; [by apply (answered_trans _ w w2 w3 [] out)|].
    rewrite G3, G2. lia. }
  split; [|split].
  - intros Hs. rewrite Hs in Eh.
    destruct (send_both_spec (not_found_header (len NOT_FOUND)) NOT_FOUND w2) as (w3 & out & E3 & W3 & Ho).
    rewrite (Ho Hall) in W3. destruct (finish_spec url (sys_clock (hist w)) w3) as (g & Hfin & _ & Hg); [by rewrite (proj1 W3), G2|].
    rewrite (bind_run _ _ w2 true w3) in Eh by by rewrite (bind_run _ _ _ _ _ E3).
    eexists. split; [by rewrite Eh|]. split; [|cbn [globals]; by rewrite Hg, (proj1 W3), G2].
    by apply (answered_trans _ w w2 _ [] _ A2), (answered_wrote _ w2 w3).
  - intros st c Hs Hd Hl. rewrite Hs, Hd in Eh. unfold serve_directory in Eh. rewrite Hl in Eh. split.
    + intros Hc. rewrite bool_decide_eq_false_2 in Eh by done. cbn [negb] in Eh.
      destruct (sendAll_spec (moved url) w2) as (r & w3 & out & E3 & W3 & _ & Ho). destruct (Ho Hall) as [-> _].
      rewrite (bind_run _ _ w2 false w3) in Eh by by rewrite (bind_run _ _ _ _ _ E3).
      by apply (Huncounted _ w3); [apply W3|apply answered_wrote|].
    + intros -> Hop. rewrite bool_decide_eq_true_2 in Eh by done. cbn [negb] in Eh.
      set (w3 := {| hist := EvOpendir path :: hist w2; globals := globals w2 |}).
      destruct (send_both_spec (not_found_header (len NOT_FOUND_DIR)) NOT_FOUND_DIR w3) as (w4 & out & E4 & W4 & Ho).
      rewrite (Ho Hall) in W4. rewrite (bind_run _ _ w2 false w4) in Eh.
      2: { run_calls. rewrite Hop. by rewrite (bind_run _ _ _ _ _ E4). }
      apply (Huncounted _ w4); [apply W4| |done].
      apply (answered_trans _ w2 w3 w4 []); [by apply answered_event|by apply answered_wrote].
  - intros st Hs Hd Hop. rewrite Hs, Hd in Eh. unfold serve_plain in Eh.
    set (w3 := {| hist := EvOpen path :: hist w2; globals := globals w2 |}).
    rewrite (bind_run _ _ w2 false w3) in Eh by (run_calls; by rewrite Hop).
    apply (Huncounted _ w3); [done|by apply answered_event|done].
Qed.

(** ** Scripts *)

Lemma cgi_run_spec h method script path query body :
  let child := cgi_run h method script path query body in
  cgi_path child = path /\ cgi_argv0 child = script /\
  (method = lit "GET" ->
     cgi_env child = [(lit "REQUEST_METHOD", method); (lit "QUERY_STRING", query)] /\ cgi_stdin child = None) /\
  (method = lit "POST" ->
     cgi_env child = [(lit "REQUEST_METHOD", method); (lit "CONTENT_LENGTH", print_N (len body))] /\
     (cgi_started child = true -> cgi_stdin child = Some body)).
Proof.
  unfold cgi_run. assert (lit "POST" <> lit "GET") by done. assert (lit "GET" <> lit "POST") by done.
  repeat case_bool_decide; simplify_eq; try done; destruct (sys_pipe h); by repeat split.
Qed.

Lemma handleCGI_spec method url body w :
  starts_with CGI_PREFIX url = true -> sys_fork (hist w) = true ->
  exists script query, url = CGI_PREFIX ++ script ++ query /\ "?"%char ∉ script /\
    (query = [] \/ head query = Some "?"%char) /\
    handleCGI method url body w =
      Ok (tt, {| hist := EvCgi (cgi_run (hist w) method script (lit "http-root-dir/cgi-bin/" ++ script)
                                  (tail query) body) :: hist w; globals := globals w |}).
Proof.
  intros [t ->]%starts_with_spec Hfork.
  assert (Hnq : "?"%char ∉ CGI_PREFIX) by (apply (bool_decide_eq_true_1 (_ ∉ _)); vm_compute; reflexivity).
  assert (Hs : forall s, substr_from (CGI_PREFIX ++ s) (len CGI_PREFIX) w = Ok (s, w)).
  { intros s. unfold substr_from, len. rewrite length_app.
    destruct (N.ltb_spec (N.of_nat (length CGI_PREFIX + length s)) (N.of_nat (length CGI_PREFIX))); [lia|].
    by rewrite Nat2N.id, drop_app_length. }
  unfold handleCGI. destruct (search ["?"%char] t) as [q|] eqn:E.
  - apply search_char_Some in E as (s1 & s2 & -> & Hq & ->).
    exists s1, ("?"%char :: s2). split; [done|]. split; [done|]. split; [by right|].
    rewrite (assoc_L (++)), search_char_app.
    2: { rewrite not_elem_of_app. done. }
    rewrite take_app_length, <- (assoc_L (++)), (bind_run _ _ _ _ _ (Hs _)). run_calls. rewrite Hfork. cbn [negb].
    run_calls. unfold record_event. cbn [tail]. do 6 f_equal.
    rewrite (assoc_L (++)), drop_app_ge by lia. by replace (_ + 1 - _)%nat with 1 by lia.
  - apply search_char_None in E. exists t, []. rewrite app_nil_r. split; [done|]. split; [done|]. split; [by left|].
    assert (En : search ["?"%char] (CGI_PREFIX ++ t) = None) by (apply search_char_None; rewrite not_elem_of_app; done).
    rewrite En, (bind_run _ _ _ _ _ (Hs _)). run_calls. by rewrite Hfork.
Qed.

(** A script gets what the request holds. An admitted request below [/cgi-bin/] starts
    one child and does nothing else: the program is the file of that name in the script
    directory, the name being what stands between the prefix and the first question mark;
    a GET passes what follows the question mark in [QUERY_STRING], a POST the bytes after
    the empty line on standard input, with their number in [CONTENT_LENGTH]. *)
Theorem script_run fuel ip w data :
  sys_read (hist w) MaxRequestSize = Some data -> admitted data -> no_page (target data) ->
  starts_with CGI_PREFIX (target data) = true -> (forall h, sys_fork h = true) ->
  exists w' script query child,
    handleClient format_mtime fuel ip w = Ok (tt, w') /\
    globals w' = globals w /\ sent (hist w') = sent (hist w) /\ deeds (hist w') = EvCgi child :: deeds (hist w) /\
    target data = CGI_PREFIX ++ script ++ query /\ "?"%char ∉ script /\
    (query = [] \/ head query = Some "?"%char) /\
    cgi_path child = lit "http-root-dir/cgi-bin/" ++ script /\ cgi_argv0 child = script /\
    (request_method data = lit "GET" ->
       cgi_env child = [(lit "REQUEST_METHOD", lit "GET"); (lit "QUERY_STRING", tail query)] /\
       cgi_stdin child = None) /\
    (forall j, request_method data = lit "POST" -> search CRLF2 (full_request data) = Some j ->
       let body := drop (j + 4) (full_request data) in
       cgi_env child = [(lit "REQUEST_METHOD", lit "POST"); (lit "CONTENT_LENGTH", print_N (len body))] /\
       (cgi_started child = true -> cgi_stdin child = Some body)).
Proof.
  intros Hr Had Hnp Hcgi Hfork.
  destruct (handleClient_admitted fuel ip w data Hr Had Hnp) as (w1 & n & S1 & G1 & D1 & _ & Hj & ->). rewrite Hcgi.
  destruct (handleCGI_spec (request_method data) (target data) (drop n (full_request data)) w1 Hcgi (Hfork _))
    as (script & query & Ht & Hs & Hq & ->).
  destruct (cgi_run_spec (hist w1) (request_method data) script (lit "http-root-dir/cgi-bin/" ++ script) (tail query)
              (drop n (full_request data))) as (C1 & C2 & C3 & C4).
  eexists _, script, query, _. split; [done|]. split; [done|]. split; [done|].
  split; [cbn [hist]; unfold deeds in *; rewrite filter_cons_True by done; by rewrite D1|].
  split; [done|]. split; [done|]. split; [done|]. split; [exact C1|]. split; [exact C2|]. split.
  - intros Hg. rewrite <- Hg. by apply C3.
  - intros j Hp Hc. rewrite <- (Hj j Hc), <- Hp. by apply C4.
Qed.

(** The status line of a script's answer is written to the standard output stream, which
    [execv] discards: unless that stream is line buffered, a script that starts answers
    without one, and one that does not start is preceded by what the server had pending. *)
Theorem script_header_lost h method script path query body pending :
  stdout_pending h = Some pending ->
  let child := cgi_run h method script path query body in
  (cgi_started child = true -> cgi_header child = []) /\
  (cgi_started child = false -> exists rest, cgi_header child = pending ++ rest).
Proof.
  intros Hp. unfold cgi_run. rewrite Hp. destruct (_ && _); cbn [cgi_started cgi_header default].
  - split; [done|]. intros _. exists []. by rewrite app_nil_r.
  - destruct (sys_execv h path); [done|]. split; [done|]. intros _. by eexists.
Qed.

(** ** Weaknesses *)

(** The check of the token looks for it anywhere in the request, as part of any other
    header, of the body or of a longer credential. *)
Theorem token_anywhere before after :
  NUL ∉ before -> NUL ∉ after ->
  search AUTH_HEADER (full_request (before ++ AUTH_HEADER ++ after)) <> None.
Proof.
  intros Hb Ha. assert (HA : NUL ∉ AUTH_HEADER) by (apply (bool_decide_eq_true_1 (_ ∉ _)); vm_compute; reflexivity).
  unfold full_request. rewrite c_string_app.
  2: { rewrite !not_elem_of_app. done. }
  cbn [from_option id]. intros Hn%(search_None_drop _ _ (length before)). rewrite drop_app_length in Hn. by apply search_self in Hn.
Qed.

(** A target that is empty up to the question mark takes the handler to the last
    character of an empty string. *)
Theorem empty_target_undefined fuel ip w data st :
  sys_read (hist w) MaxRequestSize = Some data -> admitted data ->
  head (request_url data) = Some "?"%char ->
  (forall h, sys_stat h (RootDir ++ lit "/htdocs") = Some st) -> st_isdir st = true ->
  handleClient format_mtime fuel ip w = Err Undefined.
Proof.
  intros Hr Had Hh Hs Hd. destruct (request_url data) as [|c url] eqn:Eu; [done|]. injection Hh as ->.
  assert (Et : target data = "?"%char :: url) by (unfold target; by rewrite Eu).
  destruct (handleClient_admitted fuel ip w data Hr Had) as (w1 & n & _ & _ & _ & _ & _ & ->).
  { rewrite Et. by split. }
  rewrite Et. unfold serve_path. replace (parse_sort _) with (@nil ascii, (parse_sort ("?"%char :: url)).1.2, (parse_sort ("?"%char :: url)).2) by done.
  run_calls. rewrite app_nil_r, Hs, Hd. done.
Qed.
End Server.
