(* ===== verification/MyhttpdStats.v ===== *)
(** * The statistics of the first server

    The counter and the shortest and longest service times over any number of requests, in
    the machine's floating-point arithmetic. *)

From Stdlib Require Import Ascii String SpecFloat.
From stdpp Require Import base numbers list gmap strings option.
From S2P Require Import Prelude CppLib CMem Double Myhttpd.

(** A counted request: its target and the ticks it took. *)
Definition service (r : bytes * Z) : double := d_div (d_of_Z r.2) CLOCKS_PER_SEC.

(** The updates the handler makes for a sequence of counted requests. *)
Fixpoint count_all (reqs : list (bytes * Z)) (g : Globals) : option Globals :=
  match reqs with
  | [] => Some g
  | r :: reqs' => g' ← update_stats r.1 r.2 g; count_all reqs' g'
  end.

Lemma service_nonneg r : (0 <= r.2)%Z -> nonneg (service r) = true.
Proof.
  intros Hr. unfold service.
  assert (Hc : CLOCKS_PER_SEC = S754_finite false 8589934592000000 (-33)) by (vm_compute; reflexivity).
  rewrite Hc. by apply d_div_nonneg, d_of_Z_nonneg.
Qed.

(** One of the requests [reqs] took [d] and had the target [url], and none is better. *)
Definition best (better : double -> double -> bool) (reqs : list (bytes * Z)) (d : double) (url : bytes) : Prop :=
  exists r, r ∈ reqs /\ d = service r /\ url = r.1 /\ Forall (fun r' => better (service r') d = false) reqs.
Definition least := best d_lt.
Definition greatest := best (flip d_lt).

Record tracks (reqs : list (bytes * Z)) (g : Globals) : Prop := {
  tr_total : totalRequests g = Z.of_nat (length reqs);
  tr_min : (reqs = [] /\ minServiceTime g = MINUS_ONE) \/ least reqs (minServiceTime g) (minURL g);
  tr_max : (reqs = [] /\ maxServiceTime g = MINUS_ONE) \/ greatest reqs (maxServiceTime g) (maxURL g)
}.

Lemma nonneg_not_lt_0 x : nonneg x = true -> d_lt x (d_of_Z 0) = false.
Proof. by destruct x as [[|]|[|]| |[|]]. Qed.

Lemma minus_one_lt x : nonneg x = true -> d_lt MINUS_ONE x = true.
Proof.
  assert (Hm : MINUS_ONE = S754_finite true 4503599627370496 (-52)) by (vm_compute; reflexivity).
  rewrite Hm. by destruct x as [[|]|[|]| |[|]].
Qed.

(** Shorter and longer, on times that are not negative. *)
Record ordering (better : double -> double -> bool) : Prop := {
  ord_irrefl x : nonneg x = true -> better x x = false;
  ord_asym x y : nonneg x = true -> nonneg y = true -> better x y = true -> better y x = false;
  ord_trans x y z : nonneg x = true -> nonneg y = true -> nonneg z = true ->
    better x y = false -> better y z = false -> better x z = false
}.

Lemma ordering_lt : ordering d_lt.
Proof. split; [apply d_lt_irrefl|apply d_lt_le|apply d_ge_trans]. Qed.

Lemma ordering_gt : ordering (flip d_lt).
Proof.
  split; unfold flip; [apply d_lt_irrefl|by intros; apply d_lt_le|].
  intros x y z Hx Hy Hz Hxy Hyz. by apply (d_ge_trans z y x).
Qed.

(** The best of the requests and one more. *)
Lemma best_step better reqs r d url :
  ordering better -> Forall (fun r => (0 <= r.2)%Z) (reqs ++ [r]) -> best better reqs d url ->
  let '(d', url') := if better (service r) d then (service r, r.1) else (d, url) in
  best better (reqs ++ [r]) d' url'.
Proof.
  intros [Hi Has Htr] [Hp [Hr%service_nonneg _]%Forall_cons_1]%Forall_app (r0 & H0 & -> & -> & Hf).
  rewrite list.Forall_forall in Hp. pose proof (service_nonneg r0 (Hp r0 H0)) as N0.
  destruct (better (service r) (service r0)) eqn:E; [exists r|exists r0];
    rewrite elem_of_app, list_elem_of_singleton; (split; [by auto|]); (split; [done|]); (split; [done|]);
    apply Forall_app; (split; [|constructor; [by auto|done]]); [|done].
  rewrite list.Forall_forall in Hf |- *. intros r' H'. apply (Htr _ (service r0)); auto using service_nonneg.
Qed.

Lemma best_only better r : ordering better -> (0 <= r.2)%Z -> best better [r] (service r) r.1.
Proof.
  intros Ho Hr%service_nonneg. exists r. split; [by left|]. split; [done|]. split; [done|].
  constructor; [by apply (ord_irrefl better)|done].
Qed.

(** One more request. *)
Lemma tracks_step reqs r g :
  tracks reqs g -> Forall (fun r => (0 <= r.2)%Z) (reqs ++ [r]) -> (Z.of_nat (length reqs) < INT_MAX)%Z ->
  exists g', update_stats r.1 r.2 g = Some g' /\ tracks (reqs ++ [r]) g'.
Proof.
  intros [Ht Hmin Hmax] Hp Hl. pose proof Hp as [Hp0 [Hr _]%Forall_cons_1]%Forall_app.
  pose proof (best_only _ r ordering_lt Hr) as O1. pose proof (best_only _ r ordering_gt Hr) as O2.
  unfold update_stats. fold (service r). destruct (Z.eqb_spec (totalRequests g) INT_MAX); [lia|].
  assert (Hmin' : let '(d, u) := if d_lt (minServiceTime g) (d_of_Z 0) || d_lt (service r) (minServiceTime g)
                                 then (service r, r.1) else (minServiceTime g, minURL g) in least (reqs ++ [r]) d u).
  { destruct Hmin as [[-> Em]|Hm]; [by rewrite Em|]. pose proof Hm as (r0 & H0 & Em & _).
    rewrite list.Forall_forall in Hp0. rewrite nonneg_not_lt_0 by (rewrite Em; auto using service_nonneg).
    by apply (best_step _ _ _ _ _ ordering_lt). }
  assert (Hmax' : let '(d, u) := if d_lt (maxServiceTime g) (service r) then (service r, r.1)
                                 else (maxServiceTime g, maxURL g) in greatest (reqs ++ [r]) d u).
  { destruct Hmax as [[-> Em]|Hm]; [by rewrite Em, minus_one_lt by auto using service_nonneg|].
    by apply (best_step (flip d_lt) _ _ _ _ ordering_gt). }
  destruct (if d_lt (minServiceTime g) _ || _ then _ else _) as [d u], (if d_lt (maxServiceTime g) _ then _ else _) as [d' u'].
  eexists. split; [done|]. split; [|by right|by right]. cbn. rewrite length_app, Ht. simpl. lia.
Qed.

(** C35. The statistics are right. After any number of counted requests that fits the counter,
    none of which took negative time, the counter is their number, and the shortest and
    the longest service time shown, with the targets beside them, are those of one of the
    requests, no request having been shorter or longer: in the arithmetic of doubles, and
    although the initial value -1 stands for both. *)
Theorem stats_exact reqs :
  Forall (fun r => (0 <= r.2)%Z) reqs -> (Z.of_nat (length reqs) <= INT_MAX)%Z ->
  exists g, count_all reqs initial_globals = Some g /\ tracks reqs g.
Proof.
  intros Hp Hl. enough (Hgen : forall done_ g, tracks done_ g -> Forall (fun r => (0 <= r.2)%Z) (done_ ++ reqs) ->
    (Z.of_nat (length (done_ ++ reqs)) <= INT_MAX)%Z -> exists g', count_all reqs g = Some g' /\ tracks (done_ ++ reqs) g').
  { apply (Hgen [] initial_globals); [|done|done]. split; [done|by left|by left]. }
  clear Hp Hl. induction reqs as [|r reqs IH]; intros before g Hg Hp Hl.
  { exists g. by rewrite app_nil_r. }
  rewrite cons_middle, (assoc_L (++)) in Hp, Hl. pose proof Hp as [Hp' _]%Forall_app.
  destruct (tracks_step before r g Hg Hp') as (g1 & E1 & T1); [rewrite !length_app in Hl; simpl in Hl; lia|].
  destruct (IH (before ++ [r]) g1 T1 Hp Hl) as (g2 & E2 & T2). exists g2. cbn [count_all]. rewrite E1.
  split; [exact E2|]. by rewrite cons_middle, (assoc_L (++)).
Qed.

(** Three requests, the second being the longest and the third the shortest. *)
Lemma stats_exact_witness : exists g,
  count_all [(lit "/a", 20%Z); (lit "/b", 30%Z); (lit "/c", 10%Z)] initial_globals = Some g /\
  totalRequests g = 3%Z /\ minURL g = lit "/c" /\ maxURL g = lit "/b".
Proof.
  destruct (stats_exact [(lit "/a", 20%Z); (lit "/b", 30%Z); (lit "/c", 10%Z)]) as (g & E & T).
  - by repeat constructor.
  - vm_compute. discriminate.
  - exists g. split; [exact E|]. split; [exact (tr_total _ _ T)|].
    vm_compute in E. injection E as <-. by split.
Defined.
