(* ===== verification/MyhttpdRace.v ===== *)
(** * The statistics of the first server, with several threads

    In the thread modes of [legacy/myhttpd.cc] every handler updates the same global variables
    at its end, without a lock. Here each access to one of them is a step of its own. A handler
    alone makes the update of [update_stats]; together they can lose counts, and even set the
    counter back, but never count a request that was not made. The language leaves such
    accesses undefined; the model is the kindest reading of them. *)

From Stdlib Require Import Ascii String ZArith SpecFloat.
From stdpp Require Import base numbers list gmap strings option relations.
From S2P Require Import Prelude CppLib CMem Double Myhttpd MyhttpdStats.

Local Open Scope Z_scope.

(** Where a handler is in the update: before the access that the name says. *)
Inductive place :=
  | LoadCount | StoreCount (loaded : Z)
  | TestUnset | TestShorter | StoreMin | StoreMinURL
  | TestLonger | StoreMax | StoreMaxURL | Updated.

#[global] Instance place_eq_dec : EqDecision place.
Proof. solve_decision. Defined.

(** One access to a variable by the handler of a request. *)
Definition access (r : bytes * Z) (at_ : place) (g : Globals) : option (place * Globals) :=
  match at_ with
  | LoadCount => Some (StoreCount (totalRequests g), g)
  | StoreCount n =>
      if n =? INT_MAX then None
      else Some (TestUnset, {| serverStartTime := serverStartTime g; totalRequests := n + 1; minServiceTime := minServiceTime g;
                               maxServiceTime := maxServiceTime g; minURL := minURL g; maxURL := maxURL g |})
  | TestUnset => Some (if d_lt (minServiceTime g) (d_of_Z 0) then StoreMin else TestShorter, g)
  | TestShorter => Some (if d_lt (service r) (minServiceTime g) then StoreMin else TestLonger, g)
  | StoreMin => Some (StoreMinURL, {| serverStartTime := serverStartTime g; totalRequests := totalRequests g; minServiceTime := service r;
                                      maxServiceTime := maxServiceTime g; minURL := minURL g; maxURL := maxURL g |})
  | StoreMinURL => Some (TestLonger, {| serverStartTime := serverStartTime g; totalRequests := totalRequests g; minServiceTime := minServiceTime g;
                                        maxServiceTime := maxServiceTime g; minURL := r.1; maxURL := maxURL g |})
  | TestLonger => Some (if d_lt (maxServiceTime g) (service r) then StoreMax else Updated, g)
  | StoreMax => Some (StoreMaxURL, {| serverStartTime := serverStartTime g; totalRequests := totalRequests g; minServiceTime := minServiceTime g;
                                      maxServiceTime := service r; minURL := minURL g; maxURL := maxURL g |})
  | StoreMaxURL => Some (Updated, {| serverStartTime := serverStartTime g; totalRequests := totalRequests g; minServiceTime := minServiceTime g;
                                     maxServiceTime := maxServiceTime g; minURL := minURL g; maxURL := r.1 |})
  | Updated => None
  end.

(** The handlers, each with its request, and the variables. *)
Record Updates := { handlers : list ((bytes * Z) * place); shared : Globals }.

Definition start_updates (reqs : list (bytes * Z)) (g : Globals) : Updates :=
  {| handlers := map (fun r => (r, LoadCount)) reqs; shared := g |}.

(** The handler with the number [i] makes its next access. *)
Definition turn (i : nat) (u : Updates) : option Updates :=
  '(r, at_) ← handlers u !! i; '(at', g) ← access r at_ (shared u);
  Some {| handlers := <[i := (r, at')]> (handlers u); shared := g |}.

Definition update_step (u u' : Updates) : Prop := exists i, turn i u = Some u'.

Fixpoint turns (order : list nat) (u : Updates) : option Updates :=
  match order with [] => Some u | i :: order' => u' ← turn i u; turns order' u' end.

Definition all_updated (u : Updates) : Prop := Forall (fun h => h.2 = Updated) (handlers u).

#[global] Instance all_updated_dec u : Decision (all_updated u).
Proof. unfold all_updated. apply _. Defined.

(** ** A handler alone *)

Fixpoint alone (fuel : nat) (r : bytes * Z) (at_ : place) (g : Globals) : option Globals :=
  match fuel with
  | O => None
  | S fuel' => match at_ with Updated => Some g | _ => '(at', g') ← access r at_ g; alone fuel' r at' g' end
  end.

Lemma alone_next fuel r at_ g : at_ <> Updated -> alone (S fuel) r at_ g = '(at', g') ← access r at_ g; alone fuel r at' g'.
Proof. by destruct at_. Qed.

Lemma alone_max fuel r g :
  alone (4 + fuel) r TestLonger g =
    Some (if d_lt (maxServiceTime g) (service r)
          then {| serverStartTime := serverStartTime g; totalRequests := totalRequests g; minServiceTime := minServiceTime g;
                  maxServiceTime := service r; minURL := minURL g; maxURL := r.1 |} else g).
Proof.
  rewrite Nat.add_succ_l, alone_next by done. cbn [access mbind option_bind]. destruct (d_lt _ _); [|done].
  by do 2 (rewrite Nat.add_succ_l, alone_next by done; cbn [access mbind option_bind]).
Qed.

(** The accesses of one handler, without others in between, make the update as a whole. *)
Theorem alone_updates r g : alone 10 r LoadCount g = update_stats r.1 r.2 g.
Proof.
  unfold update_stats. fold (service r). do 2 (rewrite alone_next by done; cbn [access mbind option_bind]).
  destruct (totalRequests g =? INT_MAX); [done|]. run_bind. rewrite alone_next by done. cbn [access mbind option_bind minServiceTime].
  destruct (d_lt (minServiceTime g) (d_of_Z 0)); cbn [orb].
  - do 2 (rewrite alone_next by done; cbn [access mbind option_bind]). rewrite (alone_max 1). by destruct (d_lt _ _), g.
  - rewrite alone_next by done. cbn [access mbind option_bind minServiceTime]. destruct (d_lt (service r) _).
    + do 2 (rewrite alone_next by done; cbn [access mbind option_bind]). rewrite (alone_max 0). cbn [maxServiceTime]. by destruct (d_lt _ _), g.
    + rewrite (alone_max 2). cbn [maxServiceTime]. by destruct (d_lt _ _), g.
Qed.

(** ** Handlers together *)

Definition has_stored (at_ : place) : bool := match at_ with LoadCount | StoreCount _ => false | _ => true end.
Definition stored (u : Updates) : Z := Z.of_nat (length (filter (fun h => has_stored h.2 = true) (handlers u))).

Definition counted (u : Updates) : Prop :=
  totalRequests (shared u) <= stored u /\ (0 < stored u -> 0 < totalRequests (shared u)) /\ 0 <= totalRequests (shared u) /\
  forall i r n, handlers u !! i = Some (r, StoreCount n) -> 0 <= n <= stored u.

(** What a turn does to the number of stored counts. *)
Lemma stored_turn i u u' r at_ at' g :
  handlers u !! i = Some (r, at_) -> u' = {| handlers := <[i := (r, at')]> (handlers u); shared := g |} ->
  stored u' = stored u - Z.b2z (has_stored at_) + Z.b2z (has_stored at').
Proof.
  intros Hi ->. unfold stored. cbn [handlers]. pose proof (lookup_lt_Some _ _ _ Hi) as Hl.
  rewrite (insert_take_drop _ _ _ Hl). rewrite <- (take_drop_middle _ _ _ Hi) at 3.
  rewrite !filter_app, !filter_cons. cbn [snd]. rewrite !length_app.
  destruct (has_stored at_), (has_stored at'); simpl; lia.
Qed.

Lemma access_count r at_ g at' g' :
  access r at_ g = Some (at', g') ->
  match at_ with
  | LoadCount => at' = StoreCount (totalRequests g) /\ g' = g
  | StoreCount n => has_stored at' = true /\ totalRequests g' = n + 1
  | _ => has_stored at' = true /\ totalRequests g' = totalRequests g
  end.
Proof.
  destruct at_; cbn [access]; try (intros [= <- <-]; by repeat case_match).
  by destruct (loaded =? INT_MAX); [|intros [= <- <-]].
Qed.

Lemma counted_step u u' : counted u -> update_step u u' -> counted u'.
Proof.
  intros (Hle & Hpos & H0 & Hload) [i Ht]. unfold turn in Ht.
  destruct (handlers u !! i) as [[r at_]|] eqn:Ei; [|done]. cbn [mbind option_bind] in Ht.
  destruct (access r at_ (shared u)) as [[at' g]|] eqn:Ea; [|done]. cbn [mbind option_bind] in Ht. injection Ht as Hu.
  pose proof (stored_turn i u u' r at_ at' g Ei (eq_sym Hu)) as Hs. apply access_count in Ea.
  assert (Hold : forall j r' n, handlers u' !! j = Some (r', StoreCount n) -> 0 <= n <= stored u \/ at' = StoreCount n).
  { intros j r' n. rewrite <- Hu. cbn [handlers]. intros [(-> & [= <- ->] & _)|[_ Hj]]%list_lookup_insert_Some; [by right|left; by eapply Hload]. }
  assert (Hg : shared u' = g) by by rewrite <- Hu. unfold counted. rewrite Hg.
  destruct at_ as [|m| | | | | | | |].
  { destruct Ea as [-> ->]. cbn [has_stored Z.b2z] in Hs. split; [lia|]. split; [rewrite Hs; lia|]. split; [lia|].
    intros j r' n [Hn|[= <-]]%Hold; lia. }
  { destruct Ea as [Hst Ht]. specialize (Hload i r m Ei). rewrite Hst in Hs. cbn [has_stored Z.b2z] in Hs. split; [lia|]. split; [lia|]. split; [lia|].
    intros j r' n [Hn| ->]%Hold; [lia|done]. }
  all: destruct Ea as [Hst Ht]; rewrite Hst in Hs; cbn [has_stored Z.b2z] in Hs; (split; [lia|]); (split; [lia|]); (split; [lia|]);
    intros j r' n [Hn| ->]%Hold; [lia|done].
Qed.

Lemma turn_length u u' : update_step u u' -> length (handlers u') = length (handlers u).
Proof.
  intros [i Ht]. unfold turn in Ht. destruct (handlers u !! i) as [[r at_]|]; [|done]. cbn [mbind option_bind] in Ht.
  destruct (access r at_ (shared u)) as [[at' g]|]; [|done]. injection Ht as <-. cbn [handlers]. apply length_insert.
Qed.

Lemma filter_start reqs : filter (fun h : (bytes * Z) * place => has_stored h.2 = true) (map (fun r => (r, LoadCount)) reqs) = [].
Proof. by induction reqs. Qed.

(** However the updates of the handlers are mixed, the counter ends between one and the number
    of requests. *)
Theorem count_between reqs u :
  reqs <> [] -> rtc update_step (start_updates reqs initial_globals) u -> all_updated u ->
  1 <= totalRequests (shared u) <= Z.of_nat (length (handlers u)).
Proof.
  intros Hne Hrun Hall.
  assert (H0 : counted (start_updates reqs initial_globals)).
  { unfold counted, stored. cbn [handlers start_updates]. rewrite filter_start. split; [done|]. split; [done|]. split; [done|].
    by intros i r n (x & [= _ Hx] & _)%list_lookup_fmap_Some. }
  assert (Hc : counted u /\ length (handlers u) = length reqs).
  { revert H0. generalize (length_map (fun r => (r, LoadCount)) reqs : length (handlers (start_updates reqs initial_globals)) = _).
    clear Hall. induction Hrun as [u|u u1 u2 Hs Hr IH]; [done|]. intros Hl Hc. apply IH; [|by eapply counted_step].
    rewrite <- Hl. by eapply turn_length. }
  destruct Hc as [(Hle & Hpos & _) Hl]. assert (Hst : stored u = Z.of_nat (length reqs)).
  { unfold stored. rewrite <- Hl. do 2 f_equal. unfold all_updated in Hall. clear -Hall. induction Hall as [|h hs Hh _ IH]; [done|].
    rewrite filter_cons, Hh. cbn [has_stored]. by rewrite decide_True, IH. }
  rewrite Hl. destruct reqs; [done|]. simpl in *. lia.
Qed.

Lemma turns_run order : forall u u', turns order u = Some u' -> rtc update_step u u'.
Proof.
  induction order as [|i order IH]; intros u u'; cbn [turns]; [intros [= <-]; apply rtc_refl|].
  destruct (turn i u) as [u1|] eqn:E; [|done]. run_bind. intros Hr. eapply rtc_l; [by exists i|by apply IH].
Qed.

(** ** Four requests *)

Definition four : list (bytes * Z) := [(lit "/a", 20); (lit "/b", 30); (lit "/c", 10); (lit "/d", 25)].
Definition turns_of (ns : list (nat * nat)) : list nat := concat (map (fun n => replicate n.2 n.1) ns).
Definition outcome (order : list nat) : option (bool * Z * bytes) :=
  u ← turns order (start_updates four initial_globals);
  Some (bool_decide (all_updated u), totalRequests (shared u), maxURL (shared u)).

(** One after the other: all are counted, and the longest was the second. *)
Example counted_in_turn : outcome (turns_of [(0, 8); (1, 7); (2, 7); (3, 5)])%nat = Some (true, 4, lit "/b").
Proof. vm_compute. reflexivity. Qed.

(** The first handler has read the counter before the others and stores it after them: of four
    requests one is counted. *)
Definition set_back : list nat := turns_of [(0, 1); (1, 8); (2, 7); (3, 5); (0, 4)]%nat.
Example count_set_back : outcome set_back = Some (true, 1, lit "/b").
Proof. vm_compute. reflexivity. Qed.

(** The first handler writes its target after the second has become the longest: the page shows
    the time of one request with the target of the other. *)
Example longest_torn : outcome (turns_of [(0, 7); (1, 7); (0, 1); (2, 7); (3, 5)])%nat = Some (true, 4, lit "/a").
Proof. vm_compute. reflexivity. Qed.

Lemma count_between_witness : exists u,
  turns set_back (start_updates four initial_globals) = Some u /\ 1 <= totalRequests (shared u) <= 4.
Proof.
  destruct (turns set_back (start_updates four initial_globals)) as [u|] eqn:E; [|exfalso; vm_compute in E; discriminate].
  exists u. split; [reflexivity|]. assert (Hl : length (handlers u) = 4%nat) by (vm_compute in E; by injection E as <-).
  assert (Ha : all_updated u) by (vm_compute in E; injection E as <-; repeat constructor).
  pose proof (count_between four u ltac:(discriminate) (turns_run _ _ _ E) Ha) as H. rewrite Hl in H. exact H.
Defined.
