(* ===== verification/MyhttpdExample.v ===== *)
(** * Runs of the first server

    A small file system and clients for it, on which the properties of the request handler
    are applied. The directory [docs] has a file and a directory; the root's parent has a
    file of its own. *)

From Stdlib Require Import Ascii String.
From stdpp Require Import base numbers list gmap strings option sorting.
From S2P Require Import Prelude CppLib CMem Double Myhttpd MyhttpdFacts MyhttpdPage MyhttpdServe.

(** ** Sorting *)

Section Sort.
Context {A : Type} (lt : A -> A -> bool).

Local Instance not_after_dec : RelDecision (fun a b => lt b a = false).
Proof. intros a b. apply _. Defined.

Lemma sw_total : strict_weak lt -> Total (fun a b => lt b a = false).
Proof.
  intros [I T _] a b. destruct (lt b a) eqn:E; [right|by left].
  destruct (lt a b) eqn:E'; [|done]. pose proof (T _ _ _ E E') as Hb. by rewrite I in Hb.
Qed.

Lemma merge_sort_sorted l : strict_weak lt ->
  StronglySorted (fun a b => lt b a = false) (merge_sort (fun a b => lt b a = false) l).
Proof.
  intros Hs. apply StronglySorted_merge_sort; [|by apply sw_total].
  intros a b c Hab Hbc. exact (sw_incomp _ Hs _ _ _ Hbc Hab).
Qed.
End Sort.

#[local] Instance merge_StdSort : StdSort := {|
  std_sort A lt l := merge_sort (fun a b => lt b a = false) l;
  std_sort_perm A lt l := merge_sort_Permutation (fun a b => lt b a = false) l;
  std_sort_sorted A lt l := merge_sort_sorted lt l
|}.

(** ** The file system *)

Definition PAGE : bytes := lit "http-root-dir/htdocs/docs/a.html".
Definition SECRET : bytes := lit "http-root-dir/htdocs/../secret".
Definition DOCS : bytes := lit "http-root-dir/htdocs/docs/".

Definition file_at (path : bytes) : option bytes :=
  if bool_decide (path = PAGE) then Some (lit "<p>hello</p>")
  else if bool_decide (path = SECRET) then Some (lit "secret") else None.

Lemma file_at_length path : (length (default [] (file_at path)) <= 12)%nat.
Proof. unfold file_at. repeat case_bool_decide; vm_compute; lia. Qed.

Definition stat_at (path : bytes) : option stat_buf :=
  match file_at path with
  | Some c => Some {| st_isdir := false; st_size := Z.of_nat (length c); st_mtime := 7 |}
  | None =>
      if bool_decide (path = DOCS) || bool_decide (path = lit "http-root-dir/htdocs/docs") ||
         bool_decide (path = RootDir ++ lit "/htdocs") || bool_decide (path = DOCS ++ lit "/sub")
      then Some {| st_isdir := true; st_size := 4096; st_mtime := 3 |}
      else if bool_decide (path = DOCS ++ lit "/a.html")
      then Some {| st_isdir := false; st_size := 12; st_mtime := 7 |} else None
  end.

(** What one read gives. *)
Definition read_once (request : bytes) (n : nat) : option bytes :=
  match take n request with [] => None | d => Some d end.

Lemma read_once_le request n data : read_once request n = Some data -> data <> [] /\ (length data <= n)%nat.
Proof.
  unfold read_once. destruct (take n request) as [|c d] eqn:E; [done|]. intros [= <-]. split; [done|].
  rewrite <- E, length_take. lia.
Qed.

Definition write_some (data : bytes) : Z := Z.min 5 (Z.of_nat (length data)).

(** A client that sends [request] and takes five bytes at a time. *)
#[local] Instance client (request : bytes) : Os := {|
  sys_read _ n := read_once request n;
  sys_read_le _ n data := read_once_le request n data;
  sys_write _ data := write_some data;
  sys_write_le _ data := Z.le_min_r 5 (Z.of_nat (length data));
  sys_log_append _ := true;
  sys_log_read _ := None;
  sys_stat _ := stat_at;
  sys_opendir _ path :=
    if bool_decide (path = DOCS) then Some [lit "sub"; lit "."; lit "gone"; lit "a.html"; lit ".."] else None;
  sys_open _ path := bool_decide (file_at path <> None);
  sys_read_file _ path offset n := take n (drop offset (default [] (file_at path)));
  sys_fork _ := true;
  sys_pipe _ := true;
  sys_execv _ _ := true;
  stdout_pending _ := Some (lit "Server listening on port 42069..." ++ [LF]);
  sys_clock h := Z.of_nat (length h);
  sys_time _ := 100%Z
|}.

Definition start_world : World := {| hist := []; globals := initial_globals |}.
Definition date (_ : Z) : bytes := lit "1970-01-01 00:00".

(** A request with the token, and one without. *)
Definition signed (method target : string) (body : string) : bytes :=
  lit method ++ lit " " ++ lit target ++ lit " HTTP/1.0" ++ CRLF ++ AUTH_HEADER ++ CRLF ++ CRLF ++ lit body.
Definition unsigned (target : string) : bytes := lit "GET " ++ lit target ++ lit " HTTP/1.0" ++ CRLF ++ CRLF.

Lemma accepts_client request : accepts_all (H := client request).
Proof.
  intros h [|c data] Hd; [done|]. change (0 < write_some (c :: data))%Z. unfold write_some. simpl length. lia.
Qed.

Lemma stored_client request path content :
  file_at path = Some content -> file_stored (H := client request) path content.
Proof.
  intros Hf h. split; [apply bool_decide_eq_true_2; by rewrite Hf|]. intros offset. exists BufSize.
  split; [change (take BufSize (drop offset (default [] (file_at path))) = take BufSize (drop offset content)); by rewrite Hf|].
  intros _. unfold BufSize. lia.
Qed.

Ltac admitted_by_evaluation := split; [vm_compute; discriminate|vm_compute; auto].

(** ** The properties at work *)

Lemma unauthorized_stopped_witness :
  exists w', handleClient (H := client (unsigned "/docs/a.html")) date 100 (lit "1.2.3.4") start_world = Ok (tt, w') /\
    sent (hist w') = UNAUTHORIZED.
Proof.
  destruct (unauthorized_stopped (H := client (unsigned "/docs/a.html")) date 100 (lit "1.2.3.4") start_world
              (unsigned "/docs/a.html")) as (w' & evs & E & _ & _ & _ & _ & Ha).
  - vm_compute. reflexivity.
  - vm_compute. reflexivity.
  - exists w'. split; [exact E|]. exact (Ha (accepts_client _)).
Defined.

Lemma handler_returns_witness :
  exists w', handleClient (H := client (signed "GET" "/docs/a.html" "")) date 100 (lit "1.2.3.4") start_world = Ok (tt, w').
Proof.
  destruct (handler_returns (H := client (signed "GET" "/docs/a.html" "")) date 100 12 (lit "1.2.3.4") start_world)
    as [Hok|[_ [Hm|(data & Hr & Hu)]]].
  - intros h path offset k Hk. change (take k (drop offset (default [] (file_at path))) = []).
    rewrite drop_ge; [by rewrite take_nil|]. etransitivity; [apply file_at_length|exact Hk].
  - lia.
  - exact Hok.
  - vm_compute in Hm. discriminate.
  - vm_compute in Hr. injection Hr as <-. vm_compute in Hu. discriminate.
Defined.

(** The target goes up from the document root, and the file there is sent. *)
Lemma file_served_witness :
  exists w', handleClient (H := client (signed "GET" "/../secret" "")) date 100 (lit "1.2.3.4") start_world = Ok (tt, w') /\
    sent (hist w') = ok_header_Z 6 ++ lit "secret" /\ totalRequests (globals w') = 1%Z.
Proof.
  destruct (file_served (H := client (signed "GET" "/../secret" "")) date 100 (lit "1.2.3.4") start_world
              (signed "GET" "/../secret" "") {| st_isdir := false; st_size := 6; st_mtime := 7 |} (lit "secret"))
    as (w' & E & (Hs & _) & Ht).
  - apply accepts_client.
  - vm_compute. reflexivity.
  - admitted_by_evaluation.
  - by split.
  - vm_compute. reflexivity.
  - intros h. vm_compute. reflexivity.
  - reflexivity.
  - apply stored_client. vm_compute. reflexivity.
  - vm_compute. lia.
  - vm_compute. reflexivity.
  - exists w'. split; [exact E|]. split; [exact Hs|exact Ht].
Defined.

(** By size, largest first: the directory and then the file. *)
Lemma listing_served_witness :
  exists w' es body, handleClient (H := client (signed "GET" "/docs/?C=S;O=D" "")) date 100 (lit "1.2.3.4") start_world = Ok (tt, w') /\
    Permutation (map name es) [lit "sub"; lit "a.html"] /\ StronglySorted (in_order "S" "D") es /\
    sent (hist w') = ok_header (len body) ++ body /\
    links body = [(lit "?C=N;O=A", lit "Name"); (lit "?C=M;O=A", lit "Last modified"); (lit "?C=S;O=A", lit "Size");
                  (lit "/", lit "Parent Directory")] ++ map (entry_link (lit "/docs/")) es.
Proof.
  destruct (listing_served (H := client (signed "GET" "/docs/?C=S;O=D" "")) date 100 (lit "1.2.3.4") start_world
              (signed "GET" "/docs/?C=S;O=D" "") stat_at [lit "sub"; lit "."; lit "gone"; lit "a.html"; lit ".."]
              {| st_isdir := true; st_size := 4096; st_mtime := 3 |} (lit "/docs/") "S" "D")
    as (w' & es & body & E & (Hs & _) & _ & Hp & Hsort & _ & _ & Hlinks & _).
  - apply accepts_client.
  - vm_compute. reflexivity.
  - admitted_by_evaluation.
  - by split.
  - vm_compute. reflexivity.
  - vm_compute. reflexivity.
  - reflexivity.
  - vm_compute. reflexivity.
  - reflexivity.
  - reflexivity.
  - intros h. vm_compute. reflexivity.
  - vm_compute. reflexivity.
  - exists w', es, body. split; [exact E|]. split.
    + apply (Permutation_map name) in Hp. etransitivity; [exact Hp|]. vm_compute. reflexivity.
    + split; [exact Hsort|]. split; [exact Hs|]. apply Hlinks.
      * apply (bool_decide_eq_true_1 (clean (lit "/docs/"))). vm_compute. reflexivity.
      * apply (bool_decide_eq_true_1 (Forall clean _)). vm_compute. reflexivity.
      * intros t. apply (bool_decide_eq_true_1 (LT ∉ date 0)). vm_compute. reflexivity.
Defined.

Lemma unserved_answers_witness :
  exists w', handleClient (H := client (signed "GET" "/docs" "")) date 100 (lit "1.2.3.4") start_world = Ok (tt, w') /\
    sent (hist w') = moved (lit "/docs").
Proof.
  destruct (unserved_answers (H := client (signed "GET" "/docs" "")) date 100 (lit "1.2.3.4") start_world
              (signed "GET" "/docs" "") (lit "/docs") "N" "A") as (_ & Hdir & _).
  - apply accepts_client.
  - vm_compute. reflexivity.
  - admitted_by_evaluation.
  - by split.
  - vm_compute. reflexivity.
  - vm_compute. reflexivity.
  - vm_compute. reflexivity.
  - destruct (Hdir {| st_isdir := true; st_size := 4096; st_mtime := 3 |} "s"%char) as [Hm _].
    + intros h. vm_compute. reflexivity.
    + reflexivity.
    + reflexivity.
    + destruct Hm as (w' & E & (Hs & _) & _); [discriminate|]. exists w'. split; [exact E|exact Hs].
Defined.

(** A form posted to a script. *)
Lemma script_run_witness :
  exists w' child, handleClient (H := client (signed "POST" "/cgi-bin/form?x" "a=b")) date 100 (lit "1.2.3.4") start_world = Ok (tt, w') /\
    deeds (hist w') = [EvCgi child] /\ cgi_path child = lit "http-root-dir/cgi-bin/form" /\
    cgi_env child = [(lit "REQUEST_METHOD", lit "POST"); (lit "CONTENT_LENGTH", lit "3")].
Proof.
  destruct (script_run (H := client (signed "POST" "/cgi-bin/form?x" "a=b")) date 100 (lit "1.2.3.4") start_world
              (signed "POST" "/cgi-bin/form?x" "a=b")) as (w' & script & query & child & E & _ & _ & Hd & Ht & Hq & Hh & Hp & _ & _ & Hpost).
  - vm_compute. reflexivity.
  - admitted_by_evaluation.
  - by split.
  - vm_compute. reflexivity.
  - reflexivity.
  - exists w', child. split; [exact E|]. split; [exact Hd|]. split.
    + rewrite Hp. f_equal. clear - Ht Hq Hh. change (lit "/cgi-bin/" ++ lit "form" ++ lit "?x" = CGI_PREFIX ++ script ++ query) in Ht.
      apply (app_inv_head CGI_PREFIX) in Ht. apply (f_equal (search ["?"%char])) in Ht as Hs.
      destruct Hh as [->|Hh]; [rewrite app_nil_r in Hs; apply search_char_None in Hq; by rewrite Hq in Hs|].
      destruct query as [|c query]; [done|]. injection Hh as ->. rewrite search_char_app in Hs by done.
      change (Some 4 = Some (length script)) in Hs. injection Hs as Hs.
      by apply (app_inj_1 (lit "form") script) in Ht as [<- _].
    + refine (proj1 (Hpost 62 _ _)); vm_compute; reflexivity.
Defined.

Lemma token_anywhere_witness :
  search AUTH_HEADER (full_request (lit "GET / HTTP/1.0" ++ CRLF ++ lit "X-" ++ AUTH_HEADER ++ lit "extra")) <> None.
Proof.
  apply (token_anywhere (lit "GET / HTTP/1.0" ++ CRLF ++ lit "X-") (lit "extra"));
    apply (bool_decide_eq_true_1 (_ ∉ _)); vm_compute; reflexivity.
Defined.

Lemma empty_target_undefined_witness :
  handleClient (H := client (signed "GET" "?C=N" "")) date 100 (lit "1.2.3.4") start_world = Err Undefined.
Proof.
  apply (empty_target_undefined (H := client (signed "GET" "?C=N" "")) date 100 (lit "1.2.3.4") start_world
           (signed "GET" "?C=N" "") {| st_isdir := true; st_size := 4096; st_mtime := 3 |}).
  - vm_compute. reflexivity.
  - admitted_by_evaluation.
  - vm_compute. reflexivity.
  - intros h. vm_compute. reflexivity.
  - reflexivity.
Defined.
