(* ===== verification/MyhttpdMain.v ===== *)
(** * The first server: its main function

    Models [main] of [legacy/myhttpd.cc]: the arguments, the listening socket, and the four
    ways of serving (one client after another, a process or a thread for each client, five
    threads that accept in turn) as one step relation over threads, their descriptors, the
    shared address variable and the child processes. A call of the handler is one step. *)

From Stdlib Require Import Ascii String.
From stdpp Require Import base numbers list gmap strings option.
From S2P Require Import Prelude CppLib CMem Double Myhttpd.

(** ** Arguments *)

Definition DEFAULT_PORT : Z := 42069.

(** The mode and the port; the arguments without the program's name. [None] is the undefined
    behaviour of [atoi]. *)
Definition main_arguments (argv : list bytes) : option (ascii * Z) :=
  match argv with
  | [] => Some ("i"%char, DEFAULT_PORT)
  | a1 :: rest =>
      if bool_decide (head a1 = Some "-"%char) then
        let mode := default NUL (a1 !! 1) in
        match rest with
        | [] => Some (mode, DEFAULT_PORT)
        | a2 :: _ => port ← atoi a2; Some (mode, port)
        end
      else port ← atoi a1; Some ("i"%char, port)
  end.

Inductive Mode := Iterative | Forking | Threaded | Pooled.

#[export] Instance Mode_eq_dec : EqDecision Mode.
Proof. solve_decision. Defined.

(** The branch taken; any other character takes none. *)
Definition mode_of (c : ascii) : option Mode :=
  if bool_decide (c = "i"%char) then Some Iterative
  else if bool_decide (c = "f"%char) then Some Forking
  else if bool_decide (c = "t"%char) then Some Threaded
  else if bool_decide (c = "p"%char) then Some Pooled else None.

(** ** The listening socket *)

(** What the calls answer. *)
Record Net := { net_socket : bool; net_setsockopt : bool; net_bind : N -> bool; net_listen : bool }.

Inductive net_event := NSocket | NReuse | NBind (port : N) | NListen | NClose | NSay (text : bytes).

#[export] Instance net_event_eq_dec : EqDecision net_event.
Proof. solve_decision. Defined.

(** [(unsigned short) port] *)
Definition short_port (port : Z) : N := Z.to_N (port mod 65536).

Definition open_master (net : Net) (port : Z) : list net_event * bool :=
  if negb (net_socket net) then ([], false)
  else if negb (net_setsockopt net) then ([NSocket; NClose], false)
  else if negb (net_bind net (short_port port)) then ([NSocket; NReuse; NClose], false)
  else if negb (net_listen net) then ([NSocket; NReuse; NBind (short_port port); NClose], false)
  else ([NSocket; NReuse; NBind (short_port port); NListen;
         NSay (lit "Server listening on port " ++ print_Z port ++ lit "..." ++ [LF])], true).

(** ** Serving *)

Definition poolSize : nat := 5.

(** Where a thread stands. In the handler it has its own copy of the address. *)
Inductive pc :=
| AtAccept
| Accepted (fd : Z)
| InHandler (fd : Z) (ip : bytes)
| AtClose (fd : Z)
| AfterFork (fd : Z)
| Done.

(** A child of the forking mode: its own copies of the descriptors and of the globals.
    [ch_peer] is not in the program: it is the client the descriptor belongs to. *)
Record Child := { ch_pc : pc; ch_open : list Z; ch_globals : Globals; ch_peer : option bytes }.

(** The server process: its threads, the client descriptors open in it, the variable
    [clientAddr] that all threads share, the globals, the children not waited for. [peers] is
    not in the program: it is the client each descriptor belongs to. *)
Record Server := {
  threads : list pc;
  open_fds : list Z;
  clientAddr : bytes;
  server_globals : Globals;
  children : list Child;
  peers : gmap Z bytes
}.

Definition started (g : Globals) (now : Z) : Globals :=
  {| serverStartTime := now; totalRequests := totalRequests g; minServiceTime := minServiceTime g;
     maxServiceTime := maxServiceTime g; minURL := minURL g; maxURL := maxURL g |}.

Definition start_server (m : Mode) (now : Z) : Server :=
  {| threads := match m with Pooled => replicate poolSize AtAccept | _ => [AtAccept] end;
     open_fds := []; clientAddr := []; server_globals := started initial_globals now;
     children := []; peers := ∅ |}.

Definition set_thread (i : nat) (p : pc) (s : Server) : Server :=
  {| threads := <[i := p]> (threads s); open_fds := open_fds s; clientAddr := clientAddr s;
     server_globals := server_globals s; children := children s; peers := peers s |}.

Definition remove_fd (fd : Z) (l : list Z) : list Z := filter (fun x => x <> fd) l.

Definition do_accept (i : nat) (fd : Z) (ip : bytes) (s : Server) : Server :=
  {| threads := <[i := Accepted fd]> (threads s); open_fds := fd :: open_fds s; clientAddr := ip;
     server_globals := server_globals s; children := children s; peers := <[fd := ip]> (peers s) |}.

(** [std::thread([clientFd, clientAddr]() { ... }).detach()] *)
Definition do_spawn (i : nat) (fd : Z) (s : Server) : Server :=
  {| threads := <[i := AtAccept]> (threads s) ++ [InHandler fd (clientAddr s)]; open_fds := open_fds s;
     clientAddr := clientAddr s; server_globals := server_globals s; children := children s;
     peers := peers s |}.

Definition do_fork (i : nat) (fd : Z) (s : Server) : Server :=
  {| threads := <[i := AfterFork fd]> (threads s); open_fds := open_fds s; clientAddr := clientAddr s;
     server_globals := server_globals s;
     children := children s ++ [{| ch_pc := InHandler fd (clientAddr s); ch_open := open_fds s;
                                   ch_globals := server_globals s; ch_peer := peers s !! fd |}];
     peers := peers s |}.

Definition do_handle (i : nat) (fd : Z) (g : Globals) (s : Server) : Server :=
  {| threads := <[i := AtClose fd]> (threads s); open_fds := open_fds s; clientAddr := clientAddr s;
     server_globals := g; children := children s; peers := peers s |}.

(** A detached thread ends after its [close]; the others loop. *)
Definition do_close (m : Mode) (i : nat) (fd : Z) (s : Server) : Server :=
  {| threads := <[i := match m with Threaded => Done | _ => AtAccept end]> (threads s);
     open_fds := remove_fd fd (open_fds s); clientAddr := clientAddr s;
     server_globals := server_globals s; children := children s; peers := peers s |}.

(** [waitpid(-1, NULL, WNOHANG)]: one child that has exited, if there is one. *)
Fixpoint reap (cs : list Child) : list Child :=
  match cs with
  | [] => []
  | c :: cs' => match ch_pc c with Done => cs' | _ => c :: reap cs' end
  end.

Definition do_parent (i : nat) (fd : Z) (s : Server) : Server :=
  {| threads := <[i := AtAccept]> (threads s); open_fds := remove_fd fd (open_fds s);
     clientAddr := clientAddr s; server_globals := server_globals s; children := reap (children s);
     peers := peers s |}.

Definition set_child (k : nat) (c : Child) (s : Server) : Server :=
  {| threads := threads s; open_fds := open_fds s; clientAddr := clientAddr s;
     server_globals := server_globals s; children := <[k := c]> (children s); peers := peers s |}.

Section Loops.
Context `{StdSort} (format_mtime : Z -> bytes).

(** A call of the handler with an address, on the globals it finds: it ends, with whatever
    client and operating system. *)
Definition handles (ip : bytes) (g g' : Globals) : Prop :=
  exists (os : Os) fuel h, handleClient (H := os) format_mtime fuel ip {| hist := []; globals := g |}
    = Ok (tt, {| hist := h; globals := g' |}).

(** One step of one thread or child. [accept] gives a descriptor that is not in use. *)
Inductive step (m : Mode) : Server -> Server -> Prop :=
| step_accept_fails i s :
    threads s !! i = Some AtAccept -> step m s s
| step_accept i fd ip s :
    threads s !! i = Some AtAccept -> fd ∉ open_fds s -> step m s (do_accept i fd ip s)
| step_call i fd s :
    m = Iterative \/ m = Pooled -> threads s !! i = Some (Accepted fd) ->
    step m s (set_thread i (InHandler fd (clientAddr s)) s)
| step_spawn i fd s :
    m = Threaded -> threads s !! i = Some (Accepted fd) -> step m s (do_spawn i fd s)
| step_fork_fails i fd s :
    m = Forking -> threads s !! i = Some (Accepted fd) -> step m s (set_thread i (AtClose fd) s)
| step_fork i fd s :
    m = Forking -> threads s !! i = Some (Accepted fd) -> step m s (do_fork i fd s)
| step_handle i fd ip g s :
    threads s !! i = Some (InHandler fd ip) -> handles ip (server_globals s) g ->
    step m s (do_handle i fd g s)
| step_close i fd s :
    threads s !! i = Some (AtClose fd) -> step m s (do_close m i fd s)
| step_parent i fd s :
    threads s !! i = Some (AfterFork fd) -> step m s (do_parent i fd s)
| step_child_handle k c fd ip g s :
    children s !! k = Some c -> ch_pc c = InHandler fd ip -> handles ip (ch_globals c) g ->
    step m s (set_child k {| ch_pc := AtClose fd; ch_open := ch_open c; ch_globals := g;
                             ch_peer := ch_peer c |} s)
| step_child_close k c fd s :
    children s !! k = Some c -> ch_pc c = AtClose fd ->
    step m s (set_child k {| ch_pc := Done; ch_open := remove_fd fd (ch_open c);
                             ch_globals := ch_globals c; ch_peer := ch_peer c |} s).

(** The states of a server that was started at some time. *)
Inductive reachable (m : Mode) : Server -> Prop :=
| reach_start now : reachable m (start_server m now)
| reach_step s s' : reachable m s -> step m s s' -> reachable m s'.
End Loops.
