(* ===== verification/MyhttpdMainFacts.v ===== *)
(** * Properties of the first server's main function

    Descriptors, addresses and statistics in the four modes, by induction on the steps, and
    the opening of the listening socket. *)

From Stdlib Require Import Ascii String.
From stdpp Require Import base numbers list gmap strings option sorting.
From S2P Require Import Prelude CppLib CMem Double Myhttpd MyhttpdFacts MyhttpdExample MyhttpdMain.

(** ** Descriptors *)

Definition held (p : pc) : list Z :=
  match p with
  | Accepted fd | InHandler fd _ | AtClose fd | AfterFork fd => [fd]
  | AtAccept | Done => []
  end.

Lemma held_insert (ts : list pc) i p :
  ts !! i = Some p -> exists rest, ts ≫= held ≡ₚ held p ++ rest /\
    forall p', <[i := p']> ts ≫= held ≡ₚ held p' ++ rest.
Proof.
  intros Hi. exists ((take i ts ++ drop (S i) ts) ≫= held). split.
  - rewrite <- (take_drop_middle ts i p Hi) at 1. rewrite !bind_app, bind_cons. solve_Permutation.
  - intros p'. rewrite insert_take_drop by by eapply lookup_lt_Some.
    rewrite !bind_app, bind_cons. solve_Permutation.
Qed.

Lemma remove_fd_perm fd l rest : l ≡ₚ fd :: rest -> NoDup l -> remove_fd fd l ≡ₚ rest.
Proof.
  intros Hp Hn. unfold remove_fd. rewrite Hp in Hn |- *. apply NoDup_cons in Hn as [Hf _].
  rewrite filter_cons_False by (intros Hx; by apply Hx). clear Hp. induction rest as [|x rest IH]; [done|].
  apply not_elem_of_cons in Hf as [Hx Hf]. rewrite filter_cons_True by done. f_equiv. by apply IH.
Qed.

(** Every descriptor open in the server is held by one thread, and every child has open
    what it holds; one thread serves in the first two modes. *)
Record owned (m : Mode) (s : Server) : Prop := {
  own_nodup : NoDup (open_fds s);
  own_held : open_fds s ≡ₚ threads s ≫= held;
  own_children : Forall (fun c => ch_open c = held (ch_pc c)) (children s);
  own_single : m = Iterative \/ m = Forking -> length (threads s) = 1
}.

Lemma Forall_reap P cs : Forall P cs -> Forall P (reap cs).
Proof.
  induction 1 as [|c cs Hc Hf IH]; [constructor|]. cbn [reap]. destruct (ch_pc c); try done; by constructor.
Qed.

Lemma same_holder m s i p p' ts' :
  owned m s -> threads s !! i = Some p -> held p' = held p -> ts' = <[i := p']> (threads s) ->
  open_fds s ≡ₚ ts' ≫= held /\ (m = Iterative \/ m = Forking -> length ts' = 1).
Proof.
  intros [Hn Hh _ Hs] Hi He ->. destruct (held_insert _ _ _ Hi) as (rest & H1 & H2).
  rewrite H2, He, <- H1. by rewrite length_insert.
Qed.

Lemma releases m s i p p' fd :
  owned m s -> threads s !! i = Some p -> held p = [fd] -> held p' = [] ->
  NoDup (remove_fd fd (open_fds s)) /\ remove_fd fd (open_fds s) ≡ₚ <[i := p']> (threads s) ≫= held /\
  (m = Iterative \/ m = Forking -> length (<[i := p']> (threads s)) = 1).
Proof.
  intros [Hn Hh _ Hs] Hi He He'. destruct (held_insert _ _ _ Hi) as (rest & H1 & H2).
  split; [by apply NoDup_filter|]. rewrite H2, He', length_insert. split; [|done].
  apply remove_fd_perm; [|done]. by rewrite Hh, H1, He.
Qed.

Section Loops.
Context `{StdSort} (format_mtime : Z -> bytes).

Notation step := (step format_mtime).
Notation reachable := (reachable format_mtime).

Lemma owned_step m s s' : owned m s -> step m s s' -> owned m s'.
Proof.
  intros Ho Hs. pose proof Ho as [Hn Hh Hc H1].
  destruct Hs as [i s Hi|i fd ip s Hi Hfd|i fd s Hm Hi|i fd s Hm Hi|i fd s Hm Hi|i fd s Hm Hi|i fd ip g s Hi Hg
    |i fd s Hi|i fd s Hi|k c fd ip g s Hk Hpc Hg|k c fd s Hk Hpc].
  - done.
  - destruct (held_insert _ _ _ Hi) as (rest & P1 & P2). split; cbn; [by constructor| |done|by rewrite length_insert].
    rewrite P2. cbn [held app]. f_equiv. by rewrite Hh, P1.
  - destruct (same_holder m s i _ (InHandler fd (clientAddr s)) _ Ho Hi eq_refl eq_refl). by split.
  - destruct (held_insert _ _ _ Hi) as (rest & P1 & P2). subst m. split; cbn; [done| |done|intros [|]; done].
    rewrite bind_app, P2, Hh, P1. cbn. solve_Permutation.
  - destruct (same_holder m s i _ (AtClose fd) _ Ho Hi eq_refl eq_refl). by split.
  - destruct (same_holder m s i _ (AfterFork fd) _ Ho Hi eq_refl eq_refl) as [S1 S2]. split; cbn; [done|done| |done].
    apply Forall_app. split; [done|]. constructor; [|done]. cbn. apply Permutation_singleton_r.
    destruct (threads s) as [|p [|q ts]] eqn:Et; [done| |by (specialize (H1 (or_intror Hm)))].
    destruct i as [|i]; [|done]. injection Hi as ->. by rewrite Hh.
  - destruct (same_holder m s i _ (AtClose fd) _ Ho Hi eq_refl eq_refl). by split.
  - destruct (releases m s i _ (match m with Threaded => Done | _ => AtAccept end) fd Ho Hi) as (R1 & R2 & R3);
      [done|by destruct m|]. by split.
  - destruct (releases m s i _ AtAccept fd Ho Hi) as (R1 & R2 & R3); [done|done|]. split; try done. by apply Forall_reap.
  - pose proof (Forall_lookup_1 _ _ _ _ Hc Hk) as Hck. split; try done. cbn. apply Forall_insert; [done|]. cbn.
    by rewrite Hck, Hpc.
  - pose proof (Forall_lookup_1 _ _ _ _ Hc Hk) as Hck. split; try done. cbn. apply Forall_insert; [done|]. cbn.
    rewrite Hck, Hpc. unfold remove_fd. cbn [held]. rewrite filter_cons_False by (intros Hx; by apply Hx). done.
Qed.

(** C34. Descriptors. In all four modes and in every state the server can reach, however its
    threads and children interleave, each descriptor open in the server process is held by
    exactly one thread, which will close it, and none is open twice; so when every thread
    waits for a connection nothing is open. A child has open what it holds, and nothing once
    it is done. *)
Theorem descriptors_accounted m s :
  reachable m s ->
  NoDup (open_fds s) /\ open_fds s ≡ₚ threads s ≫= held /\
  (Forall (fun p => p = AtAccept \/ p = Done) (threads s) -> open_fds s = []) /\
  Forall (fun c => ch_open c = held (ch_pc c)) (children s).
Proof.
  intros Hr. assert (Ho : owned m s).
  { induction Hr as [now|s s' Hr IH Hs]; [|by eapply owned_step]. destruct m; split; cbn; try done; try apply NoDup_nil_2; try by intros [|]. }
  destruct Ho as [Hn Hh Hc _]. split; [done|]. split; [done|]. split; [|done].
  intros Hf. apply Permutation_nil_r. rewrite Hh. clear Hh. induction Hf as [|p ts Hp _ IH]; [done|].
  rewrite bind_cons. destruct Hp as [->| ->]; exact IH.
Qed.

(** ** Addresses and statistics *)

(** Outside the pool only the first thread accepts, and what it reads from the shared
    variable is the address of the client it has just accepted. *)
Definition thread_ok (m : Mode) (s : Server) (i : nat) (p : pc) : Prop :=
  match p with
  | AtAccept | AfterFork _ => i = 0
  | Accepted fd => i = 0 /\ peers s !! fd = Some (clientAddr s)
  | InHandler fd ip => m <> Forking /\ peers s !! fd = Some ip
  | AtClose _ | Done => True
  end.

Definition child_ok (c : Child) : Prop :=
  match ch_pc c with
  | InHandler fd ip => ch_peer c = Some ip /\ totalRequests (ch_globals c) = 0%Z
  | _ => True
  end.

Record addressed (m : Mode) (s : Server) : Prop := {
  adr_threads i p : threads s !! i = Some p -> thread_ok m s i p;
  adr_children : Forall child_ok (children s);
  adr_forking : m = Forking -> totalRequests (server_globals s) = 0%Z
}.

(** A thread moves and the rest of the state that matters stays. *)
Lemma addressed_move m s s' i p :
  addressed m s -> threads s' = <[i := p]> (threads s) -> clientAddr s' = clientAddr s -> peers s' = peers s ->
  thread_ok m s i p -> forall j q, threads s' !! j = Some q -> thread_ok m s' j q.
Proof.
  intros Ha Et Ea Ep Hp j q Hj. rewrite Et in Hj.
  assert (Hq : thread_ok m s j q); [|unfold thread_ok in *; by rewrite Ea, Ep].
  apply list_lookup_insert_Some in Hj as [(<- & <- & _)|[_ Hj]]; [done|by apply Ha].
Qed.

Lemma held_open m s i p fd : owned m s -> threads s !! i = Some p -> held p = [fd] -> fd ∈ open_fds s.
Proof.
  intros Ho Hi He. destruct (held_insert _ _ _ Hi) as (rest & H1 & _). rewrite (own_held _ _ Ho), H1, He. by left.
Qed.

Lemma addressed_accept m s i fd ip :
  owned m s -> addressed m s -> threads s !! i = Some AtAccept -> fd ∉ open_fds s ->
  forall j q, threads (do_accept i fd ip s) !! j = Some q -> thread_ok m (do_accept i fd ip s) j q.
Proof.
  intros Ho Ha Hi Hfd j q Hj. apply (adr_threads _ _ Ha) in Hi as Hi0. cbn in Hi0. subst i. cbn in Hj.
  apply list_lookup_insert_Some in Hj as [(<- & <- & _)|[Hne Hj]].
  { split; [done|]. cbn. by rewrite lookup_insert_eq. }
  apply (adr_threads _ _ Ha) in Hj as Hq. destruct q as [|fd'|fd' ip'| | |]; try done; [by destruct Hq|].
  destruct Hq as [Hm Hq]. split; [done|]. cbn. rewrite lookup_insert_ne; [done|]. intros <-.
  apply Hfd. by apply (held_open m s j (InHandler fd ip')).
Qed.

Lemma addressed_step m s s' : m <> Pooled -> owned m s -> addressed m s -> step m s s' -> addressed m s'.
Proof.
  intros Hnp Ho Ha Hs. pose proof Ha as [Ht Hc Hf].
  assert (Hone : forall i p, threads s !! i = Some p -> m = Iterative \/ m = Forking -> i = 0).
  { intros i p Hi Hm. apply lookup_lt_Some in Hi. rewrite (own_single _ _ Ho Hm) in Hi. lia. }
  destruct Hs as [i s Hi|i fd ip s Hi Hfd|i fd s Hm Hi|i fd s Hm Hi|i fd s Hm Hi|i fd s Hm Hi|i fd ip g s Hi Hg
    |i fd s Hi|i fd s Hi|k c fd ip g s Hk Hpc Hg|k c fd s Hk Hpc]; try apply Ht in Hi as Hi'.
  - done.
  - split; [by apply addressed_accept|done|done].
  - destruct Hi' as [-> Hp]. split; [|done|done]. eapply addressed_move; try done. destruct Hm as [->| ->]; done.
  - destruct Hi' as [-> Hp]. split; [|done|done]. intros j q Hj. cbn in Hj.
    apply lookup_app_Some in Hj as [Hj|[_ Hj]].
    + apply list_lookup_insert_Some in Hj as [(<- & <- & _)|[_ Hj]]; [done|]. by apply Ht in Hj.
    + apply list_lookup_singleton_Some in Hj as [_ <-]. by subst m.
  - split; [|done|done]. by eapply addressed_move.
  - destruct Hi' as [-> Hp]. split; [by eapply addressed_move| |done]. apply Forall_app. split; [done|].
    constructor; [|done]. split; [done|]. by apply Hf.
  - destruct Hi' as [Hm _]. split; [by eapply addressed_move|done|done].
  - split; [|done|done]. eapply addressed_move; try done. destruct m; try done; cbn; eauto.
  - cbn in Hi'. subst i. split; [by eapply addressed_move| |done]. by apply Forall_reap.
  - split; [done| |done]. by apply Forall_insert.
  - split; [done| |done]. by apply Forall_insert.
Qed.

Lemma reachable_addressed m s : m <> Pooled -> reachable m s -> owned m s /\ addressed m s.
Proof.
  intros Hm. induction 1 as [now|s s' Hr [IHo IHa] Hs].
  - split; [destruct m; split; cbn; try done; try apply NoDup_nil_2; by intros [|]|].
    split; [|done|done]. destruct m; try done; intros [|i] p Hp; by simplify_eq/=.
  - split; [by eapply owned_step|by eapply addressed_step].
Qed.

(** The address that is logged. In the modes with one accepting thread, a handler that
    runs for a descriptor has the address of the client of that descriptor, in a thread of
    the server and in a child alike. *)
Theorem address_right m s :
  m <> Pooled -> reachable m s ->
  (forall i fd ip, threads s !! i = Some (InHandler fd ip) -> peers s !! fd = Some ip) /\
  (forall c fd ip, c ∈ children s -> ch_pc c = InHandler fd ip -> ch_peer c = Some ip).
Proof.
  intros Hm Hr. destruct (reachable_addressed m s Hm Hr) as [_ [Ht Hc _]]. split.
  - intros i fd ip Hi. by apply Ht in Hi as [_ Hi].
  - intros c fd ip Hin Hpc. rewrite list.Forall_forall in Hc. specialize (Hc c Hin). unfold child_ok in Hc.
    rewrite Hpc in Hc. by destruct Hc.
Qed.

(** The forking mode counts nothing: the counter of the server process stays at zero, and
    so every child starts with zero requests, whatever its predecessors served. *)
Theorem forking_counts_nothing s :
  reachable Forking s ->
  totalRequests (server_globals s) = 0%Z /\
  (forall c fd ip, c ∈ children s -> ch_pc c = InHandler fd ip -> totalRequests (ch_globals c) = 0%Z).
Proof.
  intros Hr. destruct (reachable_addressed Forking s ltac:(done) Hr) as [_ [_ Hc Hf]]. split; [by apply Hf|].
  intros c fd ip Hin Hpc. rewrite list.Forall_forall in Hc. specialize (Hc c Hin). unfold child_ok in Hc.
  rewrite Hpc in Hc. by destruct Hc.
Qed.

(** In the pool the address variable is shared and read after the lock is released: a
    worker that accepts between another's accept and its call makes the other handle its
    client under the wrong address. *)
Theorem pool_wrong_address a b :
  a <> b -> exists s fd, reachable Pooled s /\ threads s !! 0 = Some (InHandler fd b) /\ peers s !! fd = Some a.
Proof.
  intros Hab. set (s0 := start_server Pooled 0). set (s1 := do_accept 0 4 a s0). set (s2 := do_accept 1 5 b s1).
  exists (set_thread 0 (InHandler 4 b) s2), 4%Z. split; [|done].
  eapply reach_step; [eapply reach_step; [eapply reach_step; [apply (reach_start _ _ 0)|]|]|].
  - apply (step_accept _ _ 0 4 a); [done|]. apply not_elem_of_nil.
  - apply (step_accept _ _ 1 5 b); [done|]. cbn. set_solver.
  - by apply (step_call _ _ 0 4); [right|].
Qed.
End Loops.

(** ** The listening socket *)

(** The listening socket. A failure at any call is reported, and the socket, once there is
    one, is closed exactly once; otherwise it is left open and listening, bound to the low
    sixteen bits of the port, which is the port announced only when that fits. *)
Theorem master_opened net port :
  let '(evs, ok) := open_master net port in
  length (filter (fun e => e = NClose) evs) = (if ok then 0 else if net_socket net then 1 else 0) /\
  ok = (net_socket net && net_setsockopt net && net_bind net (short_port port) && net_listen net) /\
  (ok = true -> NBind (short_port port) ∈ evs /\
     NSay (lit "Server listening on port " ++ print_Z port ++ lit "..." ++ [LF]) ∈ evs /\
     (Z.of_N (short_port port) = port <-> (0 <= port < 65536)%Z)).
Proof.
  unfold open_master. destruct net as [a b c d]. cbn [net_socket net_setsockopt net_bind net_listen].
  destruct a, b, (c (short_port port)), d; cbn [negb andb]; (split; [vm_compute; reflexivity|]); (split; [done|]); try done.
  intros _. split; [set_solver|]. split; [set_solver|]. unfold short_port.
  pose proof (Z.mod_pos_bound port 65536 ltac:(lia)). rewrite Z2N.id by lia. split; [lia|]. apply Z.mod_small.
Qed.

(** ** Runs *)

(** A call of the handler that serves a file and counts it. *)
Lemma handles_file : exists g,
  handles (H := merge_StdSort) date (lit "1.1.1.1") (started initial_globals 9) g /\ totalRequests g = 1%Z.
Proof.
  assert (E : exists h g, handleClient (H := client (signed "GET" "/docs/a.html" "")) (H0 := merge_StdSort) date 100
                (lit "1.1.1.1") {| hist := []; globals := started initial_globals 9 |}
              = Ok (tt, {| hist := h; globals := g |}) /\ totalRequests g = 1%Z).
  { eexists _, _. split; vm_compute; reflexivity. }
  destruct E as (h & g & E & Hg). exists g. split; [|exact Hg]. exists (client (signed "GET" "/docs/a.html" "")), 100, h. exact E.
Qed.

(** One client served to the end by a child, and a second one in the handler. *)
Lemma forking_run : exists s c, reachable (H := merge_StdSort) date Forking s /\ c ∈ children s /\
  ch_pc c = InHandler 4 (lit "2.2.2.2") /\ exists c', c' ∈ children s /\ ch_pc c' = Done /\ totalRequests (ch_globals c') = 1%Z.
Proof.
  destruct handles_file as (g & Hg & Hg1).
  pose proof (reach_start (H := merge_StdSort) date Forking 9) as R.
  eapply reach_step in R; [|apply (step_accept _ _ 0 4 (lit "1.1.1.1")); [done|apply not_elem_of_nil]].
  eapply reach_step in R; [|by apply (step_fork _ _ 0 4)].
  eapply reach_step in R; [|by apply (step_parent _ _ 0 4)].
  eapply reach_step in R; [|by eapply (step_child_handle _ _ 0 _ 4 (lit "1.1.1.1") g)].
  eapply reach_step in R; [|by eapply (step_child_close _ _ 0 _ 4)].
  eapply reach_step in R; [|apply (step_accept _ _ 0 4 (lit "2.2.2.2")); [done|apply not_elem_of_nil]].
  eapply reach_step in R; [|by apply (step_fork _ _ 0 4)].
  eexists _, _. split; [exact R|]. split; [right; by left|]. split; [done|].
  eexists. split; [by left|]. by split.
Qed.

Lemma descriptors_accounted_witness : exists s, reachable (H := merge_StdSort) date Forking s /\ NoDup (open_fds s) /\
  exists c, c ∈ children s.
Proof.
  destruct forking_run as (s & c & R & Hc & _). exists s. split; [exact R|].
  split; [exact (proj1 (descriptors_accounted date Forking s R))|]. exists c. exact Hc.
Defined.

Lemma address_right_witness : exists s c, reachable (H := merge_StdSort) date Forking s /\ c ∈ children s /\
  ch_peer c = Some (lit "2.2.2.2").
Proof.
  destruct forking_run as (s & c & R & Hc & Hpc & _). exists s, c. split; [exact R|]. split; [exact Hc|].
  destruct (address_right (H := merge_StdSort) date Forking s) as [_ Hk]; [discriminate|exact R|exact (Hk c 4%Z (lit "2.2.2.2") Hc Hpc)].
Defined.

Lemma forking_counts_nothing_witness : exists s c c', reachable (H := merge_StdSort) date Forking s /\
  c ∈ children s /\ totalRequests (ch_globals c) = 0%Z /\ c' ∈ children s /\ totalRequests (ch_globals c') = 1%Z.
Proof.
  destruct forking_run as (s & c & R & Hc & Hpc & c' & Hc' & _ & Ht). exists s, c, c'. split; [exact R|].
  split; [exact Hc|]. split; [|split; [exact Hc'|exact Ht]].
  exact (proj2 (forking_counts_nothing date s R) c 4%Z (lit "2.2.2.2") Hc Hpc).
Defined.

Lemma pool_wrong_address_witness : exists s fd, reachable (H := merge_StdSort) date Pooled s /\
  threads s !! 0 = Some (InHandler fd (lit "2.2.2.2")) /\ peers s !! fd = Some (lit "1.1.1.1").
Proof. apply (pool_wrong_address (H := merge_StdSort) date (lit "1.1.1.1") (lit "2.2.2.2")). discriminate. Defined.
